(* ===== verification/_CoqProject ===== *)
-Q . S2P
Prelude.v
Wire.v
Net.v
StdString.v
Float32.v
Messages.v
GameRoom.v
MatchQueue.v
Config.v
Registry.v
Room.v
Mysql.v
Repositories.v
SqlModel.v
ToyMysql.v
BattleStore.v
Ledger.v
Redis.v
Settlement.v
Healthy.v
Store.v
Timer.v
World.v
Reason.v
Lobby.v
Login.v
GameServer.v
Threads.v
Alone.v
ThreadLogic.v
Steps.v
Counters.v
Conform.v
Reading.v
LoginInv.v
QueueInv.v
LobbyInv.v
Interleave.v
InterleaveHandlers.v
Server.v
Interleaved.v
Liveness.v
Heartbeats.v
ServerMain.v
Bot.v
BotMain.v
BotReason.v
BotInv.v
BotProtocol.v
BotReading.v
System.v
Serving.v
EndToEnd.v
BotProgram.v
ToyProto.v
StoreWitness.v
Tests.v
ServerWitness.v
Races.v
Answers.v
Worker.v
BotWitness.v
SystemWitness.v
Findings.v
