(* ===== verification/Prelude.v ===== *)
(** * cpp-game-room: a verification development of the game server

    The program is a room-based multiplayer game server in C++17 over Boost.Asio,
    protobuf, MySQL and Redis ([src/src]), and a load-test client of it
    ([src/bot]).  A client logs in, asks for a match, is put in a room, says it is
    ready, plays a battle the server ticks, and the server settles the battle in
    MySQL and ranks the players in Redis.

    ** Parts, files and sources

    A definition has the name of the function it models, after the class when
    names clash ([Room_Close] is [Room::Close]); every file says what it models.

    - Stream: [Wire] (net/packet, net/codec), [Net] (net/tcp_connection: one
      connection on its strand, with the list of its pending writes), [Messages] (protocol/, the .proto messages).
    - Values: [StdString] (to_string, stoi, ...), [Float32] (binary32 arithmetic).
    - Battle: [GameRoom] (game/game_room, input_buffer, game_state, state_sync).
    - Rooms: [Room] (room/room: the state machine), [MatchQueue] (match/match_queue).
    - Tables: [Registry] (net/session, net/connection_manager, player/, util/id_generator),
      [Timer] (timer/timer_manager), [Config] (config/config_manager).
    - Storage: [Mysql] (storage/mysql_client), [Repositories] (player_repository,
      battle_repository: the text of every statement), [SqlModel] (what the
      statements mean on the tables of config/mysql.sql), [BattleStore] and
      [Ledger] (their correctness), [Redis] (storage/redis_client, rank/),
      [Settlement] (game/settlement_service), [Healthy] (the settlement when the
      storage serves every call), [Store] (the interface between the
      services and the storage, a type class).
    - Server: [World] (the objects the services share, one record, and the monad
      of handlers), [Lobby] (room/room_manager, match/match_service), [Login]
      (login/), [GameServer] (server/, game/game_loop, net/tcp_server: dispatcher,
      callbacks, [step]), [ServerMain] (main.cpp, TcpServer::Start, and GameServer::Stop
      over the acceptor, the io_context, the timers and the loop, [Host]), [Threads] (the
      handlers interleaved, [cstep]), [Worker] (the thread of game/game_loop and
      timer/timer_manager, Start and Stop).
    - Handlers one at a time: [Reason] (triples), [Steps] (what a reachable world
      inherits from the handlers), [LoginInv], [QueueInv], [LobbyInv], [Server],
      [Liveness] (a finished battle gets settled) and [Heartbeats] (silent clients are
      disconnected).
    - Handlers interleaved: [ThreadLogic] (a rely-guarantee logic with tokens, and its
      soundness), [Counters] (its first use), [Interleave] (the invariant of the
      shared objects and the sections), [InterleaveHandlers] (the handlers),
      [Interleaved] (the theorems), [Alone] (a lemma: a run without interleaving is a schedule).
    - Bots: [Bot] (bot_client), [BotMain] (bot_manager, bot_main), [BotReason],
      [BotInv], [BotProtocol] (bots against the server's codec and dispatcher),
      [BotProgram].
    - Server and bots together: [Reading] (a connection's buffer is a cut stream,
      through the server's handlers), [BotReading] (the same of a bot), [System] (the
      processes and the network between them, [smove]), [Serving] (which handlers a
      connection has), [EndToEnd] (the theorem).
    - Replies: [Answers] (which requests are answered, and how often), [Conform] (the bytes written are
      the protocol's, in every schedule).
    - Concrete runs: [ToyMysql] and [ToyProto] are small implementations of the
      library classes, [StoreWitness], [ServerWitness], [BotWitness] and [SystemWitness]
      apply the theorems on them, [Tests] is the repository's test-suite run on the
      model, [Findings] runs the server into what it does not guard,
      [Races] has schedules of overlapping handlers, those that go wrong included.

    ** State, steps, errors

    A method that runs under the mutex of its object is one function on that
    object.  Objects shared by pointer live in heaps of [World] and are named by
    their address, so that two tables see each other's writes.

    A handler is written over a class [World.Sections]: what it does between two
    points where another thread may run (a method under a mutex, an atomic
    operation, one access to a field, one call of a database client) is one
    [critical] section.  It is read twice.  Over [World.M] it runs from beginning
    to end: [GameServer.step] is one completion handler of a connection, one round
    of the game loop, one waking of the timer thread or a passage of time, and
    [reachable] worlds are those of such runs.  Over [Threads.Prog] it is a list of
    sections: [Threads.cstep] starts a handler or lets one under way do its next
    section; [creachable] processes are those of all schedules.  At most one
    handler of a connection (its strand), one of the acceptor, one round of the
    loop and one waking of the timers are under way at a time.  Where the code holds a
    lock over calls that take other locks or none ([RoomManager::CreateRoom]), each of
    those is a section of its own: the model allows more schedules than the code.

    [Bot.bot_step] completes one pending operation of a bot, in any order; its [Stop],
    which another thread calls, is two sections with handlers in between, and a handler
    sees one value of [running_].  A C++ exception is a value ([exn],
    [result]); one that leaves a completion handler ends the process ([step] is
    [None], [Bot.Uncaught], [BotMain.Terminate]).  Three kinds of undefined
    behaviour of a bot are a value too ([Bot.Undefined]) and proved not to happen, when
    the delay options leave room for the jitter in an [int]: an
    [int] that overflows, a random number of an empty range, a pop of an empty queue.  A
    fourth does happen, and is no value of the model but a set of pending writes: those
    whose buffer [CloseSocket] or [Connect] has freed ([Bot.freed_writes]).

    [System.smove] lets the server, a bot or the network move: the network takes the
    bytes one end has written, keeps them as long as it likes and gives the other end
    any number of them, in order.  A connection the server accepts is one a bot has
    tried, and the ids of connections do not repeat.
    Clocks are inputs; the steady clock is in milliseconds and does not go back.
    A loop over an [unordered_map] visits it in the order of [map_to_list]; where
    the order could matter a theorem says that it does not.  32-bit and 64-bit
    integers are [Z] with the wrap-around written where the code can overflow
    (signed overflow in the server is modelled as a wrap; in the bots it is
    [Undefined]); ids, frame numbers and counters drawn one by one are unbounded.
    Fuel: [Wire.decode_loop] has the length of the buffer plus one and every turn
    erases twelve bytes; [Lobby.TryCreateRoom], run alone, the length of the queue
    plus one and every turn takes a player ([Alone.turn_shorter]; interleaved it
    has no bound); [BotMain.main_loop] any fuel past the last second; each is
    proved to be enough.

    ** What is assumed of code outside the repository

    [Messages.Protobuf]: parsing returns a message of the type with integers in
    range, and inverts serialisation of representable messages (strings and numbers in
    range, and no negative zero, which protobuf does not write).  [Mysql.MysqlApi]
    and [Redis.RedisApi] are the calls of the C libraries over an abstract state;
    [SqlModel.MysqlLaws] and [Redis.RedisLaws] state their documented behaviour,
    with every call allowed to fail, and only the theorems on stored data use
    them; that of ZREVRANGE is assumed for positions that are not negative and scores
    that are [int].  [SqlModel.MysqlHealthy] and [Healthy.RedisHealthy] are servers that
    serve what they can, statements whose values fit their columns, for the two theorems
    that a settlement goes through.  The texts of statements have no grammar here: the
    laws speak of [sql_text] of a statement, and [ToyMysql] shows that they can hold.
    Boost.Asio's promises are in the shape of the steps: handlers of one connection
    run one at a time in the order they were posted, an operation completes once.  Random numbers are any values of the range.

    ** The theorems

    - The whole server, handlers one at a time ([Server], [LoginInv], [QueueInv]): no
      started battle is lost, rooms, tables and battles agree, a session speaks for a
      player whose account logged in and comes to do so only by that login or by the
      token saved for the player, the queue is shorter than a room.  They hold in every
      reachable world, the first over any MySQL server of [MysqlLaws], whatever fails.
      On storage in good health a finished battle is settled and ranked at the loop's
      next due visit ([Liveness]).  Within five seconds of any moment the timer thread is
      due to scan the connections, and it closes those, and only those, that have been
      silent for thirty seconds ([Heartbeats]).
    - All schedules ([Interleaved]): the books are kept at every moment, a room is
      closed only when its battle is on record, a battle on the loop is the one
      battle of its room and has one winner, a start makes exactly one battle,
      nobody is left waiting when no handler is under way, accounts do not share
      players.  What does not carry over to all schedules is in [Races]: that a
      started room stays listed until it is settled, that an account has one
      player, that the callback of a finished battle is told its winner.
    - Replies ([Answers]): a request whose handler returns has been answered with
      exactly one response, on every branch, except that a match, cancel or ranking
      request that does not parse gets none.  Whatever the clients send and however
      handlers overlap, what was written on a connection decodes to the end into
      responses and notifications of the protocol ([Conform]).
    - Server and bots together ([EndToEnd]): in every state either end's read buffer
      and the next bytes the network brings decode without an error, on the server
      into requests with a handler, on the bot into messages it can parse.
    - The threads themselves ([Worker]): at most one per loop, [Stop] returns.
    - Storage: the settlement transaction is atomic and idempotent and refines its
      specification; over the calls the server makes the scores are the books of the
      settlements and settled battles are final; a settlement on a healthy server
      completes; a ranking page is exactly its slice of the board.
    - Components: the codec returns exactly the frames and throws exactly on a bad
      length, and a cut of the stream changes nothing but how many packets come before
      the exception; a connection has one write pending and
      delivers in order; a battle has one winner, hit points are bounded and fall; the
      room's state machine moves forward and starts once; the queue refines a list;
      the configuration file and the timers do what they say.
    - Bots: one connection at a time, one read and write per socket, and which writes
      have lost their buffers; none of the three kinds of undefined behaviour; every
      byte written decodes into requests the server handles; the program ends in time;
      its arguments round-trip.

    ** Not modelled

    The four database clients of the test ConcurrentConnectionsSettleOnlyOnce (the
    server has one); logging; data races proper (the fields of a session or a player that are read
    and written without a lock are taken as atomic); memory and its exhaustion;
    opening and binding sockets (what Asio answers is an input); the [--verbose]
    trace of the bots; code generated from the .proto files. *)
From stdpp Require Export base tactics option list gmap strings sorting.
From Stdlib Require Export ZArith Lia.
From Stdlib Require Ascii.

#[export] Set Default Proof Using "Type".

(** ** C++ exceptions

    A call that may throw returns a [result]; the constructors of [exn] are
    the standard exception classes the code throws or lets escape. *)
Inductive exn : Type :=
  | runtime_error (what : string)
  | invalid_argument
  | out_of_range
  | length_error.

#[export] Instance exn_eq_dec : EqDecision exn.
Proof. solve_decision. Defined.

Inductive result (A : Type) : Type :=
  | Ok (a : A)
  | Throw (e : exn).
Arguments Ok {A} a.
Arguments Throw {A} e.

#[export] Instance result_ret : MRet result := @Ok.
#[export] Instance result_bind : MBind result :=
  fun A B f r => match r with Ok a => f a | Throw e => Throw e end.
#[export] Instance result_fmap : FMap result :=
  fun A B f r => match r with Ok a => Ok (f a) | Throw e => Throw e end.

(** ** Machine integers

    A C++ integer is a [Z]; arithmetic that can leave the range of its type
    is followed by the wrap of that type. *)
Definition int32_min : Z := -2147483648.
Definition int32_max : Z := 2147483647.
Definition int64_max : Z := 9223372036854775807.
Definition int64_min : Z := -9223372036854775808.

Definition wrap_u32 (z : Z) : Z := z `mod` 4294967296.
Definition wrap_i32 (z : Z) : Z := (z + 2147483648) `mod` 4294967296 - 2147483648.
Definition wrap_i64 (z : Z) : Z :=
  (z + 9223372036854775808) `mod` 18446744073709551616 - 9223372036854775808.
Definition wrap_u64 (z : Z) : Z := z `mod` 18446744073709551616.

Definition is_u32 (z : Z) : Prop := (0 <= z < 4294967296)%Z.
Definition is_i32 (z : Z) : Prop := (int32_min <= z <= int32_max)%Z.
Definition is_i64 (z : Z) : Prop := (int64_min <= z <= int64_max)%Z.

Section machine_integers.
Local Open Scope Z_scope.

Lemma wrap_u32_range z : is_u32 (wrap_u32 z).
Proof. unfold is_u32, wrap_u32. apply Z.mod_pos_bound. lia. Qed.

Lemma wrap_u32_id z : is_u32 z -> wrap_u32 z = z.
Proof. unfold is_u32, wrap_u32. intros. apply Z.mod_small. lia. Qed.

Lemma wrap_i32_range z : is_i32 (wrap_i32 z).
Proof.
  unfold is_i32, wrap_i32, int32_min, int32_max.
  pose proof (Z.mod_pos_bound (z + 2147483648) 4294967296). lia.
Qed.

Lemma wrap_i32_id z : is_i32 z -> wrap_i32 z = z.
Proof.
  unfold is_i32, wrap_i32, int32_min, int32_max. intros.
  rewrite Z.mod_small; lia.
Qed.

Lemma wrap_i64_id z : is_i64 z -> wrap_i64 z = z.
Proof.
  unfold is_i64, wrap_i64, int64_min, int64_max. intros.
  rewrite Z.mod_small; lia.
Qed.

Lemma wrap_i64_range z : is_i64 (wrap_i64 z).
Proof.
  unfold is_i64, wrap_i64, int64_min, int64_max.
  pose proof (Z.mod_pos_bound (z + 9223372036854775808) 18446744073709551616). lia.
Qed.
End machine_integers.

Create HintDb game.
#[export] Hint Resolve wrap_u32_range wrap_i32_range wrap_i64_range : game.

(** ** Shared tactics *)

(** Case analysis on every boolean or option test the goal is stuck on. *)
Ltac case_goal :=
  repeat match goal with
  | |- context [if ?b then _ else _] => destruct b eqn:?
  | |- context [match ?o with Some _ => _ | None => _ end] => destruct o eqn:?
  end.

(** The same for the tests a hypothesis is stuck on. *)
Ltac case_hyp H :=
  repeat match type of H with
  | context [if ?b then _ else _] => destruct b eqn:?
  | context [match ?o with Some _ => _ | None => _ end] => destruct o eqn:?
  end.

(** Turn the boolean comparisons of the code into propositions. *)
Ltac bools :=
  repeat match goal with
  | H : _ && _ = true |- _ => apply andb_true_iff in H; destruct H
  | H : _ || _ = false |- _ => apply orb_false_iff in H; destruct H
  | H : negb _ = true |- _ => apply negb_true_iff in H
  | H : negb _ = false |- _ => apply negb_false_iff in H
  | H : Z.eqb _ _ = true |- _ => apply Z.eqb_eq in H
  | H : Z.eqb _ _ = false |- _ => apply Z.eqb_neq in H
  | H : Z.ltb _ _ = true |- _ => apply Z.ltb_lt in H
  | H : Z.ltb _ _ = false |- _ => apply Z.ltb_ge in H
  | H : Z.leb _ _ = true |- _ => apply Z.leb_le in H
  | H : Z.leb _ _ = false |- _ => apply Z.leb_gt in H
  | H : Nat.ltb _ _ = true |- _ => apply Nat.ltb_lt in H
  | H : Nat.ltb _ _ = false |- _ => apply Nat.ltb_ge in H
  | H : Nat.leb _ _ = true |- _ => apply Nat.leb_le in H
  | H : Nat.leb _ _ = false |- _ => apply Nat.leb_gt in H
  | H : bool_decide _ = true |- _ => apply bool_decide_eq_true in H
  | H : bool_decide _ = false |- _ => apply bool_decide_eq_false in H
  end.

(** Two evaluations of the same term agree. *)
Ltac same_eval :=
  repeat match goal with
  | H1 : ?x = ?a, H2 : ?x = ?b |- _ =>
      first [constr_eq a b; fail 1 | rewrite H1 in H2; simplify_eq]
  end.

(** ** Lists *)
Section lists.
Context {A B : Type}.
Implicit Types l : list A.

Lemma fold_left_app_split (f : B -> A -> B) l1 l2 b :
  fold_left f (l1 ++ l2) b = fold_left f l2 (fold_left f l1 b).
Proof. apply fold_left_app. Qed.

(** An invariant of the accumulator of a loop over a list. *)
Lemma fold_left_inv (P : B -> Prop) (f : B -> A -> B) l b :
  P b -> (forall b' a, a ∈ l -> P b' -> P (f b' a)) -> P (fold_left f l b).
Proof.
  revert b. induction l as [|a l IH]; intros b Hb Hstep; [done|].
  simpl. apply IH.
  - apply Hstep; [left|done].
  - intros b' a' Ha'. apply Hstep. by right.
Qed.

Lemma take_app_le n l1 l2 : n <= length l1 -> take n (l1 ++ l2) = take n l1.
Proof. intros. by rewrite take_app_le. Qed.
End lists.

(** ** Bits: joining a high and a low part *)
Section bits.
Local Open Scope Z_scope.

Lemma lor_shiftl_add a b n :
  0 <= n -> 0 <= b < 2 ^ n -> Z.lor (Z.shiftl a n) b = a * 2 ^ n + b.
Proof.
  intros Hn Hb. rewrite <- Z.shiftl_mul_pow2 by done.
  assert (Z.land (Z.shiftl a n) b = 0) as Hl.
  { apply Z.bits_inj'. intros i Hi.
    rewrite Z.land_spec, Z.bits_0.
    destruct (decide (i < n)).
    - by rewrite Z.shiftl_spec_low.
    - destruct (decide (b = 0)) as [->|]; [by rewrite Z.bits_0, andb_false_r|].
      rewrite (Z.bits_above_log2 b i), andb_false_r; [done|lia|].
      apply Z.log2_lt_pow2; [lia|].
      assert (2 ^ n <= 2 ^ i) by (apply Z.pow_le_mono_r; lia). lia. }
  rewrite <- Z.lxor_lor by done. symmetry. by apply Z.add_nocarry_lxor.
Qed.

Lemma land_255 z : Z.land z 255 = z `mod` 256.
Proof. change 255 with (Z.ones 8). by rewrite Z.land_ones. Qed.
End bits.
