(* ===== verification/Wire.v ===== *)
(** * Wire: packets and the stream codec

    Models [net/packet.h], [net/packet.cpp], [net/codec.h], [net/codec.cpp].
    A [char] of a buffer is a [Byte.byte]; a [uint32_t] is a [Z] in
    [0, 2^32).  [Codec::Decode] mutates its buffer and may throw, so the model
    returns the outcome together with the buffer it leaves behind. *)
From S2P Require Import Prelude.
From Stdlib Require Import Strings.Byte.
Local Open Scope Z_scope.

Notation bytes := (list Byte.byte).

#[export] Instance byte_eq_dec : EqDecision Byte.byte := Byte.byte_eq_dec.

(** [static_cast<unsigned char>] and [static_cast<char>]. *)
Definition byte_to_Z (b : Byte.byte) : Z := Z.of_N (Byte.to_N b).
Definition Z_to_byte (z : Z) : Byte.byte :=
  match Byte.of_N (Z.to_N (z `mod` 256)) with Some b => b | None => x00 end.

(** ** Packets (packet.h) *)
Definition kPacketHeaderSize : Z := 12.
Definition kPacketMetaSize : Z := 8.
Definition kMaxPacketLength : Z := 1024 * 1024.

Record Packet := mkPacket {
  length_ : Z;   (* uint32_t length = kPacketMetaSize *)
  msg_id : Z;    (* uint32_t *)
  seq_ : Z;      (* uint32_t *)
  body : bytes
}.

#[export] Instance packet_eq_dec : EqDecision Packet.
Proof. solve_decision. Defined.

Definition packet_wf (p : Packet) : Prop :=
  is_u32 (msg_id p) /\ is_u32 (seq_ p).

(** ** Big-endian integers (packet.cpp) *)

(** Reading [p[i]]; the code only reads indices it has checked. *)
Definition char_at (data : bytes) (i : nat) : Z := byte_to_Z (nth i data x00).

Definition ReadUint32BE (data : bytes) : Z :=
  Z.lor (Z.lor (Z.lor (Z.shiftl (char_at data 0) 24) (Z.shiftl (char_at data 1) 16))
               (Z.shiftl (char_at data 2) 8))
        (char_at data 3).

Definition AppendUint32BE (out : bytes) (value : Z) : bytes :=
  out ++ [Z_to_byte (Z.land (Z.shiftr value 24) 255);
          Z_to_byte (Z.land (Z.shiftr value 16) 255);
          Z_to_byte (Z.land (Z.shiftr value 8) 255);
          Z_to_byte (Z.land value 255)].

(** ** Codec (codec.cpp) *)
Definition Encode (packet : Packet) : result bytes :=
  if kMaxPacketLength - kPacketMetaSize <? Z.of_nat (length (body packet))
  then Throw (runtime_error "packet body too large")
  else
    let len := wrap_u32 (kPacketMetaSize + Z.of_nat (length (body packet))) in
    let out := AppendUint32BE [] len in
    let out := AppendUint32BE out (msg_id packet) in
    let out := AppendUint32BE out (seq_ packet) in
    Ok (out ++ body packet).

(** One turn of the [while] loop of [Decode]. *)
Inductive decode_turn :=
  | turn_stop                                 (* the loop condition fails, or [break] *)
  | turn_throw                                (* invalid packet length *)
  | turn_packet (p : Packet) (rest : bytes).  (* push_back and erase *)

Definition decode_step (buffer : bytes) : decode_turn :=
  if Z.of_nat (length buffer) <? kPacketHeaderSize then turn_stop
  else
    let len := ReadUint32BE buffer in
    if (len <? kPacketMetaSize) || (kMaxPacketLength <? len) then turn_throw
    else if Z.of_nat (length buffer) <? len + 4 then turn_stop
    else turn_packet
           (mkPacket len (ReadUint32BE (drop 4 buffer)) (ReadUint32BE (drop 8 buffer))
              (take (Z.to_nat (len - 8)) (drop 12 buffer)))
           (drop (Z.to_nat (4 + len)) buffer).

(** The loop; [None] is only reached when the fuel runs out. *)
Fixpoint decode_loop (fuel : nat) (buffer : bytes) (packets : list Packet)
    : option (result (list Packet) * bytes) :=
  match fuel with
  | O => None
  | S fuel =>
    match decode_step buffer with
    | turn_stop => Some (Ok packets, buffer)
    | turn_throw => Some (Throw (runtime_error "invalid packet length"), buffer)
    | turn_packet p rest => decode_loop fuel rest (packets ++ [p])
    end
  end.

(** Every turn that continues erases at least twelve bytes, so the length of
    the buffer plus one is fuel enough ([Decode_terminates]). *)
Definition Decode (buffer : bytes) : option (result (list Packet) * bytes) :=
  decode_loop (S (length buffer)) buffer [].

(** ** Bytes and header integers *)
Lemma byte_to_Z_range b : 0 <= byte_to_Z b < 256.
Proof. unfold byte_to_Z. pose proof (Byte.to_N_bounded b). lia. Qed.

Lemma byte_to_Z_to_byte z : byte_to_Z (Z_to_byte z) = z `mod` 256.
Proof.
  unfold byte_to_Z, Z_to_byte.
  pose proof (Z.mod_pos_bound z 256 ltac:(lia)) as Hr.
  destruct (Byte.of_N (Z.to_N (z `mod` 256))) as [b|] eqn:E.
  - apply Byte.to_of_N in E. rewrite E. lia.
  - apply Byte.of_N_None_iff in E. lia.
Qed.

Lemma Z_to_byte_to_Z b : Z_to_byte (byte_to_Z b) = b.
Proof.
  unfold Z_to_byte. rewrite Z.mod_small by apply byte_to_Z_range.
  unfold byte_to_Z. by rewrite N2Z.id, Byte.of_to_N.
Qed.

Lemma ReadUint32BE_cons a b c d r :
  ReadUint32BE (a :: b :: c :: d :: r) =
  byte_to_Z a * 16777216 + byte_to_Z b * 65536 + byte_to_Z c * 256 + byte_to_Z d.
Proof.
  unfold ReadUint32BE, char_at. cbn [nth].
  pose proof (byte_to_Z_range a). pose proof (byte_to_Z_range b).
  pose proof (byte_to_Z_range c). pose proof (byte_to_Z_range d).
  rewrite lor_shiftl_add; [|lia|rewrite Z.shiftl_mul_pow2; lia].
  rewrite Z.shiftl_mul_pow2 by lia.
  replace (byte_to_Z a * 2 ^ 24 + byte_to_Z b * 2 ^ 16)
    with (Z.shiftl (byte_to_Z a * 256 + byte_to_Z b) 16)
    by (rewrite Z.shiftl_mul_pow2; lia).
  rewrite lor_shiftl_add; [|lia|rewrite Z.shiftl_mul_pow2; lia].
  rewrite Z.shiftl_mul_pow2 by lia.
  replace ((byte_to_Z a * 256 + byte_to_Z b) * 2 ^ 16 + byte_to_Z c * 2 ^ 8)
    with (Z.shiftl (byte_to_Z a * 65536 + byte_to_Z b * 256 + byte_to_Z c) 8)
    by (rewrite Z.shiftl_mul_pow2; lia).
  rewrite lor_shiftl_add; lia.
Qed.

Lemma length_AppendUint32BE out v : length (AppendUint32BE out v) = (length out + 4)%nat.
Proof. unfold AppendUint32BE. rewrite length_app. done. Qed.

Lemma AppendUint32BE_out out v : AppendUint32BE out v = out ++ AppendUint32BE [] v.
Proof. done. Qed.

Lemma Read_AppendUint32BE v r : is_u32 v -> ReadUint32BE (AppendUint32BE [] v ++ r) = v.
Proof.
  unfold is_u32. intros Hv. unfold AppendUint32BE. cbn [app].
  rewrite ReadUint32BE_cons, !byte_to_Z_to_byte, !land_255, !Z.shiftr_div_pow2 by lia.
  change (2 ^ 24) with 16777216. change (2 ^ 16) with 65536. change (2 ^ 8) with 256.
  rewrite !Z.mod_mod by lia. Z.to_euclidean_division_equations. lia.
Qed.

(** A 32-bit big-endian word is split off a buffer of at least four bytes. *)
Lemma split_word (data : bytes) :
  4 <= Z.of_nat (length data) ->
  exists a b c d r, data = a :: b :: c :: d :: r.
Proof.
  destruct data as [|a [|b [|c [|d r]]]]; cbn; intros; try lia. eauto 10.
Qed.

Lemma ReadUint32BE_range data : is_u32 (ReadUint32BE data).
Proof.
  assert (ReadUint32BE data = ReadUint32BE [nth 0 data x00; nth 1 data x00; nth 2 data x00; nth 3 data x00])
    as -> by done.
  rewrite ReadUint32BE_cons. unfold is_u32.
  pose proof (byte_to_Z_range (nth 0 data x00)). pose proof (byte_to_Z_range (nth 1 data x00)).
  pose proof (byte_to_Z_range (nth 2 data x00)). pose proof (byte_to_Z_range (nth 3 data x00)).
  lia.
Qed.

Lemma Append_ReadUint32BE data :
  4 <= Z.of_nat (length data) -> AppendUint32BE [] (ReadUint32BE data) = take 4 data.
Proof.
  intros (a & b & c & d & r & ->)%split_word.
  rewrite ReadUint32BE_cons. unfold AppendUint32BE. cbn [app take].
  rewrite !land_255, !Z.shiftr_div_pow2 by lia.
  change (2 ^ 24) with 16777216. change (2 ^ 16) with 65536. change (2 ^ 8) with 256.
  pose proof (byte_to_Z_range a). pose proof (byte_to_Z_range b).
  pose proof (byte_to_Z_range c). pose proof (byte_to_Z_range d).
  repeat f_equal; try (rewrite <- (Z_to_byte_to_Z a) at 2); try (rewrite <- (Z_to_byte_to_Z b) at 2);
    try (rewrite <- (Z_to_byte_to_Z c) at 2); try (rewrite <- (Z_to_byte_to_Z d) at 2); f_equal;
    Z.to_euclidean_division_equations; lia.
Qed.

#[export] Hint Resolve ReadUint32BE_range : game.

(** ** One turn of the decoder *)

(** The [length] field [Encode] writes; [Encode] ignores the field of its argument. *)
Definition with_length (p : Packet) : Packet :=
  mkPacket (kPacketMetaSize + Z.of_nat (length (body p))) (msg_id p) (seq_ p) (body p).

Definition encodable (p : Packet) : Prop :=
  packet_wf p /\ Z.of_nat (length (body p)) <= kMaxPacketLength - kPacketMetaSize.

(** The bytes of one packet on the wire. *)
Definition frame (p : Packet) : bytes :=
  AppendUint32BE [] (kPacketMetaSize + Z.of_nat (length (body p)))
  ++ AppendUint32BE [] (msg_id p) ++ AppendUint32BE [] (seq_ p) ++ body p.

Lemma Encode_frame p : encodable p -> Encode p = Ok (frame p).
Proof.
  unfold encodable, Encode, frame, kMaxPacketLength, kPacketMetaSize. intros [_ Hb].
  rewrite (proj2 (Z.ltb_ge _ _)) by lia.
  rewrite wrap_u32_id by (unfold is_u32; lia).
  rewrite (AppendUint32BE_out (AppendUint32BE _ _)), (AppendUint32BE_out (AppendUint32BE [] _)).
  by rewrite <- !app_assoc.
Qed.

Lemma Encode_too_large p :
  kMaxPacketLength - kPacketMetaSize < Z.of_nat (length (body p)) ->
  Encode p = Throw (runtime_error "packet body too large").
Proof. unfold Encode. intros H. by rewrite (proj2 (Z.ltb_lt _ _) H). Qed.

Lemma length_frame p : length (frame p) = (12 + length (body p))%nat.
Proof. unfold frame. rewrite !length_app, !length_AppendUint32BE. simpl. lia. Qed.

Lemma drop_AppendUint32BE v r : drop 4 (AppendUint32BE [] v ++ r) = r.
Proof. done. Qed.

Lemma decode_step_frame p r :
  encodable p -> decode_step (frame p ++ r) = turn_packet (with_length p) r.
Proof.
  intros [[Hm Hs] Hb]. unfold kMaxPacketLength, kPacketMetaSize in Hb.
  unfold decode_step, kPacketHeaderSize, kPacketMetaSize, kMaxPacketLength.
  rewrite length_app, length_frame.
  rewrite (proj2 (Z.ltb_ge _ _)) by lia.
  set (n := Z.of_nat (length (body p))) in *.
  assert (ReadUint32BE (frame p ++ r) = 8 + n) as ->.
  { unfold frame. rewrite <- app_assoc. rewrite Read_AppendUint32BE; [done|unfold is_u32, kPacketMetaSize; lia]. }
  rewrite (proj2 (Z.ltb_ge (8 + n) 8)), (proj2 (Z.ltb_ge (1024 * 1024) (8 + n))) by lia. cbn [orb].
  rewrite (proj2 (Z.ltb_ge _ _)) by lia.
  unfold frame. rewrite <- !app_assoc. f_equal.
  - unfold with_length, kPacketMetaSize. f_equal.
    + rewrite drop_AppendUint32BE. by apply Read_AppendUint32BE.
    + replace 8%nat with (4 + 4)%nat by done. rewrite <- drop_drop, !drop_AppendUint32BE.
      by apply Read_AppendUint32BE.
    + replace 12%nat with (4 + (4 + 4))%nat by done. rewrite <- !drop_drop, !drop_AppendUint32BE.
      replace (Z.to_nat (8 + n - 8)) with (length (body p)) by lia.
      by rewrite take_app_length.
  - replace (Z.to_nat (4 + (8 + n))) with (4 + (4 + (4 + length (body p))))%nat by lia.
    rewrite <- !drop_drop, !drop_AppendUint32BE. apply drop_app_length.
Qed.

Lemma decode_step_packet_inv buffer p rest :
  decode_step buffer = turn_packet p rest ->
  encodable p /\ with_length p = p /\ buffer = frame p ++ rest.
Proof.
  unfold decode_step, kPacketHeaderSize, kPacketMetaSize, kMaxPacketLength.
  destruct (Z.ltb_spec (Z.of_nat (length buffer)) 12) as [|H12]; [done|].
  destruct (_ || _) eqn:Hl; [done|]. bools.
  destruct (Z.ltb_spec (Z.of_nat (length buffer)) (ReadUint32BE buffer + 4)) as [|Hn]; [done|].
  intros [= <- <-]. set (len := ReadUint32BE buffer) in *.
  assert (length (take (Z.to_nat (len - 8)) (drop 12 buffer)) = Z.to_nat (len - 8)) as Hbody.
  { rewrite length_take, length_drop. lia. }
  split; [split; [split; apply ReadUint32BE_range|]|split].
  - cbn [body]. rewrite Hbody. unfold kMaxPacketLength, kPacketMetaSize. lia.
  - unfold with_length, kPacketMetaSize. cbn [body msg_id seq_]. rewrite Hbody. f_equal. lia.
  - unfold frame, kPacketMetaSize. cbn [body msg_id seq_]. rewrite Hbody.
    replace (8 + Z.of_nat (Z.to_nat (len - 8))) with len by lia.
    rewrite !Append_ReadUint32BE by (rewrite ?length_drop; lia).
    rewrite <- !app_assoc.
    replace (Z.to_nat (4 + len)) with (12 + Z.to_nat (len - 8))%nat by lia.
    rewrite <- (drop_drop buffer), (take_drop (Z.to_nat (len - 8)) (drop 12 buffer)).
    replace 12%nat with (8 + 4)%nat by done.
    rewrite <- (drop_drop buffer), take_drop.
    replace 8%nat with (4 + 4)%nat by done.
    rewrite <- (drop_drop buffer), take_drop.
    unfold len. rewrite Append_ReadUint32BE by lia. by rewrite take_drop.
Qed.

(** A buffer on which the decoder stops or throws. *)
Lemma decode_step_throw_app buffer x :
  decode_step buffer = turn_throw -> decode_step (buffer ++ x) = turn_throw.
Proof.
  unfold decode_step, kPacketHeaderSize. rewrite length_app.
  destruct (Z.ltb_spec (Z.of_nat (length buffer)) 12) as [|H12]; [done|].
  rewrite (proj2 (Z.ltb_ge (Z.of_nat (length buffer + length x)) 12)) by lia.
  destruct (split_word buffer) as (a & b & c & d & r & ->); [lia|]. cbn [app].
  rewrite !ReadUint32BE_cons.
  destruct (_ || _); [done|]. by destruct (_ <? _).
Qed.

Lemma decode_step_packet_app buffer p rest x :
  decode_step buffer = turn_packet p rest ->
  decode_step (buffer ++ x) = turn_packet p (rest ++ x).
Proof.
  intros (He & Hw & ->)%decode_step_packet_inv.
  rewrite <- app_assoc, decode_step_frame by done. by rewrite Hw.
Qed.

Lemma decode_step_stop_bound buffer :
  decode_step buffer = turn_stop -> Z.of_nat (length buffer) < kMaxPacketLength + 4.
Proof.
  unfold decode_step, kPacketHeaderSize, kPacketMetaSize, kMaxPacketLength.
  destruct (Z.ltb_spec (Z.of_nat (length buffer)) 12) as [|H12]; [lia|].
  destruct (_ || _) eqn:Hl; [done|]. bools.
  destruct (Z.ltb_spec (Z.of_nat (length buffer)) (ReadUint32BE buffer + 4)); [lia|done].
Qed.

(** ** The loop *)

(** The runs of the [while] loop of [Decode], as a relation without fuel. *)
Inductive decodes : bytes -> result (list Packet) -> bytes -> Prop :=
  | decodes_stop b : decode_step b = turn_stop -> decodes b (Ok []) b
  | decodes_throw b :
      decode_step b = turn_throw ->
      decodes b (Throw (runtime_error "invalid packet length")) b
  | decodes_packet b p b' r b'' :
      decode_step b = turn_packet p b' -> decodes b' r b'' ->
      decodes b (cons p <$> r) b''.

Lemma decode_step_shorter b p b' :
  decode_step b = turn_packet p b' -> (length b' < length b)%nat.
Proof.
  intros (_ & _ & ->)%decode_step_packet_inv. rewrite length_app, length_frame. lia.
Qed.

Lemma decode_loop_decodes fuel b acc :
  (length b < fuel)%nat ->
  exists r b', decodes b r b' /\ decode_loop fuel b acc = Some (app acc <$> r, b').
Proof.
  revert b acc. induction fuel as [|fuel IH]; intros b acc Hf; [lia|].
  simpl. destruct (decode_step b) as [| |p b'] eqn:E.
  - exists (Ok []), b. split; [by constructor|]. cbn. by rewrite app_nil_r.
  - eexists _, b. by split; [constructor|].
  - pose proof (decode_step_shorter _ _ _ E).
    destruct (IH b' (acc ++ [p])) as (r & b'' & Hr & ->); [lia|].
    exists (cons p <$> r), b''. split; [by econstructor|].
    destruct r; cbn; [|done]. by rewrite <- app_assoc.
Qed.

Lemma decodes_det b r1 b1 r2 b2 :
  decodes b r1 b1 -> decodes b r2 b2 -> r1 = r2 /\ b1 = b2.
Proof.
  intros H. revert r2 b2. induction H; intros r2 b2 H2; inversion H2; subst; same_eval; try done.
  match goal with H : decodes _ _ b2 |- _ => destruct (IHdecodes _ _ H) end. by subst.
Qed.

Lemma Decode_decodes b r b' : Decode b = Some (r, b') <-> decodes b r b'.
Proof.
  unfold Decode. destruct (decode_loop_decodes (S (length b)) b []) as (r0 & b0 & Hr & ->); [lia|].
  assert (app [] <$> r0 = r0) as -> by (by destruct r0).
  split; [by intros [= <- <-]|]. intros Hd. by destruct (decodes_det _ _ _ _ _ Hr Hd) as [-> ->].
Qed.

Lemma decodes_app b ps r x r' b' :
  decodes b (Ok ps) r -> decodes (r ++ x) r' b' -> decodes (b ++ x) (app ps <$> r') b'.
Proof.
  intros H Hx. remember (Ok ps) as res eqn:Eres. revert ps Eres.
  induction H as [b Hs|b Hs|b p b1 res b2 Hs Hd IH]; intros ps Eres.
  - injection Eres as <-. by destruct r'.
  - done.
  - destruct res as [qs|]; [|done]. injection Eres as <-.
    assert (app (p :: qs) <$> r' = cons p <$> (app qs <$> r')) as -> by (by destruct r').
    eapply decodes_packet; [by apply decode_step_packet_app|]. by apply IH.
Qed.

Lemma decodes_frames ps x r b' :
  Forall encodable ps -> decodes x r b' ->
  decodes (concat (frame <$> ps) ++ x) (app (with_length <$> ps) <$> r) b'.
Proof.
  induction 1 as [|p ps Hp Hps IH]; intros Hx.
  - by destruct r.
  - rewrite !fmap_cons. cbn [concat]. rewrite <- app_assoc.
    assert (app (with_length p :: (with_length <$> ps)) <$> r
            = cons (with_length p) <$> (app (with_length <$> ps) <$> r)) as -> by (by destruct r).
    eapply decodes_packet; [by apply decode_step_frame|]. by apply IH.
Qed.

Lemma decodes_sound b ps r :
  decodes b (Ok ps) r ->
  b = concat (frame <$> ps) ++ r /\ Forall (fun p => encodable p /\ with_length p = p) ps
  /\ decode_step r = turn_stop.
Proof.
  intros H. remember (Ok ps) as res eqn:Eres. revert ps Eres.
  induction H as [b Hs|b Hs|b p b1 res b2 Hs Hd IH]; intros ps Eres.
  - by injection Eres as <-.
  - done.
  - destruct res as [qs|]; [|done]. injection Eres as <-.
    destruct (IH qs eq_refl) as (-> & Hall & Hstop).
    apply decode_step_packet_inv in Hs as (He & Hw & ->).
    cbn. rewrite <- app_assoc. auto.
Qed.

Lemma mapM_Encode ps encs :
  Forall packet_wf ps -> mapM Encode ps = Ok encs ->
  Forall encodable ps /\ encs = frame <$> ps.
Proof.
  intros Hwf. revert encs. induction Hwf as [|p ps Hp Hps IH]; intros encs; cbn.
  - by intros [= <-].
  - destruct (decide (kMaxPacketLength - kPacketMetaSize < Z.of_nat (length (body p)))) as [Hl|Hl].
    { by rewrite Encode_too_large. }
    assert (encodable p) as He by (split; [done|lia]).
    rewrite (Encode_frame p He). cbn.
    destruct (mapM Encode ps) as [es|] eqn:E; [|done]. cbn. intros [= <-].
    destruct (IH es eq_refl) as [? ->]. auto.
Qed.

(** ** Properties of the codec *)

(** ** Streams that are cut *)
Lemma decode_step_cut p l : encodable p -> l `prefix_of` frame p -> l <> frame p -> decode_step l = turn_stop.
Proof.
  intros Hp [k Hk] Hne. unfold decode_step, kPacketHeaderSize, kPacketMetaSize, kMaxPacketLength.
  destruct (Z.ltb_spec (Z.of_nat (length l)) 12) as [|Hl]; [done|].
  assert (Hk0 : k <> []) by (intros ->; apply Hne; by rewrite Hk, app_nil_r).
  assert (Hlen : (length l < 12 + length (body p))%nat).
  { rewrite <- length_frame, Hk, length_app. destruct k; [done|cbn; lia]. }
  destruct Hp as [_ Hb]. unfold kMaxPacketLength, kPacketMetaSize in Hb.
  assert (Hread : ReadUint32BE l = 8 + Z.of_nat (length (body p))).
  { destruct (split_word l) as (a & b & c & d & r & ->); [lia|].
    transitivity (ReadUint32BE (frame p)); [by rewrite Hk; cbn [app]; rewrite !ReadUint32BE_cons|].
    unfold frame, kPacketMetaSize. rewrite Read_AppendUint32BE; [done|unfold is_u32; lia]. }
  rewrite Hread, (proj2 (Z.ltb_ge _ 8)), (proj2 (Z.ltb_ge (1024 * 1024) _)) by lia. cbn [orb].
  by rewrite (proj2 (Z.ltb_lt _ _)) by lia.
Qed.

(** A prefix of a stream of frames decodes to a prefix of the packets. *)
Lemma decodes_prefix ps l : Forall encodable ps -> l `prefix_of` concat (frame <$> ps) ->
  exists n rest, decodes l (Ok (with_length <$> take n ps)) rest.
Proof.
  intros Hps. revert l. induction Hps as [|p ps Hp _ IH]; intros l Hl.
  - apply prefix_nil_inv in Hl as ->. exists 0%nat, []. by apply decodes_stop.
  - rewrite fmap_cons in Hl. cbn [concat] in Hl.
    destruct (decide (frame p `prefix_of` l)) as [[l' ->]|Hn].
    + apply prefix_app_inv in Hl. destruct (IH l' Hl) as (n & rest & Hd). exists (S n), rest. cbn.
      eapply (decodes_packet _ _ _ (Ok _)); [by apply decode_step_frame|done].
    + exists 0%nat, l. apply decodes_stop. apply (decode_step_cut p); [done| |by intros ->].
      destruct (prefix_weak_total l (frame p) (frame p ++ concat (frame <$> ps))) as [|]; [done|by apply prefix_app_r|done|done].
Qed.

(** The rest of a stream, when the whole of it decodes. *)
Lemma decodes_more b1 b2 ps1 r ps rest :
  decodes b1 (Ok ps1) r -> decodes (b1 ++ b2) (Ok ps) rest -> exists ps2, ps = ps1 ++ ps2 /\ decodes (r ++ b2) (Ok ps2) rest.
Proof.
  intros H1 H. destruct (decode_loop_decodes (S (length (r ++ b2))) (r ++ b2) []) as (res & rest' & H2 & _); [lia|].
  destruct (decodes_det _ _ _ _ _ H (decodes_app _ _ _ _ _ _ H1 H2)) as [Hr <-].
  destruct res as [ps2|]; [|done]. injection Hr as ->. by exists ps2.
Qed.

(** What the protocol says of the head of a buffer, in numbers: twelve bytes of
    header, of which the first four count what follows them. *)
Definition length_field (b : bytes) : Z :=
  match b with
  | b1 :: b2 :: b3 :: b4 :: _ => byte_to_Z b1 * 16777216 + byte_to_Z b2 * 65536 + byte_to_Z b3 * 256 + byte_to_Z b4
  | _ => 0
  end.
Definition incomplete (b : bytes) : Prop :=
  Z.of_nat (length b) < 12
  \/ 8 <= length_field b <= 1048576 /\ Z.of_nat (length b) < 4 + length_field b.
Definition malformed (b : bytes) : Prop :=
  12 <= Z.of_nat (length b) /\ (length_field b < 8 \/ 1048576 < length_field b).

(** A packet as it was received. *)
Definition received (p : Packet) : Prop :=
  packet_wf p /\ length_ p = 8 + Z.of_nat (length (body p)) /\ length_ p <= 1048576.

Lemma length_field_Read b : 4 <= Z.of_nat (length b) -> length_field b = ReadUint32BE b.
Proof. intros (b1 & b2 & b3 & b4 & r & ->)%split_word. by rewrite ReadUint32BE_cons. Qed.

Lemma decode_step_cases b :
  match decode_step b with
  | turn_stop => incomplete b
  | turn_throw => malformed b
  | turn_packet p rest => received p /\ b = frame p ++ rest
  end.
Proof.
  destruct (decode_step b) as [| |p rest] eqn:E.
  3: { apply decode_step_packet_inv in E as ([Hwf Hb] & Hw & ->). split; [|done]. split; [done|].
       unfold kMaxPacketLength, kPacketMetaSize in Hb.
       assert (Hl : length_ p = 8 + Z.of_nat (length (body p))) by (by rewrite <- Hw). split; [done|lia]. }
  all: unfold decode_step, kPacketHeaderSize, kPacketMetaSize, kMaxPacketLength in E; unfold incomplete, malformed;
    destruct (Z.ltb_spec (Z.of_nat (length b)) 12); [try done; by left|];
    rewrite length_field_Read by lia; destruct (_ || _) eqn:Hl; try done; case_hyp E; bools; try done.
  - right. lia.
  - apply orb_true_iff in Hl as [?%Z.ltb_lt|?%Z.ltb_lt]; lia.
Qed.

Lemma decodes_cases b r rest :
  decodes b r rest ->
  exists ps, b = concat (frame <$> ps) ++ rest /\ Forall received ps /\
    (r = Ok ps /\ incomplete rest \/ r = Throw (runtime_error "invalid packet length") /\ malformed rest).
Proof.
  induction 1 as [b Hs|b Hs|b p b1 r rest Hs _ (ps & -> & Hps & Hr)]; pose proof (decode_step_cases b) as Hc;
    rewrite Hs in Hc.
  - exists []. auto.
  - exists []. auto.
  - destruct Hc as [Hp ->]. exists (p :: ps). rewrite fmap_cons. cbn [concat]. rewrite <- app_assoc.
    split; [done|]. split; [by constructor|]. destruct Hr as [[-> ?]|[-> ?]]; auto.
Qed.

(** C23: [Decode] terminates on every buffer, and the answer is the one the protocol
    asks for.  The buffer is the encodings of some packets and a remainder that
    starts with no complete packet.  If the remainder is the beginning of a packet
    ([incomplete]), [Decode] returns the packets and leaves it; it throws exactly when
    the remainder starts with a header whose length is below 8 or above 1 MiB
    ([malformed]), and leaves that. *)
Theorem Decode_parses_frames (b : bytes) :
  exists ps rest, b = concat (frame <$> ps) ++ rest /\ Forall received ps
    /\ (incomplete rest /\ Decode b = Some (Ok ps, rest)
        \/ malformed rest /\ Decode b = Some (Throw (runtime_error "invalid packet length"), rest)).
Proof.
  destruct (decode_loop_decodes (S (length b)) b []) as (r & rest & Hr & _); [lia|].
  pose proof (proj2 (Decode_decodes _ _ _) Hr) as Hd. apply decodes_cases in Hr as (ps & Hb & Hps & Hr).
  exists ps, rest. split; [done|]. split; [done|].
  destruct Hr as [[-> ?]|[-> ?]]; [by left|by right].
Qed.

(** encoding any number of packets and decoding the concatenated bytes gives
    the packets back (with the [length] field [Encode] computes), also when an
    incomplete packet follows, which stays in the buffer. *)
Theorem Decode_Encode_roundtrip (ps : list Packet) (encs : list bytes) (partial : bytes)
    (Hwf : Forall packet_wf ps)
    (Henc : mapM Encode ps = Ok encs)
    (Hpart : Decode partial = Some (Ok [], partial)) :
  Decode (concat encs ++ partial) = Some (Ok (with_length <$> ps), partial).
Proof.
  apply mapM_Encode in Henc as [Hall ->]; [|done].
  apply Decode_decodes. apply Decode_decodes in Hpart.
  pose proof (decodes_frames _ _ _ _ Hall Hpart) as H. cbn in H. by rewrite app_nil_r in H.
Qed.

(** The reads of one connection: the buffer is kept from one to the next and the
    packets of each are delivered; an exception ends it (tcp_connection.cpp, DoRead). *)
Fixpoint feed (buffer : bytes) (reads : list bytes) : list Packet * result bytes :=
  match reads with
  | [] => ([], Ok buffer)
  | data :: reads =>
    match Decode (buffer ++ data) with
    | Some (Ok ps, rest) => let '(qs, r) := feed rest reads in (ps ++ qs, r)
    | Some (Throw e, _) => ([], Throw e)
    | None => ([], Ok [])
    end
  end.

Lemma decodes_throw_app b e rest x : decodes b (Throw e) rest -> decodes (b ++ x) (Throw e) (rest ++ x).
Proof.
  intros H. remember (Throw e) as r eqn:Er.
  induction H as [b Hs|b Hs|b p b1 r rest Hs _ IH]; [done| |].
  - injection Er as <-. constructor. by apply decode_step_throw_app.
  - destruct r as [?|e']; [done|]. injection Er as ->.
    change (Throw e) with (cons p <$> @Throw (list Packet) e).
    eapply decodes_packet; [by apply decode_step_packet_app|by apply IH].
Qed.

Lemma decodes_stops b ps rest : decodes b (Ok ps) rest -> decodes rest (Ok []) rest.
Proof. intros (_ & _ & Hs)%decodes_sound. by constructor. Qed.

Lemma feed_decodes reads buffer r rest :
  decodes buffer (Ok []) buffer -> decodes (buffer ++ concat reads) r rest ->
  match r with
  | Ok ps => feed buffer reads = (ps, Ok rest)
  | Throw e => exists ps n, buffer ++ concat reads = concat (frame <$> ps) ++ rest
                 /\ Forall received ps /\ feed buffer reads = (take n ps, Throw e)
  end.
Proof.
  revert buffer r. induction reads as [|data reads IH]; intros buffer r Hb Hd; cbn [concat] in *.
  { rewrite app_nil_r in Hd. by destruct (decodes_det _ _ _ _ _ Hb Hd) as [<- <-]. }
  rewrite app_assoc in Hd. cbn [feed].
  destruct (decode_loop_decodes (S (length (buffer ++ data))) (buffer ++ data) []) as (r1 & rest1 & H1 & _); [lia|].
  rewrite (proj2 (Decode_decodes _ _ _) H1). destruct r1 as [ps1|e].
  - destruct (decode_loop_decodes (S (length (rest1 ++ concat reads))) (rest1 ++ concat reads) []) as (r2 & rest2 & H2 & _); [lia|].
    destruct (decodes_det _ _ _ _ _ Hd (decodes_app _ _ _ _ _ _ H1 H2)) as [-> ->].
    specialize (IH rest1 r2 (decodes_stops _ _ _ H1) H2). destruct r2 as [ps2|e]; cbn.
    + by rewrite IH.
    + destruct IH as (ps2 & n & Hs & Hps & ->). apply decodes_cases in H1 as (ps & Hs1 & Hps1 & [[[= <-] _]|[? _]]); [|done].
      exists (ps1 ++ ps2), (length ps1 + n)%nat. rewrite take_app_add.
      split_and!; [|by apply Forall_app|done].
      by rewrite app_assoc, Hs1, <- app_assoc, Hs, fmap_app, concat_app, <- app_assoc.
  - destruct (decodes_det _ _ _ _ _ Hd (decodes_throw_app _ _ _ (concat reads) H1)) as [-> ->].
    apply decodes_cases in Hd as (ps & Hs & Hps & _). exists ps, 0%nat. rewrite <- Hs, app_assoc. done.
Qed.

(** C24: However TCP cuts a stream into reads: if the whole of it decodes, the reads
    deliver together exactly its packets and leave the same remainder.  If it does
    not, because of a bad length somewhere, every way of cutting it ends with the
    same exception and has delivered packets that stand before the bad header, in
    order and none left out, but how many depends on the cut. *)
Theorem Decode_incremental (reads : list bytes) :
  match Decode (concat reads) with
  | Some (Ok ps, rest) => feed [] reads = (ps, Ok rest)
  | Some (Throw e, rest) => exists ps n, concat reads = concat (frame <$> ps) ++ rest
      /\ Forall received ps /\ malformed rest /\ feed [] reads = (take n ps, Throw e)
  | None => False
  end.
Proof.
  destruct (decode_loop_decodes (S (length (concat reads))) (concat reads) []) as (r & rest & Hr & _); [lia|].
  rewrite (proj2 (Decode_decodes _ _ _) Hr).
  pose proof (feed_decodes reads [] r rest ltac:(by constructor) Hr) as Hf.
  destruct r as [ps|e]; [done|]. destruct Hf as (ps & n & Hs & Hps & Hf). exists ps, n.
  split_and!; [done|done| |done]. by apply decodes_cases in Hr as (? & _ & _ & [[? _]|[_ ?]]).
Qed.

(** The two ways to cut a good packet and a bad header. *)
Lemma feed_depends_on_the_cut (p : Packet) (bad : bytes) :
  encodable p -> malformed bad ->
  feed [] [frame p; bad] = ([with_length p], Throw (runtime_error "invalid packet length"))
  /\ feed [] [frame p ++ bad] = ([], Throw (runtime_error "invalid packet length")).
Proof.
  intros Hp Hbad.
  assert (Hd : decodes bad (Throw (runtime_error "invalid packet length")) bad).
  { constructor. pose proof (decode_step_cases bad) as Hc. unfold incomplete, malformed in *.
    destruct (decode_step bad) as [| |q rest] eqn:E; [lia|done|].
    destruct Hc as [[_ [Hl Hle]] Hb]. subst bad. rewrite length_field_Read in Hbad by lia.
    apply decode_step_packet_inv in E as ([_ Hq] & Hw & _). unfold kMaxPacketLength, kPacketMetaSize in Hq.
    unfold frame in Hbad. rewrite <- app_assoc, Read_AppendUint32BE in Hbad;
      unfold kPacketMetaSize, is_u32 in *; lia. }
  assert (H1 : Decode (frame p) = Some (Ok [with_length p], [])).
  { apply Decode_decodes. pose proof (decodes_frames [p] [] (Ok []) [] ltac:(by constructor) ltac:(by constructor)) as H1.
    cbn [concat fmap list_fmap] in H1. by rewrite !app_nil_r in H1. }
  assert (H2 : Decode (frame p ++ bad) = Some (Throw (runtime_error "invalid packet length"), bad)).
  { apply Decode_decodes. pose proof (decodes_frames [p] bad _ _ ltac:(by constructor) Hd) as H2.
    cbn [concat fmap list_fmap] in H2. by rewrite app_nil_r in H2. }
  apply Decode_decodes in Hd. cbn [feed]. rewrite !app_nil_l, H1, H2. by rewrite app_nil_l, Hd.
Qed.

(** C40: a header whose [length] field is below 8 or above 1 MiB makes [Decode]
    throw, and the complete packets decoded before it in the same call are lost:
    they are consumed from the buffer and not returned. *)
Theorem Decode_invalid_length (ps : list Packet) (bad rest : bytes)
    (Hps : Forall encodable ps)
    (Hhdr : length bad = 12%nat)
    (Hbad : ReadUint32BE bad < kPacketMetaSize \/ kMaxPacketLength < ReadUint32BE bad) :
  Decode (concat (frame <$> ps) ++ bad ++ rest)
  = Some (Throw (runtime_error "invalid packet length"), bad ++ rest).
Proof.
  apply Decode_decodes.
  change (Throw _) with (app (with_length <$> ps) <$> @Throw (list Packet) (runtime_error "invalid packet length")).
  apply decodes_frames; [done|]. constructor. apply decode_step_throw_app.
  unfold decode_step. rewrite Hhdr. unfold kPacketHeaderSize. cbn.
  destruct (_ || _) eqn:E; [done|]. bools. lia.
Qed.

(** ** The codec at concrete packets *)
Definition packet_a : Packet := mkPacket 8 1003 7 [x61; x62].
Definition packet_b : Packet := mkPacket 8 2001 8 [].
Definition half_header : bytes := [x00; x00; x00].

Lemma packets_wf : Forall packet_wf [packet_a; packet_b].
Proof. repeat constructor; unfold is_u32; cbn; lia. Qed.

Lemma Decode_Encode_roundtrip_witness :
  Decode (concat [frame packet_a; frame packet_b] ++ half_header)
  = Some (Ok (with_length <$> [packet_a; packet_b]), half_header).
Proof.
  apply (Decode_Encode_roundtrip [packet_a; packet_b] [frame packet_a; frame packet_b] half_header).
  - exact packets_wf.
  - vm_compute. reflexivity.
  - vm_compute. reflexivity.
Defined.

Lemma Decode_invalid_length_witness :
  Decode (concat (frame <$> [packet_a]) ++ repeat x00 12 ++ [x01])
  = Some (Throw (runtime_error "invalid packet length"), repeat x00 12 ++ [x01]).
Proof.
  apply (Decode_invalid_length [packet_a] (repeat x00 12) [x01]).
  - repeat constructor; unfold is_u32; cbn; unfold kMaxPacketLength, kPacketMetaSize; lia.
  - reflexivity.
  - left. vm_compute. reflexivity.
Defined.
