(* ===== verification/Net.v ===== *)
(** * Net: one connection on its strand

    Models [net/tcp_connection.h/.cpp].  Boost.Asio is not code of the
    repository; what is modelled is the state of a [TcpConnection] and its
    completion handlers, which Asio runs one at a time on the connection's
    strand, in the order they were posted.  [post] appends to [tc_posted], a
    pending read is a flag, [tc_writes] are the buffers of the pending writes, any
    number of them, [tc_sent] those whose write has completed, in order.  The callbacks need the rest of the server and are
    called in [GameServer]. *)
From S2P Require Import Prelude Wire.
Local Open Scope Z_scope.

(** A handler posted to the strand. *)
Inductive Task := TSend (packet : Packet) | TClose.

Record TcpConnection := mkConn {
  tc_conn_id : Z;
  tc_open : bool;                 (* socket_ is open *)
  tc_reading : bool;              (* async_read_some is pending *)
  tc_writes : list bytes;         (* the buffers of the pending calls of async_write *)
  tc_read_buffer : bytes;
  tc_write_queue : list bytes;
  tc_posted : list Task;
  tc_sent : list bytes
}.

Definition TcpConnection_new (conn_id : Z) : TcpConnection :=
  mkConn conn_id true false [] [] [] [] [].

Definition tc_writing (c : TcpConnection) : bool := negb (bool_decide (tc_writes c = [])).

Definition set_posted (c : TcpConnection) (ts : list Task) : TcpConnection :=
  mkConn (tc_conn_id c) (tc_open c) (tc_reading c) (tc_writes c) (tc_read_buffer c) (tc_write_queue c) ts (tc_sent c).
Definition set_read (c : TcpConnection) (reading : bool) (buf : bytes) : TcpConnection :=
  mkConn (tc_conn_id c) (tc_open c) reading (tc_writes c) buf (tc_write_queue c) (tc_posted c) (tc_sent c).
Definition set_write (c : TcpConnection) (writes q sent : list bytes) : TcpConnection :=
  mkConn (tc_conn_id c) (tc_open c) (tc_reading c) writes (tc_read_buffer c) q (tc_posted c) sent.

(** ** Methods (tcp_connection.cpp) *)
Definition TcpConnection_Send (packet : Packet) (c : TcpConnection) : TcpConnection :=
  set_posted c (tc_posted c ++ [TSend packet]).
Definition TcpConnection_Close (c : TcpConnection) : TcpConnection :=
  set_posted c (tc_posted c ++ [TClose]).

Definition DoRead (c : TcpConnection) : TcpConnection := set_read c true (tc_read_buffer c).
Definition TcpConnection_Start (c : TcpConnection) : TcpConnection := DoRead c.

Definition DoWrite (c : TcpConnection) : TcpConnection :=
  match tc_write_queue c with
  | [] => c
  | front :: _ => set_write c (tc_writes c ++ [front]) (tc_write_queue c) (tc_sent c)
  end.

(** The handler [Send] posts; an exception of [Encode] leaves [io_context.run]. *)
Definition run_send (packet : Packet) (c : TcpConnection) : result TcpConnection :=
  let writing := negb (bool_decide (tc_write_queue c = [])) in
  data ← Encode packet;
  let c := set_write c (tc_writes c) (tc_write_queue c ++ [data]) (tc_sent c) in
  Ok (if negb writing then DoWrite c else c).

(** The part of the handler of [Close] before the callback. *)
Definition run_close (c : TcpConnection) : TcpConnection :=
  mkConn (tc_conn_id c) false (tc_reading c) (tc_writes c) (tc_read_buffer c) (tc_write_queue c)
         (tc_posted c) (tc_sent c).

(** The handler of a successful [async_write]: the oldest one pending has put its
    buffer on the wire.  [pop_front] of an empty queue does not happen
    ([in_flight_ok]). *)
Definition on_written (c : TcpConnection) : TcpConnection :=
  match tc_writes c, tc_write_queue c with
  | data :: writes, _ :: q =>
    let c := set_write c writes q (tc_sent c ++ [data]) in
    if negb (bool_decide (q = [])) then DoWrite c else c
  | _, _ => c
  end.

(** The handler of a failed [async_write], before the callback. *)
Definition on_write_error (c : TcpConnection) : TcpConnection :=
  set_write c (tail (tc_writes c)) (tc_write_queue c) (tc_sent c).

(** The handler of [async_read_some] up to [Decode]: the packets to dispatch, or
    the exception; [None] never happens ([on_read_decodes]). *)
Definition on_read (data : bytes) (c : TcpConnection) : option (result (list Packet) * TcpConnection) :=
  let buf := tc_read_buffer c ++ data in
  match Decode buf with
  | Some (r, rest) => Some (r, set_read c false rest)
  | None => None
  end.

Lemma on_read_decodes data c : is_Some (on_read data c).
Proof.
  unfold on_read. destruct (decode_loop_decodes (S (length (tc_read_buffer c ++ data))) (tc_read_buffer c ++ data) [])
    as (r & rest & Hr & _); [lia|].
  rewrite (proj2 (Decode_decodes _ _ _) Hr). eauto.
Qed.

(** ** Sending *)

(** What can happen on the sending side, in any order. *)
Inductive send_event := EvSend (packet : Packet) | EvRun | EvWritten | EvClose | EvWriteError.

(** A posted exception kills the process: there is no next state. *)
Definition send_step (c : TcpConnection) (e : send_event) : option TcpConnection :=
  match e with
  | EvSend p => Some (TcpConnection_Send p c)
  | EvClose => Some (TcpConnection_Close c)
  | EvRun =>
    match tc_posted c with
    | [] => Some c
    | TSend p :: ts => match run_send p (set_posted c ts) with Ok c => Some c | Throw _ => None end
    | TClose :: ts => Some (run_close (set_posted c ts))
    end
  | EvWritten => Some (if tc_writing c then on_written c else c)
  | EvWriteError => Some (if tc_writing c then on_write_error c else c)
  end.

Fixpoint send_steps (c : TcpConnection) (es : list send_event) : option TcpConnection :=
  match es with
  | [] => Some c
  | e :: es => match send_step c e with Some c => send_steps c es | None => None end
  end.

(** The packets given to [Send], in order. *)
Fixpoint sends (es : list send_event) : list Packet :=
  match es with
  | [] => []
  | EvSend p :: es => p :: sends es
  | _ :: es => sends es
  end.

Definition posted_packets (ts : list Task) : list Packet :=
  omap (fun t => match t with TSend p => Some p | TClose => None end) ts.

(** At most one write is pending, of the front of the queue. *)
Definition in_flight_ok (c : TcpConnection) : Prop :=
  tc_writes c = [] \/ exists front q, tc_write_queue c = front :: q /\ tc_writes c = [front].

(** What was sent so far splits into the packets whose handler has run, all
    encodable, written or queued in order, and the posted ones. *)
Definition in_order (c : TcpConnection) (ps : list Packet) : Prop :=
  (exists ran, ps = ran ++ posted_packets (tc_posted c)
    /\ Forall encodable ran /\ tc_sent c ++ tc_write_queue c = frame <$> ran)
  /\ in_flight_ok c.

(** What waits is being written. *)
Definition awake (c : TcpConnection) : Prop := tc_write_queue c <> [] -> tc_writes c <> [].

Lemma Encode_Ok p data : packet_wf p -> Encode p = Ok data -> encodable p /\ data = frame p.
Proof.
  intros Hwf He. destruct (decide (Z.of_nat (length (body p)) <= kMaxPacketLength - kPacketMetaSize)) as [Hle|Hgt].
  - assert (Henc : encodable p) by (by split). rewrite (Encode_frame p Henc) in He. by simplify_eq.
  - rewrite Encode_too_large in He; [done|lia].
Qed.

Lemma DoWrite_queue c :
  tc_sent (DoWrite c) = tc_sent c /\ tc_write_queue (DoWrite c) = tc_write_queue c
  /\ tc_posted (DoWrite c) = tc_posted c.
Proof. unfold DoWrite. by destruct (tc_write_queue c) eqn:E; rewrite ?E. Qed.

(** Starting a write when none is pending. *)
Lemma DoWrite_starts c : tc_writes c = [] -> in_flight_ok (DoWrite c) /\ awake (DoWrite c).
Proof.
  intros Hw. unfold DoWrite, in_flight_ok, awake. destruct (tc_write_queue c) as [|front q] eqn:E; cbn.
  - rewrite Hw. by split; [left|].
  - rewrite Hw. by split; [right; exists front, q|].
Qed.

Lemma in_flight_empty c : in_flight_ok c -> tc_write_queue c = [] -> tc_writes c = [].
Proof. intros [?|(f & q & Hq & _)] He; [done|congruence]. Qed.

Lemma run_send_order p c c' :
  packet_wf p -> run_send p c = Ok c' ->
  tc_sent c' = tc_sent c /\ tc_write_queue c' = tc_write_queue c ++ [frame p] /\ tc_posted c' = tc_posted c
  /\ encodable p.
Proof.
  intros Hwf. unfold run_send. destruct (Encode p) as [data|] eqn:He; [|done]. cbn.
  apply Encode_Ok in He as [Henc ->]; [|done]. intros [= <-].
  case_match; [|done]. destruct (DoWrite_queue (set_write c (tc_writes c) (tc_write_queue c ++ [frame p]) (tc_sent c)))
    as (-> & -> & ->). done.
Qed.

Lemma run_send_flight p c c' :
  in_flight_ok c -> run_send p c = Ok c' -> in_flight_ok c' /\ (awake c -> awake c').
Proof.
  intros Hok. unfold run_send. destruct (Encode p) as [data|]; [|done]. cbn. intros [= <-].
  case_bool_decide as Hq; cbn [negb].
  - destruct (DoWrite_starts (set_write c (tc_writes c) (tc_write_queue c ++ [data]) (tc_sent c))) as [? ?]; [|done].
    by apply (in_flight_empty c).
  - split; [|intros Ha _; by apply Ha].
    destruct Hok as [?|(f & q & Hf & Hw)]; [by left|right]. exists f, (q ++ [data]). cbn. by rewrite Hf.
Qed.

Lemma on_written_order c :
  in_flight_ok c ->
  tc_sent (on_written c) ++ tc_write_queue (on_written c) = tc_sent c ++ tc_write_queue c
  /\ tc_posted (on_written c) = tc_posted c.
Proof.
  unfold on_written. intros [->|(f & q & Hq & ->)]; [done|]. rewrite Hq.
  case_match; [destruct (DoWrite_queue (set_write c [] q (tc_sent c ++ [f]))) as (-> & -> & ->)|];
    cbn; by rewrite <- app_assoc.
Qed.

Lemma on_written_flight c : in_flight_ok c -> in_flight_ok (on_written c) /\ (awake c -> awake (on_written c)).
Proof.
  unfold on_written. intros [Hw|(f & q & Hq & Hw)]; rewrite Hw; [by split; [left|]|]. rewrite Hq.
  case_bool_decide as He; cbn [negb]; [|by destruct (DoWrite_starts (set_write c [] q (tc_sent c ++ [f])))].
  split; [by left|]. intros _ Hn. by destruct Hn.
Qed.

Lemma posted_packets_app t1 t2 : posted_packets (t1 ++ t2) = posted_packets t1 ++ posted_packets t2.
Proof. apply omap_app. Qed.

Lemma send_step_order c e c' ps :
  in_order c ps -> Forall packet_wf ps -> (forall p, e = EvSend p -> packet_wf p) ->
  send_step c e = Some c' -> in_order c' (ps ++ sends [e]) /\ Forall packet_wf (ps ++ sends [e]).
Proof.
  intros [(ran & -> & Henc & Hq) Hfl] Hwf He Hs.
  split; [|apply Forall_app; split; [done|]; destruct e; constructor; by auto].
  destruct e as [p| | | |]; cbn [sends]; rewrite ?app_nil_r.
  - simplify_eq/=. split; [|exact Hfl]. exists ran. cbn. rewrite posted_packets_app, app_assoc. done.
  - cbn in Hs. destruct (tc_posted c) as [|[p|] ts] eqn:Hp; simplify_eq.
    + split; [|done]. exists ran. by rewrite Hp.
    + destruct (run_send p (set_posted c ts)) as [c1|] eqn:Hr; simplify_eq.
      apply Forall_app in Hwf as [_ Hwf]. cbn in Hwf. apply Forall_cons in Hwf as [Hpw _].
      split; [|exact (proj1 (run_send_flight p (set_posted c ts) _ Hfl Hr))].
      apply run_send_order in Hr as (Hr1 & Hr2 & Hr3 & Hr4); [|done].
      exists (ran ++ [p]). rewrite Hr1, Hr2, Hr3. cbn [tc_posted set_posted tc_sent tc_write_queue].
      split_and!; [cbn; by rewrite <- app_assoc|by apply Forall_app_2, Forall_singleton|].
      rewrite app_assoc, Hq, fmap_app. done.
    + split; [|exact Hfl]. exists ran. done.
  - injection Hs as <-. destruct (tc_writing c); [|split; [by exists ran|exact Hfl]].
    split; [|by apply on_written_flight].
    destruct (on_written_order c Hfl) as [Ho1 Ho2]. exists ran. by rewrite Ho1, Ho2.
  - cbn in Hs. simplify_eq. split; [|exact Hfl]. exists ran. cbn. rewrite posted_packets_app. cbn. by rewrite app_nil_r.
  - injection Hs as <-. destruct (tc_writing c); [|split; [by exists ran|exact Hfl]].
    split; [by exists ran|]. left. destruct Hfl as [Hw|(? & ? & _ & Hw)]; cbn; by rewrite Hw.
Qed.

Lemma send_step_awake c e c' :
  in_flight_ok c -> e <> EvWriteError -> awake c -> send_step c e = Some c' -> awake c'.
Proof.
  intros Hfl He Ha Hs. destruct e; cbn in Hs; simplify_eq; try done.
  - destruct (tc_posted c) as [|[p|] ts] eqn:Hp; simplify_eq; [done| |done].
    destruct (run_send p (set_posted c ts)) as [c1|] eqn:Hr; simplify_eq.
    eapply (run_send_flight p (set_posted c ts)); [exact Hfl|done|exact Ha].
  - case_match; [|done]. by apply on_written_flight.
Qed.

Lemma sends_app es1 es2 : sends (es1 ++ es2) = sends es1 ++ sends es2.
Proof. induction es1 as [|[] es1 IH]; cbn; [done| |done..]. by rewrite IH. Qed.

Lemma send_steps_order c es c' ps :
  in_order c ps -> Forall packet_wf ps -> Forall packet_wf (sends es) ->
  send_steps c es = Some c' ->
  in_order c' (ps ++ sends es) /\ (EvWriteError ∉ es -> awake c -> awake c').
Proof.
  revert c ps. induction es as [|e es IH]; intros c ps Ho Hwf Hwfs; cbn [send_steps].
  { intros [= <-]. cbn. by rewrite app_nil_r. }
  destruct (send_step c e) as [c1|] eqn:Hs; [|done]. intros Hrun.
  change (sends (e :: es)) with (sends ([e] ++ es)) in Hwfs |- *. rewrite sends_app in Hwfs |- *.
  apply Forall_app in Hwfs as [He Hes].
  assert (Hp : forall p, e = EvSend p -> packet_wf p)
    by (intros p ->; cbn in He; by apply Forall_cons in He as []).
  destruct (send_step_order _ _ _ _ Ho Hwf Hp Hs) as [Ho1 Hwf1].
  destruct (IH _ _ Ho1 Hwf1 Hes Hrun) as [Ho2 Ha]. rewrite app_assoc. split; [done|].
  intros [Hne Hn]%not_elem_of_cons Haw. apply Ha; [done|]. eapply send_step_awake; [apply Ho|done|done|done].
Qed.

(** What is on the wire, in the queue and posted, when everything went in order. *)
Lemma in_order_split c ps :
  in_order c ps ->
  exists delivered waiting, ps = delivered ++ waiting ++ posted_packets (tc_posted c)
    /\ tc_sent c = frame <$> delivered /\ tc_write_queue c = frame <$> waiting
    /\ Forall encodable delivered.
Proof.
  intros [(ran & -> & Henc & Hq) _].
  exists (take (length (tc_sent c)) ran), (drop (length (tc_sent c)) ran). split_and!.
  - by rewrite app_assoc, take_drop.
  - by rewrite fmap_take, <- Hq, take_app_length.
  - by rewrite fmap_drop, <- Hq, drop_app_length.
  - by apply Forall_take.
Qed.

(** C28: Whatever the interleaving of [Send]s from other threads, posted handlers,
    completed and failed writes and [Close]: what was given to [Send] is, in the
    order of the calls and nothing lost, doubled or cut, the packets on the wire,
    the packets in the queue and those still posted; the peer's decoder reads
    exactly the first ones.  At most one write is pending, and its buffer is the
    front of the queue.  As long as no write failed a queue that is not empty is
    being written, so when nothing is posted or pending everything has been
    delivered. *)
Theorem Send_delivers_in_order (conn_id : Z) (es : list send_event) (c : TcpConnection)
    (Hwf : Forall packet_wf (sends es))
    (Hrun : send_steps (TcpConnection_new conn_id) es = Some c) :
  exists delivered waiting, sends es = delivered ++ waiting ++ posted_packets (tc_posted c)
    /\ tc_sent c = frame <$> delivered /\ tc_write_queue c = frame <$> waiting
    /\ Decode (concat (tc_sent c)) = Some (Ok (with_length <$> delivered), [])
    /\ (length (tc_writes c) <= 1)%nat
    /\ (forall data, data ∈ tc_writes c -> head (tc_write_queue c) = Some data)
    /\ (EvWriteError ∉ es -> tc_writes c = [] -> waiting = []
         /\ (tc_posted c = [] -> delivered = sends es)).
Proof.
  assert (Hnew : in_order (TcpConnection_new conn_id) []) by (split; [exists []; by repeat constructor|by left]).
  destruct (send_steps_order _ _ _ _ Hnew (Forall_nil_2 _) Hwf Hrun) as [Ho Ha].
  destruct (in_order_split _ _ Ho) as (delivered & waiting & Hps & Hsent & Hq & Henc). destruct Ho as [_ Hfl].
  cbn in Hps. exists delivered, waiting. split_and!; [done..| | | |].
  - rewrite Hsent, <- (app_nil_r (concat _)). apply Decode_decodes.
    pose proof (decodes_frames delivered [] (Ok []) []) as Hd.
    cbn in Hd. rewrite (app_nil_r (with_length <$> _)) in Hd. apply Hd; [done|]. by constructor.
  - by destruct Hfl as [->|(? & ? & _ & ->)]; cbn; lia.
  - intros data. destruct Hfl as [->|(? & ? & -> & ->)]; [by intros ?%elem_of_nil|by intros ->%list_elem_of_singleton].
  - intros Hn Hw. assert (Hz : waiting = []).
    { destruct waiting as [|p waiting]; [done|]. exfalso. apply (Ha Hn); [by intros []|by rewrite Hq|done]. }
    split; [done|]. intros Hp. by rewrite Hps, Hz, Hp, app_nil_r.
Qed.

Definition net_events : list send_event :=
  [EvSend packet_a; EvSend packet_b; EvRun; EvRun; EvWritten; EvClose; EvSend packet_a; EvRun].
Definition net_final : TcpConnection :=
  default (TcpConnection_new 1) (send_steps (TcpConnection_new 1) net_events).

Lemma Send_delivers_in_order_witness :
  tc_sent net_final = [frame packet_a] /\ tc_writes net_final = [frame packet_b]
  /\ exists delivered waiting, sends net_events = delivered ++ waiting ++ posted_packets (tc_posted net_final)
    /\ tc_sent net_final = frame <$> delivered
    /\ Decode (concat (tc_sent net_final)) = Some (Ok (with_length <$> delivered), []).
Proof.
  split; [vm_compute; reflexivity|]. split; [vm_compute; reflexivity|].
  destruct (Send_delivers_in_order 1 net_events net_final) as (delivered & waiting & H1 & H2 & _ & H3 & _).
  - repeat constructor; unfold is_u32; cbn; lia.
  - vm_compute. reflexivity.
  - exists delivered, waiting. split; [exact H1|]. split; [exact H2|exact H3].
Defined.
