(* ===== verification/StdString.v ===== *)
(** * StdString: the string functions of the C++ library the server uses

    [std::to_string], [std::stoll], [std::stoi], [std::strtoll], [std::atoi] and
    [find]/[substr]-like splitting, on [string] (a [std::string] is a sequence of
    chars).  Parsing skips white space, takes an optional sign and the longest
    run of digits; [stoll]/[stoi] throw when there is no digit or the value is
    out of range, [strtoll] saturates and returns 0 without digits. *)
From S2P Require Import Prelude.
From Stdlib Require Import Ascii.
Local Open Scope string_scope.
Local Open Scope Z_scope.

Definition is_digit (c : ascii) : bool :=
  let n := nat_of_ascii c in (48 <=? n)%nat && (n <=? 57)%nat.
Definition digit_val (c : ascii) : Z := Z.of_nat (nat_of_ascii c) - 48.
Definition digit_char (d : Z) : ascii := ascii_of_nat (Z.to_nat (d + 48)).
Definition is_space (c : ascii) : bool :=
  let n := nat_of_ascii c in (n =? 32)%nat || ((9 <=? n)%nat && (n <=? 13)%nat).

(** Decimal digits of a non-negative number; [Z.log2 n + 1] digits are enough. *)
Fixpoint digits (fuel : nat) (n : Z) (acc : string) : string :=
  match fuel with
  | O => acc
  | S fuel =>
    if n <? 10 then String (digit_char n) acc
    else digits fuel (n / 10) (String (digit_char (n `mod` 10)) acc)
  end.

Definition to_string (z : Z) : string :=
  let ds := digits (S (Z.to_nat (Z.log2 (Z.abs z)))) (Z.abs z) "" in
  if z <? 0 then String "-" ds else ds.

(** The value of the digits at the head of a string, and the rest of it. *)
Fixpoint take_digits (s : string) (acc : Z) : Z * string :=
  match s with
  | String c s' => if is_digit c then take_digits s' (acc * 10 + digit_val c) else (acc, s)
  | EmptyString => (acc, s)
  end.

Definition starts_digit (s : string) : bool :=
  match s with String c _ => is_digit c | EmptyString => false end.

Fixpoint skip_space (s : string) : string :=
  match s with
  | String c s' => if is_space c then skip_space s' else s
  | EmptyString => s
  end.

(** The common part of the [strto*] family: [None] when no conversion is done. *)
Definition strto (s : string) : option Z :=
  match skip_space s with
  | String "-" s' => if starts_digit s' then Some (- (take_digits s' 0).1) else None
  | String "+" s' => if starts_digit s' then Some (take_digits s' 0).1 else None
  | s' => if starts_digit s' then Some (take_digits s' 0).1 else None
  end.

Definition stoll (s : string) : result Z :=
  match strto s with
  | None => Throw invalid_argument
  | Some z => if (z <? int64_min) || (int64_max <? z) then Throw out_of_range else Ok z
  end.

Definition stoi (s : string) : result Z :=
  match strto s with
  | None => Throw invalid_argument
  | Some z => if (z <? int32_min) || (int32_max <? z) then Throw out_of_range else Ok z
  end.

Definition strtoll (s : string) : Z :=
  match strto s with
  | None => 0
  | Some z => Z.max int64_min (Z.min int64_max z)
  end.

(** [atoi] is [(int) strtol]; the conversion keeps the low 32 bits. *)
Definition atoi (s : string) : Z := wrap_i32 (strtoll s).

(** ** Digits *)
Lemma digit_char_val d : 0 <= d < 10 -> is_digit (digit_char d) = true /\ digit_val (digit_char d) = d.
Proof.
  intros Hd. unfold is_digit, digit_val, digit_char.
  rewrite nat_ascii_embedding by lia.
  split; [|lia]. apply andb_true_iff; split; apply Nat.leb_le; lia.
Qed.

Lemma take_digits_digits fuel n acc k :
  0 <= n -> n < 2 ^ Z.of_nat fuel ->
  exists m, take_digits (digits fuel n acc) k = take_digits acc (k * m + n).
Proof.
  revert n acc k. induction fuel as [|fuel IH]; intros n acc k Hn Hf.
  - exists 1. cbn in *. f_equal. lia.
  - cbn [digits]. destruct (Z.ltb_spec n 10).
    + exists 10. destruct (digit_char_val n) as [Hd Hv]; [lia|].
      cbn [take_digits]. rewrite Hd, Hv. f_equal; lia.
    + destruct (IH (n / 10) (String (digit_char (n `mod` 10)) acc) k) as (m & Hm).
      { apply Z.div_pos; lia. }
      { rewrite Nat2Z.inj_succ, Z.pow_succ_r in Hf by lia.
        apply Z.div_lt_upper_bound; lia. }
      exists (m * 10). rewrite Hm.
      destruct (digit_char_val (n `mod` 10)) as [Hd Hv]; [apply Z.mod_pos_bound; lia|].
      cbn [take_digits]. rewrite Hd, Hv. f_equal. Z.to_euclidean_division_equations. lia.
Qed.

Lemma starts_digit_digits fuel n acc :
  0 <= n -> (fuel <> 0)%nat \/ starts_digit acc = true -> starts_digit (digits fuel n acc) = true.
Proof.
  revert n acc. induction fuel as [|fuel IH]; intros n acc Hn Hacc; cbn.
  - by destruct Hacc.
  - destruct (Z.ltb_spec n 10); cbn.
    + by apply digit_char_val.
    + apply IH; [apply Z.div_pos; lia|]. right. apply digit_char_val, Z.mod_pos_bound. lia.
Qed.

(** A string that starts with a digit is converted from its first character. *)
Lemma strto_starts_digit s : starts_digit s = true -> strto s = Some (take_digits s 0).1.
Proof.
  destruct s as [|[[] [] [] [] [] [] [] []] s]; intros H; try discriminate H; reflexivity.
Qed.

Lemma strto_minus s :
  starts_digit s = true -> strto (String "-" s) = Some (- (take_digits s 0).1).
Proof. intros H. unfold strto. cbn [skip_space is_space]. simpl. by rewrite H. Qed.

Lemma take_digits_stop s k : starts_digit s = false -> take_digits s k = (k, s).
Proof. destruct s as [|c s]; cbn; [done|]. by intros ->. Qed.

Lemma digits_app fuel n acc : digits fuel n acc = digits fuel n "" +:+ acc.
Proof.
  enough (forall acc1, digits fuel n (acc1 +:+ acc) = digits fuel n acc1 +:+ acc) as H by apply (H "").
  revert n. induction fuel as [|fuel IH]; intros n acc1; cbn; [done|].
  destruct (n <? 10); [done|]. apply (IH _ (String _ acc1)).
Qed.

Lemma digit_fuel z : Z.abs z < 2 ^ Z.of_nat (S (Z.to_nat (Z.log2 (Z.abs z)))).
Proof.
  destruct (decide (z = 0)) as [->|]; [cbn; lia|].
  pose proof (Z.log2_nonneg (Z.abs z)).
  rewrite Nat2Z.inj_succ, Z2Nat.id by done.
  apply Z.log2_spec. lia.
Qed.

(** Printing then parsing, whatever non-digit follows the number. *)
Lemma strto_to_string z rest :
  starts_digit rest = false -> strto (to_string z +:+ rest) = Some z.
Proof.
  intros Hrest. unfold to_string. set (f := S _).
  assert (take_digits (digits f (Z.abs z) "" +:+ rest) 0 = (Z.abs z, rest)) as Hv.
  { rewrite <- digits_app.
    destruct (take_digits_digits f (Z.abs z) rest 0) as (m & ->); [lia|apply digit_fuel|].
    rewrite take_digits_stop by done. done. }
  assert (starts_digit (digits f (Z.abs z) "" +:+ rest) = true) as Hd.
  { rewrite <- digits_app. apply starts_digit_digits; [lia|]. left. by unfold f. }
  destruct (Z.ltb_spec z 0).
  - change (strto (String "-" (digits f (Z.abs z) "" +:+ rest)) = Some z).
    rewrite strto_minus, Hv by done. cbn. f_equal. lia.
  - rewrite strto_starts_digit, Hv by done. cbn. f_equal. lia.
Qed.

Lemma string_app_nil s : s +:+ "" = s.
Proof. induction s as [|c s IH]; [done|]. change (String c (s +:+ "") = String c s). by rewrite IH. Qed.

Lemma strto_to_string_nil z : strto (to_string z) = Some z.
Proof. rewrite <- (string_app_nil (to_string z)). by apply strto_to_string. Qed.

Lemma stoll_to_string z : is_i64 z -> stoll (to_string z) = Ok z.
Proof.
  unfold is_i64, stoll. rewrite strto_to_string_nil. intros.
  by rewrite !(proj2 (Z.ltb_ge _ _)) by lia.
Qed.

Lemma stoi_to_string z : is_i32 z -> stoi (to_string z) = Ok z.
Proof.
  unfold is_i32, stoi. rewrite strto_to_string_nil. intros.
  by rewrite !(proj2 (Z.ltb_ge _ _)) by lia.
Qed.

Lemma strtoll_to_string z : is_i64 z -> strtoll (to_string z) = z.
Proof. unfold is_i64, strtoll. rewrite strto_to_string_nil. lia. Qed.

Lemma atoi_to_string z : is_i32 z -> atoi (to_string z) = z.
Proof.
  intros Hz. unfold atoi. rewrite strtoll_to_string; [by apply wrap_i32_id|].
  unfold is_i32, is_i64, int32_min, int32_max, int64_min, int64_max in *. lia.
Qed.

#[export] Instance to_string_inj : Inj (=) (=) to_string.
Proof.
  intros x y H. pose proof (strto_to_string_nil x) as Hx. rewrite H, strto_to_string_nil in Hx. congruence.
Qed.

#[export] Hint Resolve stoll_to_string stoi_to_string strtoll_to_string atoi_to_string : game.

Example to_string_neg : to_string (-105) = "-105".
Proof. reflexivity. Qed.
Example strtoll_trail : strtoll " 42abc" = 42.
Proof. reflexivity. Qed.
