(* ===== verification/Float32.v ===== *)
(** * Float32: the single-precision arithmetic of the battle

    A C++ [float] is an IEEE binary32 value, modelled with the Standard
    Library's executable [SpecFloat] at precision 24 and exponent bound 128
    (x86-64: every operation is rounded to single precision, to nearest even).
    Only the operations [game_room.cpp] uses are defined: [+], [-], [*], [<],
    [<=], [std::clamp] and [std::hypot]. *)
From S2P Require Import Prelude.
From Stdlib Require Import Floats.SpecFloat.
Local Open Scope Z_scope.

Notation float32 := spec_float.

#[export] Instance float32_eq_dec : EqDecision float32.
Proof. solve_decision. Defined.

Definition f32_add : float32 -> float32 -> float32 := SFadd 24 128.
Definition f32_sub : float32 -> float32 -> float32 := SFsub 24 128.
Definition f32_mul : float32 -> float32 -> float32 := SFmul 24 128.
Definition f32_ltb : float32 -> float32 -> bool := SFltb.
Definition f32_leb : float32 -> float32 -> bool := SFleb.

(** The float nearest to an integer: [f32_of_Z 8] is [8.0f]. *)
Definition f32_of_Z (z : Z) : float32 := binary_normalize 24 128 z 0 false.
Definition f32_neg : float32 -> float32 := SFopp.

(** [0.6f], that is 10066330 * 2^-24. *)
Definition f32_0_6 : float32 := S754_finite false 10066330 (-24).

(** [std::clamp(v, lo, hi)] is [v < lo ? lo : hi < v ? hi : v]. *)
Definition clamp (v lo hi : float32) : float32 :=
  if f32_ltb v lo then lo else if f32_ltb hi v then hi else v.

(** Conversions between single and double precision. *)
Definition cond_Zopp (s : bool) (m : Z) : Z := if s then - m else m.
Definition convert (prec emax : Z) (x : float32) : spec_float :=
  match x with
  | S754_finite s m e => binary_normalize prec emax (cond_Zopp s (Zpos m)) e s
  | _ => x
  end.
Definition to_double : float32 -> spec_float := convert 53 1024.
Definition of_double : spec_float -> float32 := convert 24 128.

Definition is_inf (x : float32) : bool :=
  match x with S754_infinity _ => true | _ => false end.
Definition is_nan (x : float32) : bool :=
  match x with S754_nan => true | _ => false end.

(** [std::hypot] on floats: an infinite argument gives infinity, otherwise a NaN
    gives NaN; finite arguments are squared and added in double precision, where
    the squares are exact, and the rounded root is narrowed. *)
Definition hypot (x y : float32) : float32 :=
  if is_inf x || is_inf y then S754_infinity false
  else if is_nan x || is_nan y then S754_nan
  else
    let dx := to_double x in
    let dy := to_double y in
    of_double (SFsqrt 53 1024 (SFadd 53 1024 (SFmul 53 1024 dx dx) (SFmul 53 1024 dy dy))).

(** ** NaN propagation *)
Lemma f32_add_nan_l x : f32_add S754_nan x = S754_nan.
Proof. by destruct x. Qed.
Lemma f32_add_nan_r x : f32_add x S754_nan = S754_nan.
Proof. by destruct x. Qed.
Lemma f32_sub_nan_l x : f32_sub S754_nan x = S754_nan.
Proof. by destruct x. Qed.
Lemma f32_sub_nan_r x : f32_sub x S754_nan = S754_nan.
Proof. by destruct x. Qed.
Lemma f32_mul_nan_l x : f32_mul S754_nan x = S754_nan.
Proof. by destruct x. Qed.
Lemma f32_leb_nan_l x : f32_leb S754_nan x = false.
Proof. by destruct x. Qed.
Lemma clamp_nan lo hi : clamp S754_nan lo hi = S754_nan.
Proof. unfold clamp, f32_ltb. by destruct lo, hi. Qed.

(** The distance to a point whose abscissa is NaN is NaN or infinite, so it is
    within no finite radius. *)
Lemma f32_leb_hypot_nan y r : is_inf r = false -> f32_leb (hypot S754_nan y) r = false.
Proof.
  unfold hypot. intros Hr. destruct (is_inf S754_nan || is_inf y); cbn; [by destruct r as [|[]| |[]]|].
  by destruct r.
Qed.

Example hypot_3_4 : hypot (f32_of_Z 3) (f32_of_Z 4) = f32_of_Z 5.
Proof. reflexivity. Qed.
Example clamp_above : clamp (f32_of_Z 7) (f32_neg (f32_of_Z 1)) (f32_of_Z 1) = f32_of_Z 1.
Proof. reflexivity. Qed.

Create Rewrite HintDb float_nan.
#[export] Hint Rewrite f32_add_nan_l f32_add_nan_r f32_sub_nan_l f32_sub_nan_r
  f32_mul_nan_l f32_leb_nan_l clamp_nan : float_nan.
