(* ===== verification/Messages.v ===== *)
(** * Messages: message ids, protobuf messages, and their packets

    Models [protocol/message_id.h], [protocol/proto_helper.h/.cpp] and the
    message types of [proto/*.proto] the server builds and parses.  The
    protobuf runtime (serialisation and parsing of a message) is not code of the
    repository: it is the class [Protobuf], whose laws are the documented ones,
    the round trip of the values the format holds and the widths of parsed
    integers.  [ParseFromString] of a message type is a parse at that type
    followed by the projection on its constructor. *)
From S2P Require Import Prelude Wire Float32.
From Stdlib Require Import Floats.SpecFloat.
Local Open Scope Z_scope.

(** ** Message ids (message_id.h) *)
Definition MSG_LOGIN_REQ : Z := 1001.
Definition MSG_LOGIN_RESP : Z := 1002.
Definition MSG_HEARTBEAT_REQ : Z := 1003.
Definition MSG_HEARTBEAT_RESP : Z := 1004.
Definition MSG_RECONNECT_REQ : Z := 1005.
Definition MSG_RECONNECT_RESP : Z := 1006.
Definition MSG_MATCH_REQ : Z := 2001.
Definition MSG_MATCH_RESP : Z := 2002.
Definition MSG_MATCH_SUCCESS_NOTIFY : Z := 2003.
Definition MSG_MATCH_CANCEL_REQ : Z := 2004.
Definition MSG_MATCH_CANCEL_RESP : Z := 2005.
Definition MSG_READY_REQ : Z := 3001.
Definition MSG_READY_NOTIFY : Z := 3002.
Definition MSG_ROOM_STATE_NOTIFY : Z := 3005.
Definition MSG_LEAVE_ROOM_REQ : Z := 3006.
Definition MSG_LEAVE_ROOM_RESP : Z := 3007.
Definition MSG_PLAYER_LEAVE_ROOM_NOTIFY : Z := 3008.
Definition MSG_INPUT_REQ : Z := 4001.
Definition MSG_GAME_STATE_NOTIFY : Z := 4002.
Definition MSG_GAME_OVER_NOTIFY : Z := 4003.
Definition MSG_RANK_REQ : Z := 5001.
Definition MSG_RANK_RESP : Z := 5002.

(** ** Messages (proto/*.proto) *)
Record PlayerInput := mkPlayerInput {
  pi_player_id : Z; pi_input_seq : Z; pi_move_x : float32; pi_move_y : float32; pi_fire : bool
}.
Record PlayerState := mkPlayerState {
  ps_player_id : Z; ps_x : float32; ps_y : float32; ps_hp : Z
}.
Record RankItem := mkRankItem {
  ri_player_id : Z; ri_name : string; ri_score : Z; ri_rank : Z
}.

(** A protobuf message of any of the types; the fields are in the order of the
    [.proto] files. *)
Inductive Message :=
  | LoginRequest (account token : string)
  | LoginResponse (code player_id : Z) (name session_token : string)
  | HeartbeatRequest (client_time_ms : Z)
  | HeartbeatResponse (server_time_ms : Z)
  | ReconnectRequest (player_id : Z) (session_token : string)
  | ReconnectResponse (code room_id : Z)
  | MatchRequest (player_id : Z)
  | MatchResponse (code : Z) (message : string)
  | MatchSuccessNotify (room_id : Z) (player_ids : list Z)
  | MatchCancelRequest (player_id : Z)
  | MatchCancelResponse (code : Z) (message : string)
  | ReadyRequest (ready : bool)
  | ReadyNotify (player_id : Z) (ready : bool)
  | RoomStateNotify (room_id state : Z) (player_ids : list Z)
  | LeaveRoomRequest (room_id : Z)
  | LeaveRoomResponse (code : Z) (message : string)
  | PlayerLeaveRoomNotify (room_id player_id reason : Z)
  | InputRequest (input : PlayerInput)
  | GameStateNotify (room_id frame_id : Z) (players : list PlayerState)
  | GameOverNotify (room_id winner_id : Z) (loser_ids : list Z)
  | RankRequest (offset limit : Z)
  | RankResponse (items : list RankItem).

(** The type of a message: protobuf parses a byte string at a given type. *)
Inductive MessageType :=
  | TLoginRequest | TLoginResponse | THeartbeatRequest | THeartbeatResponse
  | TReconnectRequest | TReconnectResponse | TMatchRequest | TMatchResponse
  | TMatchSuccessNotify | TMatchCancelRequest | TMatchCancelResponse
  | TReadyRequest | TReadyNotify | TRoomStateNotify | TLeaveRoomRequest
  | TLeaveRoomResponse | TPlayerLeaveRoomNotify | TInputRequest
  | TGameStateNotify | TGameOverNotify | TRankRequest | TRankResponse.

Definition type_of (m : Message) : MessageType :=
  match m with
  | LoginRequest _ _ => TLoginRequest | LoginResponse _ _ _ _ => TLoginResponse
  | HeartbeatRequest _ => THeartbeatRequest | HeartbeatResponse _ => THeartbeatResponse
  | ReconnectRequest _ _ => TReconnectRequest | ReconnectResponse _ _ => TReconnectResponse
  | MatchRequest _ => TMatchRequest | MatchResponse _ _ => TMatchResponse
  | MatchSuccessNotify _ _ => TMatchSuccessNotify
  | MatchCancelRequest _ => TMatchCancelRequest
  | MatchCancelResponse _ _ => TMatchCancelResponse
  | ReadyRequest _ => TReadyRequest | ReadyNotify _ _ => TReadyNotify
  | RoomStateNotify _ _ _ => TRoomStateNotify | LeaveRoomRequest _ => TLeaveRoomRequest
  | LeaveRoomResponse _ _ => TLeaveRoomResponse
  | PlayerLeaveRoomNotify _ _ _ => TPlayerLeaveRoomNotify
  | InputRequest _ => TInputRequest | GameStateNotify _ _ _ => TGameStateNotify
  | GameOverNotify _ _ _ => TGameOverNotify | RankRequest _ _ => TRankRequest
  | RankResponse _ => TRankResponse
  end.

#[export] Instance playerinput_eq_dec : EqDecision PlayerInput.
Proof. solve_decision. Defined.
#[export] Instance playerstate_eq_dec : EqDecision PlayerState.
Proof. solve_decision. Defined.
#[export] Instance rankitem_eq_dec : EqDecision RankItem.
Proof. solve_decision. Defined.
#[export] Instance message_eq_dec : EqDecision Message.
Proof. solve_decision. Defined.

(** ** The protobuf runtime *)

(** The [int64] and [int32] fields of a message, its [string] and its [float]
    fields, in order. *)
Definition ints64 (m : Message) : list Z :=
  match m with
  | LoginResponse _ p _ _ | ReadyNotify p _ => [p]
  | HeartbeatRequest t | HeartbeatResponse t => [t]
  | ReconnectRequest p _ | MatchRequest p | MatchCancelRequest p => [p]
  | ReconnectResponse _ r | LeaveRoomRequest r => [r]
  | MatchSuccessNotify r ps | RoomStateNotify r _ ps => r :: ps
  | PlayerLeaveRoomNotify r p _ => [r; p]
  | InputRequest i => [pi_player_id i; pi_input_seq i]
  | GameStateNotify r f ps => r :: f :: (ps_player_id <$> ps)
  | GameOverNotify r w ls => r :: w :: ls
  | RankResponse items => ri_player_id <$> items
  | _ => []
  end.
Definition ints32 (m : Message) : list Z :=
  match m with
  | LoginResponse c _ _ _ | ReconnectResponse c _ | MatchResponse c _ | MatchCancelResponse c _
  | LeaveRoomResponse c _ => [c]
  | RoomStateNotify _ s _ => [s]
  | PlayerLeaveRoomNotify _ _ r => [r]
  | GameStateNotify _ _ ps => ps_hp <$> ps
  | RankRequest o l => [o; l]
  | RankResponse items => (ri_score <$> items) ++ (ri_rank <$> items)
  | _ => []
  end.
Definition strings (m : Message) : list string :=
  match m with
  | LoginRequest a t => [a; t]
  | LoginResponse _ _ n t => [n; t]
  | ReconnectRequest _ t => [t]
  | MatchResponse _ s | MatchCancelResponse _ s | LeaveRoomResponse _ s => [s]
  | RankResponse items => ri_name <$> items
  | _ => []
  end.
Definition floats (m : Message) : list float32 :=
  match m with
  | InputRequest i => [pi_move_x i; pi_move_y i]
  | GameStateNotify _ _ ps => (ps_x <$> ps) ++ (ps_y <$> ps)
  | _ => []
  end.

(** The integers of a message are of the width of their fields. *)
Definition message_typed (m : Message) : Prop :=
  Forall is_i64 (ints64 m) /\ Forall is_i32 (ints32 m).

(** Values the wire format gives back: ASCII is valid UTF-8; a [-0.0] compares equal
    to the default of its field, so it may be left out and read back as [0.0]. *)
Fixpoint ascii_only (s : string) : bool :=
  match s with
  | EmptyString => true
  | String a s => (Ascii.N_of_ascii a <? 128)%N && ascii_only s
  end.
Definition representable (m : Message) : Prop :=
  message_typed m /\ Forall (fun s => ascii_only s = true) (strings m)
  /\ Forall (fun x => valid_binary 24 128 x = true /\ x <> S754_zero true) (floats m).

Class Protobuf := {
  SerializeToString : Message -> bytes;
  (** [None]: the bytes are no message of the type, [ParseFromString] is false. *)
  ParseFromString : MessageType -> bytes -> option Message;
  parse_type : forall t b m, ParseFromString t b = Some m -> type_of m = t;
  parse_typed : forall t b m, ParseFromString t b = Some m -> message_typed m;
  parse_serialize : forall m, representable m -> Z.of_nat (length (SerializeToString m)) <= int32_max ->
    ParseFromString (type_of m) (SerializeToString m) = Some m
}.

(** ** ProtoHelper (proto_helper.h, proto_helper.cpp) *)
Section proto_helper.
Context {PB : Protobuf}.

Definition ProtoHelper_Parse (t : MessageType) (packet : Packet) : option Message :=
  ParseFromString t (body packet).

Definition ProtoHelper_Build (id : Z) (msg : Message) (seq : Z) : Packet :=
  let b := SerializeToString msg in
  mkPacket (wrap_u32 (kPacketMetaSize + Z.of_nat (length b))) id seq b.

(** What a handler receives after [Parse], one projection per request type. *)
Definition parse_login (p : Packet) : option (string * string) :=
  match ProtoHelper_Parse TLoginRequest p with
  | Some (LoginRequest account token) => Some (account, token) | _ => None end.
Definition parse_reconnect (p : Packet) : option (Z * string) :=
  match ProtoHelper_Parse TReconnectRequest p with
  | Some (ReconnectRequest pid tok) => Some (pid, tok) | _ => None end.
Definition parse_match (p : Packet) : option Z :=
  match ProtoHelper_Parse TMatchRequest p with
  | Some (MatchRequest pid) => Some pid | _ => None end.
Definition parse_match_cancel (p : Packet) : option Z :=
  match ProtoHelper_Parse TMatchCancelRequest p with
  | Some (MatchCancelRequest pid) => Some pid | _ => None end.
Definition parse_ready (p : Packet) : option bool :=
  match ProtoHelper_Parse TReadyRequest p with
  | Some (ReadyRequest r) => Some r | _ => None end.
Definition parse_input (p : Packet) : option PlayerInput :=
  match ProtoHelper_Parse TInputRequest p with
  | Some (InputRequest i) => Some i | _ => None end.
Definition parse_leave (p : Packet) : option Z :=
  match ProtoHelper_Parse TLeaveRoomRequest p with
  | Some (LeaveRoomRequest r) => Some r | _ => None end.
Definition parse_rank (p : Packet) : option (Z * Z) :=
  match ProtoHelper_Parse TRankRequest p with
  | Some (RankRequest o l) => Some (o, l) | _ => None end.

Lemma Parse_Build t id msg seq :
  type_of msg = t -> representable msg -> Z.of_nat (length (SerializeToString msg)) <= int32_max ->
  ProtoHelper_Parse t (ProtoHelper_Build id msg seq) = Some msg.
Proof. intros <-. apply parse_serialize. Qed.

(** The ids of a parsed request are [int64_t]. *)
Lemma parse_match_typed p id : parse_match p = Some id -> is_i64 id.
Proof.
  unfold parse_match, ProtoHelper_Parse. destruct (ParseFromString _ _) as [m|] eqn:Hp; [|done].
  apply parse_typed in Hp as [Hp _]. destruct m; intros [= ->]. by apply Forall_cons in Hp as [? _].
Qed.

Lemma parse_reconnect_typed p id token : parse_reconnect p = Some (id, token) -> is_i64 id.
Proof.
  unfold parse_reconnect, ProtoHelper_Parse. destruct (ParseFromString _ _) as [m|] eqn:Hp; [|done].
  apply parse_typed in Hp as [Hp _]. destruct m; intros [= -> ->]. by apply Forall_cons in Hp as [? _].
Qed.

Lemma Build_encodable id msg seq :
  is_u32 id -> is_u32 seq ->
  Z.of_nat (length (SerializeToString msg)) <= kMaxPacketLength - kPacketMetaSize ->
  encodable (ProtoHelper_Build id msg seq).
Proof. intros. by repeat split; cbn; unfold is_u32 in *; try lia. Qed.
End proto_helper.
