(* ===== verification/GameRoom.v ===== *)
(** * GameRoom: the battle of one room

    Models [game/game_state.h], [game/input_buffer.h/.cpp], [game/game_room.h/.cpp]
    and [game/state_sync.h/.cpp].  [state_.players] (an [unordered_map]) is a
    [gmap]; a loop over it visits the keys in the order of [map_to_list], and
    the results that matter are proved for every order.  Each public method runs
    under the room's mutex, so it is one function on the room. *)
From S2P Require Import Prelude Float32 Messages.
From Stdlib Require Import Floats.SpecFloat.
Local Open Scope Z_scope.

(** ** Inputs (input_buffer.h, input_buffer.cpp) *)
Record InputCommand := mkInput {
  in_player_id : Z;
  in_input_seq : Z;
  in_move_x : float32;
  in_move_y : float32;
  in_fire : bool;
  in_timestamp_ms : Z
}.

Definition InputBuffer := list InputCommand.

Definition InputBuffer_Push (inputs : InputBuffer) (input : InputCommand) : InputBuffer :=
  inputs ++ [input].
Definition InputBuffer_PopAll (inputs : InputBuffer) : list InputCommand * InputBuffer :=
  (inputs, []).

(** ** State (game_state.h) *)
Record EntityState := mkEntity {
  e_player_id : Z;
  e_x : float32;
  e_y : float32;
  e_hp : Z;        (* int32_t *)
  e_alive : bool
}.

Record GameState := mkGameState {
  frame_id : Z;
  gs_players : gmap Z EntityState
}.

Record GameRoom := mkGameRoom {
  gr_room_id : Z;
  gr_state : GameState;
  gr_input_buffer : InputBuffer;
  gr_game_over : bool;
  gr_winner_id : Z
}.

Definition GameRoom_new (room_id : Z) : GameRoom :=
  mkGameRoom room_id (mkGameState 0 ∅) [] false 0.

(** Assignments to single fields. *)
Definition set_hp (e : EntityState) (hp : Z) (alive : bool) : EntityState :=
  mkEntity (e_player_id e) (e_x e) (e_y e) hp alive.
Definition set_pos (e : EntityState) (x y : float32) : EntityState :=
  mkEntity (e_player_id e) x y (e_hp e) (e_alive e).
Definition set_players (g : GameRoom) (ps : gmap Z EntityState) : GameRoom :=
  mkGameRoom (gr_room_id g) (mkGameState (frame_id (gr_state g)) ps)
    (gr_input_buffer g) (gr_game_over g) (gr_winner_id g).
Definition players (g : GameRoom) : gmap Z EntityState := gs_players (gr_state g).

(** ** Start, Stop, HandleInput (game_room.cpp) *)

(** The loop of [Start]: [spawn_x] grows by [5.0f] per player. *)
Fixpoint spawn (player_ids : list Z) (spawn_x : float32) (ps : gmap Z EntityState)
    : gmap Z EntityState :=
  match player_ids with
  | [] => ps
  | player_id :: rest =>
    spawn rest (f32_add spawn_x (f32_of_Z 5))
      (<[player_id := mkEntity player_id spawn_x (f32_of_Z 0) 100 true]> ps)
  end.

Definition GameRoom_Start (g : GameRoom) (player_ids : list Z) : GameRoom :=
  mkGameRoom (gr_room_id g)
    (mkGameState 0 (spawn player_ids (f32_of_Z 0) ∅)) (gr_input_buffer g) false 0.

Definition GameRoom_Stop (g : GameRoom) : GameRoom :=
  mkGameRoom (gr_room_id g) (gr_state g) (gr_input_buffer g) true (gr_winner_id g).

Definition GameRoom_HandleInput (g : GameRoom) (input : InputCommand) : GameRoom :=
  mkGameRoom (gr_room_id g) (gr_state g) (InputBuffer_Push (gr_input_buffer g) input)
    (gr_game_over g) (gr_winner_id g).

(** ** CheckGameOver *)
Definition count_alive (ps : list (Z * EntityState)) : Z * Z :=
  fold_left (fun '(alive_count, alive_player) '(player_id, entity) =>
    if e_alive entity then (alive_count + 1, player_id) else (alive_count, alive_player))
    ps (0, 0).

Definition CheckGameOver (g : GameRoom) : GameRoom :=
  let '(alive_count, alive_player) := count_alive (map_to_list (players g)) in
  if (alive_count <=? 1) && negb (bool_decide (players g = ∅))
  then mkGameRoom (gr_room_id g) (gr_state g) (gr_input_buffer g) true alive_player
  else g.

(** ** EliminatePlayer *)
Definition EliminatePlayer (g : GameRoom) (player_id : Z) : GameRoom :=
  if gr_game_over g then g
  else
    match players g !! player_id with
    | None => g
    | Some e =>
      if negb (e_alive e) then g
      else CheckGameOver (set_players g (<[player_id := set_hp e 0 false]> (players g)))
    end.

(** ** ApplyInput *)

(** One turn of the loop over the targets; [it->second] is the shooter's own
    entry of the same map, read again at each turn. *)
Definition fire_at (shooter_id : Z) (ps : gmap Z EntityState) (target_id : Z)
    : gmap Z EntityState :=
  match ps !! target_id, ps !! shooter_id with
  | Some target, Some it =>
    if (target_id =? shooter_id) || negb (e_alive target) then ps
    else
      let distance := hypot (f32_sub (e_x target) (e_x it)) (f32_sub (e_y target) (e_y it)) in
      if f32_leb distance (f32_of_Z 8) then
        let hp := e_hp target - 10 in
        if hp <=? 0 then <[target_id := set_hp target 0 false]> ps
        else <[target_id := set_hp target hp (e_alive target)]> ps
      else ps
  | _, _ => ps
  end.

Definition fire_loop (shooter_id : Z) (order : list Z) (ps : gmap Z EntityState)
    : gmap Z EntityState := fold_left (fire_at shooter_id) order ps.

Definition move (input : InputCommand) (it : EntityState) : EntityState :=
  let max_axis := f32_of_Z 1 in
  let dx := clamp (in_move_x input) (f32_neg max_axis) max_axis in
  let dy := clamp (in_move_y input) (f32_neg max_axis) max_axis in
  set_pos it (f32_add (e_x it) (f32_mul dx f32_0_6)) (f32_add (e_y it) (f32_mul dy f32_0_6)).

Definition ApplyInput (ps : gmap Z EntityState) (input : InputCommand) : gmap Z EntityState :=
  match ps !! in_player_id input with
  | None => ps
  | Some it =>
    if negb (e_alive it) then ps
    else
      let ps := <[in_player_id input := move input it]> ps in
      if negb (in_fire input) then ps
      else fire_loop (in_player_id input) (map_to_list ps).*1 ps
  end.

(** ** Tick *)

(** [Tick] takes the inputs under the lock of the buffer, then does the rest
    under the lock of the room. *)
Definition Tick_inputs (g : GameRoom) : list InputCommand * GameRoom :=
  let '(inputs, rest) := InputBuffer_PopAll (gr_input_buffer g) in
  (inputs, mkGameRoom (gr_room_id g) (gr_state g) rest (gr_game_over g) (gr_winner_id g)).

Definition Tick_locked (inputs : list InputCommand) (g : GameRoom) : GameRoom :=
  if gr_game_over g then g
  else
    let st := mkGameState (frame_id (gr_state g) + 1) (fold_left ApplyInput inputs (players g)) in
    CheckGameOver (mkGameRoom (gr_room_id g) st (gr_input_buffer g) (gr_game_over g) (gr_winner_id g)).

Definition Tick (g : GameRoom) : GameRoom :=
  let '(inputs, g) := Tick_inputs g in Tick_locked inputs g.

(** ** StateSync (state_sync.cpp) *)
Definition BuildNotify (room_id : Z) (state : GameState) : Message :=
  GameStateNotify room_id (frame_id state)
    ((fun '(_, entity) =>
        mkPlayerState (e_player_id entity) (e_x entity) (e_y entity) (e_hp entity))
     <$> map_to_list (gs_players state)).

(** ** Alive players *)
Definition alive_at (ps : gmap Z EntityState) (k : Z) : Prop :=
  exists e, ps !! k = Some e /\ e_alive e = true.

Definition alive_set (ps : gmap Z EntityState) : gset Z :=
  dom (filter (fun '(_, e) => e_alive e = true) ps).

Lemma elem_of_alive_set ps k : k ∈ alive_set ps <-> alive_at ps k.
Proof.
  unfold alive_set, alive_at. rewrite elem_of_dom. unfold is_Some.
  setoid_rewrite map_lookup_filter_Some. naive_solver.
Qed.

(** ** CheckGameOver counts the alive players, in any order of the map *)
Definition alive_ids (l : list (Z * EntityState)) : list Z :=
  (filter (fun '(_, e) => e_alive e = true) l).*1.

Lemma count_alive_from l c p :
  fold_left (fun '(alive_count, alive_player) '(player_id, entity) =>
    if e_alive entity then (alive_count + 1, player_id) else (alive_count, alive_player)) l (c, p)
  = (c + Z.of_nat (length (alive_ids l)), default p (last (alive_ids l))).
Proof.
  revert c p. induction l as [|[k e] l IH]; intros c p; cbn [fold_left].
  { cbn. f_equal. lia. }
  unfold alive_ids. rewrite filter_cons. case_decide as He.
  - rewrite He, IH, fmap_cons, last_cons. fold (alive_ids l).
    cbn [length fst]. f_equal; [lia|]. by destruct (last (alive_ids l)).
  - rewrite (not_true_is_false _ He). apply IH.
Qed.

Lemma count_alive_spec l :
  count_alive l = (Z.of_nat (length (alive_ids l)), default 0 (last (alive_ids l))).
Proof. unfold count_alive. by rewrite count_alive_from. Qed.

Lemma elem_of_alive_ids ps l k : l ≡ₚ map_to_list ps -> k ∈ alive_ids l <-> alive_at ps k.
Proof.
  intros Hl. unfold alive_ids, alive_at. rewrite list_elem_of_fmap. split.
  - intros ([k' e] & -> & [He Hin]%list_elem_of_filter). exists e. split; [|done].
    apply elem_of_map_to_list. by rewrite <- Hl.
  - intros (e & Hk & He). exists (k, e). split; [done|]. apply list_elem_of_filter.
    split; [done|]. rewrite Hl. by apply elem_of_map_to_list.
Qed.

Lemma NoDup_alive_ids ps l : l ≡ₚ map_to_list ps -> NoDup (alive_ids l).
Proof.
  intros Hl. unfold alive_ids. apply (sublist_NoDup _ l.*1).
  - rewrite Hl. apply NoDup_fst_map_to_list.
  - apply fmap_sublist, sublist_filter.
Qed.

(** The three outcomes of the count: several alive players, one, none. *)
Lemma count_alive_cases ps l :
  l ≡ₚ map_to_list ps ->
  (exists j k, j <> k /\ alive_at ps j /\ alive_at ps k /\ 2 <= (count_alive l).1)
  \/ (exists w, alive_at ps w /\ (forall k, alive_at ps k -> k = w) /\ count_alive l = (1, w))
  \/ ((forall k, ~ alive_at ps k) /\ count_alive l = (0, 0)).
Proof.
  intros Hl. rewrite count_alive_spec.
  pose proof (NoDup_alive_ids _ _ Hl) as Hnd.
  pose proof (fun k => elem_of_alive_ids ps l k Hl) as Hin.
  destruct (alive_ids l) as [|j [|k ids]].
  - right; right. split; [|done]. intros k Hk. by apply Hin, not_elem_of_nil in Hk.
  - right; left. exists j. split_and!; [apply Hin; left| |done].
    intros k ?%Hin. by apply list_elem_of_singleton.
  - left. exists j, k. apply NoDup_cons in Hnd as [Hj _].
    split_and!; [set_solver|apply Hin; set_solver..|cbn; lia].
Qed.

Lemma CheckGameOver_several g j k :
  j <> k -> alive_at (players g) j -> alive_at (players g) k -> CheckGameOver g = g.
Proof.
  intros Hne Hj Hk. unfold CheckGameOver.
  destruct (count_alive_cases (players g) (map_to_list (players g))) as [(a & b & _ & _ & _ & Hn)|[(w & _ & Hu & _)|[Hno _]]]; [done| | |].
  - destruct (count_alive _) as [n p]. cbn in Hn. by rewrite (proj2 (Z.leb_gt _ _)) by lia.
  - exfalso. apply Hne. by rewrite (Hu j), (Hu k).
  - exfalso. by apply (Hno j).
Qed.

Lemma CheckGameOver_one g w :
  alive_at (players g) w -> (forall k, alive_at (players g) k -> k = w) ->
  CheckGameOver g = mkGameRoom (gr_room_id g) (gr_state g) (gr_input_buffer g) true w.
Proof.
  intros Hw Hu. unfold CheckGameOver.
  destruct (count_alive_cases (players g) (map_to_list (players g))) as [(a & b & Hab & Ha & Hb & _)|[(w' & Hw' & _ & ->)|[Hno _]]]; [done| | |].
  - exfalso. apply Hab. by rewrite (Hu a), (Hu b).
  - rewrite (Hu w' Hw'). rewrite bool_decide_eq_false_2; [done|].
    destruct Hw as (e & He & _). intros Hemp. by rewrite Hemp, lookup_empty in He.
  - exfalso. by apply (Hno w).
Qed.

Lemma CheckGameOver_players g : gr_state (CheckGameOver g) = gr_state g.
Proof. unfold CheckGameOver. destruct (count_alive _). by destruct (_ && _). Qed.

(** ** Applying inputs *)

(** What one shot does to a map, independently of any loop. *)
Definition shot (it target : EntityState) : EntityState :=
  if f32_leb (hypot (f32_sub (e_x target) (e_x it)) (f32_sub (e_y target) (e_y it))) (f32_of_Z 8)
  then if e_hp target - 10 <=? 0 then set_hp target 0 false
       else set_hp target (e_hp target - 10) (e_alive target)
  else target.

Definition shot_at (shooter_id : Z) (it : EntityState) (k : Z) (e : EntityState) : EntityState :=
  if (k =? shooter_id) || negb (e_alive e) then e else shot it e.

Lemma fire_at_lookup sid ps t k :
  fire_at sid ps t !! k =
  match ps !! sid with
  | Some it => if decide (t = k) then shot_at sid it k <$> ps !! k else ps !! k
  | None => ps !! k
  end.
Proof.
  unfold fire_at, shot_at, shot. destruct (ps !! sid) as [it|] eqn:Hs; [|by destruct (ps !! t)].
  destruct (ps !! t) as [e|] eqn:Ht; case_decide as Hk; subst; rewrite ?Ht; cbn; try done.
  - repeat case_match; rewrite ?lookup_insert_eq; by rewrite ?Ht.
  - repeat case_match; rewrite ?lookup_insert_ne; by subst.
Qed.

Lemma fire_at_shooter sid ps t : fire_at sid ps t !! sid = ps !! sid.
Proof.
  rewrite fire_at_lookup. destruct (ps !! sid) as [it|] eqn:Hs; [|done].
  case_decide; [|done]. subst. cbn. unfold shot_at. by rewrite Z.eqb_refl.
Qed.

(** The loop over the targets hits every listed target once, whatever the order. *)
Lemma fire_loop_lookup sid order ps k :
  NoDup order ->
  fire_loop sid order ps !! k =
  match ps !! sid with
  | Some it => if decide (k ∈ order) then shot_at sid it k <$> ps !! k else ps !! k
  | None => ps !! k
  end.
Proof.
  unfold fire_loop. intros Hnd. revert ps.
  induction Hnd as [|t order Ht Hnd IH]; intros ps; cbn [fold_left].
  - destruct (ps !! sid); [|done]. rewrite decide_False by set_solver. done.
  - rewrite IH, fire_at_shooter, fire_at_lookup.
    destruct (ps !! sid) as [it|]; [|done].
    destruct (decide (t = k)) as [->|Hne].
    + rewrite decide_False by done. rewrite decide_True by set_solver. done.
    + destruct (decide (k ∈ order)); [rewrite decide_True by set_solver|rewrite decide_False by set_solver]; done.
Qed.

Lemma keys_NoDup (ps : gmap Z EntityState) : NoDup (map_to_list ps).*1.
Proof. apply NoDup_fst_map_to_list. Qed.

Lemma elem_of_keys (ps : gmap Z EntityState) k : k ∈ (map_to_list ps).*1 <-> is_Some (ps !! k).
Proof.
  rewrite list_elem_of_fmap. split.
  - intros ([k' e] & -> & Hin%elem_of_map_to_list). by exists e.
  - intros [e He]. exists (k, e). split; [done|]. by apply elem_of_map_to_list.
Qed.

(** The whole effect of one input. *)
Lemma ApplyInput_lookup ps i k :
  ApplyInput ps i !! k =
  match ps !! in_player_id i with
  | Some it =>
    if negb (e_alive it) then ps !! k
    else if k =? in_player_id i then Some (move i it)
    else if in_fire i then shot_at (in_player_id i) (move i it) k <$> ps !! k
    else ps !! k
  | None => ps !! k
  end.
Proof.
  unfold ApplyInput. destruct (ps !! in_player_id i) as [it|] eqn:Hi; [|done].
  destruct (e_alive it) eqn:Ha; cbn [negb]; [|done].
  destruct (in_fire i); cbn [negb].
  - rewrite fire_loop_lookup by apply keys_NoDup.
    rewrite lookup_insert_eq.
    destruct (Z.eqb_spec k (in_player_id i)) as [->|Hne].
    + rewrite lookup_insert_eq. unfold shot_at. rewrite Z.eqb_refl. cbn. by case_decide.
    + rewrite lookup_insert_ne by done. case_decide as Hk; [done|].
      rewrite elem_of_keys, lookup_insert_ne in Hk by done.
      destruct (ps !! k) eqn:E; [|done]. exfalso. apply Hk. by eexists.
  - destruct (Z.eqb_spec k (in_player_id i)) as [->|Hne]; by simplify_map_eq.
Qed.

(** ** What every input preserves *)
Definition entity_ok (k : Z) (e : EntityState) : Prop :=
  e_player_id e = k /\ 0 <= e_hp e <= 100 /\ e_hp e `mod` 10 = 0
  /\ (e_alive e = true <-> 0 < e_hp e).

Definition players_ok (ps : gmap Z EntityState) : Prop := map_Forall entity_ok ps.

(** How an entity may change during the battle. *)
Definition entity_le (e e' : EntityState) : Prop :=
  e_player_id e' = e_player_id e /\ e_hp e' <= e_hp e /\ (e_alive e = false -> e' = e).

Definition players_le (ps ps' : gmap Z EntityState) : Prop :=
  forall k, match ps !! k, ps' !! k with
            | Some e, Some e' => entity_le e e'
            | None, None => True
            | _, _ => False
            end.

#[export] Instance entity_le_preorder : PreOrder entity_le.
Proof.
  split.
  - intros e. by repeat split.
  - intros e1 e2 e3 (H1 & H2 & H3) (H4 & H5 & H6). split_and!; [congruence|lia|].
    intros Hd. specialize (H3 Hd). subst. by apply H6.
Qed.

#[export] Instance players_le_preorder : PreOrder players_le.
Proof.
  split.
  - intros ps k. destruct (ps !! k); [reflexivity|done].
  - intros p1 p2 p3 H1 H2 k. specialize (H1 k). specialize (H2 k).
    destruct (p1 !! k), (p2 !! k), (p3 !! k); try done. by etrans.
Qed.

Lemma move_ok i k e : entity_ok k e -> entity_ok k (move i e).
Proof. done. Qed.

Lemma shot_at_ok sid it k e : entity_ok k e -> entity_ok k (shot_at sid it k e).
Proof.
  unfold shot_at, shot, entity_ok. intros (Hk & Hhp & Hm & Ha).
  destruct (_ || _) eqn:Hskip; [done|]. bools.
  destruct (f32_leb _ _); [|done].
  destruct (Z.leb_spec (e_hp e - 10) 0); cbn; split_and!; try done; try lia.
  Z.to_euclidean_division_equations. lia.
Qed.

Lemma shot_at_le sid it k e : entity_ok k e -> entity_le e (shot_at sid it k e).
Proof.
  unfold shot_at, shot, entity_ok, entity_le. intros (Hk & Hhp & Hm & Ha).
  destruct (_ || _) eqn:Hskip; [done|]. bools.
  destruct (f32_leb _ _); [|done].
  destruct (Z.leb_spec (e_hp e - 10) 0); cbn; split_and!; try done; try lia; congruence.
Qed.

Lemma ApplyInput_ok ps i : players_ok ps -> players_ok (ApplyInput ps i).
Proof.
  intros Hok k e. rewrite ApplyInput_lookup.
  destruct (ps !! in_player_id i) as [it|] eqn:Hi; [|apply Hok].
  destruct (negb _); [apply Hok|].
  destruct (Z.eqb_spec k (in_player_id i)) as [->|]; [intros [= <-]; by apply move_ok, Hok|].
  destruct (in_fire i); [|apply Hok].
  intros (e0 & He & ->)%fmap_Some. by apply shot_at_ok, Hok.
Qed.

Lemma ApplyInput_le ps i : players_ok ps -> players_le ps (ApplyInput ps i).
Proof.
  intros Hok k. rewrite ApplyInput_lookup.
  destruct (ps !! in_player_id i) as [it|] eqn:Hi; [|by destruct (ps !! k)].
  destruct (e_alive it) eqn:Ha; cbn [negb]; [|by destruct (ps !! k)].
  destruct (Z.eqb_spec k (in_player_id i)) as [->|].
  - rewrite Hi. split_and!; [done|cbn; lia|congruence].
  - destruct (in_fire i); [|by destruct (ps !! k)].
    destruct (ps !! k) as [e|] eqn:He; [|done]. by apply shot_at_le, Hok.
Qed.

(** An input never kills its author, so it never empties the set of the alive. *)
Lemma ApplyInput_survivor ps i :
  (exists k, alive_at ps k) -> exists k, alive_at (ApplyInput ps i) k.
Proof.
  intros Hex. destruct (ps !! in_player_id i) as [it|] eqn:Hi.
  - destruct (e_alive it) eqn:Ha.
    + exists (in_player_id i), (move i it). by rewrite ApplyInput_lookup, Hi, Ha, Z.eqb_refl.
    + destruct Hex as (k & e & Hk & He). exists k, e. by rewrite ApplyInput_lookup, Hi, Ha.
  - destruct Hex as (k & e & Hk & He). exists k, e. by rewrite ApplyInput_lookup, Hi.
Qed.

Lemma ApplyInputs_inv ps inputs :
  players_ok ps -> (exists k, alive_at ps k) ->
  let ps' := fold_left ApplyInput inputs ps in
  players_ok ps' /\ players_le ps ps' /\ (exists k, alive_at ps' k).
Proof.
  intros Hok Hex. cbn.
  apply (fold_left_inv (fun ps' => players_ok ps' /\ players_le ps ps' /\ exists k, alive_at ps' k)).
  - done.
  - intros ps' i _ (Hok' & Hle & Hex'). split_and!; [by apply ApplyInput_ok| |by apply ApplyInput_survivor].
    etrans; [exact Hle|]. by apply ApplyInput_le.
Qed.

(** ** The battle as a whole *)

(** The calls the server makes on a started room, in any order: inputs arrive on
    network threads, leaving players are eliminated, the game loop ticks. *)
Inductive battle_op :=
  | OpInput (input : InputCommand)
  | OpEliminate (player_id : Z)
  | OpTick.

Definition battle_step (g : GameRoom) (op : battle_op) : GameRoom :=
  match op with
  | OpInput input => GameRoom_HandleInput g input
  | OpEliminate player_id => EliminatePlayer g player_id
  | OpTick => Tick g
  end.

Definition battle (room_id : Z) (player_ids : list Z) (ops : list battle_op) : GameRoom :=
  fold_left battle_step ops (GameRoom_Start (GameRoom_new room_id) player_ids).

Definition two_alive (ps : gmap Z EntityState) : Prop :=
  exists j k, j <> k /\ alive_at ps j /\ alive_at ps k.

Record battle_ok (ids : list Z) (g : GameRoom) : Prop := {
  bo_players : players_ok (players g);
  bo_members : forall k, is_Some (players g !! k) <-> k ∈ ids;
  bo_running : gr_game_over g = false -> gr_winner_id g = 0 /\ two_alive (players g);
  bo_over : gr_game_over g = true ->
    alive_at (players g) (gr_winner_id g)
    /\ (forall k, alive_at (players g) k -> k = gr_winner_id g)
}.

Lemma players_le_members ps ps' k : players_le ps ps' -> is_Some (ps' !! k) <-> is_Some (ps !! k).
Proof.
  intros H. specialize (H k). destruct (ps !! k), (ps' !! k); try done; split; eauto.
  all: by intros [? ?].
Qed.

(** [CheckGameOver] after a change that leaves somebody alive. *)
Lemma CheckGameOver_ok ids g :
  players_ok (players g) -> (forall k, is_Some (players g !! k) <-> k ∈ ids) ->
  gr_game_over g = false -> gr_winner_id g = 0 ->
  (exists k, alive_at (players g) k) -> battle_ok ids (CheckGameOver g).
Proof.
  intros Hok Hmem Hover Hwin [w Hw].
  destruct (count_alive_cases (players g) (map_to_list (players g)))
    as [(j & k & Hne & Hj & Hk & _)|[(w' & Hw' & Hu & _)|[Hno _]]]; [done| | |].
  - rewrite (CheckGameOver_several g j k) by done. split; try done; [|congruence].
    intros _. split; [done|]. by exists j, k.
  - rewrite (CheckGameOver_one g w') by done. by split.
  - exfalso. by apply (Hno w).
Qed.

Lemma spawn_spec ids x ps k :
  (k ∈ ids -> exists px, spawn ids x ps !! k = Some (mkEntity k px (f32_of_Z 0) 100 true))
  /\ (k ∉ ids -> spawn ids x ps !! k = ps !! k).
Proof.
  revert x ps. induction ids as [|i ids IH]; intros x ps; cbn [spawn]; [set_solver|].
  destruct (IH (f32_add x (f32_of_Z 5)) (<[i := mkEntity i x (f32_of_Z 0) 100 true]> ps)) as [IH1 IH2].
  split.
  - intros Hk. destruct (decide (k ∈ ids)) as [Hin|Hin]; [by apply IH1|].
    assert (k = i) as -> by set_solver. rewrite IH2, lookup_insert_eq by done. by eexists.
  - intros Hk. rewrite IH2, lookup_insert_ne by set_solver. done.
Qed.

Lemma Start_ok room_id ids :
  (exists j k, j <> k /\ j ∈ ids /\ k ∈ ids) ->
  battle_ok ids (GameRoom_Start (GameRoom_new room_id) ids).
Proof.
  intros (j & k & Hne & Hj & Hk).
  pose proof (fun i => spawn_spec ids (f32_of_Z 0) ∅ i) as Hs.
  unfold GameRoom_Start. split; unfold players; cbn -[f32_of_Z].
  - intros i e He. destruct (decide (i ∈ ids)) as [Hi|Hi].
    + destruct (proj1 (Hs i) Hi) as [px Hpx]. rewrite Hpx in He. by injection He as <-.
    + by rewrite (proj2 (Hs i) Hi), lookup_empty in He.
  - intros i. destruct (decide (i ∈ ids)) as [Hi|Hi].
    + destruct (proj1 (Hs i) Hi) as [px ->]. split; [done|eauto].
    + rewrite (proj2 (Hs i) Hi), lookup_empty. split; [by intros [? ?]|done].
  - intros _. split; [done|]. exists j, k. split; [done|].
    destruct (proj1 (Hs j) Hj) as [px Hpx]. destruct (proj1 (Hs k) Hk) as [py Hpy].
    split; by eexists.
  - done.
Qed.

Lemma EliminatePlayer_ok ids g pid : battle_ok ids g -> battle_ok ids (EliminatePlayer g pid).
Proof.
  intros [Hok Hmem Hrun Hover]. unfold EliminatePlayer.
  destruct (gr_game_over g) eqn:Eo; [by split; rewrite ?Eo|].
  destruct (players g !! pid) as [e|] eqn:He; [|by split; rewrite ?Eo].
  destruct (negb (e_alive e)); [by split; rewrite ?Eo|].
  destruct (Hrun eq_refl) as (Hw & j & k & Hne & Hj & Hk).
  apply CheckGameOver_ok; unfold players; cbn; try done.
  - apply map_Forall_insert_2; [|done]. destruct (Hok _ _ He) as (Hid & _). by split_and!.
  - intros i. rewrite <- Hmem. destruct (decide (pid = i)) as [->|].
    + rewrite lookup_insert_eq, He. split; eauto.
    + by rewrite lookup_insert_ne.
  - destruct (decide (j = pid)) as [->|]; [exists k|exists j].
    + destruct Hk as (e' & ? & ?). exists e'. by rewrite lookup_insert_ne.
    + destruct Hj as (e' & ? & ?). exists e'. by rewrite lookup_insert_ne.
Qed.

Lemma Tick_locked_ok inputs ids g : battle_ok ids g -> battle_ok ids (Tick_locked inputs g).
Proof.
  intros [Hok Hmem Hrun Hover]. unfold Tick_locked.
  destruct (gr_game_over g) eqn:Eo; [by split; rewrite ?Eo|].
  destruct (Hrun eq_refl) as (Hw & j & k & Hne & Hj & Hk).
  destruct (ApplyInputs_inv (players g) inputs) as (Hok' & Hle & Hex); [done|by exists j|].
  apply CheckGameOver_ok; unfold players; cbn; try done.
  intros i. rewrite <- Hmem. by apply players_le_members.
Qed.

Lemma Tick_inputs_ok ids g : battle_ok ids g -> battle_ok ids (Tick_inputs g).2.
Proof. by intros []. Qed.

Lemma Tick_ok ids g : battle_ok ids g -> battle_ok ids (Tick g).
Proof. intros Hg. apply Tick_locked_ok, (Tick_inputs_ok ids g Hg). Qed.

Lemma battle_step_ok ids g op : battle_ok ids g -> battle_ok ids (battle_step g op).
Proof.
  intros Hg. destruct op; cbn; [by destruct Hg|by apply EliminatePlayer_ok|by apply Tick_ok].
Qed.

Lemma battle_ok_reachable room_id ids ops :
  (exists j k, j <> k /\ j ∈ ids /\ k ∈ ids) -> battle_ok ids (battle room_id ids ops).
Proof.
  intros Hids. unfold battle. apply fold_left_inv; [by apply Start_ok|].
  intros g op _. apply battle_step_ok.
Qed.

(** One step never revives or heals a player and, once the battle is over,
    changes neither the frame nor any entity. *)
Lemma battle_step_le ids g op : battle_ok ids g -> players_le (players g) (players (battle_step g op)).
Proof.
  intros [Hok Hmem Hrun Hover]. destruct op as [i|pid|]; cbn.
  - done.
  - unfold EliminatePlayer. destruct (gr_game_over g); [done|].
    destruct (players g !! pid) as [e|] eqn:He; [|done].
    destruct (e_alive e) eqn:Ha; cbn [negb]; [|done].
    unfold players at 2. rewrite CheckGameOver_players. cbn. intros k.
    destruct (decide (pid = k)) as [->|]; [|by rewrite lookup_insert_ne; [destruct (players g !! k)|]].
    rewrite lookup_insert_eq, He. destruct (Hok _ _ He) as (? & ? & _).
    split_and!; [done|cbn; lia|congruence].
  - unfold Tick, Tick_locked. cbn. destruct (gr_game_over g) eqn:Eo; [done|].
    destruct (Hrun eq_refl) as (Hw & j & k & Hne & Hj & Hk).
    unfold players at 2. rewrite CheckGameOver_players. cbn.
    apply ApplyInputs_inv; [done|by exists j].
Qed.

Lemma battle_step_over g op :
  gr_game_over g = true ->
  gr_state (battle_step g op) = gr_state g /\ gr_game_over (battle_step g op) = true
  /\ gr_winner_id (battle_step g op) = gr_winner_id g.
Proof.
  intros Ho. destruct op; cbn; [done|..].
  - unfold EliminatePlayer. by rewrite Ho.
  - unfold Tick, Tick_locked. cbn. by rewrite Ho.
Qed.

(** The room of a battle never changes; its members are those of the room, in
    whatever order they are listed. *)
Lemma CheckGameOver_room g : gr_room_id (CheckGameOver g) = gr_room_id g.
Proof. unfold CheckGameOver. destruct (count_alive _). by destruct (_ && _). Qed.

Lemma battle_step_room g op : gr_room_id (battle_step g op) = gr_room_id g.
Proof.
  destruct op; cbn; [done|..].
  - unfold EliminatePlayer. destruct (gr_game_over g); [done|]. destruct (_ !! _); [|done].
    destruct (negb _); [done|]. by rewrite CheckGameOver_room.
  - unfold Tick, Tick_locked. cbn. destruct (gr_game_over g); [done|]. by rewrite CheckGameOver_room.
Qed.

Lemma battle_ok_ext ids ids' g : (forall k, k ∈ ids' <-> k ∈ ids) -> battle_ok ids g -> battle_ok ids' g.
Proof. intros H [H1 H2 H3 H4]. split; [done| |done|done]. intros k. by rewrite H2, H. Qed.

(** ** Properties of the battle *)

(** C25: at every moment of a battle started with at least two players, whatever
    the inputs, eliminations and ticks: the entities are exactly the players it
    was started with; while the battle runs at least two of them are alive and
    there is no winner; when it is over, the winner is a participant, is alive,
    and is the only one alive. *)
Theorem battle_unique_winner (room_id : Z) (ids : list Z) (ops : list battle_op)
    (Hids : exists j k, j <> k /\ j ∈ ids /\ k ∈ ids) :
  let g := battle room_id ids ops in
  (forall k, is_Some (players g !! k) <-> k ∈ ids)
  /\ (gr_game_over g = false -> gr_winner_id g = 0 /\ two_alive (players g))
  /\ (gr_game_over g = true ->
      gr_winner_id g ∈ ids /\ forall k, alive_at (players g) k <-> k = gr_winner_id g).
Proof.
  destruct (battle_ok_reachable room_id ids ops Hids) as [Hok Hmem Hrun Hover].
  split_and!; [done|done|]. intros Ho. destruct (Hover Ho) as [Hw Hu].
  split; [apply Hmem; destruct Hw as (e & -> & _); eauto|].
  intros k. split; [apply Hu|]. by intros ->.
Qed.

(** C27: in every reachable state of a battle every entity carries its key as id,
    has between 0 and 100 hit points in steps of ten, and is alive exactly when
    it has hit points left; so [hp -= 10] never leaves the range of [int32_t]. *)
Theorem battle_hp_bounds (room_id : Z) (ids : list Z) (ops : list battle_op)
    (Hids : exists j k, j <> k /\ j ∈ ids /\ k ∈ ids)
    (k : Z) (e : EntityState) (He : players (battle room_id ids ops) !! k = Some e) :
  e_player_id e = k /\ 0 <= e_hp e <= 100 /\ e_hp e `mod` 10 = 0
  /\ (e_alive e = true <-> 0 < e_hp e) /\ is_i32 (e_hp e - 10).
Proof.
  destruct (battle_ok_reachable room_id ids ops Hids) as [Hok _ _ _].
  destruct (Hok _ _ He) as (? & ? & ? & ?).
  repeat (split; [tauto|]). unfold is_i32, int32_min, int32_max. lia.
Qed.

(** C36: As a battle goes on nobody joins or leaves the map of entities, hit
    points never rise, and a dead entity is frozen (it neither moves nor revives). *)
Theorem battle_monotone (room_id : Z) (ids : list Z) (ops later : list battle_op)
    (Hids : exists j k, j <> k /\ j ∈ ids /\ k ∈ ids) :
  players_le (players (battle room_id ids ops)) (players (battle room_id ids (ops ++ later))).
Proof.
  unfold battle. rewrite fold_left_app. fold (battle room_id ids ops).
  pose proof (battle_ok_reachable room_id ids ops Hids) as Hok.
  revert Hok. generalize (battle room_id ids ops). clear ops.
  induction later as [|op later IH]; intros g Hok; cbn; [reflexivity|].
  etrans; [by eapply battle_step_le|]. apply IH. by apply battle_step_ok.
Qed.

(** Once a battle is over it stays as it is: later inputs, eliminations and
    ticks change neither the frame number, nor any entity, nor the winner. *)
Theorem battle_over_frozen (g : GameRoom) (ops : list battle_op)
    (Hover : gr_game_over g = true) :
  let g' := fold_left battle_step ops g in
  gr_state g' = gr_state g /\ gr_game_over g' = true /\ gr_winner_id g' = gr_winner_id g.
Proof.
  revert g Hover. induction ops as [|op ops IH]; intros g Ho; [done|]. cbn.
  destruct (battle_step_over g op Ho) as (H1 & H2 & H3).
  destruct (IH (battle_step g op) H2) as (H4 & H5 & H6). split_and!; congruence.
Qed.

(** C26: the effect of one input does not depend on the order in which the loop
    visits the hash map: for every order of the keys, the author moves by the
    clamped axes and every other alive player within distance 8 of the new
    position loses 10 hit points (and dies at 0), all at once. *)
Theorem ApplyInput_any_order (ps : gmap Z EntityState) (i : InputCommand) (it : EntityState)
    (order : list Z)
    (Hit : ps !! in_player_id i = Some it) (Halive : e_alive it = true) (Hfire : in_fire i = true)
    (Horder : order ≡ₚ (map_to_list (<[in_player_id i := move i it]> ps)).*1) :
  fire_loop (in_player_id i) order (<[in_player_id i := move i it]> ps) = ApplyInput ps i
  /\ forall k, ApplyInput ps i !! k =
       (fun e => if k =? in_player_id i then move i it
                 else if e_alive e then shot (move i it) e else e) <$> ps !! k.
Proof.
  assert (forall k, ApplyInput ps i !! k =
       (fun e => if k =? in_player_id i then move i it
                 else if e_alive e then shot (move i it) e else e) <$> ps !! k) as Hspec.
  { intros k. rewrite ApplyInput_lookup, Hit, Halive, Hfire. cbn [negb].
    destruct (Z.eqb_spec k (in_player_id i)) as [->|Hne]; [by rewrite Hit|].
    destruct (ps !! k) as [e|]; [|done]. cbn. unfold shot_at.
    rewrite (proj2 (Z.eqb_neq _ _) Hne). by destruct (e_alive e). }
  split; [|done]. apply map_eq. intros k. rewrite Hspec.
  rewrite fire_loop_lookup by (rewrite Horder; apply keys_NoDup).
  rewrite lookup_insert_eq. destruct (Z.eqb_spec k (in_player_id i)) as [->|Hne].
  - rewrite lookup_insert_eq, Hit. unfold shot_at. rewrite Z.eqb_refl. cbn. by case_decide.
  - rewrite lookup_insert_ne by done. destruct (ps !! k) as [e|] eqn:Ek; [|by case_decide].
    rewrite decide_True.
    + cbn. unfold shot_at. rewrite (proj2 (Z.eqb_neq _ _) Hne). by destruct (e_alive e).
    + rewrite Horder. apply elem_of_keys. rewrite lookup_insert_ne by done. eauto.
Qed.

(** ** A NaN input *)
Definition nan_x (ps : gmap Z EntityState) (k : Z) : Prop :=
  exists e, ps !! k = Some e /\ e_x e = S754_nan.

Lemma shot_nan_target it e : e_x e = S754_nan -> shot it e = e.
Proof.
  intros Hx. unfold shot. rewrite Hx, f32_sub_nan_l.
  by rewrite f32_leb_hypot_nan.
Qed.

Lemma ApplyInput_nan ps i k e :
  ps !! k = Some e -> e_x e = S754_nan ->
  exists e', ApplyInput ps i !! k = Some e' /\ e_x e' = S754_nan
             /\ e_hp e' = e_hp e /\ e_alive e' = e_alive e.
Proof.
  intros Hk Hx. rewrite ApplyInput_lookup.
  destruct (ps !! in_player_id i) as [it|] eqn:Hi; [|eauto].
  destruct (e_alive it) eqn:Ha; cbn [negb]; [|eauto].
  destruct (Z.eqb_spec k (in_player_id i)) as [->|Hne].
  - rewrite Hk in Hi. injection Hi as ->. exists (move i it). unfold move. cbn [set_pos e_x e_hp e_alive].
    by rewrite Hx, f32_add_nan_l.
  - destruct (in_fire i); [|eauto]. rewrite Hk. cbn. exists e. split_and!; [|done..].
    unfold shot_at. rewrite shot_nan_target by done. by destruct (_ || _).
Qed.

(** [std::clamp] lets a NaN through, so a player who sends a NaN [move_x] gets
    a NaN position for the rest of the battle and no shot of anybody can hurt
    them any more: no later input changes their hit points. *)
Theorem nan_input_invulnerable (ps : gmap Z EntityState) (i : InputCommand) (e : EntityState)
    (later : list InputCommand)
    (Hk : ps !! in_player_id i = Some e) (Halive : e_alive e = true)
    (Hnan : in_move_x i = S754_nan) :
  exists e', fold_left ApplyInput (i :: later) ps !! in_player_id i = Some e'
             /\ e_x e' = S754_nan /\ e_hp e' = e_hp e /\ e_alive e' = true.
Proof.
  cbn. assert (ApplyInput ps i !! in_player_id i = Some (move i e)) as Hm.
  { by rewrite ApplyInput_lookup, Hk, Halive, Z.eqb_refl. }
  assert (e_x (move i e) = S754_nan) as Hx.
  { unfold move. cbn [set_pos e_x]. by rewrite Hnan, clamp_nan, f32_mul_nan_l, f32_add_nan_r. }
  assert (e_hp (move i e) = e_hp e /\ e_alive (move i e) = true) as [Hhp Hal] by done.
  revert Hm Hx Hhp Hal. generalize (move i e), (ApplyInput ps i). clear Hk Halive Hnan ps.
  induction later as [|i' later IH]; intros e0 ps Hm Hx Hhp Hal; [by exists e0|].
  cbn. destruct (ApplyInput_nan ps i' _ _ Hm Hx) as (e1 & H1 & H2 & H3 & H4).
  apply (IH e1); congruence.
Qed.

(** a battle started with a single player has no winner if that player
    leaves before the first tick: it is over with winner id 0. *)
Theorem single_player_leave_no_winner (room_id p : Z) :
  let g := battle room_id [p] [OpEliminate p] in
  gr_game_over g = true /\ gr_winner_id g = 0.
Proof.
  cbn -[f32_of_Z]. unfold EliminatePlayer, players. cbn -[f32_of_Z].
  rewrite lookup_insert_eq. cbn [e_alive negb]. rewrite insert_insert_eq.
  unfold CheckGameOver, players. cbn -[f32_of_Z].
  rewrite insert_empty, map_to_list_singleton. cbn -[f32_of_Z].
  by rewrite bool_decide_eq_false_2 by apply map_non_empty_singleton.
Qed.

(** ** The battle at concrete inputs *)
Definition walk_and_fire : InputCommand := mkInput 1 1 (f32_of_Z 2) (f32_of_Z 0) true 100.
Definition battle_ops : list battle_op := [OpInput walk_and_fire; OpTick; OpEliminate 2; OpTick].

Lemma two_players : exists j k : Z, j <> k /\ j ∈ [1; 2] /\ k ∈ [1; 2].
Proof. exists 1, 2. split; [lia|]. set_solver. Qed.

Example battle_run :
  (fun e => (e_hp e, e_alive e)) <$> players (battle 7 [1; 2] (take 2 battle_ops))
  = {[ 1 := (100, true); 2 := (90, true) ]}
  /\ gr_winner_id (battle 7 [1; 2] battle_ops) = 1.
Proof. vm_compute. done. Qed.

Lemma battle_unique_winner_witness :
  let g := battle 7 [1; 2] battle_ops in
  (forall k, is_Some (players g !! k) <-> k ∈ [1; 2])
  /\ (gr_game_over g = false -> gr_winner_id g = 0 /\ two_alive (players g))
  /\ (gr_game_over g = true ->
      gr_winner_id g ∈ [1; 2] /\ forall k, alive_at (players g) k <-> k = gr_winner_id g).
Proof. exact (battle_unique_winner 7 [1; 2] battle_ops two_players). Defined.

Definition entity_2 : EntityState :=
  match players (battle 7 [1; 2] (take 2 battle_ops)) !! 2 with
  | Some e => e | None => mkEntity 0 S754_nan S754_nan 0 false end.

Lemma battle_hp_bounds_witness :
  e_hp entity_2 = 90
  /\ e_player_id entity_2 = 2 /\ 0 <= e_hp entity_2 <= 100 /\ e_hp entity_2 `mod` 10 = 0
  /\ (e_alive entity_2 = true <-> 0 < e_hp entity_2) /\ is_i32 (e_hp entity_2 - 10).
Proof.
  split; [vm_compute; reflexivity|].
  apply (battle_hp_bounds 7 [1; 2] (take 2 battle_ops) two_players 2 entity_2).
  vm_compute. reflexivity.
Defined.

Lemma battle_monotone_witness :
  players_le (players (battle 7 [1; 2] [OpInput walk_and_fire]))
             (players (battle 7 [1; 2] ([OpInput walk_and_fire] ++ [OpTick]))).
Proof. exact (battle_monotone 7 [1; 2] [OpInput walk_and_fire] [OpTick] two_players). Defined.

Lemma battle_over_frozen_witness :
  let g := battle 7 [1; 2] battle_ops in
  let g' := fold_left battle_step [OpTick; OpInput walk_and_fire] g in
  gr_state g' = gr_state g /\ gr_game_over g' = true /\ gr_winner_id g' = gr_winner_id g.
Proof.
  apply (battle_over_frozen (battle 7 [1; 2] battle_ops) [OpTick; OpInput walk_and_fire]).
  vm_compute. reflexivity.
Defined.

Definition players_3 : gmap Z EntityState := players (battle 7 [1; 2; 3] []).
Definition entity_1 : EntityState :=
  match players_3 !! 1 with Some e => e | None => mkEntity 0 S754_nan S754_nan 0 false end.

Lemma ApplyInput_any_order_witness :
  fire_loop 1 [3; 1; 2] (<[1 := move walk_and_fire entity_1]> players_3) = ApplyInput players_3 walk_and_fire
  /\ forall k, ApplyInput players_3 walk_and_fire !! k =
       (fun e => if k =? 1 then move walk_and_fire entity_1
                 else if e_alive e then shot (move walk_and_fire entity_1) e else e) <$> players_3 !! k.
Proof.
  apply (ApplyInput_any_order players_3 walk_and_fire entity_1 [3; 1; 2]).
  - vm_compute. reflexivity.
  - vm_compute. reflexivity.
  - reflexivity.
  - vm_compute. solve_Permutation.
Defined.

Definition nan_move : InputCommand := mkInput 1 2 S754_nan (f32_of_Z 0) false 200.

Lemma nan_input_invulnerable_witness :
  exists e', fold_left ApplyInput [nan_move; mkInput 2 1 (f32_of_Z 0) (f32_of_Z 0) true 300] players_3 !! 1 = Some e'
             /\ e_x e' = S754_nan /\ e_hp e' = e_hp entity_1 /\ e_alive e' = true.
Proof.
  apply (nan_input_invulnerable players_3 nan_move entity_1
           [mkInput 2 1 (f32_of_Z 0) (f32_of_Z 0) true 300]).
  - vm_compute. reflexivity.
  - vm_compute. reflexivity.
  - reflexivity.
Defined.
