(* ===== verification/MatchQueue.v ===== *)
(** * MatchQueue: the matchmaking queue

    Models [match/match_queue.h] and [match/match_queue.cpp]: a [deque] for the
    order and an [unordered_set] against duplicates.  Every method runs under
    the queue's mutex and is one function.  The specification is a plain list
    without duplicates; [MatchQueue_refines] relates every sequence of calls. *)
From S2P Require Import Prelude.
Local Open Scope Z_scope.

Record MatchQueue := mkMatchQueue {
  queue_ : list Z;
  in_queue_ : gset Z
}.

Definition MatchQueue_new : MatchQueue := mkMatchQueue [] ∅.

Definition MatchQueue_Push (q : MatchQueue) (player_id : Z) : bool * MatchQueue :=
  if (player_id =? 0) || bool_decide (player_id ∈ in_queue_ q) then (false, q)
  else (true, mkMatchQueue (queue_ q ++ [player_id]) ({[player_id]} ∪ in_queue_ q)).

Definition MatchQueue_Remove (q : MatchQueue) (player_id : Z) : bool * MatchQueue :=
  if negb (bool_decide (player_id ∈ in_queue_ q)) then (false, q)
  else (true, mkMatchQueue (filter (fun p => p <> player_id) (queue_ q))
                           (in_queue_ q ∖ {[player_id]})).

Definition MatchQueue_Contains (q : MatchQueue) (player_id : Z) : bool :=
  bool_decide (player_id ∈ in_queue_ q).

(** The [for] loop of [TryPopN]; [front] of an empty deque is never reached
    ([pop_loop_spec]). *)
Fixpoint pop_loop (n : nat) (q : MatchQueue) (result : list Z) : list Z * MatchQueue :=
  match n with
  | O => (result, q)
  | S n =>
    match queue_ q with
    | [] => (result, q)
    | player_id :: rest =>
      pop_loop n (mkMatchQueue rest (in_queue_ q ∖ {[player_id]})) (result ++ [player_id])
    end
  end.

(** [n] is a [size_t]. *)
Definition MatchQueue_TryPopN (q : MatchQueue) (n : Z) : list Z * MatchQueue :=
  if Z.of_nat (length (queue_ q)) <? n then ([], q)
  else pop_loop (Z.to_nat n) q [].

Definition MatchQueue_PopN (q : MatchQueue) (n : Z) : list Z * MatchQueue :=
  MatchQueue_TryPopN q n.

Definition MatchQueue_Size (q : MatchQueue) : Z := Z.of_nat (length (queue_ q)).

(** ** The specification: a duplicate-free list of non-zero ids *)
Definition repr (q : MatchQueue) (l : list Z) : Prop :=
  queue_ q = l /\ NoDup l /\ (0 ∉ l) /\ (forall p, p ∈ in_queue_ q <-> p ∈ l).

Definition spec_Push (l : list Z) (p : Z) : bool * list Z :=
  if decide (p = 0 \/ p ∈ l) then (false, l) else (true, l ++ [p]).
Definition spec_Remove (l : list Z) (p : Z) : bool * list Z :=
  (bool_decide (p ∈ l), filter (fun x => x <> p) l).
Definition spec_TryPopN (l : list Z) (n : Z) : list Z * list Z :=
  if decide (Z.of_nat (length l) < n) then ([], l)
  else (take (Z.to_nat n) l, drop (Z.to_nat n) l).

Lemma repr_new : repr MatchQueue_new [].
Proof. split_and!; [done|constructor|set_solver|set_solver]. Qed.

Lemma Push_repr q l p :
  repr q l ->
  (MatchQueue_Push q p).1 = (spec_Push l p).1 /\ repr (MatchQueue_Push q p).2 (spec_Push l p).2.
Proof.
  intros (<- & Hnd & H0 & Hin). unfold MatchQueue_Push, spec_Push.
  destruct (Z.eqb_spec p 0) as [->|Hp]; cbn [orb].
  { rewrite decide_True by auto. by split. }
  case_bool_decide as Hd.
  - rewrite decide_True by (right; by apply Hin). by split.
  - rewrite Hin in Hd. rewrite decide_False by naive_solver. split; [done|].
    split_and!; cbn; [done| |set_solver|set_solver].
    apply NoDup_app. split_and!; [done|set_solver|apply NoDup_singleton].
Qed.

Lemma filter_ne_id (l : list Z) p : p ∉ l -> filter (fun x => x <> p) l = l.
Proof.
  induction l as [|x l IH]; [done|]. intros Hp. rewrite filter_cons, decide_True by set_solver.
  f_equal. apply IH. set_solver.
Qed.

Lemma Remove_repr q l p :
  repr q l ->
  (MatchQueue_Remove q p).1 = (spec_Remove l p).1 /\ repr (MatchQueue_Remove q p).2 (spec_Remove l p).2.
Proof.
  intros (<- & Hnd & H0 & Hin). unfold MatchQueue_Remove, spec_Remove.
  rewrite (bool_decide_ext _ _ (Hin p)). case_bool_decide as Hd; cbn [negb fst snd].
  - split; [done|]. split_and!; cbn; [done|by apply NoDup_filter| |].
    + rewrite list_elem_of_filter. tauto.
    + intros x. rewrite elem_of_difference, elem_of_singleton, Hin, list_elem_of_filter. tauto.
  - rewrite filter_ne_id by done. by split.
Qed.

Lemma pop_loop_spec n q l res :
  repr q l -> (n <= length l)%nat ->
  (pop_loop n q res).1 = res ++ take n l /\ repr (pop_loop n q res).2 (drop n l).
Proof.
  revert q l res. induction n as [|n IH]; intros q l res Hq Hn; cbn.
  - by rewrite app_nil_r.
  - destruct Hq as (Hl & Hnd & H0 & Hin). rewrite Hl. destruct l as [|p l]; cbn in *; [lia|].
    apply NoDup_cons in Hnd as [Hp Hnd].
    destruct (IH (mkMatchQueue l (in_queue_ q ∖ {[p]})) l (res ++ [p])) as [H1 H2]; [|lia|].
    + split_and!; cbn; [done|done|set_solver|set_solver].
    + rewrite H1, <- app_assoc. done.
Qed.

Lemma TryPopN_repr q l n :
  0 <= n -> repr q l ->
  (MatchQueue_TryPopN q n).1 = (spec_TryPopN l n).1
  /\ repr (MatchQueue_TryPopN q n).2 (spec_TryPopN l n).2.
Proof.
  intros Hn Hq. pose proof Hq as (Hl & _). unfold MatchQueue_TryPopN, spec_TryPopN. rewrite Hl.
  destruct (Z.ltb_spec (Z.of_nat (length l)) n).
  - rewrite decide_True by done. by split.
  - rewrite decide_False by lia. apply (pop_loop_spec _ _ _ []); [done|lia].
Qed.

(** ** Sequences of calls *)
Inductive mq_op :=
  | MqPush (p : Z) | MqRemove (p : Z) | MqContains (p : Z) | MqTryPopN (n : Z) | MqPopN (n : Z) | MqSize.
Inductive mq_out := OBool (b : bool) | OIds (ids : list Z) | ONum (n : Z).

Definition mq_op_ok (op : mq_op) : Prop :=
  match op with MqTryPopN n | MqPopN n => 0 <= n | _ => True end.

Definition mq_step (q : MatchQueue) (op : mq_op) : mq_out * MatchQueue :=
  match op with
  | MqPush p => let '(b, q) := MatchQueue_Push q p in (OBool b, q)
  | MqRemove p => let '(b, q) := MatchQueue_Remove q p in (OBool b, q)
  | MqContains p => (OBool (MatchQueue_Contains q p), q)
  | MqTryPopN n => let '(r, q) := MatchQueue_TryPopN q n in (OIds r, q)
  | MqPopN n => let '(r, q) := MatchQueue_PopN q n in (OIds r, q)
  | MqSize => (ONum (MatchQueue_Size q), q)
  end.

Definition spec_step (l : list Z) (op : mq_op) : mq_out * list Z :=
  match op with
  | MqPush p => let '(b, l) := spec_Push l p in (OBool b, l)
  | MqRemove p => let '(b, l) := spec_Remove l p in (OBool b, l)
  | MqContains p => (OBool (bool_decide (p ∈ l)), l)
  | MqTryPopN n | MqPopN n => let '(r, l) := spec_TryPopN l n in (OIds r, l)
  | MqSize => (ONum (Z.of_nat (length l)), l)
  end.

Fixpoint run {St} (step : St -> mq_op -> mq_out * St) (s : St) (ops : list mq_op)
    : list mq_out * St :=
  match ops with
  | [] => ([], s)
  | op :: ops => let '(o, s) := step s op in let '(os, s) := run step s ops in (o :: os, s)
  end.

Lemma mq_step_repr q l op :
  mq_op_ok op -> repr q l ->
  (mq_step q op).1 = (spec_step l op).1 /\ repr (mq_step q op).2 (spec_step l op).2.
Proof.
  intros Hop Hq. pose proof Hq as (Hl & _ & _ & Hin).
  destruct op as [p|p|p|n|n|]; cbn in *.
  - destruct (Push_repr q l p Hq) as [H1 H2].
    destruct (MatchQueue_Push q p), (spec_Push l p); cbn in *. by subst.
  - destruct (Remove_repr q l p Hq) as [H1 H2].
    destruct (MatchQueue_Remove q p); cbn in *. by subst.
  - split; [|done]. unfold MatchQueue_Contains. by rewrite (bool_decide_ext _ _ (Hin p)).
  - destruct (TryPopN_repr q l n Hop Hq) as [H1 H2].
    destruct (MatchQueue_TryPopN q n), (spec_TryPopN l n); cbn in *. by subst.
  - destruct (TryPopN_repr q l n Hop Hq) as [H1 H2]. unfold MatchQueue_PopN.
    destruct (MatchQueue_TryPopN q n), (spec_TryPopN l n); cbn in *. by subst.
  - unfold MatchQueue_Size. by rewrite Hl.
Qed.

(** C30: the queue behaves as a list without duplicates: for every sequence of
    calls on a fresh queue, all the returned values are those of the list
    specification (push at the back unless present or 0, remove in place, pop
    exactly the first [n] or nothing), and the deque and the set agree. *)
Theorem MatchQueue_refines (ops : list mq_op) (Hops : Forall mq_op_ok ops) :
  (run mq_step MatchQueue_new ops).1 = (run spec_step [] ops).1
  /\ repr (run mq_step MatchQueue_new ops).2 (run spec_step [] ops).2.
Proof.
  generalize MatchQueue_new, (@nil Z), repr_new.
  induction Hops as [|op ops Hop Hops IH]; intros q l Hq; cbn; [done|].
  destruct (mq_step_repr q l op Hop Hq) as [H1 H2].
  destruct (mq_step q op) as [o q'], (spec_step l op) as [o' l']. cbn in *. subst o'.
  destruct (IH q' l' H2) as [H3 H4].
  destruct (run mq_step q' ops), (run spec_step l' ops). cbn in *. by subst.
Qed.

Lemma MatchQueue_refines_witness :
  (run mq_step MatchQueue_new [MqPush 1; MqPush 1; MqPush 2; MqPush 3; MqRemove 2; MqPopN 2; MqSize]).1
  = [OBool true; OBool false; OBool true; OBool true; OBool true; OIds [1; 3]; ONum 0].
Proof.
  destruct (MatchQueue_refines
    [MqPush 1; MqPush 1; MqPush 2; MqPush 3; MqRemove 2; MqPopN 2; MqSize]) as [H _].
  - repeat constructor; cbn; lia.
  - rewrite H. vm_compute. reflexivity.
Defined.
