(* ===== verification/Config.v ===== *)
(** * Config: the configuration file

    Models [config/config_manager.h] and [config/config_manager.cpp]: a
    line-based reader of the two-level [config/server.yaml].  [Load] is a
    function of the contents of the file ([None] when it cannot be opened) and
    of the current settings; [std::stoi] may throw out of it, after the earlier
    lines have taken effect. *)
From S2P Require Import Prelude StdString.
From Stdlib Require Import Ascii.
Local Open Scope string_scope.
Local Open Scope Z_scope.

(** ** Data (config_manager.h) *)
Record MysqlConfig := mkMysqlConfig {
  mysql_host : string; mysql_port : Z; mysql_user : string;
  mysql_password : string; mysql_database : string
}.
Record RedisConfig := mkRedisConfig { redis_host : string; redis_port : Z }.

Record ConfigManager := mkConfig {
  server_host_ : string;
  server_port_ : Z;
  worker_threads_ : Z;
  tick_interval_ms_ : Z;
  room_player_count_ : Z;
  mysql_ : MysqlConfig;
  redis_ : RedisConfig
}.

Definition default_config : ConfigManager :=
  mkConfig "0.0.0.0" 9000 4 50 2
    (mkMysqlConfig "127.0.0.1" 3306 "root" "123456" "game")
    (mkRedisConfig "127.0.0.1" 6379).

(** ** Lines *)

(** [std::getline] until it fails: the pieces between newlines; an empty piece
    at the end of the file is not a line. [cur] is the piece being read. *)
Fixpoint getlines (cur s : string) : list string :=
  match s with
  | EmptyString => if bool_decide (cur = "") then [] else [cur]
  | String c s' =>
    if ascii_dec c "010" then cur :: getlines "" s'
    else getlines (cur +:+ String c "") s'
  end.

Definition is_front_trim (c : ascii) : bool :=
  bool_decide (c = " "%char \/ c = "009"%char \/ c = "034"%char).
Definition is_back_trim (c : ascii) : bool :=
  bool_decide (c = " "%char \/ c = "009"%char \/ c = "013"%char \/ c = "034"%char).

(** The two loops of [Trim]: erase at the front, then pop at the back. *)
Fixpoint trim_front (value : string) : string :=
  match value with
  | String c s => if is_front_trim c then trim_front s else value
  | EmptyString => EmptyString
  end.
Fixpoint trim_back (value : string) : string :=
  match value with
  | String c s =>
    match trim_back s with
    | EmptyString => if is_back_trim c then EmptyString else String c EmptyString
    | s' => String c s'
    end
  | EmptyString => EmptyString
  end.
Definition Trim (value : string) : string := trim_back (trim_front value).

(** [line.find(':')] with the two [substr]s around it. *)
Fixpoint split_colon (line : string) : option (string * string) :=
  match line with
  | EmptyString => None
  | String c s =>
    if ascii_dec c ":" then Some ("", s)
    else match split_colon s with
         | Some (k, v) => Some (String c k, v)
         | None => None
         end
  end.

(** [None] is the result [false]; the output parameters are the pair. *)
Definition SplitKeyValue (line : string) : option (string * string) :=
  match split_colon line with
  | None => None
  | Some (k, v) =>
    let key := Trim k in
    let value := Trim v in
    if bool_decide (key = "") then None else Some (key, value)
  end.

(** [line.back()], and the line without it. *)
Fixpoint split_back (line : string) : option (string * ascii) :=
  match line with
  | EmptyString => None
  | String c s =>
    match split_back s with
    | None => Some ("", c)
    | Some (s', d) => Some (String c s', d)
    end
  end.

(** ** Assignments of the sections *)
Definition set_server (key value : string) (c : ConfigManager) : result ConfigManager :=
  if bool_decide (key = "host") then
    Ok (mkConfig value (server_port_ c) (worker_threads_ c) (tick_interval_ms_ c) (room_player_count_ c) (mysql_ c) (redis_ c))
  else if bool_decide (key = "port") then
    v ← stoi value;
    Ok (mkConfig (server_host_ c) v (worker_threads_ c) (tick_interval_ms_ c) (room_player_count_ c) (mysql_ c) (redis_ c))
  else if bool_decide (key = "worker_threads") then
    v ← stoi value;
    Ok (mkConfig (server_host_ c) (server_port_ c) v (tick_interval_ms_ c) (room_player_count_ c) (mysql_ c) (redis_ c))
  else if bool_decide (key = "tick_interval_ms") then
    v ← stoi value;
    Ok (mkConfig (server_host_ c) (server_port_ c) (worker_threads_ c) v (room_player_count_ c) (mysql_ c) (redis_ c))
  else Ok c.

Definition with_mysql (c : ConfigManager) (m : MysqlConfig) : ConfigManager :=
  mkConfig (server_host_ c) (server_port_ c) (worker_threads_ c) (tick_interval_ms_ c) (room_player_count_ c) m (redis_ c).
Definition with_redis (c : ConfigManager) (r : RedisConfig) : ConfigManager :=
  mkConfig (server_host_ c) (server_port_ c) (worker_threads_ c) (tick_interval_ms_ c) (room_player_count_ c) (mysql_ c) r.

Definition set_mysql (key value : string) (c : ConfigManager) : result ConfigManager :=
  let m := mysql_ c in
  if bool_decide (key = "host") then
    Ok (with_mysql c (mkMysqlConfig value (mysql_port m) (mysql_user m) (mysql_password m) (mysql_database m)))
  else if bool_decide (key = "port") then
    v ← stoi value;
    Ok (with_mysql c (mkMysqlConfig (mysql_host m) v (mysql_user m) (mysql_password m) (mysql_database m)))
  else if bool_decide (key = "user") then
    Ok (with_mysql c (mkMysqlConfig (mysql_host m) (mysql_port m) value (mysql_password m) (mysql_database m)))
  else if bool_decide (key = "password") then
    Ok (with_mysql c (mkMysqlConfig (mysql_host m) (mysql_port m) (mysql_user m) value (mysql_database m)))
  else if bool_decide (key = "database") then
    Ok (with_mysql c (mkMysqlConfig (mysql_host m) (mysql_port m) (mysql_user m) (mysql_password m) value))
  else Ok c.

Definition set_redis (key value : string) (c : ConfigManager) : result ConfigManager :=
  if bool_decide (key = "host") then Ok (with_redis c (mkRedisConfig value (redis_port (redis_ c))))
  else if bool_decide (key = "port") then
    v ← stoi value; Ok (with_redis c (mkRedisConfig (redis_host (redis_ c)) v))
  else Ok c.

Definition set_match (key value : string) (c : ConfigManager) : result ConfigManager :=
  if bool_decide (key = "room_player_count") then
    v ← stoi value;
    Ok (mkConfig (server_host_ c) (server_port_ c) (worker_threads_ c) (tick_interval_ms_ c) v (mysql_ c) (redis_ c))
  else Ok c.

Definition set_value (section key value : string) (c : ConfigManager) : result ConfigManager :=
  if bool_decide (section = "server") then set_server key value c
  else if bool_decide (section = "mysql") then set_mysql key value c
  else if bool_decide (section = "redis") then set_redis key value c
  else if bool_decide (section = "match") then set_match key value c
  else Ok c.

(** ** Load *)
Definition starts_with (d : ascii) (line : string) : bool :=
  match line with String c _ => bool_decide (c = d) | EmptyString => false end.

(** One turn of the loop, on the current section and settings. *)
Definition load_line (section line : string) (c : ConfigManager) : result (string * ConfigManager) :=
  if bool_decide (line = "") || starts_with "#" line then Ok (section, c)
  else
    match split_back line with
    | Some (front, last) =>
      if negb (starts_with " " line) && bool_decide (last = ":"%char)
      then Ok (Trim front, c)
      else
        match SplitKeyValue line with
        | None => Ok (section, c)
        | Some (key, value) =>
          if bool_decide (value = "") then Ok (section, c)
          else c ← set_value section key value c; Ok (section, c)
        end
    | None => Ok (section, c)
    end.

(** The loop returns the settings also when it ends with an exception. *)
Fixpoint load_lines (section : string) (lines : list string) (c : ConfigManager)
    : result bool * ConfigManager :=
  match lines with
  | [] => (Ok true, c)
  | line :: lines =>
    match load_line section line c with
    | Ok (section, c) => load_lines section lines c
    | Throw e => (Throw e, c)
    end
  end.

Definition Load (file : option string) (c : ConfigManager) : result bool * ConfigManager :=
  match file with
  | None => (Ok false, c)
  | Some input => load_lines "" (getlines "" input) c
  end.

(** ** Reading back a rendered file *)

(** Characters that neither end a line nor are trimmed. *)
Definition plain_char (c : ascii) : bool :=
  negb (bool_decide (c = "010"%char)) && negb (is_front_trim c) && negb (is_back_trim c).
Fixpoint plain (s : string) : bool :=
  match s with String c s => plain_char c && plain s | EmptyString => true end.

Definition quote (s : string) : string := String "034" (s +:+ String "034" "").
Definition newline : string := String "010" "".

(** The layout of [config/server.yaml]. *)
Definition render_config (c : ConfigManager) : string :=
  "server:" +:+ newline +:+
  ("  host: " +:+ quote (server_host_ c)) +:+ newline +:+
  ("  port: " +:+ to_string (server_port_ c)) +:+ newline +:+
  ("  worker_threads: " +:+ to_string (worker_threads_ c)) +:+ newline +:+
  ("  tick_interval_ms: " +:+ to_string (tick_interval_ms_ c)) +:+ newline +:+
  "" +:+ newline +:+
  "mysql:" +:+ newline +:+
  ("  host: " +:+ quote (mysql_host (mysql_ c))) +:+ newline +:+
  ("  port: " +:+ to_string (mysql_port (mysql_ c))) +:+ newline +:+
  ("  user: " +:+ quote (mysql_user (mysql_ c))) +:+ newline +:+
  ("  password: " +:+ quote (mysql_password (mysql_ c))) +:+ newline +:+
  ("  database: " +:+ quote (mysql_database (mysql_ c))) +:+ newline +:+
  "" +:+ newline +:+
  "redis:" +:+ newline +:+
  ("  host: " +:+ quote (redis_host (redis_ c))) +:+ newline +:+
  ("  port: " +:+ to_string (redis_port (redis_ c))) +:+ newline +:+
  "" +:+ newline +:+
  "match:" +:+ newline +:+
  ("  room_player_count: " +:+ to_string (room_player_count_ c)) +:+ newline.

Definition plain_value (s : string) : Prop := plain s = true /\ s <> "".

Record config_ok (c : ConfigManager) : Prop := {
  co_strings : Forall plain_value
    [server_host_ c; mysql_host (mysql_ c); mysql_user (mysql_ c); mysql_password (mysql_ c);
     mysql_database (mysql_ c); redis_host (redis_ c)];
  co_ints : Forall is_i32
    [server_port_ c; worker_threads_ c; tick_interval_ms_ c; mysql_port (mysql_ c);
     redis_port (redis_ c); room_player_count_ c]
}.

Fixpoint no_newline (s : string) : bool :=
  match s with
  | String c s => negb (bool_decide (c = "010"%char)) && no_newline s
  | EmptyString => true
  end.

Lemma string_cons_app c s t : String c s +:+ t = String c (s +:+ t).
Proof. done. Qed.
Lemma string_app_assoc (s t u : string) : s +:+ (t +:+ u) = (s +:+ t) +:+ u.
Proof. induction s as [|c s IH]; [done|]. rewrite !string_cons_app. by rewrite IH. Qed.

Lemma getlines_line cur l rest :
  no_newline l = true -> getlines cur (l +:+ newline +:+ rest) = (cur +:+ l) :: getlines "" rest.
Proof.
  revert cur. induction l as [|c l IH]; intros cur Hl.
  - rewrite string_app_nil. cbn. done.
  - cbn in Hl. bools. rewrite !string_cons_app. cbn [getlines].
    destruct (ascii_dec c "010"); [done|]. rewrite IH by done.
    f_equal. rewrite <- string_app_assoc. done.
Qed.

Lemma getlines_last l : no_newline l = true -> l <> "" -> getlines "" (l +:+ newline) = [l].
Proof.
  intros Hl Hne. rewrite <- (string_app_nil newline). rewrite getlines_line by done. done.
Qed.

Lemma no_newline_app s t : no_newline (s +:+ t) = no_newline s && no_newline t.
Proof.
  induction s as [|c s IH]; [done|]. rewrite string_cons_app. cbn. rewrite IH. by rewrite andb_assoc.
Qed.

Lemma plain_no_newline s : plain s = true -> no_newline s = true.
Proof.
  induction s as [|c s IH]; [done|]. cbn. unfold plain_char. intros. bools.
  by rewrite IH, bool_decide_eq_false_2.
Qed.

Lemma trim_front_plain s t : plain s = true -> s <> "" -> trim_front (s +:+ t) = s +:+ t.
Proof.
  destruct s as [|c s]; [done|]. cbn [plain]. unfold plain_char. intros. bools.
  rewrite string_cons_app. cbn. by destruct (is_front_trim c).
Qed.

Lemma trim_back_plain s t :
  plain s = true -> trim_back t = "" -> trim_back (s +:+ t) = s.
Proof.
  intros Hs Ht. induction s as [|c s IH]; [done|]. cbn [plain] in Hs. unfold plain_char in Hs. bools.
  rewrite string_cons_app. cbn [trim_back]. rewrite IH by done.
  destruct s; [|done]. by destruct (is_back_trim c).
Qed.

Lemma Trim_quote s : plain_value s -> Trim (" " +:+ quote s) = s.
Proof.
  intros [Hp Hne]. unfold Trim, quote.
  change (trim_back (trim_front (s +:+ String "034" "")) = s).
  rewrite trim_front_plain by done. by apply trim_back_plain.
Qed.

Lemma Trim_space s : plain_value s -> Trim (" " +:+ s) = s.
Proof.
  intros [Hp Hne]. unfold Trim. change (trim_back (trim_front s) = s).
  rewrite <- (string_app_nil s) at 1. rewrite trim_front_plain by done. by apply trim_back_plain.
Qed.

Lemma plain_digits fuel n acc :
  0 <= n -> plain acc = true -> plain (digits fuel n acc) = true.
Proof.
  assert (forall d, 0 <= d < 10 -> plain_char (digit_char d) = true) as Hd.
  { intros d Hd. destruct (decide (d = 0)) as [->|]; [done|]. destruct (decide (d = 1)) as [->|]; [done|].
    destruct (decide (d = 2)) as [->|]; [done|]. destruct (decide (d = 3)) as [->|]; [done|].
    destruct (decide (d = 4)) as [->|]; [done|]. destruct (decide (d = 5)) as [->|]; [done|].
    destruct (decide (d = 6)) as [->|]; [done|]. destruct (decide (d = 7)) as [->|]; [done|].
    destruct (decide (d = 8)) as [->|]; [done|]. assert (d = 9) as -> by lia. done. }
  revert n acc. induction fuel as [|fuel IH]; intros n acc Hn Hacc; cbn; [done|].
  destruct (Z.ltb_spec n 10); cbn.
  - by rewrite Hd, Hacc by lia.
  - apply IH; [apply Z.div_pos; lia|]. cbn. rewrite Hd by (apply Z.mod_pos_bound; lia). done.
Qed.

Lemma plain_to_string z : plain_value (to_string z).
Proof.
  split.
  - unfold to_string. generalize (S (Z.to_nat (Z.log2 (Z.abs z)))) as f. intros f.
    destruct (z <? 0); cbn [plain]; [|by apply plain_digits; [lia|]].
    change (plain_char "-") with true. cbn [andb]. apply plain_digits; [lia|done].
  - intros H. pose proof (strto_to_string_nil z) as Hs. by rewrite H in Hs.
Qed.

Lemma load_line_kv section line key value c :
  starts_with " " line = true -> SplitKeyValue line = Some (key, value) -> value <> "" ->
  load_line section line c = (c ← set_value section key value c; Ok (section, c)).
Proof.
  intros Hs Hkv Hv. unfold load_line.
  destruct line as [|d line]; [done|]. cbn in Hs. bools. subst d.
  rewrite bool_decide_eq_false_2 by done. cbn [orb starts_with].
  rewrite bool_decide_eq_false_2 by done. rewrite bool_decide_eq_true_2 by done. cbn [negb andb].
  destruct (split_back _) as [[f l]|] eqn:E.
  - rewrite Hkv. by rewrite bool_decide_eq_false_2.
  - cbn in E. destruct (split_back line) as [[? ?]|]; done.
Qed.

Lemma SplitKeyValue_line line k v key value :
  split_colon line = Some (k, v) -> Trim k = key -> Trim v = value -> key <> "" ->
  SplitKeyValue line = Some (key, value).
Proof.
  intros Hs Hk Hv Hne. unfold SplitKeyValue. rewrite Hs. cbn. rewrite Hk, Hv.
  by rewrite bool_decide_eq_false_2.
Qed.

Lemma no_newline_quote s : plain_value s -> no_newline (quote s) = true.
Proof.
  intros [Hp _]. unfold quote. cbn. rewrite no_newline_app, plain_no_newline by done. done.
Qed.

Lemma no_newline_to_string z : no_newline (to_string z) = true.
Proof. apply plain_no_newline, plain_to_string. Qed.

Lemma load_turn section line section' lines c c' :
  load_line section line c = Ok (section', c') ->
  load_lines section (line :: lines) c = load_lines section' lines c'.
Proof. intros H. cbn [load_lines]. by rewrite H. Qed.

Lemma load_turn_string section line lines v c c' key :
  split_colon line = Some ("  " +:+ key, " " +:+ quote v) ->
  plain_value v -> starts_with " " line = true ->
  Trim ("  " +:+ key) = key -> key <> "" -> set_value section key v c = Ok c' ->
  load_lines section (line :: lines) c = load_lines section lines c'.
Proof.
  intros Hsp Hv Hs Hk Hne Hset. apply load_turn.
  rewrite (load_line_kv _ _ key v); [by rewrite Hset|done| |by destruct Hv].
  eapply SplitKeyValue_line; [exact Hsp|done|by apply Trim_quote|done].
Qed.

Lemma load_turn_int section line lines z c f key :
  split_colon line = Some ("  " +:+ key, " " +:+ to_string z) ->
  is_i32 z -> starts_with " " line = true ->
  Trim ("  " +:+ key) = key -> key <> "" ->
  (forall s, set_value section key s c = (v ← stoi s; Ok (f v))) ->
  load_lines section (line :: lines) c = load_lines section lines (f z).
Proof.
  intros Hsp Hz Hs Hk Hne Hset. apply load_turn.
  rewrite (load_line_kv _ _ key (to_string z)); [|done| |].
  - by rewrite Hset, stoi_to_string.
  - eapply SplitKeyValue_line; [exact Hsp|done|apply Trim_space, plain_to_string|done].
  - by destruct (plain_to_string z).
Qed.

(** Runs the comparisons with literal keys in a [set_value]. *)
Ltac solve_set_value :=
  intros; unfold set_value, set_server, set_mysql, set_redis, set_match;
  repeat first [ rewrite bool_decide_eq_true_2 by reflexivity
               | rewrite bool_decide_eq_false_2 by discriminate ];
  reflexivity.

(** Reads the next line of a rendered file. *)
Ltac load_next :=
  match goal with |- load_lines _ (?l :: _) _ = _ =>
    match l with
    | context [quote ?v] =>
        erewrite (load_turn_string _ _ _ v);
        [|reflexivity|assumption|reflexivity|reflexivity|discriminate|solve_set_value]
    | context [to_string ?z] =>
        erewrite (load_turn_int _ _ _ z);
        [|reflexivity|assumption|reflexivity|reflexivity|discriminate|solve_set_value]
    | _ => erewrite load_turn by reflexivity;
           match goal with |- load_lines ?s _ _ = _ =>
             let r := eval vm_compute in s in change s with r end
    end
  end;
  unfold with_mysql, with_redis;
  cbn [server_host_ server_port_ worker_threads_ tick_interval_ms_ room_player_count_ mysql_ redis_
       mysql_host mysql_port mysql_user mysql_password mysql_database redis_host redis_port].

#[local] Opaque to_string.

(** C32: writing any configuration whose strings are plain and not empty ([config_ok]; an
    empty password is not read back) in the layout of [config/server.yaml] and
    loading it, over whatever settings were there before, gives exactly that
    configuration: every key is found in its section, the quotes and the
    indentation are trimmed, and every number is read back. *)
Theorem Load_render (c d : ConfigManager) (Hok : config_ok c) :
  Load (Some (render_config c)) d = (Ok true, c).
Proof.
  destruct Hok as [Hs Hi]. repeat (apply Forall_cons in Hs as [? Hs]).
  repeat (apply Forall_cons in Hi as [? Hi]).
  unfold Load, render_config.
  repeat rewrite getlines_line
    by (rewrite ?no_newline_app, ?no_newline_to_string, ?no_newline_quote by assumption; reflexivity).
  rewrite getlines_last by first [done | rewrite no_newline_app, no_newline_to_string; done].
  repeat load_next. destruct c as [? ? ? ? ? [] []]. reflexivity.
Qed.

Definition sample_config : ConfigManager :=
  mkConfig "10.0.0.1" 9000 4 (-7) 3
    (mkMysqlConfig "db" 3306 "root" "secret" "game") (mkRedisConfig "cache" 6380).

Lemma Load_render_witness :
  config_ok sample_config /\ Load (Some (render_config sample_config)) default_config = (Ok true, sample_config).
Proof.
  assert (config_ok sample_config) as H.
  { split; repeat (constructor; [vm_compute; done|]); constructor. }
  split; [exact H|]. exact (Load_render sample_config default_config H).
Defined.

(** a missing file leaves the settings alone and returns false; a number that
    [std::stoi] cannot read makes [Load] throw with the lines before it already
    in effect, whatever follows, and [main] does not catch the exception. *)
Theorem Load_failures (c : ConfigManager) (rest : string) :
  Load None c = (Ok false, c)
  /\ Load (Some ("server:" +:+ newline +:+ "  host: 10.0.0.1" +:+ newline
                 +:+ "  port: http" +:+ newline +:+ rest)) c
     = (Throw invalid_argument,
        mkConfig "10.0.0.1" (server_port_ c) (worker_threads_ c) (tick_interval_ms_ c)
          (room_player_count_ c) (mysql_ c) (redis_ c)).
Proof. split; [done|]. unfold Load. rewrite !getlines_line by done. done. Qed.
