(* ===== verification/Registry.v ===== *)
(** * Registry: sessions, connections by player, and players

    Models [util/id_generator.h], [net/session.h/.cpp] (the data and setters),
    [net/connection_manager.h], [player/player.h/.cpp] and
    [player/player_manager.h/.cpp].

    Sessions are shared objects: they live in a heap and are named by their
    address, a [SessionPtr]; two managers hold pointers to the same session and
    see each other's writes.  [TcpServer::DoAccept] allocates one session per
    connection, so the address of a session is its [session_id].  A null pointer
    is [None].  A [Player] is never removed from [PlayerManager], so a
    [PlayerPtr] is the player's key. *)
From S2P Require Import Prelude StdString.
Local Open Scope Z_scope.

(** ** Ids (id_generator.h): process-wide [std::atomic<int64_t>] counters

    The record holds the counters without the wrap of [fetch_add]; a draw
    returns the wrapped value, which is what the atomic holds. *)
Record IdGenerator := mkIds {
  next_player_id : Z; next_room_id : Z; next_battle_id : Z; next_session_id : Z
}.
Definition IdGenerator_init : IdGenerator := mkIds 100000 1000 1000000 1.

Definition NextPlayerId (g : IdGenerator) : Z * IdGenerator :=
  (wrap_i64 (next_player_id g), mkIds (next_player_id g + 1) (next_room_id g) (next_battle_id g) (next_session_id g)).
Definition NextRoomId (g : IdGenerator) : Z * IdGenerator :=
  (wrap_i64 (next_room_id g), mkIds (next_player_id g) (next_room_id g + 1) (next_battle_id g) (next_session_id g)).
Definition NextBattleId (g : IdGenerator) : Z * IdGenerator :=
  (wrap_i64 (next_battle_id g), mkIds (next_player_id g) (next_room_id g) (next_battle_id g + 1) (next_session_id g)).
Definition NextSessionId (g : IdGenerator) : Z * IdGenerator :=
  (wrap_i64 (next_session_id g), mkIds (next_player_id g) (next_room_id g) (next_battle_id g) (next_session_id g + 1)).

(** ** Sessions (session.h, session.cpp) *)
Notation SessionPtr := Z (only parsing).

Record Session := mkSession {
  session_id_ : Z;
  player_id_ : Z;          (* 0 before login *)
  room_id_ : Z;            (* 0 outside a room *)
  conn_ : option Z;        (* weak pointer to the connection *)
  last_heartbeat_ms_ : Z
}.

Definition Session_new (session_id : Z) (conn : option Z) (now : Z) : Session :=
  mkSession session_id 0 0 conn now.
Definition Session_BindPlayerId (player_id : Z) (s : Session) : Session :=
  mkSession (session_id_ s) player_id (room_id_ s) (conn_ s) (last_heartbeat_ms_ s).
Definition Session_SetRoomId (room_id : Z) (s : Session) : Session :=
  mkSession (session_id_ s) (player_id_ s) room_id (conn_ s) (last_heartbeat_ms_ s).
Definition Session_UpdateHeartbeatTime (now : Z) (s : Session) : Session :=
  mkSession (session_id_ s) (player_id_ s) (room_id_ s) (conn_ s) now.

Notation SessionHeap := (gmap Z Session).

(** Reading a field through a pointer; every pointer the code dereferences is
    allocated ([heap_ok]), a dangling one reads 0. *)
Definition PlayerId (h : SessionHeap) (p : SessionPtr) : Z := default 0 (player_id_ <$> h !! p).
Definition RoomId (h : SessionHeap) (p : SessionPtr) : Z := default 0 (room_id_ <$> h !! p).
Definition SessionId (h : SessionHeap) (p : SessionPtr) : Z := default 0 (session_id_ <$> h !! p).
Definition LastHeartbeatMs (h : SessionHeap) (p : SessionPtr) : Z :=
  default 0 (last_heartbeat_ms_ <$> h !! p).

(** ** ConnectionManager (connection_manager.h) *)
Record ConnectionManager := mkCM {
  cm_sessions : gmap Z SessionPtr;        (* by session id *)
  cm_player_sessions : gmap Z SessionPtr  (* by player id *)
}.
Definition ConnectionManager_new : ConnectionManager := mkCM ∅ ∅.

Definition CM_Add (h : SessionHeap) (cm : ConnectionManager) (session : option SessionPtr) : ConnectionManager :=
  match session with
  | None => cm
  | Some s =>
    mkCM (<[SessionId h s := s]> (cm_sessions cm))
      (if PlayerId h s =? 0 then cm_player_sessions cm
       else <[PlayerId h s := s]> (cm_player_sessions cm))
  end.

Definition CM_BindPlayer (cm : ConnectionManager) (player_id : Z) (session : option SessionPtr) : ConnectionManager :=
  match session with
  | None => cm
  | Some s => mkCM (cm_sessions cm) (<[player_id := s]> (cm_player_sessions cm))
  end.

Definition CM_Remove (h : SessionHeap) (cm : ConnectionManager) (session_id : Z) : ConnectionManager :=
  let players :=
    match cm_sessions cm !! session_id with
    | Some s =>
      let player_id := PlayerId h s in
      match cm_player_sessions cm !! player_id with
      | Some s' => if s' =? s then delete player_id (cm_player_sessions cm) else cm_player_sessions cm
      | None => cm_player_sessions cm
      end
    | None => cm_player_sessions cm
    end in
  mkCM (delete session_id (cm_sessions cm)) players.

Definition CM_Get (cm : ConnectionManager) (session_id : Z) : option SessionPtr := cm_sessions cm !! session_id.
Definition CM_GetByPlayerId (cm : ConnectionManager) (player_id : Z) : option SessionPtr :=
  cm_player_sessions cm !! player_id.
Definition CM_AllSessions (cm : ConnectionManager) : list SessionPtr := (map_to_list (cm_sessions cm)).*2.

(** ** Players (player.h, player.cpp) *)
Inductive PlayerStatus := Offline | Online | Matching | InRoom | Playing.
#[export] Instance playerstatus_eq_dec : EqDecision PlayerStatus.
Proof. solve_decision. Defined.

Record Player := mkPlayer {
  p_player_id : Z; p_name : string; p_score : Z; p_status : PlayerStatus; p_room_id : Z
}.
Definition Player_new (player_id : Z) (name : string) (score : Z) : Player :=
  mkPlayer player_id name score Offline 0.
Definition Player_SetStatus (st : PlayerStatus) (p : Player) : Player :=
  mkPlayer (p_player_id p) (p_name p) (p_score p) st (p_room_id p).
Definition Player_SetScore (score : Z) (p : Player) : Player :=
  mkPlayer (p_player_id p) (p_name p) score (p_status p) (p_room_id p).
Definition Player_SetRoomId (room_id : Z) (p : Player) : Player :=
  mkPlayer (p_player_id p) (p_name p) (p_score p) (p_status p) room_id.

(** ** PlayerManager (player_manager.h, player_manager.cpp) *)
Record PlayerManager := mkPM {
  pm_players : gmap Z Player;
  pm_online_sessions : gmap Z SessionPtr
}.
Definition PlayerManager_new : PlayerManager := mkPM ∅ ∅.

(** Returns the player's key; creates the player when it is not there. *)
Definition PM_GetOrCreatePlayer (pm : PlayerManager) (player_id : Z) (name : string) : Z * PlayerManager :=
  match pm_players pm !! player_id with
  | Some _ => (player_id, pm)
  | None =>
    let player := Player_new player_id
      (if bool_decide (name = "") then "player_" +:+ to_string player_id else name)%string 1000 in
    (player_id, mkPM (<[player_id := player]> (pm_players pm)) (pm_online_sessions pm))
  end.
Definition PM_GetPlayer (pm : PlayerManager) (player_id : Z) : option Player := pm_players pm !! player_id.

(** A write through a [PlayerPtr]. *)
Definition PM_update (f : Player -> Player) (player : Z) (pm : PlayerManager) : PlayerManager :=
  mkPM (alter f player (pm_players pm)) (pm_online_sessions pm).

Definition PM_SetOnline (pm : PlayerManager) (player_id : Z) (session : SessionPtr) : PlayerManager :=
  mkPM (alter (Player_SetStatus Online) player_id (pm_players pm))
       (<[player_id := session]> (pm_online_sessions pm)).
Definition PM_SetOffline (pm : PlayerManager) (player_id : Z) : PlayerManager :=
  mkPM (alter (Player_SetStatus Offline) player_id (pm_players pm))
       (delete player_id (pm_online_sessions pm)).
Definition PM_IsOnline (pm : PlayerManager) (player_id : Z) : bool :=
  bool_decide (is_Some (pm_online_sessions pm !! player_id)).
