(* ===== verification/Room.v ===== *)
(** * Room: the room and its state machine

    Models [room/room_state.h], [room/room_player.h], [room/room.h] and
    [room/room.cpp], except for the sending of [Broadcast], which needs the
    sessions and is [World.Room_Broadcast].  Every method is the critical
    section of the room's mutex; [SetReady] and [SetReadyAndTryStart], which
    broadcast after it, also say whether they reach the broadcast. *)
From S2P Require Import Prelude Float32.
Local Open Scope Z_scope.

(** ** Data (room_state.h, room_player.h, room.h) *)
Module RoomState.
Inductive t := Waiting | Playing | Settlement | Closed.
#[export] Instance t_eq_dec : EqDecision t.
Proof. solve_decision. Defined.
(** The values of the enumerators. *)
Definition to_int (s : t) : Z :=
  match s with Waiting => 0 | Playing => 2 | Settlement => 3 | Closed => 4 end.
End RoomState.
Export (hints) RoomState.

Record RoomPlayer := mkRoomPlayer {
  rp_player_id : Z;
  rp_ready : bool;
  rp_connected : bool;
  rp_hp : Z;
  rp_x : float32;
  rp_y : float32
}.

Record Room := mkRoom {
  r_room_id : Z;
  r_state : RoomState.t;
  r_players : gmap Z RoomPlayer
}.

Definition Room_new (room_id : Z) : Room := mkRoom room_id RoomState.Waiting ∅.
Definition RoomPlayer_new (player_id : Z) : RoomPlayer :=
  mkRoomPlayer player_id false true 100 (f32_of_Z 0) (f32_of_Z 0).

Definition set_state (r : Room) (s : RoomState.t) : Room := mkRoom (r_room_id r) s (r_players r).
Definition set_room_players (r : Room) (ps : gmap Z RoomPlayer) : Room :=
  mkRoom (r_room_id r) (r_state r) ps.
Definition set_ready (ready : bool) (p : RoomPlayer) : RoomPlayer :=
  mkRoomPlayer (rp_player_id p) ready (rp_connected p) (rp_hp p) (rp_x p) (rp_y p).
Definition set_connected (connected : bool) (p : RoomPlayer) : RoomPlayer :=
  mkRoomPlayer (rp_player_id p) (rp_ready p) connected (rp_hp p) (rp_x p) (rp_y p).

(** ** Methods (room.cpp) *)
Definition Room_AddPlayer (r : Room) (player_id : Z) : bool * Room :=
  if negb (bool_decide (r_state r = RoomState.Waiting)) then (false, r)
  else (true, set_room_players r (<[player_id := RoomPlayer_new player_id]> (r_players r))).

Definition Room_RemovePlayer (r : Room) (player_id : Z) : bool * Room :=
  (bool_decide (is_Some (r_players r !! player_id)),
   set_room_players r (delete player_id (r_players r))).

(** The result says whether the call reaches the broadcast of [ReadyNotify]. *)
Definition Room_SetReady (r : Room) (player_id : Z) (ready : bool) : bool * Room :=
  match r_players r !! player_id with
  | None => (false, r)
  | Some p =>
    if negb (bool_decide (r_state r = RoomState.Waiting)) then (false, r)
    else (true, mkRoom (r_room_id r) RoomState.Waiting (<[player_id := set_ready ready p]> (r_players r)))
  end.

(** The loop [all_ready = all_ready && player.ready]. *)
Definition all_ready_loop (ps : gmap Z RoomPlayer) : bool :=
  fold_left (fun all_ready '(_, player) => all_ready && rp_ready player) (map_to_list ps)
    (negb (bool_decide (ps = ∅))).

(** [None] is the early return of [false], before the broadcast; otherwise the
    value is [started]. *)
Definition Room_SetReadyAndTryStart (r : Room) (player_id : Z) (ready : bool) : option bool * Room :=
  match r_players r !! player_id with
  | None => (None, r)
  | Some p =>
    if negb (bool_decide (r_state r = RoomState.Waiting)) then (None, r)
    else
      let ps := <[player_id := set_ready ready p]> (r_players r) in
      if all_ready_loop ps then (Some true, mkRoom (r_room_id r) RoomState.Playing ps)
      else (Some false, mkRoom (r_room_id r) RoomState.Waiting ps)
  end.

(** The loop of [CanStart], which returns at the first player not ready. *)
Fixpoint can_start_loop (ps : list (Z * RoomPlayer)) : bool :=
  match ps with
  | [] => true
  | (_, player) :: ps => if negb (rp_ready player) then false else can_start_loop ps
  end.

Definition Room_CanStart (r : Room) : bool :=
  if bool_decide (r_players r = ∅) || negb (bool_decide (r_state r = RoomState.Waiting)) then false
  else can_start_loop (map_to_list (r_players r)).

Definition Room_StartGame (r : Room) : Room :=
  if all_ready_loop (r_players r) && bool_decide (r_state r = RoomState.Waiting)
  then set_state r RoomState.Playing else r.

Definition Room_SetSettlement (r : Room) : Room :=
  if bool_decide (r_state r = RoomState.Playing) then set_state r RoomState.Settlement else r.

Definition Room_Close (r : Room) : Room := set_state r RoomState.Closed.

Definition Room_OnPlayerDisconnect (r : Room) (player_id : Z) : Room :=
  match r_players r !! player_id with
  | Some p => set_room_players r (<[player_id := set_connected false p]> (r_players r))
  | None => r
  end.

(** The part of [OnPlayerReconnect] under the room's mutex. *)
Definition Room_OnPlayerReconnect (r : Room) (player_id : Z) : Room :=
  match r_players r !! player_id with
  | Some p => set_room_players r (<[player_id := set_connected true p]> (r_players r))
  | None => r
  end.

Definition Room_PlayerIds (r : Room) : list Z := (map_to_list (r_players r)).*1.

(** ** The loops over the players *)
Definition all_ready (ps : gmap Z RoomPlayer) : Prop :=
  ps <> ∅ /\ map_Forall (fun _ p => rp_ready p = true) ps.

Lemma all_ready_loop_from l b :
  fold_left (fun all_ready '(_, player) => all_ready && rp_ready player) l b
  = b && forallb (fun '(_, player) => rp_ready player) (l : list (Z * RoomPlayer)).
Proof.
  revert b. induction l as [|[k p] l IH]; intros b; cbn; [by rewrite andb_true_r|].
  by rewrite IH, andb_assoc.
Qed.

Lemma forallb_ready (ps : gmap Z RoomPlayer) :
  forallb (fun '(_, player) => rp_ready player) (map_to_list ps) = true
  <-> map_Forall (fun _ p => rp_ready p = true) ps.
Proof.
  rewrite forallb_forall. split.
  - intros H k p Hk. apply (H (k, p)), list_elem_of_In. by apply elem_of_map_to_list.
  - intros H [k p] Hin%list_elem_of_In%elem_of_map_to_list. by apply (H k).
Qed.

Lemma all_ready_loop_true ps : all_ready_loop ps = true <-> all_ready ps.
Proof.
  unfold all_ready_loop, all_ready. rewrite all_ready_loop_from, andb_true_iff, forallb_ready.
  rewrite negb_true_iff, bool_decide_eq_false. done.
Qed.

Lemma can_start_loop_forallb l :
  can_start_loop l = forallb (fun '(_, player) => rp_ready player) l.
Proof. induction l as [|[k p] l IH]; cbn; [done|]. rewrite IH. by destruct (rp_ready p). Qed.

Lemma CanStart_true r : Room_CanStart r = true <-> r_state r = RoomState.Waiting /\ all_ready (r_players r).
Proof.
  unfold Room_CanStart, all_ready. rewrite can_start_loop_forallb.
  destruct (bool_decide (r_players r = ∅)) eqn:E1; bools; cbn; [naive_solver|].
  destruct (bool_decide (r_state r = RoomState.Waiting)) eqn:E2; bools; cbn; [|naive_solver].
  rewrite forallb_ready. naive_solver.
Qed.

Lemma elem_of_PlayerIds r k : k ∈ Room_PlayerIds r <-> is_Some (r_players r !! k).
Proof.
  unfold Room_PlayerIds. rewrite list_elem_of_fmap. split.
  - intros ([k' e] & -> & Hin%elem_of_map_to_list). by exists e.
  - intros [e He]. exists (k, e). split; [done|]. by apply elem_of_map_to_list.
Qed.

Lemma NoDup_PlayerIds r : NoDup (Room_PlayerIds r).
Proof. apply NoDup_fst_map_to_list. Qed.

(** ** The members *)

(** Neither the id nor the set of players changes. *)
Definition same_shape (r r' : Room) : Prop :=
  r_room_id r' = r_room_id r /\ (forall k, is_Some (r_players r' !! k) <-> is_Some (r_players r !! k)).

Lemma same_shape_refl r : same_shape r r.
Proof. by split. Qed.

Lemma same_shape_member r s p q q' :
  r_players r !! p = Some q -> same_shape r (mkRoom (r_room_id r) s (<[p := q']> (r_players r))).
Proof.
  intros Hp. split; [done|]. intros k. cbn. rewrite lookup_insert. case_decide; [|done].
  subst. rewrite Hp. split; eauto.
Qed.
#[local] Hint Resolve same_shape_refl : core.

Lemma SetReadyAndTryStart_shape r p b : same_shape r (Room_SetReadyAndTryStart r p b).2.
Proof.
  unfold Room_SetReadyAndTryStart. destruct (r_players r !! p) eqn:Hp; [|done].
  destruct (negb _); [done|]. by destruct (all_ready_loop _); eapply same_shape_member.
Qed.

Lemma SetSettlement_shape r : same_shape r (Room_SetSettlement r).
Proof. unfold Room_SetSettlement. by case_bool_decide. Qed.

Lemma Close_shape r : same_shape r (Room_Close r).
Proof. done. Qed.

Lemma OnPlayerDisconnect_shape r p : same_shape r (Room_OnPlayerDisconnect r p).
Proof.
  unfold Room_OnPlayerDisconnect. destruct (r_players r !! p) eqn:Hp; [|done]. by eapply same_shape_member.
Qed.

Lemma OnPlayerReconnect_shape r p : same_shape r (Room_OnPlayerReconnect r p).
Proof.
  unfold Room_OnPlayerReconnect. destruct (r_players r !! p) eqn:Hp; [|done]. by eapply same_shape_member.
Qed.

(** ** The state machine *)

(** One call of a method that writes the room. *)
Inductive room_op :=
  | ROpAddPlayer (p : Z) | ROpRemovePlayer (p : Z) | ROpSetReady (p : Z) (b : bool)
  | ROpSetReadyAndTryStart (p : Z) (b : bool) | ROpStartGame | ROpSetSettlement | ROpClose
  | ROpDisconnect (p : Z) | ROpReconnect (p : Z).

Definition room_step (r : Room) (op : room_op) : Room :=
  match op with
  | ROpAddPlayer p => (Room_AddPlayer r p).2
  | ROpRemovePlayer p => (Room_RemovePlayer r p).2
  | ROpSetReady p b => (Room_SetReady r p b).2
  | ROpSetReadyAndTryStart p b => (Room_SetReadyAndTryStart r p b).2
  | ROpStartGame => Room_StartGame r
  | ROpSetSettlement => Room_SetSettlement r
  | ROpClose => Room_Close r
  | ROpDisconnect p => Room_OnPlayerDisconnect r p
  | ROpReconnect p => Room_OnPlayerReconnect r p
  end.

(** The transitions of the documented life cycle, plus closing at any time. *)
Inductive room_transition : RoomState.t -> RoomState.t -> Prop :=
  | rt_start : room_transition RoomState.Waiting RoomState.Playing
  | rt_settle : room_transition RoomState.Playing RoomState.Settlement
  | rt_close s : room_transition s RoomState.Closed.

(** The state is [s] now and was not before. *)
Definition entered (s : RoomState.t) (r r' : Room) : Prop := r_state r <> s /\ r_state r' = s.

(** The calls that may start the game of a room. *)
Definition asks_to_start (r : Room) (op : room_op) : Prop :=
  match op with
  | ROpStartGame => True
  | ROpSetReadyAndTryStart p _ => is_Some (r_players r !! p)
  | _ => False
  end.

(** What the entry of player [k] should be after a call: joining and the ready flag
    only while the room waits, leaving and the connection flag in any state. *)
Definition player_after (s : RoomState.t) (op : room_op) (k : Z) (old : option RoomPlayer) : option RoomPlayer :=
  match op with
  | ROpAddPlayer p => if decide (s = RoomState.Waiting /\ k = p) then Some (RoomPlayer_new k) else old
  | ROpSetReady p b | ROpSetReadyAndTryStart p b =>
    if decide (s = RoomState.Waiting /\ k = p) then set_ready b <$> old else old
  | ROpRemovePlayer p => if decide (k = p) then None else old
  | ROpDisconnect p => if decide (k = p) then set_connected false <$> old else old
  | ROpReconnect p => if decide (k = p) then set_connected true <$> old else old
  | ROpStartGame | ROpSetSettlement | ROpClose => old
  end.

(** What a call does to a room. *)
Definition room_evolves (r : Room) (op : room_op) (r' : Room) : Prop :=
  r_room_id r' = r_room_id r
  /\ (r_state r' = r_state r \/ room_transition (r_state r) (r_state r'))
  /\ (entered RoomState.Playing r r'
       <-> r_state r = RoomState.Waiting /\ asks_to_start r op /\ all_ready (r_players r'))
  /\ (entered RoomState.Settlement r r' <-> r_state r = RoomState.Playing /\ op = ROpSetSettlement)
  /\ (entered RoomState.Closed r r' <-> r_state r <> RoomState.Closed /\ op = ROpClose)
  /\ (forall k, r_players r' !! k = player_after (r_state r) op k (r_players r !! k)).

Lemma room_step_players r op k :
  r_players (room_step r op) !! k = player_after (r_state r) op k (r_players r !! k).
Proof.
  assert (Hput : forall p f, r_players r !! p = Some f -> forall q,
    <[p := q]> (r_players r) !! k = if decide (k = p) then Some q else r_players r !! k).
  { intros p f _ q. rewrite lookup_insert. by repeat case_decide; subst. }
  destruct op as [p|p|p b|p b| | | |p|p]; cbn [room_step player_after].
  - unfold Room_AddPlayer. case_bool_decide; cbn; [|by rewrite decide_False by naive_solver].
    rewrite lookup_insert. by repeat case_decide; naive_solver.
  - cbn. rewrite lookup_delete. by repeat case_decide; subst.
  - unfold Room_SetReady. destruct (r_players r !! p) as [f|] eqn:Hp; cbn.
    + case_bool_decide; cbn; [|by rewrite decide_False by naive_solver].
      rewrite (Hput p f Hp). repeat case_decide; subst; rewrite ?Hp; naive_solver.
    + case_decide as Hk; [|done]. destruct Hk as [_ ->]. by rewrite Hp.
  - unfold Room_SetReadyAndTryStart. destruct (r_players r !! p) as [f|] eqn:Hp; cbn.
    + case_bool_decide; cbn; [|by rewrite decide_False by naive_solver].
      transitivity (<[p:=set_ready b f]> (r_players r) !! k); [by destruct (all_ready_loop _)|].
      rewrite (Hput p f Hp). repeat case_decide; subst; rewrite ?Hp; naive_solver.
    + case_decide as Hk; [|done]. destruct Hk as [_ ->]. by rewrite Hp.
  - unfold Room_StartGame. by destruct (_ && _).
  - unfold Room_SetSettlement. by case_bool_decide.
  - done.
  - unfold Room_OnPlayerDisconnect. destruct (r_players r !! p) as [f|] eqn:Hp; cbn; [rewrite (Hput p f Hp)|];
      by case_decide; subst; rewrite ?Hp.
  - unfold Room_OnPlayerReconnect. destruct (r_players r !! p) as [f|] eqn:Hp; cbn; [rewrite (Hput p f Hp)|];
      by case_decide; subst; rewrite ?Hp.
Qed.

(** The call starts the game. *)
Definition starts (r : Room) (op : room_op) (r' : Room) : Prop :=
  r_state r = RoomState.Waiting /\ asks_to_start r op /\ all_ready (r_players r').

Lemma room_step_state r op :
  let r' := room_step r op in
  (starts r op r' /\ r_state r' = RoomState.Playing)
  \/ (r_state r = RoomState.Playing /\ op = ROpSetSettlement /\ r_state r' = RoomState.Settlement)
  \/ (op = ROpClose /\ r_state r' = RoomState.Closed)
  \/ (r_state r' = r_state r /\ ~ starts r op r' /\ ~ (r_state r = RoomState.Playing /\ op = ROpSetSettlement)
      /\ op <> ROpClose).
Proof.
  unfold starts. destruct op as [p|p|p b|p b| | | |p|p]; cbn [room_step].
  - right; right; right. unfold Room_AddPlayer. case_bool_decide; naive_solver.
  - right; right; right. naive_solver.
  - right; right; right. unfold Room_SetReady. destruct (r_players r !! p); cbn; [case_bool_decide|]; naive_solver.
  - unfold Room_SetReadyAndTryStart. cbn. destruct (r_players r !! p) as [f|] eqn:Hp; cbn;
      [|right; right; right; split_and!; [done|intros (_ & [? ?] & _); congruence|by intros []|done]].
    case_bool_decide as Hs; cbn; [|right; right; right; naive_solver].
    destruct (all_ready_loop _) eqn:E; cbn.
    + left. apply all_ready_loop_true in E. eauto.
    + right; right; right. split_and!; [done|intros (_ & _ & Ha%all_ready_loop_true); congruence|by intros []|done].
  - unfold Room_StartGame. destruct (all_ready_loop _) eqn:E; cbn.
    + apply all_ready_loop_true in E. case_bool_decide as Hs; cbn; [by left|]. right; right; right. naive_solver.
    + right; right; right. split_and!; [done|intros (_ & _ & Ha%all_ready_loop_true); congruence|by intros []|done].
  - unfold Room_SetSettlement. case_bool_decide as Hs; [by right; left|]. right; right; right. naive_solver.
  - by right; right; left.
  - right; right; right. unfold Room_OnPlayerDisconnect. destruct (r_players r !! p); naive_solver.
  - right; right; right. unfold Room_OnPlayerReconnect. destruct (r_players r !! p); naive_solver.
Qed.

Lemma room_step_id r op : r_room_id (room_step r op) = r_room_id r.
Proof.
  destruct op; cbn [room_step]; unfold Room_AddPlayer, Room_SetReady, Room_SetReadyAndTryStart, Room_StartGame,
    Room_SetSettlement, Room_OnPlayerDisconnect, Room_OnPlayerReconnect; by repeat case_match.
Qed.

(** No call leads back to Waiting. *)
Lemma room_step_not_waiting r op :
  r_state r <> RoomState.Waiting -> r_state (room_step r op) <> RoomState.Waiting.
Proof. destruct (room_step_state r op) as [[_ ->]|[(_ & _ & ->)|[[_ ->]|[-> _]]]]; done. Qed.

(** C29: The room follows its life cycle, whatever the call.  Its id never changes.
    The game starts exactly when a waiting room is asked to start (by [StartGame],
    or by [SetReadyAndTryStart] of a member) and then has a player and every
    player ready; the settlement begins exactly by [SetSettlement] of a room that
    is playing; only [Close] closes, in any state; there is no other transition.
    Players join and change their ready flag only while the room waits, each call
    for its own player only; [RemovePlayer] removes its player and a disconnection
    or reconnection sets its flag in every state, and nothing else about the
    players ever changes. *)
Theorem room_step_lifecycle (r : Room) (op : room_op) : room_evolves r op (room_step r op).
Proof.
  pose proof (room_step_state r op) as Hs. cbn in Hs. unfold starts in Hs.
  split_and!; [apply room_step_id|..|apply room_step_players]; unfold entered;
    destruct Hs as [[(Hs & Hop & Ha) ->]|[(Hs & Hop & ->)|[[Hop ->]|(-> & H1 & H2 & H3)]]];
    try (subst op); try naive_solver.
  - right. rewrite Hs. constructor.
  - right. rewrite Hs. constructor.
  - right. constructor.
  - rewrite Hs. by split; [|intros _].
  - rewrite Hs. by split; [|intros _].
Qed.

(** C38: [SetReadyAndTryStart] is the three calls it replaced, done in one critical
    section: it leaves the room as [SetReady], then [StartGame] if [CanStart],
    would leave it, reports a start exactly when that pair starts the game, and
    returns early exactly when [SetReady] does. *)
Theorem SetReadyAndTryStart_is_three_steps (r : Room) (p : Z) (b : bool) :
  let '(announced, r1) := Room_SetReady r p b in
  let r2 := if announced && Room_CanStart r1 then Room_StartGame r1 else r1 in
  Room_SetReadyAndTryStart r p b =
  (if announced then Some (Room_CanStart r1) else None, r2).
Proof.
  unfold Room_SetReadyAndTryStart, Room_SetReady.
  destruct (r_players r !! p) as [q|]; [|done].
  case_bool_decide as Hs; [|done]. cbn [negb andb].
  set (ps := <[p := set_ready b q]> (r_players r)).
  set (r1 := mkRoom (r_room_id r) RoomState.Waiting ps).
  assert (Room_CanStart r1 = all_ready_loop ps) as ->.
  { apply eq_true_iff_eq. rewrite CanStart_true, all_ready_loop_true. cbn. tauto. }
  unfold Room_StartGame. cbn [r_players r_state r1]. unfold set_state. cbn [r_room_id r_players r1].
  by destruct (all_ready_loop ps).
Qed.

(** C37: The game of a room starts once: after a call of [SetReadyAndTryStart] has
    reported a start, no call of any method, in any number, makes it report a
    start again; in particular ready requests during the settlement are refused
    and change nothing. *)
Theorem room_starts_once (r : Room) (p : Z) (b : bool) (ops : list room_op) (p' : Z) (b' : bool)
    (Hstart : (Room_SetReadyAndTryStart r p b).1 = Some true) :
  let r' := fold_left room_step ops (Room_SetReadyAndTryStart r p b).2 in
  r_state r' <> RoomState.Waiting
  /\ Room_SetReadyAndTryStart r' p' b' = (None, r') /\ Room_SetReady r' p' b' = (false, r')
  /\ Room_CanStart r' = false /\ Room_StartGame r' = r'.
Proof.
  assert (r_state (Room_SetReadyAndTryStart r p b).2 <> RoomState.Waiting) as Hs.
  { revert Hstart. unfold Room_SetReadyAndTryStart.
    destruct (r_players r !! p); [|done]. destruct (negb _); [done|]. by destruct (all_ready_loop _). }
  cbn. assert (r_state (fold_left room_step ops (Room_SetReadyAndTryStart r p b).2) <> RoomState.Waiting) as Hw.
  { apply fold_left_inv; [done|]. intros r1 op _. apply room_step_not_waiting. }
  revert Hw. generalize (fold_left room_step ops (Room_SetReadyAndTryStart r p b).2). intros r' Hw.
  unfold Room_SetReadyAndTryStart, Room_SetReady, Room_CanStart, Room_StartGame.
  rewrite (bool_decide_eq_false_2 _ Hw), orb_true_r, andb_false_r.
  split_and!; try done; by destruct (r_players r' !! p').
Qed.

Lemma room_starts_once_witness :
  let r := (Room_AddPlayer (Room_AddPlayer (Room_new 1) 11).2 12).2 in
  let r := (Room_SetReadyAndTryStart r 11 true).2 in
  (Room_SetReadyAndTryStart r 12 true).1 = Some true
  /\ Room_SetReady (Room_SetSettlement (Room_SetReadyAndTryStart r 12 true).2) 12 false
     = (false, Room_SetSettlement (Room_SetReadyAndTryStart r 12 true).2).
Proof.
  set (r := (Room_SetReadyAndTryStart (Room_AddPlayer (Room_AddPlayer (Room_new 1) 11).2 12).2 11 true).2).
  assert ((Room_SetReadyAndTryStart r 12 true).1 = Some true) as H by reflexivity.
  split; [exact H|].
  destruct (room_starts_once r 12 true [ROpSetSettlement] 12 false H) as (_ & _ & H1 & _). exact H1.
Defined.
