(* ===== verification/Mysql.v ===== *)
(** * Mysql: the MySQL client wrapper

    Models [storage/mysql_client.h] and [storage/mysql_client.cpp].  The MySQL C
    library and the server behind it are not code of the repository: they are
    the class [MysqlApi] over a state [Srv], which holds the connection handle,
    the network and the server.  A call returns the C result and the new state.
    The recursive mutex makes every method a critical section, held over a whole
    transaction, so a method is one function on the client. *)
From S2P Require Import Prelude StdString Config.
Local Open Scope string_scope.
Local Open Scope Z_scope.

(** ** The C library *)
Class MysqlApi (Srv : Type) := {
  mysql_init : Srv -> bool * Srv;                       (* false: null *)
  mysql_real_connect : MysqlConfig -> Srv -> bool * Srv;  (* options included; false: null *)
  mysql_close : Srv -> Srv;
  mysql_query : string -> Srv -> Z * Srv;
  mysql_errno : Srv -> Z;
  mysql_next_result : Srv -> Z * Srv;
  mysql_result_count : Srv -> nat;                      (* results not yet fetched *)
  mysql_affected_rows : Srv -> Z;                       (* unsigned *)
  mysql_insert_id : Srv -> Z;                           (* unsigned *)
  (** Rows of (field name, value), a null pointer being [None]; [None]: null. *)
  mysql_store_result : Srv -> option (list (list (option string * option string))) * Srv;
  mysql_rollback : Srv -> Z * Srv;
  mysql_commit : Srv -> Z * Srv;
  mysql_real_escape_string : Srv -> string -> string;
  CR_SERVER_GONE_ERROR : Z;
  CR_SERVER_LOST : Z
}.

(** ** The client (mysql_client.h) *)
Record MysqlClient (Srv : Type) := mkMysqlClient {
  conn_up : bool;              (* conn_ is not null *)
  in_transaction_ : bool;
  srv : Srv
}.
Arguments mkMysqlClient {Srv}.
Arguments conn_up {Srv}.
Arguments in_transaction_ {Srv}.
Arguments srv {Srv}.

Notation QueryRow := (gmap string string).
Notation QueryResult := (list QueryRow).

Section client.
Context {Srv : Type} {API : MysqlApi Srv}.
(** [ConfigManager::Instance().Mysql()]. *)
Context (config : MysqlConfig).
Notation Client := (MysqlClient Srv).

Definition with_srv (c : Client) (s : Srv) : Client := mkMysqlClient (conn_up c) (in_transaction_ c) s.
Definition set_in_transaction (c : Client) (b : bool) : Client := mkMysqlClient (conn_up c) b (srv c).

Definition Disconnect (c : Client) : Client :=
  if conn_up c then mkMysqlClient false (in_transaction_ c) (mysql_close (srv c)) else c.

Definition Connect (c : Client) : bool * Client :=
  if in_transaction_ c then (false, c)
  else
    let c := Disconnect c in
    let '(ok, s) := mysql_init (srv c) in
    let c := mkMysqlClient ok (in_transaction_ c) s in
    if negb ok then (false, c)
    else
      let '(ok, s) := mysql_real_connect config (srv c) in
      let c := with_srv c s in
      if negb ok then (false, Disconnect c) else (true, c).

(** [!conn_ && !Connect()] at the head of the methods: [true] to go on. *)
Definition ensure_connected (c : Client) : bool * Client :=
  if conn_up c then (true, c) else Connect c.

Definition ResetOnConnectionError (c : Client) : Client :=
  if negb (conn_up c) || in_transaction_ c then c
  else
    let error := mysql_errno (srv c) in
    if (error =? CR_SERVER_GONE_ERROR) || (error =? CR_SERVER_LOST) then Disconnect c else c.

(** [while (mysql_next_result(conn_) == 0) store and free]. *)
Fixpoint drain_results (fuel : nat) (s : Srv) : Srv :=
  match fuel with
  | O => s
  | S fuel =>
    let '(rc, s) := mysql_next_result s in
    if negb (rc =? 0) then s
    else let '(_, s) := mysql_store_result s in drain_results fuel s
  end.

Definition Execute (c : Client) (sql : string) : bool * Client :=
  let '(ok, c) := ensure_connected c in
  if negb ok then (false, c)
  else
    let '(rc, s) := mysql_query sql (srv c) in
    let c := with_srv c s in
    if negb (rc =? 0) then (false, ResetOnConnectionError c)
    else (true, with_srv c (drain_results (S (mysql_result_count (srv c))) (srv c))).

Definition ExecuteAffected (c : Client) (sql : string) : Z * Client :=
  let '(ok, c) := ensure_connected c in
  if negb ok then (-1, c)
  else
    let '(rc, s) := mysql_query sql (srv c) in
    let c := with_srv c s in
    if negb (rc =? 0) then (-1, ResetOnConnectionError c)
    else (wrap_i64 (mysql_affected_rows (srv c)), c).

Definition ExecuteInsert (c : Client) (sql : string) : Z * Client :=
  let '(n, c) := ExecuteAffected c sql in
  if negb (n =? 1) then (0, c) else (wrap_i64 (mysql_insert_id (srv c)), c).

(** One row of the loop of [Query]: [item[name] = value], field by field. *)
Definition query_row (fields : list (option string * option string)) : QueryRow :=
  fold_left (fun item '(name, value) => <[default "" name := default "" value]> item) fields ∅.

Definition Query (c : Client) (sql : string) : QueryResult * Client :=
  let '(ok, c) := ensure_connected c in
  if negb ok then ([], c)
  else
    let '(rc, s) := mysql_query sql (srv c) in
    let c := with_srv c s in
    if negb (rc =? 0) then ([], ResetOnConnectionError c)
    else
      let '(rows, s) := mysql_store_result (srv c) in
      match rows with
      | None => ([], with_srv c s)
      | Some rows => (query_row <$> rows, with_srv c s)
      end.

Definition EscapeString (c : Client) (value : string) : string * Client :=
  let '(ok, c) := ensure_connected c in
  if negb ok then (value, c) else (mysql_real_escape_string (srv c) value, c).

Definition IsConnected (c : Client) : bool := conn_up c.

(** The operation may throw; [operation] is not null where the code calls this. *)
Definition RunTransaction (c : Client) (operation : Client -> result bool * Client)
    : result bool * Client :=
  if in_transaction_ c then (Ok false, c)
  else
    let '(ok, c) := ensure_connected c in
    if negb ok then (Ok false, c)
    else
      let '(rc, s) := mysql_query "START TRANSACTION" (srv c) in
      let c := with_srv c s in
      if negb (rc =? 0) then (Ok false, Disconnect c)
      else
        let c := set_in_transaction c true in
        let '(r, c) := operation c in
        match r with
        | Ok success =>
          if negb (conn_up c) then (Ok false, set_in_transaction c false)
          else if negb success then
            let '(rc, s) := mysql_rollback (srv c) in
            let c := with_srv c s in
            let c := if negb (rc =? 0) then Disconnect c else c in
            (Ok false, set_in_transaction c false)
          else
            let '(rc, s) := mysql_commit (srv c) in
            let c := with_srv c s in
            if negb (rc =? 0) then (Ok false, set_in_transaction (Disconnect c) false)
            else (Ok true, set_in_transaction c false)
        | Throw e =>
          let c :=
            if conn_up c then
              let '(rc, s) := mysql_rollback (srv c) in
              let c := with_srv c s in
              if negb (rc =? 0) then Disconnect c else c
            else c in
          (Throw e, set_in_transaction c false)
        end.
End client.
