(* ===== verification/Repositories.v ===== *)
(** * Repositories: the SQL of the players and of the battles

    Models [storage/player_repository.h/.cpp] and
    [storage/battle_repository.h/.cpp].  The text of every statement is the one
    the code streams together; the repositories hold a pointer to the client,
    null in some tests, so [mysql : bool] is [mysql_ != nullptr]. *)
From S2P Require Import Prelude StdString Config Mysql.
Local Open Scope string_scope.
Local Open Scope Z_scope.

(** [std::ostringstream] and [std::string] concatenation. *)
Fixpoint stream (parts : list string) : string :=
  match parts with
  | [] => ""
  | p :: ps => p +:+ stream ps
  end.

(** [row.at(name)]. *)
Definition at_ (row : QueryRow) (name : string) : result string :=
  match row !! name with Some v => Ok v | None => Throw out_of_range end.

(** ** Data (player_repository.h, battle_repository.h) *)
Record PlayerData := mkPlayerData {
  pd_player_id : Z; pd_name : string; pd_score : Z; pd_win_count : Z; pd_lose_count : Z
}.
Definition PlayerData_default : PlayerData := mkPlayerData 0 "" 1000 0 0.

Record Battle := mkBattle {
  b_battle_id : Z; b_room_id : Z; b_winner_id : Z; b_result_json : string
}.
Record BattlePlayerResult := mkResult {
  res_battle_id : Z; res_player_id : Z; res_result : string; res_score_delta : Z
}.
Record SettlementLog := mkLog {
  log_settlement_id : Z; log_battle_id : Z; log_player_id : Z; log_score_delta : Z
}.

(** ** Statement texts *)
Definition sql_find_player (player_id : Z) : string :=
  stream ["SELECT player_id, name, score, win_count, lose_count FROM player WHERE player_id = ";
          to_string player_id; " LIMIT 1"].

Definition sql_create_player (player_id : Z) (name : string) (score win_count lose_count : Z) : string :=
  stream ["INSERT INTO player(player_id, name, score, win_count, lose_count) VALUES(";
          to_string player_id; ", '"; name; "', "; to_string score; ", ";
          to_string win_count; ", "; to_string lose_count; ") ";
          "ON DUPLICATE KEY UPDATE name = VALUES(name)"].

Definition sql_update_score (player_id initial_score score_delta win_delta lose_delta : Z) : string :=
  stream ["INSERT INTO player(player_id, name, score, win_count, lose_count) VALUES(";
          to_string player_id; ", 'player_"; to_string player_id; "', "; to_string initial_score; ", ";
          to_string win_delta; ", "; to_string lose_delta; ") ";
          "ON DUPLICATE KEY UPDATE ";
          "score = score + ("; to_string score_delta; "), ";
          "win_count = win_count + "; to_string win_delta; ", ";
          "lose_count = lose_count + "; to_string lose_delta].

Definition sql_create_battle (room_id : Z) : string :=
  stream ["INSERT INTO battle(room_id, winner_id, result_json) VALUES("; to_string room_id; ", 0, '{}')"].

Definition sql_select_battle (battle_id : Z) : string :=
  stream ["SELECT room_id, winner_id, settled FROM battle WHERE battle_id = "; to_string battle_id;
          " FOR UPDATE"].

Definition sql_select_results (battle_id : Z) : string :=
  stream ["SELECT player_id, result, score_delta FROM battle_player_result WHERE battle_id = ";
          to_string battle_id; " ORDER BY player_id FOR UPDATE"].

Definition sql_settle_battle (winner_id battle_id : Z) : string :=
  stream ["UPDATE battle SET winner_id = "; to_string winner_id;
          ", settled = 1, end_time = CURRENT_TIMESTAMP WHERE battle_id = "; to_string battle_id].

Definition sql_insert_battle (battle_id room_id winner_id : Z) (result_json : string) : string :=
  stream ["INSERT INTO battle("; "battle_id, room_id, winner_id, result_json) VALUES(";
          to_string battle_id; ", "; to_string room_id; ", "; to_string winner_id; ", '"; result_json; "')"].

Definition sql_insert_result (battle_id player_id : Z) (escaped_result : string) (score_delta : Z) : string :=
  stream ["INSERT INTO battle_player_result("; "battle_id, player_id, result, score_delta) VALUES(";
          to_string battle_id; ", "; to_string player_id; ", '"; escaped_result; "', ";
          to_string score_delta; ")"].

Definition sql_insert_log (settlement_id battle_id player_id score_delta : Z) : string :=
  stream (["INSERT INTO settlement_log("]
          ++ (if settlement_id =? 0 then [] else ["settlement_id, "])
          ++ ["battle_id, player_id, score_delta) VALUES("]
          ++ (if settlement_id =? 0 then [] else [to_string settlement_id; ", "])
          ++ [to_string battle_id; ", "; to_string player_id; ", "; to_string score_delta; ")"]).

Definition sql_has_settlement (battle_id player_id : Z) : string :=
  stream ["SELECT settlement_id FROM settlement_log WHERE battle_id = "; to_string battle_id;
          " AND player_id = "; to_string player_id; " LIMIT 1"].

Definition by_player (a b : BattlePlayerResult) : Prop := res_player_id a <= res_player_id b.

#[export] Instance by_player_dec : RelDecision by_player.
Proof. intros a b. unfold by_player. apply _. Defined.

Section repositories.
Context {Srv : Type} {API : MysqlApi Srv}.
Context (config : MysqlConfig).
Notation Client := (MysqlClient Srv).

(** ** PlayerRepository (player_repository.cpp) *)

(** The row of [FindPlayer] read field by field into the output parameter. *)
Definition read_player (row : QueryRow) : result PlayerData :=
  player_id ← (s ← at_ row "player_id"; stoll s);
  name ← at_ row "name";
  score ← (s ← at_ row "score"; stoi s);
  win_count ← (s ← at_ row "win_count"; stoi s);
  lose_count ← (s ← at_ row "lose_count"; stoi s);
  Ok (mkPlayerData player_id name score win_count lose_count).

(** [None] is the result [false]. *)
Definition FindPlayer (mysql : bool) (c : Client) (player_id : Z) : result (option PlayerData) * Client :=
  if negb mysql then (Ok None, c)
  else
    let '(rows, c) := Query config c (sql_find_player player_id) in
    match rows with
    | row :: _ => (Some <$> read_player row, c)
    | [] => (Ok None, c)
    end.

Definition CreatePlayer (mysql : bool) (c : Client) (data : PlayerData) : bool * Client :=
  if negb mysql then (false, c)
  else
    let '(name, c) := EscapeString config c (pd_name data) in
    Execute config c (sql_create_player (pd_player_id data) name (pd_score data) (pd_win_count data) (pd_lose_count data)).

Definition LoadPlayer (mysql : bool) (c : Client) (player_id : Z) : result PlayerData * Client :=
  let '(found, c) := FindPlayer mysql c player_id in
  match found with
  | Throw e => (Throw e, c)
  | Ok (Some data) => (Ok data, c)
  | Ok None =>
    let data := mkPlayerData player_id ("player_" +:+ to_string player_id)
                  (pd_score PlayerData_default) (pd_win_count PlayerData_default) (pd_lose_count PlayerData_default) in
    let '(_, c) := CreatePlayer mysql c data in
    (Ok data, c)
  end.

Definition UpdatePlayerScore (mysql : bool) (c : Client) (player_id score_delta : Z) : bool * Client :=
  if negb mysql then (false, c)
  else
    let win_delta := if 0 <? score_delta then 1 else 0 in
    let lose_delta := if score_delta <? 0 then 1 else 0 in
    let initial_score := wrap_i32 (1000 + score_delta) in
    Execute config c (sql_update_score player_id initial_score score_delta win_delta lose_delta).

(** ** BattleRepository (battle_repository.cpp) *)
Definition CreateBattle (mysql : bool) (c : Client) (room_id : Z) : Z * Client :=
  if negb mysql || (room_id <=? 0) then (0, c)
  else ExecuteInsert config c (sql_create_battle room_id).

Definition InsertBattle (mysql : bool) (c : Client) (battle : Battle) : bool * Client :=
  if negb mysql then (false, c)
  else
    let '(result_json, c) := EscapeString config c (b_result_json battle) in
    let '(n, c) := ExecuteAffected config c
      (sql_insert_battle (b_battle_id battle) (b_room_id battle) (b_winner_id battle) result_json) in
    (0 <? n, c).

Definition InsertBattlePlayerResult (mysql : bool) (c : Client) (result : BattlePlayerResult) : bool * Client :=
  if negb mysql then (false, c)
  else
    let '(escaped_result, c) := EscapeString config c (res_result result) in
    let '(n, c) := ExecuteAffected config c
      (sql_insert_result (res_battle_id result) (res_player_id result) escaped_result (res_score_delta result)) in
    (0 <? n, c).

Definition InsertSettlementLog (mysql : bool) (c : Client) (log : SettlementLog) : bool * Client :=
  if negb mysql then (false, c)
  else
    let '(n, c) := ExecuteAffected config c
      (sql_insert_log (log_settlement_id log) (log_battle_id log) (log_player_id log) (log_score_delta log)) in
    (0 <? n, c).

Definition HasSettlement (mysql : bool) (c : Client) (battle_id player_id : Z) : bool * Client :=
  if negb mysql then (false, c)
  else
    let '(rows, c) := Query config c (sql_has_settlement battle_id player_id) in
    (negb (bool_decide (rows = [])), c).

(** The validation loop of [ApplySettlement]: [None] is [return false],
    otherwise the number of winners. *)
Fixpoint check_results (battle : Battle) (ordered : list BattlePlayerResult)
    (previous_player winner_count : Z) : option Z :=
  match ordered with
  | [] => Some winner_count
  | result :: ordered =>
    let winner := res_player_id result =? b_winner_id battle in
    if negb (res_battle_id result =? b_battle_id battle)
       || (res_player_id result <=? previous_player)
       || negb (bool_decide (res_result result = if winner then "WIN" else "LOSE"))
       || negb (res_score_delta result =? if winner then 20 else -10)
    then None
    else check_results battle ordered (res_player_id result) (winner_count + if winner then 1 else 0)
  end.

(** The comparison of the saved results, row by row; the sizes are equal. *)
Fixpoint same_results (saved : list QueryRow) (ordered : list BattlePlayerResult) : result bool :=
  match saved, ordered with
  | row :: saved, o :: ordered =>
    player_id ← (s ← at_ row "player_id"; stoll s);
    if negb (player_id =? res_player_id o) then Ok false
    else
      res ← at_ row "result";
      if negb (bool_decide (res = res_result o)) then Ok false
      else
        score_delta ← (s ← at_ row "score_delta"; stoi s);
        if negb (score_delta =? res_score_delta o) then Ok false
        else same_results saved ordered
  | _, _ => Ok true
  end.

(** The loop that writes the results, [false] at the first failure. *)
Fixpoint write_results (c : Client) (battle : Battle) (ordered : list BattlePlayerResult) : bool * Client :=
  match ordered with
  | [] => (true, c)
  | result :: ordered =>
    let log := mkLog 0 (b_battle_id battle) (res_player_id result) (res_score_delta result) in
    let '(ok, c) := InsertBattlePlayerResult true c result in
    if negb ok then (false, c)
    else
      let '(ok, c) := InsertSettlementLog true c log in
      if negb ok then (false, c)
      else
        let '(ok, c) := UpdatePlayerScore true c (res_player_id result) (res_score_delta result) in
        if negb ok then (false, c) else write_results c battle ordered
  end.

(** The callback given to [RunTransaction]. *)
Definition settle_transaction (battle : Battle) (ordered : list BattlePlayerResult) (c : Client)
    : result bool * Client :=
  let '(rows, c) := Query config c (sql_select_battle (b_battle_id battle)) in
  match rows with
  | [row] =>
    match (s ← at_ row "room_id"; stoll s) with
    | Throw e => (Throw e, c)
    | Ok room_id =>
      if negb (room_id =? b_room_id battle) then (Ok false, c)
      else
        match at_ row "settled" with
        | Throw e => (Throw e, c)
        | Ok settled =>
          if bool_decide (settled = "1") then
            match (s ← at_ row "winner_id"; stoll s) with
            | Throw e => (Throw e, c)
            | Ok winner_id =>
              if negb (winner_id =? b_winner_id battle) then (Ok false, c)
              else
                let '(saved, c) := Query config c (sql_select_results (b_battle_id battle)) in
                if negb (Nat.eqb (length saved) (length ordered)) then (Ok false, c)
                else (same_results saved ordered, c)
            end
          else
            let '(ok, c) := write_results c battle ordered in
            if negb ok then (Ok false, c)
            else
              let '(n, c) := ExecuteAffected config c
                (sql_settle_battle (b_winner_id battle) (b_battle_id battle)) in
              (Ok (n =? 1), c)
        end
    end
  | _ => (Ok false, c)
  end.

(** [std::sort] by player id. *)
Definition sort_results (results : list BattlePlayerResult) : list BattlePlayerResult :=
  merge_sort by_player results.

Definition ApplySettlement (mysql : bool) (c : Client) (battle : Battle)
    (results : list BattlePlayerResult) : result bool * Client :=
  if negb mysql || (b_battle_id battle <=? 0) || (b_room_id battle <=? 0) || (b_winner_id battle <=? 0)
     || bool_decide (length results = 0%nat)
  then (Ok false, c)
  else
    let ordered := sort_results results in
    match check_results battle ordered 0 0 with
    | None => (Ok false, c)
    | Some winner_count =>
      if negb (winner_count =? 1) then (Ok false, c)
      else RunTransaction config c (settle_transaction battle ordered)
    end.
End repositories.

(** ** Names without a connection *)
Section unescaped.
Context {Srv : Type} {API : MysqlApi Srv}.
Context (config : MysqlConfig).

(** When the connection is down and comes back between the two attempts,
    [CreatePlayer] sends the player's name as it is, unescaped. (The names the
    server gives its players need no escape.) *)
Theorem CreatePlayer_unescaped (c c1 c2 : MysqlClient Srv) data :
  conn_up c = false ->
  Connect config c = (false, c1) -> conn_up c1 = false ->
  Connect config c1 = (true, c2) -> conn_up c2 = true ->
  CreatePlayer config true c data
  = Execute config c2 (sql_create_player (pd_player_id data) (pd_name data) (pd_score data)
                         (pd_win_count data) (pd_lose_count data)).
Proof.
  intros H0 H1 Hc1 H2 Hc2. unfold CreatePlayer, EscapeString, Execute, ensure_connected.
  rewrite H0, H1. cbn [negb]. rewrite Hc1, H2. cbn [negb]. by rewrite Hc2.
Qed.
End unescaped.
