(* ===== verification/SqlModel.v ===== *)
(** * SqlModel: what the repositories rely on from MySQL

    The tables are those of [config/mysql.sql].  [Stmt] lists the statements the
    running server sends, [sql_text] gives each the text the repositories build,
    [exec] is the effect MySQL documents for it on those tables (strict mode,
    InnoDB).  [MysqlLaws] states that behaviour of the C library of [Mysql],
    with every call allowed to fail: a statement that fails inside a transaction
    commits nothing, a failed [COMMIT] may or may not have taken effect, closing
    a connection rolls back.  The server process is the only writer.

    [MysqlHealthy] is a server that, besides, serves what its tables allow.
    [ToyMysql] is an instance of the two classes, for the witnesses. *)
From S2P Require Import Prelude StdString Config Mysql Repositories.
From Stdlib Require Import Ascii.
Local Open Scope string_scope.
Local Open Scope Z_scope.

(** ** Tables (config/mysql.sql) *)
Record PlayerRow := mkPlayerRow {
  p_name : string; p_score : Z; p_win : Z; p_lose : Z
}.
Record BattleRow := mkBattleRow {
  bt_room : Z; bt_winner : Z; bt_settled : bool; bt_end_time : option Z
}.
Record Tables := mkTables {
  players : gmap Z PlayerRow;
  battles : gmap Z BattleRow;
  results : gmap (Z * Z) (string * Z);     (* key (battle_id, player_id) *)
  logs : gmap (Z * Z) Z                    (* key (battle_id, player_id) *)
}.

#[export] Instance PlayerRow_eq_dec : EqDecision PlayerRow.
Proof. solve_decision. Defined.
#[export] Instance BattleRow_eq_dec : EqDecision BattleRow.
Proof. solve_decision. Defined.

Definition set_players (t : Tables) v : Tables := mkTables v (battles t) (results t) (logs t).
Definition set_battles (t : Tables) v : Tables := mkTables (players t) v (results t) (logs t).
Definition set_results (t : Tables) v : Tables := mkTables (players t) (battles t) v (logs t).
Definition set_logs (t : Tables) v : Tables := mkTables (players t) (battles t) (results t) v.

(** ** Statements *)
Inductive Stmt : Type :=
  | SFindPlayer (player_id : Z)
  | SCreatePlayer (player_id : Z) (name : string) (score win_count lose_count : Z)
  | SUpdateScore (player_id initial_score score_delta win_delta lose_delta : Z)
  | SCreateBattle (room_id : Z)
  | SSelectBattle (battle_id : Z)
  | SSelectResults (battle_id : Z)
  | SSettleBattle (winner_id battle_id : Z)
  | SInsertResult (battle_id player_id : Z) (result : string) (score_delta : Z)
  | SInsertLog (battle_id player_id score_delta : Z).

(** The text of a statement, [esc] being the escaping of the client. *)
Definition sql_text (esc : string -> string) (st : Stmt) : string :=
  match st with
  | SFindPlayer p => sql_find_player p
  | SCreatePlayer p name s w l => sql_create_player p (esc name) s w l
  | SUpdateScore p i d w l => sql_update_score p i d w l
  | SCreateBattle r => sql_create_battle r
  | SSelectBattle b => sql_select_battle b
  | SSelectResults b => sql_select_results b
  | SSettleBattle w b => sql_settle_battle w b
  | SInsertResult b p res d => sql_insert_result b p (esc res) d
  | SInsertLog b p d => sql_insert_log 0 b p d
  end.

Definition is_select (st : Stmt) : bool :=
  match st with SFindPlayer _ | SSelectBattle _ | SSelectResults _ => true | _ => false end.

(** ** Effects *)

(** What a statement may pick: the AUTO_INCREMENT value and the clock. *)
Record Env := mkEnv { env_auto : Z; env_now : Z }.

Record Outcome := mkOutcome { out_tables : Tables; out_affected : Z; out_rows : QueryResult }.

Definition player_row (p : Z) (r : PlayerRow) : QueryRow :=
  {[ "player_id" := to_string p; "name" := p_name r; "score" := to_string (p_score r);
     "win_count" := to_string (p_win r); "lose_count" := to_string (p_lose r) ]}.
Definition battle_row (r : BattleRow) : QueryRow :=
  {[ "room_id" := to_string (bt_room r); "winner_id" := to_string (bt_winner r);
     "settled" := if bt_settled r then "1" else "0" ]}.
Definition result_row (r : Z * (string * Z)) : QueryRow :=
  {[ "player_id" := to_string r.1; "result" := r.2.1; "score_delta" := to_string r.2.2 ]}.

(** The results of a battle, [ORDER BY player_id]. *)
Definition by_id (a b : Z * (string * Z)) : Prop := a.1 <= b.1.
#[export] Instance by_id_dec : RelDecision by_id.
Proof. intros a b. unfold by_id. apply _. Defined.

Definition results_of (t : Tables) (b : Z) : list (Z * (string * Z)) :=
  merge_sort by_id
    (omap (fun '((b', p), v) => if decide (b' = b) then Some (p, v) else None)
          (map_to_list (results t))).

(** The INT columns of a player are in range. *)
Definition int_columns (r : PlayerRow) : bool :=
  bool_decide (int32_min <= p_score r <= int32_max)
  && bool_decide (int32_min <= p_win r <= int32_max)
  && bool_decide (int32_min <= p_lose r <= int32_max).

(** The affected rows of a [SELECT] are -1.
    [None]: the statement fails (duplicate key, value out of the column's range). *)
Definition exec (env : Env) (st : Stmt) (t : Tables) : option Outcome :=
  match st with
  | SFindPlayer p =>
    Some (mkOutcome t (-1) (match players t !! p with Some r => [player_row p r] | None => [] end))
  | SCreatePlayer p name s w l =>
    match players t !! p with
    | None => Some (mkOutcome (set_players t (<[p := mkPlayerRow name s w l]> (players t))) 1 [])
    | Some r =>
      Some (mkOutcome (set_players t (<[p := mkPlayerRow name (p_score r) (p_win r) (p_lose r)]> (players t)))
                      (if decide (p_name r = name) then 0 else 2) [])
    end
  | SUpdateScore p i d w l =>
    match players t !! p with
    | None =>
      Some (mkOutcome (set_players t (<[p := mkPlayerRow ("player_" +:+ to_string p) i w l]> (players t))) 1 [])
    | Some r =>
      let r' := mkPlayerRow (p_name r) (p_score r + d) (p_win r + w) (p_lose r + l) in
      if int_columns r' then
        Some (mkOutcome (set_players t (<[p := r']> (players t))) (if decide (r' = r) then 0 else 2) [])
      else None
    end
  | SCreateBattle r =>
    match battles t !! env_auto env with
    | None => Some (mkOutcome (set_battles t (<[env_auto env := mkBattleRow r 0 false None]> (battles t))) 1 [])
    | Some _ => None
    end
  | SSelectBattle b =>
    Some (mkOutcome t (-1) (match battles t !! b with Some r => [battle_row r] | None => [] end))
  | SSelectResults b => Some (mkOutcome t (-1) (result_row <$> results_of t b))
  | SSettleBattle w b =>
    match battles t !! b with
    | None => Some (mkOutcome t 0 [])
    | Some r =>
      let r' := mkBattleRow (bt_room r) w true (Some (env_now env)) in
      Some (mkOutcome (set_battles t (<[b := r']> (battles t))) (if decide (r' = r) then 0 else 1) [])
    end
  | SInsertResult b p res d =>
    match results t !! (b, p) with
    | None => Some (mkOutcome (set_results t (<[(b, p) := (res, d)]> (results t))) 1 [])
    | Some _ => None
    end
  | SInsertLog b p d =>
    match logs t !! (b, p) with
    | None => Some (mkOutcome (set_logs t (<[(b, p) := d]> (logs t))) 1 [])
    | Some _ => None
    end
  end.

(** Letters, digits, underscores and dashes are never escaped. *)
Definition plain_char (a : ascii) : bool :=
  let n := nat_of_ascii a in
  is_digit a || ((65 <=? n) && (n <=? 90))%nat || ((97 <=? n) && (n <=? 122))%nat || (n =? 95)%nat || (n =? 45)%nat.
Fixpoint plain (s : string) : bool :=
  match s with
  | EmptyString => true
  | String a s => plain_char a && plain s
  end.

Lemma plain_app s1 s2 : plain s1 = true -> plain s2 = true -> plain (s1 +:+ s2) = true.
Proof.
  intros H1 H2. induction s1 as [|a s1 IH]; [done|].
  change (plain_char a && plain (s1 +:+ s2) = true). cbn in H1. bools.
  apply andb_true_iff. auto.
Qed.

Lemma plain_sql_digits fuel n acc : 0 <= n -> plain acc = true -> plain (digits fuel n acc) = true.
Proof.
  revert n acc. induction fuel as [|fuel IH]; intros n acc Hn Hacc; cbn [digits]; [done|].
  assert (Hc : forall d, 0 <= d < 10 -> plain_char (digit_char d) = true).
  { intros d Hd. unfold plain_char. by rewrite (proj1 (digit_char_val d Hd)). }
  destruct (Z.ltb_spec n 10).
  - cbn. by rewrite Hc.
  - apply IH; [apply Z.div_pos; lia|]. cbn. rewrite Hc; [done|]. apply Z.mod_pos_bound. lia.
Qed.

Lemma plain_sql_to_string p : plain (to_string p) = true.
Proof.
  unfold to_string.
  assert (H : forall f, plain (digits f (Z.abs p) "") = true) by (intros; apply plain_sql_digits; [lia|done]).
  case_match; apply H.
Qed.

Lemma plain_player_name p : plain ("player_" +:+ to_string p) = true.
Proof. apply plain_app; [done|apply plain_sql_to_string]. Qed.

(** ** The behaviour of the C library and the server *)
Class MysqlLaws (Srv : Type) {API : MysqlApi Srv} := {
  committed : Srv -> Tables;      (* what a new connection would see *)
  view : Srv -> Tables;           (* what the next statement works on *)
  in_tx : Srv -> bool;            (* a transaction is open on the connection *)
  escape : string -> string;

  autocommit s : in_tx s = false -> view s = committed s;
  init_spec s : committed (mysql_init s).2 = committed s;
  connect_spec cfg s :
    committed (mysql_real_connect cfg s).2 = committed s
    /\ ((mysql_real_connect cfg s).1 = true -> in_tx (mysql_real_connect cfg s).2 = false);
  close_spec s : committed (mysql_close s) = committed s;
  begin_spec s :
    in_tx s = false ->
    let '(rc, s') := mysql_query "START TRANSACTION" s in
    committed s' = committed s
    /\ (rc = 0 -> in_tx s' = true /\ view s' = committed s);
  stmt_ok st s s' :
    mysql_query (sql_text escape st) s = (0, s') ->
    exists env out,
      0 < env_auto env <= int64_max
      /\ exec env st (view s) = Some out
      /\ view s' = out_tables out /\ in_tx s' = in_tx s
      /\ (in_tx s = true -> committed s' = committed s)
      /\ wrap_i64 (mysql_affected_rows s') = out_affected out
      /\ (if st is SCreateBattle _ then mysql_insert_id s' = env_auto env else True)
      /\ (forall raw, (mysql_store_result s').1 = Some raw -> query_row <$> raw = out_rows out);
  stmt_fail st s rc s' :
    mysql_query (sql_text escape st) s = (rc, s') -> rc <> 0 ->
    (in_tx s = true -> committed s' = committed s)
    /\ (in_tx s = false ->
         in_tx s' = false
         /\ (committed s' = committed s
             \/ exists env out, 0 < env_auto env <= int64_max
                /\ exec env st (committed s) = Some out /\ committed s' = out_tables out));
  store_result_spec s :
    committed (mysql_store_result s).2 = committed s /\ view (mysql_store_result s).2 = view s
    /\ in_tx (mysql_store_result s).2 = in_tx s;
  next_result_spec s :
    committed (mysql_next_result s).2 = committed s /\ view (mysql_next_result s).2 = view s
    /\ in_tx (mysql_next_result s).2 = in_tx s;
  commit_spec s :
    in_tx s = true ->
    let '(rc, s') := mysql_commit s in
    if rc =? 0 then committed s' = view s /\ in_tx s' = false
    else committed s' = committed s \/ committed s' = view s;
  rollback_spec s :
    let '(rc, s') := mysql_rollback s in
    committed s' = committed s /\ (rc = 0 -> in_tx s' = false);
  escape_spec s v : mysql_real_escape_string s v = escape v;
  escape_plain v : plain v = true -> escape v = v
}.

(** The values of a statement fit the columns they go to ([INT], [BIGINT],
    [VARCHAR(64)], [VARCHAR(16)]). *)
Definition stmt_fits (st : Stmt) : Prop :=
  match st with
  | SFindPlayer _ | SSelectBattle _ | SSelectResults _ => True
  | SCreatePlayer p name s w l =>
    is_i64 p /\ plain name = true /\ (String.length name <= 64)%nat /\ is_i32 s /\ is_i32 w /\ is_i32 l
  | SUpdateScore p i d w l => is_i64 p /\ is_i32 i /\ is_i32 d /\ is_i32 w /\ is_i32 l
  | SCreateBattle r => is_i64 r
  | SSettleBattle w b => is_i64 w /\ is_i64 b
  | SInsertResult b p res d =>
    is_i64 b /\ is_i64 p /\ plain res = true /\ (String.length res <= 16)%nat /\ is_i32 d
  | SInsertLog b p d => is_i64 b /\ is_i64 p /\ is_i32 d
  end.

(** A server in good health serves every call whose values fit the columns and
    that the tables allow. *)
Class MysqlHealthy (Srv : Type) {API : MysqlApi Srv} {L : MysqlLaws Srv} := {
  healthy : Srv -> Prop;
  healthy_init s : healthy s -> (mysql_init s).1 = true /\ healthy (mysql_init s).2;
  healthy_connect cfg s :
    healthy s -> (mysql_real_connect cfg s).1 = true /\ healthy (mysql_real_connect cfg s).2;
  healthy_begin s :
    healthy s -> in_tx s = false ->
    (mysql_query "START TRANSACTION" s).1 = 0 /\ healthy (mysql_query "START TRANSACTION" s).2;
  healthy_query st s :
    healthy s -> stmt_fits st -> (forall env, exec env st (view s) <> None) ->
    (mysql_query (sql_text escape st) s).1 = 0 /\ healthy (mysql_query (sql_text escape st) s).2;
  healthy_next_result s : healthy s -> healthy (mysql_next_result s).2;
  healthy_store_result s : healthy s -> healthy (mysql_store_result s).2;
  (** An insertion gets an id as long as some are left. *)
  healthy_create room s :
    healthy s -> is_i64 room -> in_tx s = false -> (forall b, is_Some (battles (view s) !! b) -> b < int64_max) ->
    (mysql_query (sql_text escape (SCreateBattle room)) s).1 = 0
    /\ healthy (mysql_query (sql_text escape (SCreateBattle room)) s).2;
  healthy_rows st s s' :
    healthy s -> mysql_query (sql_text escape st) s = (0, s') ->
    is_select st = true -> (mysql_store_result s').1 <> None;
  healthy_commit s : healthy s -> in_tx s = true -> (mysql_commit s).1 = 0 /\ healthy (mysql_commit s).2
}.
