(* ===== verification/ToyMysql.v ===== *)
(** * ToyMysql: a MySQL server the kernel can run

    No part of the program and no model of MySQL's own grammar: an instance of
    [MysqlLaws] and [MysqlHealthy] that shows the laws can hold together and on
    which the witnesses of the storage theorems run.  [ToySrv] executes the
    statement it reads in a text, with a script of faults; [parse_sql] reads the
    texts of [sql_text] back ([sql_text_parse]) and [toy_escape] is an escape it
    understands. *)
From S2P Require Import Prelude StdString Config Mysql Repositories SqlModel.
From Stdlib Require Import Ascii.
Local Open Scope string_scope.
Local Open Scope Z_scope.

(** ** Reading numbers and quoted strings *)
Definition take_num (s : string) : option (Z * string) :=
  match s with
  | String "-" s' => if starts_digit s' then let '(n, r) := take_digits s' 0 in Some (- n, r) else None
  | _ => if starts_digit s then Some (take_digits s 0) else None
  end.

Lemma take_num_to_string z rest :
  starts_digit rest = false -> take_num (to_string z +:+ rest) = Some (z, rest).
Proof.
  intros Hrest. unfold to_string. set (f := S _).
  assert (Hv : take_digits (digits f (Z.abs z) "" +:+ rest) 0 = (Z.abs z, rest)).
  { rewrite <- digits_app.
    destruct (take_digits_digits f (Z.abs z) rest 0) as (m & ->); [lia|apply digit_fuel|].
    rewrite take_digits_stop by done. done. }
  assert (Hd : starts_digit (digits f (Z.abs z) "" +:+ rest) = true).
  { rewrite <- digits_app. apply starts_digit_digits; [lia|]. left. by unfold f. }
  destruct (Z.ltb_spec z 0).
  - change (take_num (String "-" (digits f (Z.abs z) "" +:+ rest)) = Some (z, rest)).
    cbn [take_num]. rewrite Hd, Hv. f_equal. f_equal. lia.
  - revert Hv Hd. generalize (digits f (Z.abs z) "" +:+ rest). intros s Hv Hd.
    rewrite Z.abs_eq in Hv by lia.
    destruct s as [|[[] [] [] [] [] [] [] []] s]; try discriminate Hd; cbn [take_num]; by rewrite Hd, Hv.
Qed.

(** The escapes of mysql_real_escape_string. *)
Definition escape_char (a : ascii) : string :=
  let n := nat_of_ascii a in
  if (n =? 0)%nat then "\0" else if (n =? 10)%nat then "\n" else if (n =? 13)%nat then "\r"
  else if (n =? 26)%nat then "\Z"
  else if (n =? 34)%nat || (n =? 39)%nat || (n =? 92)%nat then String "\" (String a "")
  else String a "".

Fixpoint toy_escape (s : string) : string :=
  match s with
  | EmptyString => ""
  | String a s => escape_char a +:+ toy_escape s
  end.

Definition unescape_char (a : ascii) : ascii :=
  if Ascii.eqb a "0" then ascii_of_nat 0 else if Ascii.eqb a "n" then ascii_of_nat 10
  else if Ascii.eqb a "r" then ascii_of_nat 13 else if Ascii.eqb a "Z" then ascii_of_nat 26 else a.

(** The content of a literal up to its closing quote. *)
Fixpoint take_str (s : string) : option (string * string) :=
  match s with
  | EmptyString => None
  | String a s' =>
    if Ascii.eqb a "'" then Some ("", s)
    else if Ascii.eqb a "\" then
      match s' with
      | EmptyString => None
      | String b s'' => prod_map (String (unescape_char b)) id <$> take_str s''
      end
    else prod_map (String a) id <$> take_str s'
  end.

Lemma take_str_char a s : take_str (escape_char a +:+ s) = prod_map (String a) id <$> take_str s.
Proof. by destruct a as [[] [] [] [] [] [] [] []]. Qed.

Lemma take_str_escape v rest :
  take_str (toy_escape v +:+ String "'" rest) = Some (v, String "'" rest).
Proof.
  induction v as [|a v IH]; [done|]. cbn [toy_escape].
  assert (E : (escape_char a +:+ toy_escape v) +:+ String "'" rest
              = escape_char a +:+ (toy_escape v +:+ String "'" rest))
    by (destruct a as [[] [] [] [] [] [] [] []]; reflexivity).
  by rewrite E, take_str_char, IH.
Qed.

Lemma toy_escape_plain v : plain v = true -> toy_escape v = v.
Proof.
  induction v as [|a v IH]; [done|]. cbn [plain toy_escape]. intros [Ha Hv]%andb_true_iff.
  rewrite IH by done. by destruct a as [[] [] [] [] [] [] [] []].
Qed.

Lemma take_str_plain v rest :
  plain v = true -> take_str (v +:+ String "'" rest) = Some (v, String "'" rest).
Proof. intros H. rewrite <- (toy_escape_plain v H) at 1. apply take_str_escape. Qed.

(** ** Templates *)
Inductive piece := Lit (s : string) | Num | Str.

Fixpoint strip (l s : string) : option string :=
  match l, s with
  | EmptyString, _ => Some s
  | String a l, String b s => if Ascii.eqb a b then strip l s else None
  | String _ _, EmptyString => None
  end.

(** The numbers and the strings read, in order. *)
Fixpoint match_pieces (ps : list piece) (s : string) : option (list (Z + string)) :=
  match ps with
  | [] => match s with EmptyString => Some [] | _ => None end
  | Lit l :: ps => match strip l s with Some s => match_pieces ps s | None => None end
  | Num :: ps =>
    match take_num s with Some (z, s) => (fun r => inl z :: r) <$> match_pieces ps s | None => None end
  | Str :: ps =>
    match take_str s with Some (v, s) => (fun r => inr v :: r) <$> match_pieces ps s | None => None end
  end.

Definition templates : list (list piece * (list (Z + string) -> option Stmt)) := [
  ([Lit "SELECT player_id, name, score, win_count, lose_count FROM player WHERE player_id = "; Num; Lit " LIMIT 1"],
   fun a => match a with [inl p] => Some (SFindPlayer p) | _ => None end);
  ([Lit "INSERT INTO player(player_id, name, score, win_count, lose_count) VALUES("; Num; Lit ", '"; Str; Lit "', ";
    Num; Lit ", "; Num; Lit ", "; Num; Lit ") ON DUPLICATE KEY UPDATE name = VALUES(name)"],
   fun a => match a with [inl p; inr n; inl s; inl w; inl l] => Some (SCreatePlayer p n s w l) | _ => None end);
  ([Lit "INSERT INTO player(player_id, name, score, win_count, lose_count) VALUES("; Num; Lit ", 'player_"; Num;
    Lit "', "; Num; Lit ", "; Num; Lit ", "; Num; Lit ") ON DUPLICATE KEY UPDATE score = score + ("; Num;
    Lit "), win_count = win_count + "; Num; Lit ", lose_count = lose_count + "; Num],
   fun a => match a with
            | [inl p; inl p'; inl i; inl w; inl l; inl d; inl w'; inl l'] =>
              if (p =? p') && (w =? w') && (l =? l') then Some (SUpdateScore p i d w l) else None
            | _ => None end);
  ([Lit "INSERT INTO battle(room_id, winner_id, result_json) VALUES("; Num; Lit ", 0, '{}')"],
   fun a => match a with [inl r] => Some (SCreateBattle r) | _ => None end);
  ([Lit "SELECT room_id, winner_id, settled FROM battle WHERE battle_id = "; Num; Lit " FOR UPDATE"],
   fun a => match a with [inl b] => Some (SSelectBattle b) | _ => None end);
  ([Lit "SELECT player_id, result, score_delta FROM battle_player_result WHERE battle_id = "; Num;
    Lit " ORDER BY player_id FOR UPDATE"],
   fun a => match a with [inl b] => Some (SSelectResults b) | _ => None end);
  ([Lit "UPDATE battle SET winner_id = "; Num; Lit ", settled = 1, end_time = CURRENT_TIMESTAMP WHERE battle_id = "; Num],
   fun a => match a with [inl w; inl b] => Some (SSettleBattle w b) | _ => None end);
  ([Lit "INSERT INTO battle_player_result(battle_id, player_id, result, score_delta) VALUES("; Num; Lit ", "; Num;
    Lit ", '"; Str; Lit "', "; Num; Lit ")"],
   fun a => match a with [inl b; inl p; inr r; inl d] => Some (SInsertResult b p r d) | _ => None end);
  ([Lit "INSERT INTO settlement_log(battle_id, player_id, score_delta) VALUES("; Num; Lit ", "; Num; Lit ", "; Num; Lit ")"],
   fun a => match a with [inl b; inl p; inl d] => Some (SInsertLog b p d) | _ => None end)
].

Fixpoint first_template (ts : list (list piece * (list (Z + string) -> option Stmt))) (s : string) : option Stmt :=
  match ts with
  | [] => None
  | (ps, build) :: ts =>
    match match_pieces ps s with
    | Some args => build args
    | None => first_template ts s
    end
  end.

Definition parse_sql (s : string) : option Stmt := first_template templates s.

Example parse_find : parse_sql "SELECT player_id, name, score, win_count, lose_count FROM player WHERE player_id = -7 LIMIT 1" = Some (SFindPlayer (-7)).
Proof. reflexivity. Qed.

(** Matching a template piece by piece; [r] is what the rest matches to. *)
Lemma match_nil : match_pieces [] "" = Some [].
Proof. done. Qed.
Lemma match_lit l ps s s' r :
  strip l s = Some s' -> match_pieces ps s' = r -> match_pieces (Lit l :: ps) s = r.
Proof. intros H Hr. cbn. by rewrite H. Qed.
Lemma match_lit_none l ps s : strip l s = None -> match_pieces (Lit l :: ps) s = None.
Proof. intros H. cbn. by rewrite H. Qed.
Lemma match_num ps z rest r :
  starts_digit rest = false -> match_pieces ps rest = r ->
  match_pieces (Num :: ps) (to_string z +:+ rest) = (fun r => inl z :: r) <$> r.
Proof. intros H Hr. cbn. by rewrite take_num_to_string, Hr. Qed.
Lemma match_str ps v rest r :
  match_pieces ps (String "'" rest) = r ->
  match_pieces (Str :: ps) (toy_escape v +:+ String "'" rest) = (fun r => inr v :: r) <$> r.
Proof. intros Hr. cbn -[take_str]. by rewrite take_str_escape, Hr. Qed.
Lemma match_name ps p rest r :
  match_pieces ps (String "'" rest) = r ->
  match_pieces (Str :: ps) (String "p" (String "l" (String "a" (String "y" (String "e" (String "r" (String "_"
    (to_string p +:+ String "'" rest))))))))
  = (fun r => inr ("player_" +:+ to_string p) :: r) <$> r.
Proof.
  intros Hr. pose proof (take_str_plain _ rest (plain_player_name p)) as H.
  rewrite <- string_app_assoc in H. cbn [match_pieces].
  change (String "p" (String "l" (String "a" (String "y" (String "e" (String "r" (String "_"
    (to_string p +:+ String "'" rest)))))))) with ("player_" +:+ (to_string p +:+ String "'" rest)).
  by rewrite H, Hr.
Qed.

Lemma first_template_cons ps build ts s r :
  match_pieces ps s = r ->
  first_template ((ps, build) :: ts) s
  = match r with Some args => build args | None => first_template ts s end.
Proof. intros <-. done. Qed.

Ltac match_text :=
  cbn -[match_pieces to_string toy_escape];
  lazymatch goal with
  | |- match_pieces [] _ = _ => apply match_nil
  | |- match_pieces (Lit _ :: _) _ = _ =>
      first [ apply match_lit_none; reflexivity
            | eapply match_lit; [cbn -[to_string toy_escape]; reflexivity | match_text] ]
  | |- match_pieces (Num :: _) _ = _ => apply match_num; [reflexivity | match_text]
  | |- match_pieces (Str :: _) (toy_escape _ +:+ _) = _ => apply match_str; match_text
  | |- match_pieces (Str :: _) _ = _ => apply match_name; match_text
  end.

Ltac parse_text :=
  erewrite first_template_cons by match_text;
  cbn -[first_template match_pieces to_string toy_escape Z.eqb].

(** The server reads a text as the statement it was built for. *)
Lemma sql_text_parse st : parse_sql (sql_text toy_escape st) = Some st.
Proof.
  destruct st; unfold parse_sql, sql_text, templates, stream; repeat parse_text; rewrite ?Z.eqb_refl; done.
Qed.

(** ** The server *)

(** What happens to one call: done, refused, or done with the reply lost. *)
Inductive Fault := Fine | Fails | ReplyLost.

Record ToySrv := mkToy {
  toy_db : Tables;
  toy_tx : option Tables;
  toy_faults : list Fault;          (* the next calls; then all are fine *)
  toy_rows : QueryResult;
  toy_affected : Z;
  toy_insert : Z
}.

Definition toy_view (s : ToySrv) : Tables := default (toy_db s) (toy_tx s).
Definition toy_pop (s : ToySrv) : Fault * ToySrv :=
  match toy_faults s with
  | [] => (Fine, s)
  | f :: fs => (f, mkToy (toy_db s) (toy_tx s) fs (toy_rows s) (toy_affected s) (toy_insert s))
  end.
Definition toy_next_id (t : Tables) : Z :=
  Z.min int64_max (1 + map_fold (fun b _ acc => Z.max b acc) 0 (battles t)).
Definition toy_write (s : ToySrv) (t : Tables) : ToySrv :=
  match toy_tx s with
  | None => mkToy t None (toy_faults s) (toy_rows s) (toy_affected s) (toy_insert s)
  | Some _ => mkToy (toy_db s) (Some t) (toy_faults s) (toy_rows s) (toy_affected s) (toy_insert s)
  end.
Definition toy_reply (s : ToySrv) (out : Outcome) (id : Z) : ToySrv :=
  mkToy (toy_db s) (toy_tx s) (toy_faults s) (out_rows out) (wrap_u64 (out_affected out)) id.
Definition toy_end (s : ToySrv) (db : Tables) : ToySrv :=
  mkToy db None (toy_faults s) (toy_rows s) (toy_affected s) (toy_insert s).

Definition toy_query (sql : string) (s : ToySrv) : Z * ToySrv :=
  let '(f, s) := toy_pop s in
  if bool_decide (sql = "START TRANSACTION") then
    match f with
    | Fine => (0, mkToy (toy_db s) (Some (toy_db s)) (toy_faults s) (toy_rows s) (toy_affected s) (toy_insert s))
    | _ => (1, s)
    end
  else
    match parse_sql sql with
    | None => (1, s)
    | Some st =>
      let id := toy_next_id (toy_view s) in
      match exec (mkEnv id 0) st (toy_view s) with
      | None => (1, s)
      | Some out =>
        match f with
        | Fine => (0, toy_reply (toy_write s (out_tables out)) out id)
        | Fails => (1, s)
        | ReplyLost => (1, match toy_tx s with None => toy_write s (out_tables out) | Some _ => s end)
        end
      end
    end.

Definition toy_raw (row : QueryRow) : list (option string * option string) :=
  (fun '(k, v) => (Some k, Some v)) <$> map_to_list row.

#[export] Instance ToyApi : MysqlApi ToySrv := {
  mysql_init s := (true, s);
  mysql_real_connect _ s :=
    let '(f, s) := toy_pop s in (match f with Fine => true | _ => false end, toy_end s (toy_db s));
  mysql_close s := toy_end s (toy_db s);
  mysql_query := toy_query;
  mysql_errno _ := 2006;
  mysql_next_result s := (-1, s);
  mysql_result_count _ := O;
  mysql_affected_rows := toy_affected;
  mysql_insert_id := toy_insert;
  mysql_store_result s := (Some (toy_raw <$> toy_rows s), s);
  mysql_rollback s :=
    let '(f, s) := toy_pop s in (match f with Fine => 0 | _ => 1 end, toy_end s (toy_db s));
  mysql_commit s :=
    let '(f, s) := toy_pop s in
    match f with
    | Fine => (0, toy_end s (toy_view s))
    | Fails => (1, toy_end s (toy_db s))
    | ReplyLost => (1, toy_end s (toy_view s))
    end;
  mysql_real_escape_string _ v := toy_escape v;
  CR_SERVER_GONE_ERROR := 2006;
  CR_SERVER_LOST := 2013
}.

Lemma toy_pop_spec s f s' :
  toy_pop s = (f, s') ->
  toy_db s' = toy_db s /\ toy_tx s' = toy_tx s.
Proof. unfold toy_pop. destruct (toy_faults s); intros [= <- <-]; done. Qed.

Lemma query_row_fold (l : list (string * string)) (m : QueryRow) :
  NoDup l.*1 ->
  fold_left (fun item '(name, value) => <[default "" name := default "" value]> item)
            ((fun '(k, v) => (Some k, Some v)) <$> l) m
  = list_to_map l ∪ m.
Proof.
  revert m. induction l as [|[k v] l IH]; intros m Hnd; cbn.
  - by rewrite (left_id_L ∅ (∪)).
  - inversion Hnd as [|? ? Hnin Hnd']; subst. rewrite IH by done.
    rewrite <- insert_union_r, <- insert_union_l; [done|]. by apply not_elem_of_list_to_map_1.
Qed.

Lemma query_row_toy_raw (row : QueryRow) : query_row (toy_raw row) = row.
Proof.
  unfold query_row, toy_raw. rewrite query_row_fold by apply NoDup_fst_map_to_list.
  by rewrite list_to_map_to_list, (right_id_L ∅ (∪)).
Qed.

Lemma out_affected_range env st t out :
  exec env st t = Some out -> -1 <= out_affected out <= 2.
Proof.
  destruct st; cbn; repeat case_match; intros; simplify_eq; cbn; repeat case_decide; lia.
Qed.

Lemma sql_text_not_begin st : sql_text toy_escape st <> "START TRANSACTION".
Proof. by destruct st. Qed.

Lemma toy_next_id_pos t : 0 < toy_next_id t <= int64_max.
Proof.
  unfold toy_next_id, int64_max. enough (0 <= map_fold (fun b _ acc => Z.max b acc) 0 (battles t)) by lia.
  apply (map_fold_weak_ind (fun acc _ => 0 <= acc)); [done|]. intros. lia.
Qed.

Lemma toy_next_id_fresh t :
  (forall b, is_Some (battles t !! b) -> b < int64_max) -> battles t !! toy_next_id t = None.
Proof.
  intros Hlt. unfold toy_next_id. set (top := map_fold (fun b _ acc => Z.max b acc) 0 (battles t)).
  assert (Hmax : forall b, is_Some (battles t !! b) -> b <= top).
  { unfold top. clear. apply (map_fold_weak_ind (fun acc m => forall b, is_Some (m !! b) -> b <= acc)).
    - intros b. rewrite lookup_empty. by intros [].
    - intros b row m acc _ IH b'. destruct (decide (b = b')) as [->|]; [lia|].
      rewrite lookup_insert_ne by done. intros ?%IH. lia. }
  apply eq_None_not_Some. intros Hs. pose proof (Hmax _ Hs). pose proof (Hlt _ Hs). lia.
Qed.

Lemma toy_query_stmt st s :
  let '(f, s1) := toy_pop s in
  let id := toy_next_id (toy_view s1) in
  toy_query (sql_text toy_escape st) s
  = match exec (mkEnv id 0) st (toy_view s1) with
    | None => (1, s1)
    | Some out =>
      match f with
      | Fine => (0, toy_reply (toy_write s1 (out_tables out)) out id)
      | Fails => (1, s1)
      | ReplyLost => (1, match toy_tx s1 with None => toy_write s1 (out_tables out) | Some _ => s1 end)
      end
    end.
Proof.
  destruct (toy_pop s) as [f s1] eqn:Hp. cbn zeta. unfold toy_query. rewrite Hp, sql_text_parse.
  by rewrite bool_decide_eq_false_2 by apply sql_text_not_begin.
Qed.

Lemma toy_stmt_ok st s s' :
  toy_query (sql_text toy_escape st) s = (0, s') ->
  exists env out,
    0 < env_auto env <= int64_max
    /\ exec env st (toy_view s) = Some out
    /\ toy_view s' = out_tables out /\ bool_decide (is_Some (toy_tx s')) = bool_decide (is_Some (toy_tx s))
    /\ (bool_decide (is_Some (toy_tx s)) = true -> toy_db s' = toy_db s)
    /\ wrap_i64 (toy_affected s') = out_affected out
    /\ (if st is SCreateBattle _ then toy_insert s' = env_auto env else True)
    /\ (forall raw, Some (toy_raw <$> toy_rows s') = Some raw -> query_row <$> raw = out_rows out).
Proof.
  pose proof (toy_query_stmt st s) as Hq. destruct (toy_pop s) as [f s1] eqn:Hp.
  destruct (toy_pop_spec _ _ _ Hp) as [Hdb Htx]. cbn zeta in Hq. rewrite Hq. clear Hq.
  assert (Hv : toy_view s1 = toy_view s) by (unfold toy_view; by rewrite Hdb, Htx). rewrite Hv.
  destruct (exec _ _ _) as [out|] eqn:He; [|done]. destruct f; [|done..]. intros [= <-].
  exists (mkEnv (toy_next_id (toy_view s)) 0), out.
  pose proof (toy_next_id_pos (toy_view s)). pose proof (out_affected_range _ _ _ _ He).
  unfold toy_write. rewrite Htx. split_and!; [cbn; lia|cbn; lia|done| |..].
  - by destruct (toy_tx s).
  - by destruct (toy_tx s).
  - by destruct (toy_tx s).
  - cbn. unfold wrap_i64, wrap_u64. Z.to_euclidean_division_equations. lia.
  - by destruct st.
  - intros raw [= <-]. cbn. rewrite <- list_fmap_compose. rewrite <- (list_fmap_id (out_rows out)) at 2.
    apply list_fmap_ext. intros i x _. apply query_row_toy_raw.
Qed.

#[export, program] Instance ToyLaws : MysqlLaws ToySrv := {
  committed := toy_db;
  view := toy_view;
  in_tx s := bool_decide (is_Some (toy_tx s));
  escape := toy_escape
}.
Next Obligation. intros s. cbn. unfold toy_view. by destruct (toy_tx s). Qed.
Next Obligation. done. Qed.
Next Obligation.
  intros cfg s. cbn. destruct (toy_pop s) as [f s1] eqn:Hp. by destruct (toy_pop_spec _ _ _ Hp) as [-> _].
Qed.
Next Obligation. done. Qed.
Next Obligation.
  intros s _. cbn. unfold toy_query. destruct (toy_pop s) as [f s1] eqn:Hp.
  destruct (toy_pop_spec _ _ _ Hp) as [Hd _]. destruct f; cbn; by rewrite ?Hd.
Qed.
Next Obligation. apply toy_stmt_ok. Qed.
Next Obligation.
  intros st s rc s'. cbn. pose proof (toy_query_stmt st s) as Hq.
  destruct (toy_pop s) as [f s1] eqn:Hp. destruct (toy_pop_spec _ _ _ Hp) as [Hdb Htx].
  cbn zeta in Hq. rewrite Hq. clear Hq.
  assert (Hv : toy_view s1 = toy_view s) by (unfold toy_view; by rewrite Hdb, Htx). rewrite Hv.
  destruct (exec _ _ _) as [out|] eqn:He; [|intros [= <- <-] _; rewrite Htx, Hdb; auto].
  destruct f; intros [= <- <-] Hrc; [done|rewrite Htx, Hdb; auto|].
  unfold toy_write. rewrite Htx. destruct (toy_tx s) as [t|] eqn:Ht; cbn; (split; [done|]); [done|].
  intros _. split; [done|]. right. exists (mkEnv (toy_next_id (toy_view s)) 0), out.
  pose proof (toy_next_id_pos (toy_view s)). split; [done|]. split; [|done].
  unfold toy_view in He |- *. by rewrite Ht in He |- *.
Qed.
Next Obligation. done. Qed.
Next Obligation. done. Qed.
Next Obligation.
  intros s Ht. cbn in Ht |- *. destruct (toy_pop s) as [f s1] eqn:Hp. destruct (toy_pop_spec _ _ _ Hp) as [Hdb Htx].
  destruct f; cbn; unfold toy_view; rewrite ?Hdb, ?Htx; auto.
Qed.
Next Obligation.
  intros s. cbn. destruct (toy_pop s) as [f s1] eqn:Hp. by destruct (toy_pop_spec _ _ _ Hp) as [-> _].
Qed.
Next Obligation. done. Qed.
Next Obligation. intros v. apply toy_escape_plain. Qed.

#[export, program] Instance ToyHealthy : MysqlHealthy ToySrv := { healthy s := toy_faults s = [] }.
Next Obligation. done. Qed.
Next Obligation. intros cfg s H. cbn. unfold toy_pop. by rewrite H. Qed.
Next Obligation. intros s H _. cbn. unfold toy_query, toy_pop. by rewrite H. Qed.
Next Obligation.
  intros st s H _ Hex. cbn. pose proof (toy_query_stmt st s) as Hq. unfold toy_pop in Hq. rewrite H in Hq.
  cbn zeta in Hq. rewrite Hq. specialize (Hex (mkEnv (toy_next_id (toy_view s)) 0)). cbn in Hex.
  destruct (exec _ _ _); [|done]. unfold toy_write. by destruct (toy_tx s).
Qed.
Next Obligation. done. Qed.
Next Obligation. done. Qed.
Next Obligation.
  intros room s H _ _ Hlt. cbn -[toy_query sql_text]. pose proof (toy_query_stmt (SCreateBattle room) s) as Hq. unfold toy_pop in Hq.
  rewrite H in Hq. cbn -[toy_next_id sql_text] in Hq. rewrite toy_next_id_fresh in Hq by done. rewrite Hq.
  unfold toy_write. by destruct (toy_tx s).
Qed.
Next Obligation. done. Qed.
Next Obligation. intros s H _. cbn. unfold toy_pop. by rewrite H. Qed.
