(* ===== verification/BattleStore.v ===== *)
(** * BattleStore: the settlement transaction against its specification

    [settled] is what a settlement means on the tables, [already] what an
    earlier identical settlement left; [ApplySettlement] implements them
    atomically over any server that keeps [MysqlLaws], whatever call fails. *)
From S2P Require Import Prelude StdString Config Mysql Repositories SqlModel.
Local Open Scope string_scope.
Local Open Scope Z_scope.

(** ** The specification *)

(** One player's result: the two records and the new score. *)
Definition award (t : Tables) (r : BattlePlayerResult) : Tables :=
  let b := res_battle_id r in
  let p := res_player_id r in
  let d := res_score_delta r in
  let won := if 0 <? d then 1 else 0 in
  let lost := if d <? 0 then 1 else 0 in
  let row :=
    match players t !! p with
    | Some row => mkPlayerRow (p_name row) (p_score row + d) (p_win row + won) (p_lose row + lost)
    | None => mkPlayerRow ("player_" +:+ to_string p) (1000 + d) won lost
    end in
  mkTables (<[p := row]> (players t)) (battles t)
           (<[(b, p) := (res_result r, d)]> (results t)) (<[(b, p) := d]> (logs t)).

Definition settled (now : Z) (battle : Battle) (ordered : list BattlePlayerResult) (t : Tables) : Tables :=
  let t := fold_left award ordered t in
  set_battles t (<[b_battle_id battle := mkBattleRow (b_room_id battle) (b_winner_id battle) true (Some now)]>
                   (battles t)).

(** The battle waits for its result, in the room the request names. *)
Definition unsettled (battle : Battle) (t : Tables) : Prop :=
  exists row, battles t !! b_battle_id battle = Some row
    /\ bt_room row = b_room_id battle /\ bt_settled row = false.

Definition saved_result (r : BattlePlayerResult) : Z * (string * Z) :=
  (res_player_id r, (res_result r, res_score_delta r)).

(** The same settlement has been recorded before. *)
Definition already (battle : Battle) (ordered : list BattlePlayerResult) (t : Tables) : Prop :=
  exists row, battles t !! b_battle_id battle = Some row
    /\ bt_room row = b_room_id battle /\ bt_settled row = true
    /\ bt_winner row = b_winner_id battle
    /\ results_of t (b_battle_id battle) = saved_result <$> ordered.

(** A request [ApplySettlement] accepts: one winner with +20, the others -10. *)
Definition well_formed (battle : Battle) (ordered : list BattlePlayerResult) : Prop :=
  Sorted.StronglySorted Z.lt (res_player_id <$> ordered)
  /\ (b_winner_id battle ∈ (res_player_id <$> ordered))
  /\ forall r, r ∈ ordered ->
       res_battle_id r = b_battle_id battle /\ 0 < res_player_id r
       /\ (if res_player_id r =? b_winner_id battle
           then res_result r = "WIN" /\ res_score_delta r = 20
           else res_result r = "LOSE" /\ res_score_delta r = -10).

(** The column types: what a row's text reads back as. *)
Definition ints (t : Tables) : Prop :=
  forall p row, players t !! p = Some row -> int_columns row = true.

Definition tables_typed (t : Tables) : Prop :=
  (forall b row, battles t !! b = Some row -> is_i64 (bt_room row) /\ is_i64 (bt_winner row))
  /\ (forall b p v, results t !! (b, p) = Some v -> is_i64 p /\ is_i32 v.2)
  /\ ints t /\ (forall p row, players t !! p = Some row -> is_i64 p).

(** ** The validation of the request *)
Lemma check_results_spec battle ordered prev n m :
  check_results battle ordered prev n = Some m ->
  Sorted.StronglySorted Z.lt (res_player_id <$> ordered)
  /\ (forall r, r ∈ ordered ->
       res_battle_id r = b_battle_id battle /\ prev < res_player_id r
       /\ (if res_player_id r =? b_winner_id battle
           then res_result r = "WIN" /\ res_score_delta r = 20
           else res_result r = "LOSE" /\ res_score_delta r = -10))
  /\ (n < m -> b_winner_id battle ∈ (res_player_id <$> ordered)).
Proof.
  revert prev n. induction ordered as [|r ordered IH]; intros prev n; cbn [check_results].
  { intros [= ->]. split; [constructor|]. split; [|lia]. intros r Hr. by apply elem_of_nil in Hr. }
  case_match eqn:Hbad; [done|]. intros Hm. bools.
  destruct (IH _ _ Hm) as (Hs & Hall & Hw).
  split; [|split].
  - cbn. constructor; [done|]. apply Forall_forall. intros p (r' & -> & Hr')%list_elem_of_fmap.
    by apply Hall.
  - intros r' [->|Hr']%elem_of_cons.
    + repeat split; [done|lia|].
      destruct (Z.eqb (res_player_id r) _); done.
    + destruct (Hall r' Hr') as (? & ? & ?). repeat split; [done|lia|done].
  - intros Hlt. cbn. destruct (res_player_id r =? b_winner_id battle) eqn:E.
    + bools. rewrite <- E. left.
    + right. apply Hw. lia.
Qed.

Lemma check_results_well_formed battle ordered m :
  check_results battle ordered 0 0 = Some m -> m = 1 -> well_formed battle ordered.
Proof. intros H ->. destruct (check_results_spec _ _ _ _ _ H) as (?&?&Hw). split; [done|]. split; [apply Hw; lia|done]. Qed.

(** ** Statements inside the transaction *)
Section transaction.
Context {Srv : Type} {API : MysqlApi Srv} {L : MysqlLaws Srv}.
Context (config : MysqlConfig).
Notation Client := (MysqlClient Srv).
Implicit Types (c : Client) (t : Tables).

(** The client between two statements of a transaction that began on the
    tables [t0] and now sees [t]. *)
Definition tx c t0 t : Prop :=
  conn_up c = true /\ in_transaction_ c = true /\ in_tx (srv c) = true
  /\ committed (srv c) = t0 /\ view (srv c) = t.

(** Nothing committed; the transaction may be lost. *)
Definition aborting c t0 : Prop :=
  conn_up c = true /\ in_transaction_ c = true /\ committed (srv c) = t0.

(** Between two calls: no transaction is open on the connection. *)
Definition idle c : Prop :=
  in_transaction_ c = false /\ (conn_up c = true -> in_tx (srv c) = false).

Lemma tx_aborting c t0 t : tx c t0 t -> aborting c t0.
Proof. unfold tx, aborting. tauto. Qed.
Hint Resolve tx_aborting : game.

Lemma reset_in_transaction c : in_transaction_ c = true -> ResetOnConnectionError c = c.
Proof. intros H. unfold ResetOnConnectionError. by rewrite H, orb_true_r. Qed.

Lemma drain_results_spec fuel (s : Srv) :
  committed (drain_results fuel s) = committed s /\ view (drain_results fuel s) = view s
  /\ in_tx (drain_results fuel s) = in_tx s.
Proof.
  revert s. induction fuel as [|fuel IH]; intros s; cbn [drain_results]; [done|].
  pose proof (next_result_spec s) as Hn. destruct (mysql_next_result s) as [rc s1]; cbn in Hn.
  case_match; [done|].
  pose proof (store_result_spec s1) as Hs. destruct (mysql_store_result s1) as [r s2]; cbn in Hs.
  destruct (IH s2) as (?&?&?). intuition congruence.
Qed.

(** The common step: the query of a statement inside the transaction. *)
Lemma tx_query st c t0 t rc s :
  tx c t0 t -> mysql_query (sql_text escape st) (srv c) = (rc, s) ->
  if rc =? 0
  then exists env out, exec env st t = Some out /\ tx (with_srv c s) t0 (out_tables out)
       /\ wrap_i64 (mysql_affected_rows s) = out_affected out
       /\ (forall raw, (mysql_store_result s).1 = Some raw -> query_row <$> raw = out_rows out)
  else aborting (with_srv c s) t0.
Proof.
  intros (Hc & Hi & Ht & H0 & Hv) Hq. destruct (Z.eqb_spec rc 0) as [->|Hrc].
  - destruct (stmt_ok _ _ _ Hq) as (env & out & _ & He & Hv' & Ht' & H0' & Ha & _ & Hr).
    exists env, out. rewrite Hv in He. repeat split; cbn; try done; try congruence. rewrite H0'; congruence.
  - destruct (stmt_fail _ _ _ _ Hq Hrc) as [Hf _]. repeat split; cbn; try done. rewrite Hf; congruence.
Qed.

Lemma tx_Execute st c t0 t ok c' :
  tx c t0 t -> Execute config c (sql_text escape st) = (ok, c') ->
  if ok then exists env out, exec env st t = Some out /\ tx c' t0 (out_tables out) else aborting c' t0.
Proof.
  intros Htx. unfold Execute, ensure_connected. destruct (Htx) as (Hc & Hi & _). rewrite Hc. cbn.
  destruct (mysql_query _ _) as [rc s] eqn:Hq. pose proof (tx_query _ _ _ _ _ _ Htx Hq) as H.
  destruct (rc =? 0); cbn.
  - intros [= <- <-]. destruct H as (env & out & He & (?&?&?&?&?) & _).
    exists env, out. split; [done|].
    destruct (drain_results_spec (S (mysql_result_count s)) s) as (?&?&?).
    cbn in *. repeat split; cbn; congruence.
  - intros [= <- <-]. rewrite reset_in_transaction; [done|]. apply H.
Qed.

Lemma tx_ExecuteAffected st c t0 t n c' :
  tx c t0 t -> ExecuteAffected config c (sql_text escape st) = (n, c') ->
  (exists env out, exec env st t = Some out /\ tx c' t0 (out_tables out) /\ n = out_affected out)
  \/ (n = -1 /\ aborting c' t0).
Proof.
  intros Htx. unfold ExecuteAffected, ensure_connected. destruct (Htx) as (Hc & Hi & _). rewrite Hc. cbn.
  destruct (mysql_query _ _) as [rc s] eqn:Hq. pose proof (tx_query _ _ _ _ _ _ Htx Hq) as H.
  destruct (rc =? 0); cbn.
  - intros [= <- <-]. left. destruct H as (env & out & He & Ht & Ha & _). eauto.
  - intros [= <- <-]. right. split; [done|]. rewrite reset_in_transaction; [done|]. apply H.
Qed.

Lemma tx_Query st c t0 t rows c' :
  tx c t0 t -> Query config c (sql_text escape st) = (rows, c') ->
  (exists env out, exec env st t = Some out /\ tx c' t0 (out_tables out) /\ (rows = [] \/ rows = out_rows out))
  \/ (rows = [] /\ aborting c' t0).
Proof.
  intros Htx. unfold Query, ensure_connected. destruct (Htx) as (Hc & Hi & _). rewrite Hc. cbn.
  destruct (mysql_query _ _) as [rc s] eqn:Hq. pose proof (tx_query _ _ _ _ _ _ Htx Hq) as H.
  destruct (rc =? 0); cbn.
  - destruct H as (env & out & He & (?&?&?&?&?) & _ & Hr).
    pose proof (store_result_spec s) as Hs. destruct (mysql_store_result s) as [raw s']; cbn in Hr, Hs.
    intros Hq'. left. exists env, out. split; [done|].
    destruct raw as [raw|]; simplify_eq; (split; [|auto]).
    all: destruct Hs as (?&?&?); cbn in *; repeat split; cbn; congruence.
  - intros [= <- <-]. right. split; [done|]. rewrite reset_in_transaction; [done|]. apply H.
Qed.

(** ** The repositories inside the transaction *)
Lemma tx_escape c t0 t v name c' :
  tx c t0 t -> EscapeString config c v = (name, c') -> c' = c /\ name = escape v.
Proof.
  intros (Hc & _). unfold EscapeString, ensure_connected. rewrite Hc. cbn.
  rewrite escape_spec. by intros [= -> ->].
Qed.

Lemma tx_InsertBattlePlayerResult c t0 t r ok c' :
  tx c t0 t -> InsertBattlePlayerResult config true c r = (ok, c') ->
  if ok then results t !! (res_battle_id r, res_player_id r) = None
             /\ tx c' t0 (set_results t (<[(res_battle_id r, res_player_id r) := (res_result r, res_score_delta r)]>
                                          (results t)))
  else aborting c' t0.
Proof.
  intros Htx. unfold InsertBattlePlayerResult. cbn.
  destruct (EscapeString _ _ _) as [esc c1] eqn:He. destruct (tx_escape _ _ _ _ _ _ Htx He) as [-> ->].
  destruct (ExecuteAffected _ _ _) as [n c2] eqn:Hx. intros [= <- <-].
  apply (tx_ExecuteAffected (SInsertResult _ _ _ _) _ _ _ _ _ Htx) in Hx.
  destruct Hx as [(env & out & Hex & Ht & ->) | [-> Ha]]; [|done].
  cbn in Hex. case_match; [done|]. simplify_eq. by cbn in *.
Qed.

Lemma tx_InsertSettlementLog c t0 t l ok c' :
  tx c t0 t -> log_settlement_id l = 0 -> InsertSettlementLog config true c l = (ok, c') ->
  if ok then logs t !! (log_battle_id l, log_player_id l) = None
             /\ tx c' t0 (set_logs t (<[(log_battle_id l, log_player_id l) := log_score_delta l]> (logs t)))
  else aborting c' t0.
Proof.
  intros Htx Hid. unfold InsertSettlementLog. cbn. rewrite Hid.
  destruct (ExecuteAffected _ _ _) as [n c2] eqn:Hx. intros [= <- <-].
  apply (tx_ExecuteAffected (SInsertLog _ _ _) _ _ _ _ _ Htx) in Hx.
  destruct Hx as [(env & out & Hex & Ht & ->) | [-> Ha]]; [|done].
  cbn in Hex. case_match; [done|]. simplify_eq. by cbn in *.
Qed.

(** The row [award] gives a player. *)
Definition awarded (t : Tables) (p d : Z) : PlayerRow :=
  let won := if 0 <? d then 1 else 0 in
  let lost := if d <? 0 then 1 else 0 in
  match players t !! p with
  | Some row => mkPlayerRow (p_name row) (p_score row + d) (p_win row + won) (p_lose row + lost)
  | None => mkPlayerRow ("player_" +:+ to_string p) (1000 + d) won lost
  end.

Lemma tx_UpdatePlayerScore c t0 t p d ok c' :
  tx c t0 t -> is_i32 (1000 + d) -> UpdatePlayerScore config true c p d = (ok, c') ->
  if ok then tx c' t0 (set_players t (<[p := awarded t p d]> (players t)))
             /\ int_columns (awarded t p d) = true
  else aborting c' t0.
Proof.
  intros Htx Hd. unfold UpdatePlayerScore. cbn. rewrite wrap_i32_id by done. intros Hx.
  apply (tx_Execute (SUpdateScore _ _ _ _ _) _ _ _ _ _ Htx) in Hx.
  destruct ok; [|done]. destruct Hx as (env & out & Hex & Ht).
  unfold awarded. cbn in Hex. destruct (players t !! p) as [row|].
  - case_match eqn:Hint; [|done]. by simplify_eq.
  - simplify_eq. split; [done|]. unfold int_columns. cbn [p_score p_win p_lose].
    rewrite !bool_decide_eq_true_2; [done|..]; unfold is_i32, int32_min, int32_max in *; repeat case_match; lia.
Qed.

Lemma ints_award t r :
  int_columns (awarded t (res_player_id r) (res_score_delta r)) = true -> ints t -> ints (award t r).
Proof.
  intros Ha Ht p row. unfold award. cbn. rewrite lookup_insert_Some. intros [[_ <-]|[_ ?]]; [exact Ha|eauto].
Qed.

Definition delta_ok (b : Z) (r : BattlePlayerResult) : Prop :=
  res_battle_id r = b /\ (res_score_delta r = 20 \/ res_score_delta r = -10).

Lemma well_formed_delta battle ordered r :
  well_formed battle ordered -> r ∈ ordered -> delta_ok (b_battle_id battle) r.
Proof.
  intros (_ & _ & H) Hr. destruct (H r Hr) as (? & _ & Hd). split; [done|].
  destruct (_ =? _); tauto.
Qed.

Lemma tx_write_results battle ordered c t0 t ok c' :
  tx c t0 t -> (forall r, r ∈ ordered -> delta_ok (b_battle_id battle) r) ->
  write_results config c battle ordered = (ok, c') ->
  if ok then tx c' t0 (fold_left award ordered t) /\ (ints t -> ints (fold_left award ordered t))
  else aborting c' t0.
Proof.
  revert c t. induction ordered as [|r ordered IH]; intros c t Htx Hall; cbn [write_results].
  { by intros [= <- <-]. }
  destruct (Hall r) as [Hb Hd]; [left|].
  destruct (InsertBattlePlayerResult _ _ _ _) as [ok1 c1] eqn:H1.
  apply tx_InsertBattlePlayerResult with (1 := Htx) in H1.
  destruct ok1; cbn [negb]; [destruct H1 as [Hn1 H1] | by intros [= <- <-]].
  destruct (InsertSettlementLog _ _ _ _) as [ok2 c2] eqn:H2.
  apply tx_InsertSettlementLog with (1 := H1) in H2; [|done].
  destruct ok2; cbn [negb]; [destruct H2 as [Hn2 H2] | by intros [= <- <-]].
  destruct (UpdatePlayerScore _ _ _ _ _) as [ok3 c3] eqn:H3.
  apply tx_UpdatePlayerScore with (1 := H2) in H3; [|unfold is_i32, int32_min, int32_max; lia].
  destruct ok3; cbn [negb]; [|by intros [= <- <-]].
  destruct H3 as [H3 Hint]. cbn in H3. rewrite Hb in H3.
  intros Hw. apply (IH c3 (award t r)) in Hw; [|unfold award; rewrite Hb; exact H3|intros; apply Hall; by right].
  destruct ok; [|done]. destruct Hw as [Hw Hi]. split; [exact Hw|].
  intros Ht. by apply Hi, ints_award.
Qed.

Lemma battles_award ordered t : battles (fold_left award ordered t) = battles t.
Proof. revert t. induction ordered as [|r ordered IH]; intros t; [done|]. cbn. by rewrite IH. Qed.

(** ** Reading the rows back *)
Lemma at_player_id r : at_ (result_row r) "player_id" = Ok (to_string r.1).
Proof. done. Qed.
Lemma at_result r : at_ (result_row r) "result" = Ok r.2.1.
Proof. done. Qed.
Lemma at_score_delta r : at_ (result_row r) "score_delta" = Ok (to_string r.2.2).
Proof. done. Qed.

(** On well-typed rows the comparison is equality of the results. *)
Lemma same_results_spec saved ordered :
  (forall r, r ∈ saved -> is_i64 r.1 /\ is_i32 r.2.2) -> length saved = length ordered ->
  same_results (result_row <$> saved) ordered = Ok (bool_decide (saved = saved_result <$> ordered)).
Proof.
  revert ordered. induction saved as [|[p [res d]] saved IH]; intros [|o ordered] Htyp Hlen; try done.
  destruct (Htyp (p, (res, d))) as [Hp Hd]; [left|]. cbn in Hp, Hd.
  cbn [fmap list_fmap same_results]. rewrite at_player_id, at_result, at_score_delta.
  cbn -[stoll stoi to_string]. rewrite stoll_to_string by done. cbn -[stoll stoi to_string].
  destruct (Z.eqb_spec p (res_player_id o)) as [->|]; cbn -[stoll stoi to_string].
  2: { rewrite bool_decide_eq_false_2; [done|]. unfold saved_result. intros ?. by simplify_eq. }
  case_bool_decide as Hres; cbn -[stoll stoi to_string].
  2: { rewrite bool_decide_eq_false_2; [done|]. unfold saved_result. intros ?. by simplify_eq. }
  rewrite stoi_to_string by done. cbn -[stoll stoi to_string].
  destruct (Z.eqb_spec d (res_score_delta o)) as [->|]; cbn -[stoll stoi to_string].
  2: { rewrite bool_decide_eq_false_2; [done|]. unfold saved_result. intros ?. by simplify_eq. }
  rewrite IH; [|intros r Hr; apply Htyp; by right|by simplify_eq/=].
  subst. f_equal. apply bool_decide_ext. unfold saved_result at 2.
  split; [by intros -> | intros ?; by simplify_eq].
Qed.
Lemma elem_of_results_of t b x : x ∈ results_of t b <-> results t !! (b, x.1) = Some x.2.
Proof.
  unfold results_of. rewrite merge_sort_Permutation, list_elem_of_omap.
  setoid_rewrite elem_of_map_to_list'. split.
  - intros ([[b' p] v] & Hl & Hx). case_decide; simplify_eq/=. done.
  - intros Hl. exists ((b, x.1), x.2). split; [done|]. rewrite decide_True by done. by destruct x.
Qed.

Lemma settle_already_spec battle ordered c t0 row c' saved :
  tx c t0 t0 -> tables_typed t0 ->
  Query config c (sql_select_results (b_battle_id battle)) = (saved, c') ->
  battles t0 !! b_battle_id battle = Some row -> bt_room row = b_room_id battle ->
  bt_settled row = true -> bt_winner row = b_winner_id battle ->
  (0 < length ordered)%nat ->
  length saved = length ordered ->
  exists b, same_results saved ordered = Ok b
    /\ if b then already battle ordered t0 /\ tx c' t0 t0 else aborting c' t0.
Proof.
  intros Htx (_ & Hty & _) Hq Hrow Hroom Hset Hwin Hpos Hlen.
  apply (tx_Query (SSelectResults _) _ _ _ _ _ Htx) in Hq.
  destruct Hq as [(env & out & Hex & Ht & [-> | ->]) | [-> _]]; [cbn in Hlen; lia| |cbn in Hlen; lia].
  cbn in Hex. simplify_eq. cbn in Hlen, Ht |- *. rewrite length_fmap in Hlen.
  rewrite same_results_spec; [|intros [p v] Hr%elem_of_results_of; by eapply Hty|done].
  eexists; split; [done|]. case_bool_decide; [|by eauto with game].
  split; [|done]. exists row. done.
Qed.

Definition settled_or_already battle ordered t0 (t : Tables) : Prop :=
  (already battle ordered t0 /\ t = t0)
  \/ (unsettled battle t0 /\ (ints t0 -> ints t) /\ exists now, t = settled now battle ordered t0).

Lemma settle_fresh_spec battle ordered c t0 row n c' ok c1 :
  tx c t0 t0 -> well_formed battle ordered ->
  battles t0 !! b_battle_id battle = Some row -> bt_room row = b_room_id battle -> bt_settled row = false ->
  write_results config c battle ordered = (ok, c1) ->
  ExecuteAffected config c1 (sql_settle_battle (b_winner_id battle) (b_battle_id battle)) = (n, c') ->
  if ok then
    if n =? 1
    then exists now, tx c' t0 (settled now battle ordered t0) /\ (ints t0 -> ints (settled now battle ordered t0))
    else aborting c' t0
  else aborting c1 t0.
Proof.
  intros Htx Hwf Hrow Hroom Hset Hw Hx.
  apply tx_write_results with (1 := Htx) in Hw; [|eauto using well_formed_delta].
  destruct ok; [|done]. destruct Hw as [Hw Hint].
  apply (tx_ExecuteAffected (SSettleBattle _ _) _ _ _ _ _ Hw) in Hx.
  destruct Hx as [(env & out & Hex & Ht & ->) | [-> Ha]]; [|done].
  cbn in Hex. rewrite battles_award, Hrow in Hex. simplify_eq. cbn in Ht |- *.
  rewrite decide_False by (intros E; rewrite <- E in Hset; done). cbn.
  exists (env_now env). split; [|exact Hint]. unfold settled. by rewrite battles_award, <- Hroom.
Qed.

Ltac not_settled := exists false; split; [done | cbn; eauto using tx_aborting].

(** The body of the transaction, from the tables it starts on. *)
Lemma settle_transaction_spec battle ordered c t0 r c' :
  tx c t0 t0 -> tables_typed t0 -> well_formed battle ordered -> (0 < length ordered)%nat ->
  is_i64 (b_room_id battle) -> is_i64 (b_winner_id battle) ->
  settle_transaction config battle ordered c = (r, c') ->
  exists b, r = Ok b
    /\ if b then exists t, tx c' t0 t /\ settled_or_already battle ordered t0 t else aborting c' t0.
Proof.
  intros Htx Hty Hwf Hpos Hroom_t Hwin_t. unfold settle_transaction.
  destruct (Query _ _ _) as [rows c1] eqn:Hq.
  apply (tx_Query (SSelectBattle _) _ _ _ _ _ Htx) in Hq.
  destruct Hq as [(env & out & Hex & Ht & [-> | ->]) | [-> Ha]];
    [intros [= <- <-]; not_settled| |intros [= <- <-]; not_settled].
  cbn in Hex. simplify_eq. cbn in Ht. cbn [out_rows].
  destruct (battles t0 !! b_battle_id battle) as [row|] eqn:Hrow; [|intros [= <- <-]; not_settled].
  destruct (proj1 Hty _ _ Hrow) as [Hr64 Hw64].
  change (at_ (battle_row row) "room_id") with (Ok (to_string (bt_room row)) : result string).
  change (at_ (battle_row row) "settled") with (Ok (if bt_settled row then "1" else "0") : result string).
  change (at_ (battle_row row) "winner_id") with (Ok (to_string (bt_winner row)) : result string).
  cbn [mbind result_bind]. rewrite stoll_to_string by done.
  destruct (Z.eqb_spec (bt_room row) (b_room_id battle)) as [Hroom|]; cbn [negb];
    [|intros [= <- <-]; not_settled].
  destruct (bt_settled row) eqn:Hset; cbn.
  - rewrite stoll_to_string by done.
    destruct (Z.eqb_spec (bt_winner row) (b_winner_id battle)) as [Hwin|]; cbn [negb];
      [|intros [= <- <-]; not_settled].
    destruct (Query _ _ _) as [saved c2] eqn:Hq2.
    destruct (Nat.eqb_spec (length saved) (length ordered)) as [Hlen|]; cbn [negb].
    + intros [= <- <-].
      destruct (settle_already_spec _ ordered _ _ _ _ _ Ht Hty Hq2 Hrow Hroom Hset Hwin) as (b & -> & Hb); [lia|done|].
      exists b. split; [done|]. destruct b; [|done]. exists t0. unfold settled_or_already. tauto.
    + intros [= <- <-]. exists false. split; [done|].
      apply (tx_Query (SSelectResults _) _ _ _ _ _ Ht) in Hq2.
      destruct Hq2 as [(env2 & out2 & Hex2 & Ht2 & _) | [_ Ha]]; [|done].
      cbn in Hex2. simplify_eq. eapply tx_aborting, Ht2.
  - destruct (write_results _ _ _ _) as [ok c2] eqn:Hw.
    destruct (ExecuteAffected config c2 _) as [n c3] eqn:Hx.
    pose proof (settle_fresh_spec _ _ _ _ _ _ _ _ _ Ht Hwf Hrow Hroom Hset Hw Hx) as H.
    destruct ok; cbn [negb]; intros [= <- <-].
    + exists (n =? 1). split; [done|]. destruct (n =? 1); [|done].
      destruct H as (now & H & Hint). eexists. split; [exact H|]. right. split; [by exists row|eauto].
    + by exists false.
Qed.

(** ** The transaction *)
Lemma Disconnect_spec c :
  conn_up (Disconnect c) = false /\ in_transaction_ (Disconnect c) = in_transaction_ c
  /\ committed (srv (Disconnect c)) = committed (srv c).
Proof.
  unfold Disconnect. destruct (conn_up c) eqn:H; cbn; [|done].
  repeat split. apply close_spec.
Qed.

Lemma ensure_connected_spec c ok c' :
  idle c -> ensure_connected config c = (ok, c') ->
  idle c' /\ committed (srv c') = committed (srv c) /\ conn_up c' = ok.
Proof.
  intros [Hi Hc]. unfold ensure_connected. destruct (conn_up c) eqn:Hup; [intros [= <- <-]; unfold idle; rewrite Hup; auto|].
  unfold Connect. rewrite Hi. cbv zeta.
  assert (Disconnect c = c) as -> by (unfold Disconnect; by rewrite Hup).
  pose proof (init_spec (srv c)) as H1. destruct (mysql_init (srv c)) as [[] s]; cbn in H1 |- *.
  2: { intros [= <- <-]. unfold idle; cbn; split_and!; try done; congruence. }
  destruct (connect_spec config s) as [H2 H3].
  destruct (mysql_real_connect config s) as [[] s']; cbn in H2, H3 |- *; intros [= <- <-]; cbn.
  - repeat split; cbn; [done|auto|congruence].
  - repeat split; cbn; [done|done|]. rewrite close_spec. congruence.
Qed.

(** [RunTransaction] turns what its operation does to the view of the
    transaction into what happens to the committed tables. *)
Lemma RunTransaction_spec (P : Tables -> Prop) (op : Client -> result bool * Client) c r c' :
  idle c ->
  (forall c1 r1 c2, tx c1 (committed (srv c)) (committed (srv c)) -> op c1 = (r1, c2) ->
     exists b, r1 = Ok b
       /\ if b then exists t, tx c2 (committed (srv c)) t /\ P t else aborting c2 (committed (srv c))) ->
  RunTransaction config c op = (r, c') ->
  idle c'
  /\ exists b, r = Ok b
     /\ if b then P (committed (srv c'))
        else committed (srv c') = committed (srv c) \/ P (committed (srv c')).
Proof.
  intros Hidle Hop. unfold RunTransaction. rewrite (proj1 Hidle).
  destruct (ensure_connected config c) as [ok c1] eqn:He.
  destruct (ensure_connected_spec _ _ _ Hidle He) as (Hidle1 & Hco1 & Hup1).
  destruct ok; cbn [negb]; [|intros [= <- <-]; split; [done|]; exists false; auto].
  pose proof (begin_spec (srv c1) (proj2 Hidle1 Hup1)) as Hb.
  destruct (mysql_query "START TRANSACTION" (srv c1)) as [rc s]. destruct Hb as [Hs Hb].
  destruct (Z.eqb_spec rc 0) as [->|Hrc]; cbn [negb].
  2: { intros [= <- <-]. destruct (Disconnect_spec (with_srv c1 s)) as (Hd1 & Hd2 & Hd3).
       split; [split; [rewrite Hd2; apply Hidle1|rewrite Hd1; done]|].
       exists false. split; [done|]. left. rewrite Hd3. cbn. congruence. }
  destruct (Hb eq_refl) as [Htx Hv].
  destruct (op _) as [r1 c2] eqn:Hopr.
  apply Hop in Hopr as (b & -> & Hc2); [|repeat split; cbn; congruence].
  destruct b.
  - destruct Hc2 as (t & (Hup & Hin & Htx2 & Hco & Hvw) & HP). rewrite Hup. cbn [negb].
    pose proof (commit_spec (srv c2) Htx2) as Hcm.
    destruct (mysql_commit (srv c2)) as [rc s2]. destruct (Z.eqb_spec rc 0) as [->|Hrc]; cbn [negb].
    + intros [= <- <-]. destruct Hcm as [Hcm1 Hcm2]. split; [split; cbn; auto|].
      exists true. split; [done|]. cbn. congruence.
    + intros [= <- <-]. destruct (Disconnect_spec (with_srv c2 s2)) as (Hd1 & Hd2 & Hd3).
      split; [split; [done|cbn; by rewrite Hd1]|].
      exists false. split; [done|]. cbn. rewrite Hd3. cbn. destruct Hcm; [left|right]; congruence.
  - destruct Hc2 as (Hup & Hin & Hco). rewrite Hup. cbn [negb].
    pose proof (rollback_spec (srv c2)) as Hrb.
    destruct (mysql_rollback (srv c2)) as [rc s2]. destruct Hrb as [Hrb1 Hrb2].
    intros [= <- <-]. split; [|exists false; split; [done|]; left].
    + split; [done|]. cbn. destruct (Z.eqb_spec rc 0) as [->|]; cbn; [by auto|].
      by rewrite (proj1 (Disconnect_spec _)).
    + cbn. destruct (Z.eqb_spec rc 0); cbn; [congruence|].
      rewrite (proj2 (proj2 (Disconnect_spec _))). cbn. congruence.
Qed.
(** ** The settlement *)

(** The ids are [int64_t]. *)
Definition typed_request (battle : Battle) (results : list BattlePlayerResult) : Prop :=
  is_i64 (b_room_id battle) /\ is_i64 (b_winner_id battle)
  /\ (forall r, r ∈ results -> is_i64 (res_player_id r)).

Lemma typed_request_sort battle results :
  typed_request battle results -> typed_request battle (sort_results results).
Proof.
  unfold typed_request, sort_results. intros (?&?&H). split_and!; [done..|].
  intros r. rewrite merge_sort_Permutation. apply H.
Qed.

Lemma ApplySettlement_spec battle results c r c' :
  idle c -> tables_typed (committed (srv c)) -> typed_request battle results ->
  ApplySettlement config true c battle results = (r, c') ->
  idle c' /\ exists b, r = Ok b
  /\ ((b = false /\ committed (srv c') = committed (srv c))
      \/ (well_formed battle (sort_results results)
          /\ settled_or_already battle (sort_results results) (committed (srv c)) (committed (srv c')))).
Proof.
  intros Hidle Hty (Hroom & Hwin & Hps). unfold ApplySettlement.
  case_match eqn:Hg; [intros [= <- <-]; split; [done|]; exists false; auto|]. bools.
  destruct (check_results _ _ _ _) as [m|] eqn:Hck; [|intros [= <- <-]; split; [done|]; exists false; auto].
  destruct (Z.eqb_spec m 1) as [Hm|]; cbn [negb]; [|intros [= <- <-]; split; [done|]; exists false; auto].
  pose proof (check_results_well_formed _ _ _ Hck Hm) as Hwf.
  intros Hrun.
  eapply (RunTransaction_spec (settled_or_already battle (sort_results results) (committed (srv c)))) in Hrun;
    [|done|].
  - destruct Hrun as (Hid & b & -> & Hb). split; [done|]. exists b. split; [done|].
    destruct b; [by right|]. destruct Hb; [by left|by right].
  - intros c1 r1 c2 Htx Hop. eapply settle_transaction_spec in Hop; try done.
    unfold sort_results. rewrite merge_sort_Permutation. lia.
Qed.

(** ** Statements outside a transaction *)
Lemma idle_query st c rc s :
  idle c -> conn_up c = true -> mysql_query (sql_text escape st) (srv c) = (rc, s) ->
  idle (with_srv c s)
  /\ (committed s = committed (srv c)
      \/ exists env out, 0 < env_auto env <= int64_max
           /\ exec env st (committed (srv c)) = Some out /\ committed s = out_tables out).
Proof.
  intros [Hi Hc] Hup Hq. specialize (Hc Hup). destruct (decide (rc = 0)) as [->|Hrc].
  - destruct (stmt_ok _ _ _ Hq) as (env & out & Henv & He & Hv & Ht & _).
    rewrite Hc in Ht. rewrite (autocommit _ Hc) in He. rewrite (autocommit _ Ht) in Hv.
    split; [by split|]. right. eauto 10.
  - destruct (stmt_fail _ _ _ _ Hq Hrc) as [_ Hf]. destruct (Hf Hc) as [Ht Hco].
    split; [by split|done].
Qed.

(** [c'] is idle and at most one statement [st] of autocommit was executed. *)
Definition at_most_once (st : Stmt) c c' : Prop :=
  idle c' /\ (committed (srv c') = committed (srv c)
    \/ exists env out, 0 < env_auto env <= int64_max
         /\ exec env st (committed (srv c)) = Some out /\ committed (srv c') = out_tables out).

Lemma ResetOnConnectionError_spec c :
  idle c -> idle (ResetOnConnectionError c)
            /\ committed (srv (ResetOnConnectionError c)) = committed (srv c).
Proof.
  intros Hi. unfold ResetOnConnectionError. case_match; [done|].
  case_match; [|done]. destruct (Disconnect_spec c) as (H1 & H2 & H3).
  split; [|done]. split; [rewrite H2; apply Hi|by rewrite H1].
Qed.

Lemma at_most_once_srv st c c1 s :
  at_most_once st c c1 -> committed s = committed (srv c1) -> in_tx s = in_tx (srv c1) ->
  at_most_once st c (with_srv c1 s).
Proof.
  intros [[Hi Hc] H] Hs Ht. split; [split; [done|cbn; rewrite Ht; auto]|]. cbn. rewrite Hs. exact H.
Qed.

Lemma idle_statement st c c1 rc s :
  idle c -> ensure_connected config c = (true, c1) -> mysql_query (sql_text escape st) (srv c1) = (rc, s) ->
  at_most_once st c (with_srv c1 s) /\ at_most_once st c (ResetOnConnectionError (with_srv c1 s)).
Proof.
  intros Hi He Hq. destruct (ensure_connected_spec _ _ _ Hi He) as (Hi1 & Hco & Hup).
  destruct (idle_query _ _ _ _ Hi1 Hup Hq) as [Hi2 H]. rewrite Hco in H.
  destruct (ResetOnConnectionError_spec _ Hi2) as [Hi3 Hco3]. unfold at_most_once. rewrite Hco3. auto.
Qed.

Lemma idle_Execute st c ok c' :
  idle c -> Execute config c (sql_text escape st) = (ok, c') -> at_most_once st c c'.
Proof.
  intros Hi. unfold Execute. destruct (ensure_connected _ _) as [up c1] eqn:He.
  destruct up; cbn [negb].
  - destruct (mysql_query _ _) as [rc s] eqn:Hq. destruct (idle_statement _ _ _ _ _ Hi He Hq) as [H1 H2].
    case_match; intros [= <- <-]; [done|].
    destruct (drain_results_spec (S (mysql_result_count s)) s) as (?&?&?). by apply at_most_once_srv.
  - destruct (ensure_connected_spec _ _ _ Hi He) as (?&?&?). intros [= <- <-]. split; auto.
Qed.

Lemma idle_ExecuteAffected st c n c' :
  idle c -> ExecuteAffected config c (sql_text escape st) = (n, c') -> at_most_once st c c'.
Proof.
  intros Hi. unfold ExecuteAffected. destruct (ensure_connected _ _) as [up c1] eqn:He.
  destruct up; cbn [negb].
  - destruct (mysql_query _ _) as [rc s] eqn:Hq. destruct (idle_statement _ _ _ _ _ Hi He Hq) as [H1 H2].
    by case_match; intros [= <- <-].
  - destruct (ensure_connected_spec _ _ _ Hi He) as (?&?&?). intros [= <- <-]. split; auto.
Qed.

Lemma idle_Query st c rows c' :
  idle c -> Query config c (sql_text escape st) = (rows, c') -> at_most_once st c c'.
Proof.
  intros Hi. unfold Query. destruct (ensure_connected _ _) as [up c1] eqn:He.
  destruct up; cbn [negb].
  - destruct (mysql_query _ _) as [rc s] eqn:Hq. destruct (idle_statement _ _ _ _ _ Hi He Hq) as [H1 H2].
    case_match; [by intros [= <- <-]|].
    pose proof (store_result_spec s) as Hs. change (srv (with_srv c1 s)) with s.
    destruct (mysql_store_result s) as [raw s']. cbn in Hs. destruct Hs as (?&?&?).
    destruct raw; intros [= <- <-]; cbn; by apply (at_most_once_srv _ _ (with_srv c1 s)).
  - destruct (ensure_connected_spec _ _ _ Hi He) as (?&?&?). intros [= <- <-]. split; auto.
Qed.

(** A [SELECT] outside a transaction changes nothing and its rows, when there
    are any, are the committed ones. *)
Lemma idle_select st c rows c' :
  idle c -> is_select st = true -> Query config c (sql_text escape st) = (rows, c') ->
  idle c' /\ committed (srv c') = committed (srv c)
  /\ (rows = [] \/ exists env out, exec env st (committed (srv c)) = Some out /\ rows = out_rows out).
Proof.
  intros Hi Hsel Hq. pose proof (idle_Query st c rows c' Hi Hq) as [Hi' Hco]. split; [done|].
  assert (Hsame : committed (srv c') = committed (srv c)).
  { destruct Hco as [? | (env & out & _ & He & ->)]; [done|]. by destruct st; simplify_eq/=. }
  split; [done|]. clear Hco. revert Hq. unfold Query.
  destruct (ensure_connected _ _) as [up c1] eqn:He.
  destruct (ensure_connected_spec _ _ _ Hi He) as ([_ Hc1] & Hco & Hup).
  destruct up; cbn [negb]; [|intros [= <- <-]; auto]. specialize (Hc1 Hup).
  destruct (mysql_query _ _) as [rc s] eqn:Hq. destruct (Z.eqb_spec rc 0) as [->|]; cbn [negb];
    [|intros [= <- <-]; auto].
  destruct (stmt_ok _ _ _ Hq) as (env & out & _ & Hex & _ & _ & _ & _ & _ & Hr).
  change (srv (with_srv c1 s)) with s. destruct (mysql_store_result s) as [[raw|] s']; [|intros [= <- <-]; auto].
  intros [= <- <-]. right. exists env, out. rewrite (Hr raw) by done. split; [|done].
  by rewrite <- Hco, <- (autocommit _ Hc1).
Qed.

Lemma FindPlayer_spec c p found c' :
  idle c -> tables_typed (committed (srv c)) -> is_i64 p ->
  FindPlayer config true c p = (found, c') ->
  idle c' /\ committed (srv c') = committed (srv c)
  /\ (found = Ok None
      \/ exists row, players (committed (srv c)) !! p = Some row
          /\ found = Ok (Some (mkPlayerData p (p_name row) (p_score row) (p_win row) (p_lose row)))).
Proof.
  intros Hi (_ & _ & Hints & _) Hp. unfold FindPlayer. cbn [negb].
  destruct (Query _ _ _) as [rows c1] eqn:Hq.
  destruct (idle_select (SFindPlayer p) _ _ _ Hi eq_refl Hq) as (Hi1 & Hco & Hr).
  destruct Hr as [-> | (env & out & Hex & ->)]; [intros [= <- <-]; auto|].
  cbn in Hex. simplify_eq. cbn [out_rows].
  destruct (players _ !! p) as [row|] eqn:Hrow; intros [= <- <-]; (split; [done|]); (split; [done|]); [|auto].
  right. exists row. split; [done|]. specialize (Hints _ _ Hrow). unfold int_columns in Hints. bools.
  unfold read_player.
  change (at_ (player_row p row) "player_id") with (Ok (to_string p) : result string).
  change (at_ (player_row p row) "name") with (Ok (p_name row) : result string).
  change (at_ (player_row p row) "score") with (Ok (to_string (p_score row)) : result string).
  change (at_ (player_row p row) "win_count") with (Ok (to_string (p_win row)) : result string).
  change (at_ (player_row p row) "lose_count") with (Ok (to_string (p_lose row)) : result string).
  cbn [mbind result_bind]. rewrite stoll_to_string, !stoi_to_string by done. done.
Qed.
End transaction.
#[export] Hint Resolve tx_aborting : game.
