(* ===== verification/Ledger.v ===== *)
(** * Ledger: the books the server keeps in MySQL

    [ledger] relates the four tables: every score is 1000 plus the logged
    deltas, a battle's log names each player once, with one winner at +20 and
    the others at -10.  Every operation of the repositories keeps it over any
    server of [MysqlLaws], failures included. *)
From S2P Require Import Prelude StdString Config Mysql Repositories SqlModel BattleStore.
Local Open Scope string_scope.
Local Open Scope Z_scope.

(** ** Sums over the settlement log *)
Definition tally (f : Z -> Z) (l : gmap (Z * Z) Z) (p : Z) : Z :=
  map_fold (fun (k : Z * Z) d acc => if decide (k.2 = p) then f d + acc else acc) 0 l.

Definition is_win (d : Z) : Z := if 0 <? d then 1 else 0.
Definition is_loss (d : Z) : Z := if d <? 0 then 1 else 0.

Lemma tally_insert (f : Z -> Z) (l : gmap (Z * Z) Z) b p d q :
  l !! (b, p) = None ->
  tally f (<[(b, p) := d]> l) q = (if decide (p = q) then f d else 0) + tally f l q.
Proof.
  intros Hn. unfold tally. rewrite map_fold_insert_L; [|intros|done].
  - cbn. case_decide; lia.
  - repeat case_decide; lia.
Qed.

Lemma tally_none (f : Z -> Z) (l : gmap (Z * Z) Z) p : (forall b, l !! (b, p) = None) -> tally f l p = 0.
Proof.
  unfold tally. induction l as [|[b q] d l Hn Hf IH] using map_first_key_ind; intros H.
  { by rewrite map_fold_empty. }
  rewrite map_fold_insert_L; [|intros; repeat case_decide; lia|done].
  cbn. rewrite decide_False.
  - apply IH. intros b'. specialize (H b'). by apply lookup_insert_None in H as [].
  - intros ->. specialize (H b). rewrite lookup_insert_eq in H. done.
Qed.

(** ** The invariant *)
Definition books (t : Tables) : Prop :=
  (forall p row, players t !! p = Some row ->
     p_score row = 1000 + tally id (logs t) p
     /\ p_win row = tally is_win (logs t) p
     /\ p_lose row = tally is_loss (logs t) p)
  /\ (forall p, players t !! p = None -> forall b, logs t !! (b, p) = None)
  /\ (forall k d, logs t !! k = Some d <-> exists res, results t !! k = Some (res, d)).

(** A settled battle has one winner, every other player of its log lost; an
    unsettled battle has no log. *)
Definition battle_logs (t : Tables) : Prop :=
  (forall b p d, logs t !! (b, p) = Some d ->
     exists row, battles t !! b = Some row /\ bt_settled row = true
       /\ d = if p =? bt_winner row then 20 else -10)
  /\ (forall b row, battles t !! b = Some row -> bt_settled row = true ->
       logs t !! (b, bt_winner row) = Some 20).

Definition ledger (t : Tables) : Prop := tables_typed t /\ books t /\ battle_logs t.

Lemma books_award t r :
  books t -> logs t !! (res_battle_id r, res_player_id r) = None -> books (award t r).
Proof.
  intros (Hs & Hm & Hr) Hfresh. destruct r as [b p res d]. cbn in Hfresh. unfold award. cbn.
  split_and!; cbn.
  - intros q row. rewrite !tally_insert by done.
    rewrite lookup_insert_Some. intros [[<- <-]|[Hne Hq]].
    + rewrite !decide_True by done. fold (is_win d) (is_loss d).
      destruct (players t !! p) as [row|] eqn:Hp; cbn.
      * destruct (Hs _ _ Hp) as (-> & -> & ->). unfold id. lia.
      * rewrite !tally_none by eauto. unfold id. lia.
    + rewrite !decide_False by done. destruct (Hs _ _ Hq) as (-> & -> & ->). lia.
  - intros q. rewrite lookup_insert_None. intros [Hq Hne] b'.
    rewrite lookup_insert_ne by congruence. eauto.
  - intros k d'. destruct (decide (k = (b, p))) as [->|].
    + rewrite !lookup_insert_eq. naive_solver.
    + rewrite !lookup_insert_ne by done. apply Hr.
Qed.

Lemma logs_award t r :
  logs (award t r) = <[(res_battle_id r, res_player_id r) := res_score_delta r]> (logs t).
Proof. done. Qed.

(** What a whole settlement leaves in the log. *)
Lemma logs_fold ordered b t k :
  NoDup (res_player_id <$> ordered) -> (forall r, r ∈ ordered -> res_battle_id r = b) ->
  (forall d, logs (fold_left award ordered t) !! k = Some d ->
     logs t !! k = Some d
     \/ exists r, r ∈ ordered /\ k = (b, res_player_id r) /\ d = res_score_delta r)
  /\ (forall r, r ∈ ordered -> k = (b, res_player_id r) ->
      logs (fold_left award ordered t) !! k = Some (res_score_delta r))
  /\ ((forall r, r ∈ ordered -> k <> (b, res_player_id r)) ->
      logs (fold_left award ordered t) !! k = logs t !! k).
Proof.
  revert t. induction ordered as [|r ordered IH]; intros t Hnd Hb; cbn [fold_left].
  { split_and!; [auto|intros r Hr; by apply elem_of_nil in Hr|done]. }
  inversion Hnd as [|x xs Hnin Hnd']; subst. assert (Hbr : res_battle_id r = b) by (apply Hb; left).
  destruct (IH (award t r) Hnd') as (H1 & H2 & H3); [intros; apply Hb; by right|].
  rewrite logs_award, Hbr in H3. setoid_rewrite logs_award in H1. rewrite Hbr in H1. split_and!.
  - intros d [Hl | (r' & ? & ?)]%H1; [|right; exists r'; split; [by right|done]].
    apply lookup_insert_Some in Hl as [[<- <-]|[_ ?]]; [|by left].
    right. exists r. split; [left|done].
  - intros r' [->|Hr']%elem_of_cons ->; [|by apply H2].
    rewrite H3; [by rewrite lookup_insert_eq|].
    intros r'' Hr'' [= E]. apply Hnin. rewrite E. apply list_elem_of_fmap. eauto.
  - intros Hk. rewrite H3; [|intros; apply Hk; by right].
    rewrite lookup_insert_ne; [done|]. intros <-. eapply Hk; [left|done].
Qed.

Lemma books_fold ordered b t :
  NoDup (res_player_id <$> ordered) -> (forall r, r ∈ ordered -> res_battle_id r = b) ->
  books t -> (forall r, r ∈ ordered -> logs t !! (b, res_player_id r) = None) ->
  books (fold_left award ordered t).
Proof.
  revert t. induction ordered as [|r ordered IH]; intros t Hnd Hb Hbooks Hf; cbn [fold_left]; [done|].
  inversion Hnd as [|x xs Hnin Hnd']; subst. assert (Hbr : res_battle_id r = b) by (apply Hb; left).
  apply IH; [done|intros; apply Hb; by right| |].
  - apply books_award; [done|]. rewrite Hbr. apply Hf. left.
  - intros r' Hr'. unfold award. cbn. rewrite Hbr, lookup_insert_ne; [apply Hf; by right|].
    intros [= E]. apply Hnin. rewrite E. apply list_elem_of_fmap. eauto.
Qed.

Lemma results_fold ordered t k v :
  results (fold_left award ordered t) !! k = Some v ->
  results t !! k = Some v
  \/ exists r, r ∈ ordered /\ k = (res_battle_id r, res_player_id r)
       /\ v = (res_result r, res_score_delta r).
Proof.
  revert t. induction ordered as [|r ordered IH]; intros t; cbn [fold_left]; [auto|].
  intros [Hl|(r' & ? & ?)]%IH; [|right; exists r'; split; [by right|done]].
  unfold award in Hl; cbn [results] in Hl. apply lookup_insert_Some in Hl as [[<- <-]|[_ ?]]; [|by left].
  right. exists r. split; [left|done].
Qed.

Lemma well_formed_NoDup battle ordered :
  well_formed battle ordered -> NoDup (res_player_id <$> ordered).
Proof.
  intros [Hs _]. induction Hs as [|x l Hs IH Hall]; constructor; [|done].
  intros Hin. rewrite Forall_forall in Hall. specialize (Hall _ Hin). lia.
Qed.

Lemma no_logs_unsettled battle t p :
  battle_logs t -> unsettled battle t -> logs t !! (b_battle_id battle, p) = None.
Proof.
  intros [Hl _] (row & Hrow & _ & Hset). destruct (logs t !! _) as [d|] eqn:E; [|done].
  destruct (Hl _ _ _ E) as (row' & ? & ? & _). congruence.
Qed.

Lemma players_fold ordered t p row :
  players (fold_left award ordered t) !! p = Some row ->
  (exists row', players t !! p = Some row') \/ exists r, r ∈ ordered /\ p = res_player_id r.
Proof.
  revert t. induction ordered as [|r ordered IH]; intros t; cbn [fold_left]; [eauto|].
  intros [[row' Hl]|(r' & ? & ?)]%IH; [|right; exists r'; split; [by right|done]].
  unfold award in Hl. cbn in Hl. apply lookup_insert_Some in Hl as [[<- _]|[_ ?]]; [|by eauto].
  right. exists r. split; [left|done].
Qed.

Lemma typed_settled now battle ordered t :
  tables_typed t -> well_formed battle ordered -> typed_request battle ordered ->
  (ints t -> ints (settled now battle ordered t)) ->
  tables_typed (settled now battle ordered t).
Proof.
  intros (Hb & Hr & Hi & Hp) Hwf (Hroom & Hwin & Hps) Hint. split_and!; [..|by apply Hint|].
  - intros b row. cbn. rewrite battles_award, lookup_insert_Some.
    intros [[_ <-]|[_ ?]]; [done|by eapply Hb].
  - intros b p v [Hv|(r & Hin & [= -> ->] & ->)]%results_fold; [by eapply Hr|].
    split; [by apply Hps|]. cbn.
    destruct (well_formed_delta _ _ _ Hwf Hin) as [_ [-> | ->]];
      unfold is_i32, int32_min, int32_max; lia.
  - intros p row [[row' Hold] | (r & Hin & ->)]%players_fold; [by eapply Hp|by apply Hps].
Qed.

Lemma battle_logs_settled now battle ordered t :
  battle_logs t -> well_formed battle ordered -> unsettled battle t ->
  battle_logs (settled now battle ordered t).
Proof.
  intros Hbl Hwf Hun. pose proof (well_formed_NoDup _ _ Hwf) as Hnd.
  destruct Hwf as (_ & (rw & Hrw & Hin)%list_elem_of_fmap & Hall).
  assert (Hb : forall r, r ∈ ordered -> res_battle_id r = b_battle_id battle) by (intros; by apply Hall).
  split.
  - intros b p d Hd. cbn in Hd |- *. rewrite battles_award.
    destruct (logs_fold ordered _ t (b, p) Hnd Hb) as (H1 & _).
    destruct (H1 _ Hd) as [Hold | (r & Hr & [= -> ->] & ->)].
    + destruct (proj1 Hbl _ _ _ Hold) as (row & Hrow & Hset & Hdd).
      exists row. split; [|done]. rewrite lookup_insert_ne; [done|].
      intros <-. rewrite (no_logs_unsettled _ _ _ Hbl Hun) in Hold. done.
    + eexists. rewrite lookup_insert_eq. split_and!; [done..|]. cbn.
      destruct (Hall _ Hr) as (_ & _ & Hd'). destruct (_ =? _); tauto.
  - intros b row. cbn. rewrite battles_award, lookup_insert_Some. intros [[<- <-]|[Hne Hrow]] Hset.
    + cbn. destruct (logs_fold ordered _ t (b_battle_id battle, b_winner_id battle) Hnd Hb) as (_ & H2 & _).
      rewrite (H2 rw); [|done|congruence]. destruct (Hall _ Hin) as (_ & _ & Hd').
      rewrite (proj2 (Z.eqb_eq _ _)) in Hd' by done. f_equal. tauto.
    + destruct (logs_fold ordered _ t (b, bt_winner row) Hnd Hb) as (_ & _ & H3).
      rewrite H3; [by eapply (proj2 Hbl)|]. intros r Hr [= E]. congruence.
Qed.

Lemma ledger_settled now battle ordered t :
  ledger t -> well_formed battle ordered -> typed_request battle ordered -> unsettled battle t ->
  (ints t -> ints (settled now battle ordered t)) ->
  ledger (settled now battle ordered t).
Proof.
  intros (Hty & Hbooks & Hbl) Hwf Hreq Hun Hint. split_and!; [by apply typed_settled| |by apply battle_logs_settled].
  assert (Hb : forall r, r ∈ ordered -> res_battle_id r = b_battle_id battle) by (intros; by apply Hwf).
  apply (books_fold ordered (b_battle_id battle)); [by eapply well_formed_NoDup|done|done|].
  intros r _. by apply no_logs_unsettled.
Qed.

(** ** A settlement leaves what its retry looks for *)
Lemma results_award t r :
  results (award t r) = <[(res_battle_id r, res_player_id r) := (res_result r, res_score_delta r)]> (results t).
Proof. done. Qed.

Lemma results_fold_in ordered t r :
  NoDup (res_player_id <$> ordered) -> r ∈ ordered ->
  results (fold_left award ordered t) !! (res_battle_id r, res_player_id r)
  = Some (res_result r, res_score_delta r).
Proof.
  revert t. induction ordered as [|r' ordered IH]; intros t Hnd Hr; [by apply elem_of_nil in Hr|].
  inversion Hnd as [|x xs Hnin Hnd']; subst. cbn [fold_left].
  apply elem_of_cons in Hr as [-> | ?]; [|by apply IH].
  enough (Hold : forall t', (forall r, r ∈ ordered -> res_player_id r <> res_player_id r') ->
    results (fold_left award ordered t') !! (res_battle_id r', res_player_id r')
    = results t' !! (res_battle_id r', res_player_id r')).
  { rewrite Hold; [by rewrite results_award, lookup_insert_eq|].
    intros r Hr E. apply Hnin. rewrite <- E. apply list_elem_of_fmap. eauto. }
  clear. induction ordered as [|r ordered IH]; intros t' Hne; cbn [fold_left]; [done|].
  rewrite IH by (intros; apply Hne; by right).
  rewrite results_award, lookup_insert_ne; [done|]. intros [= _ E]. by apply (Hne r); [left|].
Qed.

(** Two lists sorted by player with the same elements are equal. *)
Lemma sorted_by_player_unique (l1 l2 : list (Z * (string * Z))) :
  Sorted.StronglySorted Z.lt l1.*1 -> Sorted.StronglySorted Z.lt l2.*1 ->
  (forall x, x ∈ l1 <-> x ∈ l2) -> l1 = l2.
Proof.
  revert l2. induction l1 as [|x l1 IH]; intros [|y l2] H1 H2 Heq; [done|..].
  - exfalso. by apply (not_elem_of_nil y), Heq; left.
  - exfalso. by apply (not_elem_of_nil x), Heq; left.
  - cbn in H1, H2. inversion H1 as [|? ? Hs1 Hf1]; subst. inversion H2 as [|? ? Hs2 Hf2]; subst.
    rewrite Forall_forall in Hf1, Hf2.
    assert (Hlt1 : forall z, z ∈ l1 -> x.1 < z.1) by (intros; apply Hf1, list_elem_of_fmap; eauto).
    assert (Hlt2 : forall z, z ∈ l2 -> y.1 < z.1) by (intros; apply Hf2, list_elem_of_fmap; eauto).
    assert (x = y) as <-.
    { assert (Hx : x ∈ y :: l2) by (apply Heq; left). assert (Hy : y ∈ x :: l1) by (apply Heq; left).
      apply elem_of_cons in Hx as [?|Hx]; [done|]. apply elem_of_cons in Hy as [?|Hy]; [done|].
      specialize (Hlt1 _ Hy). specialize (Hlt2 _ Hx). lia. }
    f_equal. apply IH; [done..|]. intros z. specialize (Heq z). rewrite !elem_of_cons in Heq.
    split; intros Hz.
    + destruct (proj1 Heq (or_intror Hz)) as [->|]; [|done]. specialize (Hlt1 _ Hz). lia.
    + destruct (proj2 Heq (or_intror Hz)) as [->|]; [|done]. specialize (Hlt2 _ Hz). lia.
Qed.

Lemma sorted_strictly (l : list (Z * (string * Z))) :
  NoDup l.*1 -> Sorted.StronglySorted by_id l -> Sorted.StronglySorted Z.lt l.*1.
Proof.
  intros Hnd Hs. induction Hs as [|x l Hs IH Hf]; cbn in *; [constructor|].
  inversion Hnd as [|? ? Hnin Hnd']; subst. constructor; [by apply IH|].
  rewrite Forall_forall in Hf. apply Forall_forall. intros p (y & -> & Hy)%list_elem_of_fmap.
  pose proof (Hf _ Hy) as Hle. unfold by_id in Hle.
  assert (x.1 <> y.1); [|lia]. intros E. apply Hnin. rewrite E. apply list_elem_of_fmap. eauto.
Qed.

Lemma results_of_sorted t b : Sorted.StronglySorted Z.lt (results_of t b).*1.
Proof.
  apply sorted_strictly.
  - unfold results_of. rewrite merge_sort_Permutation.
    pose proof (NoDup_map_to_list (results t)) as Hnd.
    pose proof (NoDup_fst_map_to_list (results t)) as Hnd1.
    clear Hnd. induction (map_to_list (results t)) as [|[[b' p] v] l IH]; [constructor|].
    inversion Hnd1 as [|? ? Hnin Hnd']; subst. cbn. case_decide; [|by apply IH]. cbn. subst.
    constructor; [|by apply IH]. intros ([p' v'] & -> & Hin)%list_elem_of_fmap. apply Hnin.
    apply list_elem_of_omap in Hin as ([[b'' p''] v''] & Hin & Hc). case_decide; simplify_eq.
    apply list_elem_of_fmap. by exists (b, p', v').
  - unfold results_of. apply StronglySorted_merge_sort; [|intros a c; unfold by_id; lia].
    intros a c d; unfold by_id; lia.
Qed.

Lemma no_results_unsettled battle t p :
  ledger t -> unsettled battle t -> results t !! (b_battle_id battle, p) = None.
Proof.
  intros (_ & (_ & _ & Hr) & Hbl) Hun. destruct (results t !! _) as [[res d]|] eqn:E; [|done].
  assert (Hl : logs t !! (b_battle_id battle, p) = Some d) by (apply Hr; eauto).
  by rewrite no_logs_unsettled in Hl.
Qed.

Lemma settled_already now battle ordered t :
  ledger t -> well_formed battle ordered -> unsettled battle t ->
  already battle ordered (settled now battle ordered t).
Proof.
  intros Hl Hwf Hun. pose proof (well_formed_NoDup _ _ Hwf) as Hnd.
  eexists. cbn. rewrite lookup_insert_eq. split_and!; [done..|].
  assert (Hids : (saved_result <$> ordered).*1 = res_player_id <$> ordered)
    by (rewrite <- list_fmap_compose; done).
  apply sorted_by_player_unique; [apply results_of_sorted|rewrite Hids; apply Hwf|].
  intros [p v]. rewrite elem_of_results_of. cbn. split.
  - intros [Hold | (r & Hr & [= _ ->] & ->)]%results_fold; [by rewrite no_results_unsettled in Hold|].
    apply list_elem_of_fmap. by exists r.
  - intros (r & [= -> ->] & Hr)%list_elem_of_fmap.
    pose proof (results_fold_in ordered t r Hnd Hr) as Hin.
    rewrite (proj1 (proj2 (proj2 Hwf) _ Hr)) in Hin. exact Hin.
Qed.

(** ** Histories of the store *)

(** The calls the server makes on its repositories, one critical section each, with the
    plain names and the default player data it makes them with.  The repositories'
    other public methods are outside these histories: the server never calls
    [InsertBattle] or [HasSettlement], and calls [UpdatePlayerScore],
    [InsertBattlePlayerResult] and [InsertSettlementLog] only inside the transaction
    of [ApplySettlement].  Some of them would break the
    books: a score set to 5 is the score of no history of settlements. *)
Inductive StoreOp : Type :=
  | OpSettle (battle : Battle) (results : list BattlePlayerResult)
  | OpCreateBattle (room_id : Z)
  | OpFindPlayer (player_id : Z)
  | OpLoadPlayer (player_id : Z)
  | OpCreatePlayer (player_id : Z) (name : string).

(** The [PlayerData] of [LoginService::GetOrCreatePlayerId]. *)
Definition new_player (player_id : Z) (name : string) : PlayerData :=
  mkPlayerData player_id name (pd_score PlayerData_default) (pd_win_count PlayerData_default)
               (pd_lose_count PlayerData_default).

Section histories.
Context {Srv : Type} {API : MysqlApi Srv} {L : MysqlLaws Srv}.
Context (config : MysqlConfig).
Notation Client := (MysqlClient Srv).
Implicit Types (c : Client) (t : Tables).

Definition run_op c (op : StoreOp) : Client :=
  match op with
  | OpSettle battle results => (ApplySettlement config true c battle results).2
  | OpCreateBattle room_id => (CreateBattle config true c room_id).2
  | OpFindPlayer p => (FindPlayer config true c p).2
  | OpLoadPlayer p => (LoadPlayer config true c p).2
  | OpCreatePlayer p name => (CreatePlayer config true c (new_player p name)).2
  end.

Definition typed_op (op : StoreOp) : Prop :=
  match op with
  | OpSettle battle results => typed_request battle results
  | OpCreateBattle room_id => is_i64 room_id
  | OpFindPlayer p | OpLoadPlayer p => is_i64 p
  | OpCreatePlayer p name => is_i64 p /\ plain name = true
  end.

(** What one operation can do to the committed tables. *)
Inductive table_step : Tables -> Tables -> Prop :=
  | step_settle now battle ordered t :
      well_formed battle ordered -> typed_request battle ordered -> unsettled battle t ->
      (ints t -> ints (settled now battle ordered t)) ->
      table_step t (settled now battle ordered t)
  | step_battle b room t :
      is_i64 room -> battles t !! b = None ->
      table_step t (set_battles t (<[b := mkBattleRow room 0 false None]> (battles t)))
  | step_player p row row' t :
      is_i64 p -> players t !! p = row ->
      row' = match row with
             | Some r => mkPlayerRow (p_name row') (p_score r) (p_win r) (p_lose r)
             | None => mkPlayerRow (p_name row') 1000 0 0
             end ->
      table_step t (set_players t (<[p := row']> (players t))).

Notation steps := (rtc table_step).

Lemma at_most_once_steps st c c' :
  at_most_once st c c' ->
  (forall env out, exec env st (committed (srv c)) = Some out ->
     steps (committed (srv c)) (out_tables out)) ->
  idle c' /\ steps (committed (srv c)) (committed (srv c')).
Proof.
  intros [Hi [-> | (env & out & _ & He & ->)]] H; split; eauto. apply rtc_refl.
Qed.

(** A plain name is quoted as it is, whether or not a connection is there. *)
Lemma EscapeString_plain c v v' c' :
  idle c -> plain v = true -> EscapeString config c v = (v', c') ->
  v' = escape v /\ idle c' /\ committed (srv c') = committed (srv c).
Proof.
  intros Hi Hp. unfold EscapeString. destruct (ensure_connected _ _) as [up c1] eqn:He.
  destruct (ensure_connected_spec _ _ _ _ Hi He) as (Hi1 & Hco & Hup).
  destruct up; cbn; intros [= <- <-]; (split; [|done]).
  - apply escape_spec.
  - by rewrite escape_plain.
Qed.

Lemma steps_insert_player p name c :
  idle c -> is_i64 p -> plain name = true ->
  let c' := (Execute config c (sql_create_player p (escape name) 1000 0 0)).2 in
  idle c' /\ steps (committed (srv c)) (committed (srv c')).
Proof.
  intros Hi Hp64 Hpl. destruct (Execute _ _ _) as [ok c2] eqn:Hx.
  apply (idle_Execute _ (SCreatePlayer p name 1000 0 0)) in Hx; [|done].
  eapply at_most_once_steps; [exact Hx|]. intros env out Hex. cbn in Hex.
  destruct (players _ !! p) as [r|] eqn:Hp; simplify_eq; cbn; apply rtc_once; by econstructor.
Qed.

Lemma steps_CreatePlayer p name c :
  idle c -> is_i64 p -> plain name = true ->
  let c' := (CreatePlayer config true c (new_player p name)).2 in
  idle c' /\ steps (committed (srv c)) (committed (srv c')).
Proof.
  intros Hi Hp64 Hpl. unfold CreatePlayer. cbn -[EscapeString Execute].
  destruct (EscapeString _ _ _) as [v c1] eqn:He.
  destruct (EscapeString_plain _ _ _ _ Hi Hpl He) as (-> & Hi1 & Hco). rewrite <- Hco.
  by apply steps_insert_player.
Qed.

Lemma steps_FindPlayer p c :
  idle c ->
  let c' := (FindPlayer config true c p).2 in
  idle c' /\ steps (committed (srv c)) (committed (srv c')).
Proof.
  intros Hi. unfold FindPlayer. cbn -[Query].
  destruct (Query _ _ _) as [rows c1] eqn:Hq.
  apply (idle_Query _ (SFindPlayer p)) in Hq; [|done].
  assert (H : idle c1 /\ steps (committed (srv c)) (committed (srv c1))); [|by destruct rows].
  eapply at_most_once_steps; [exact Hq|]. intros env out Hex. cbn in Hex. simplify_eq. apply rtc_refl.
Qed.

Lemma steps_trans c t t' c' :
  idle c' /\ steps t (committed (srv c')) -> committed (srv c) = t' -> steps t' t ->
  idle c' /\ steps (committed (srv c)) (committed (srv c')).
Proof. intros [Hi Hs] -> Ht. split; [done|by etrans]. Qed.

Lemma steps_LoadPlayer p c :
  idle c -> is_i64 p ->
  let c' := (LoadPlayer config true c p).2 in
  idle c' /\ steps (committed (srv c)) (committed (srv c')).
Proof.
  intros Hi Hp64. unfold LoadPlayer.
  pose proof (steps_FindPlayer p c Hi) as Hf. destruct (FindPlayer _ _ _ _) as [found c1]. cbn in Hf.
  destruct found as [[d|]|e]; [done| |done].
  pose proof (steps_CreatePlayer p ("player_" +:+ to_string p) c1 (proj1 Hf) Hp64 (plain_player_name p)) as Hc.
  unfold new_player in Hc. destruct (CreatePlayer _ _ _ _) as [ok c2]. cbn in Hc |- *.
  eapply steps_trans; [exact Hc|done|apply Hf].
Qed.

Lemma steps_CreateBattle room c :
  idle c -> is_i64 room ->
  let c' := (CreateBattle config true c room).2 in
  idle c' /\ steps (committed (srv c)) (committed (srv c')).
Proof.
  intros Hi Hroom. unfold CreateBattle. cbn -[ExecuteInsert].
  case_match; [split; [done|apply rtc_refl]|].
  unfold ExecuteInsert. destruct (ExecuteAffected _ _ _) as [n c1] eqn:Hx.
  apply (idle_ExecuteAffected _ (SCreateBattle room)) in Hx; [|done].
  assert (Hs : idle c1 /\ steps (committed (srv c)) (committed (srv c1))); [|by case_match].
  eapply at_most_once_steps; [exact Hx|]. intros env out Hex. cbn in Hex.
  destruct (battles _ !! _) eqn:Hb; simplify_eq. cbn. apply rtc_once. by constructor.
Qed.

Lemma steps_ApplySettlement battle results c :
  idle c -> tables_typed (committed (srv c)) -> typed_request battle results ->
  let c' := (ApplySettlement config true c battle results).2 in
  idle c' /\ steps (committed (srv c)) (committed (srv c')).
Proof.
  intros Hi Hty Hreq. destruct (ApplySettlement _ _ _ _ _) as [r c1] eqn:Hs.
  destruct (ApplySettlement_spec _ _ _ _ _ _ Hi Hty Hreq Hs) as (Hi1 & b & -> & Hb).
  split; [done|]. cbn. destruct Hb as [[_ ->] | [Hwf [[_ ->] | [Hun [Hint [now Heq]]]]]]; [apply rtc_refl..|].
  rewrite Heq in Hint |- *.
  apply rtc_once. constructor; [done|by apply typed_request_sort|done|done].
Qed.

(** ** The invariant over steps *)
Lemma step_ledger t t' : ledger t -> table_step t t' -> ledger t'.
Proof.
  intros Hl Hs. destruct Hs as [now battle ordered t Hwf Hreq Hun Hint | b room t Hroom Hb | p row row' t Hp64 Hp Hr].
  - by apply ledger_settled.
  - destruct Hl as ([Hty1 Hty2] & Hbooks & [Hb1 Hb2]). split_and!; [split|done|split]; cbn; [|done|..].
    + intros b' r [[<- <-]|[_ ?]]%lookup_insert_Some; [done|by eapply Hty1].
    + intros b' p d Hd. destruct (Hb1 _ _ _ Hd) as (r & Hr & ?). exists r. split; [|done].
      rewrite lookup_insert_ne; [done|]. congruence.
    + intros b' r [[<- <-]|[_ ?]]%lookup_insert_Some; [done|by apply Hb2].
  - destruct Hl as ((Ht1 & Ht2 & Ht3 & Ht4) & (Hs & Hm & Hr') & Hbl). split_and!; [|..|done].
    { split_and!; [done|done|..].
      - unfold ints. cbn. intros q r [[<- <-]|[_ ?]]%lookup_insert_Some; [|by eapply Ht3].
        destruct row as [r|]; rewrite Hr; [|done]. exact (Ht3 _ _ Hp).
      - cbn. intros q r [[<- <-]|[_ ?]]%lookup_insert_Some; [done|by eapply Ht4]. }
    split_and!; [|..|done]; cbn.
    + intros q r [[<- <-]|[_ ?]]%lookup_insert_Some; [|by apply Hs].
      destruct row as [r|]; rewrite Hr; cbn.
      * by destruct (Hs _ _ Hp) as (-> & -> & ->).
      * by rewrite !tally_none by eauto.
    + intros q [Hq Hne]%lookup_insert_None. eauto.
Qed.

(** A settled battle never changes again. *)
Definition battle_frozen (b : Z) t t' : Prop :=
  battles t' !! b = battles t !! b
  /\ forall p, results t' !! (b, p) = results t !! (b, p) /\ logs t' !! (b, p) = logs t !! (b, p).

Lemma fold_other_battle ordered b' t :
  (forall r, r ∈ ordered -> res_battle_id r <> b') ->
  forall p, results (fold_left award ordered t) !! (b', p) = results t !! (b', p)
            /\ logs (fold_left award ordered t) !! (b', p) = logs t !! (b', p).
Proof.
  revert t. induction ordered as [|r ordered IH]; intros t Hne p; cbn [fold_left]; [done|].
  destruct (IH (award t r)) with (p := p) as [-> ->]; [intros; apply Hne; by right|].
  specialize (Hne r (list_elem_of_here _ _)).
  rewrite results_award, logs_award, !lookup_insert_ne by congruence. done.
Qed.

Lemma step_frozen b row t t' :
  battles t !! b = Some row -> bt_settled row = true -> table_step t t' -> battle_frozen b t t'.
Proof.
  intros Hb Hset Hs. destruct Hs as [now battle ordered t Hwf Hreq Hun Hint | b' room t Hroom Hb' | p r row' t _ Hp Hr].
  - assert (Hne : b_battle_id battle <> b) by (intros <-; destruct Hun as (? & ? & _ & ?); congruence).
    split; cbn.
    + by rewrite battles_award, lookup_insert_ne.
    + apply fold_other_battle. intros r Hr. destruct (proj2 (proj2 Hwf) _ Hr) as [-> _]. done.
  - split; [|done]. cbn. rewrite lookup_insert_ne; [done|]. congruence.
  - done.
Qed.

(** A history of calls, each run to completion under the client's lock. *)
Definition run_ops c (ops : list StoreOp) : Client := fold_left run_op ops c.

Definition typed_ops (ops : list StoreOp) : Prop :=
  forall op, op ∈ ops -> typed_op op.

Lemma run_op_steps c op :
  idle c -> ledger (committed (srv c)) -> typed_op op ->
  idle (run_op c op) /\ steps (committed (srv c)) (committed (srv (run_op c op))).
Proof.
  intros Hi Hl Hop. destruct op.
  - apply steps_ApplySettlement; [done|apply Hl|done].
  - by apply steps_CreateBattle.
  - by apply steps_FindPlayer.
  - by apply steps_LoadPlayer.
  - apply steps_CreatePlayer; [done|apply Hop..].
Qed.

Lemma steps_ledger t t' : ledger t -> steps t t' -> ledger t'.
Proof. intros Hl Hs. induction Hs; [done|]. eauto using step_ledger. Qed.

Lemma run_ops_steps c ops :
  idle c -> ledger (committed (srv c)) -> typed_ops ops ->
  idle (run_ops c ops) /\ steps (committed (srv c)) (committed (srv (run_ops c ops))).
Proof.
  revert c. induction ops as [|op ops IH]; intros c Hi Hl Hops; cbn; [split; [done|apply rtc_refl]|].
  destruct (run_op_steps c op Hi Hl) as [Hi1 Hs1]; [apply Hops; left|].
  destruct (IH (run_op c op) Hi1) as [Hi2 Hs2]; [by eapply steps_ledger|intros o Ho; apply Hops; by right|].
  split; [done|]. by etrans.
Qed.

Lemma tally_deltas (l : gmap (Z * Z) Z) p :
  (forall k d, l !! k = Some d -> d = 20 \/ d = -10) ->
  tally id l p = 20 * tally is_win l p - 10 * tally is_loss l p.
Proof.
  induction l as [|[b q] d l Hn Hf IH] using map_first_key_ind; intros H.
  { unfold tally. by rewrite !map_fold_empty. }
  rewrite !tally_insert by done. rewrite IH.
  - specialize (H (b, q) d). rewrite lookup_insert_eq in H.
    destruct (H eq_refl) as [-> | ->]; case_decide; unfold id, is_win, is_loss; cbn; lia.
  - intros k d' Hk. apply (H k). rewrite lookup_insert_ne; [done|]. congruence.
Qed.

Lemma ApplySettlement_cases battle results c r c' :
  idle c -> ledger (committed (srv c)) -> typed_request battle results ->
  ApplySettlement config true c battle results = (r, c') ->
  idle c' /\ ledger (committed (srv c'))
  /\ (r = Ok false \/ (r = Ok true /\ already battle (sort_results results) (committed (srv c')))).
Proof.
  intros Hi Hl Hreq Hs.
  destruct (ApplySettlement_spec _ _ _ _ _ _ Hi (proj1 Hl) Hreq Hs) as (Hi1 & b & -> & Hb).
  split; [done|].
  destruct Hb as [[-> ->] | [Hwf [[Hal Heq] | [Hun [Hint [now Heq]]]]]].
  - auto.
  - rewrite Heq. split; [done|]. destruct b; auto.
  - rewrite Heq in Hint |- *. split; [apply ledger_settled; auto using typed_request_sort|].
    destruct b; [right|by left]. split; [done|by apply settled_already].
Qed.

Lemma ledger_scores t p row :
  ledger t -> players t !! p = Some row ->
  p_score row = 1000 + 20 * p_win row - 10 * p_lose row
  /\ p_win row = tally is_win (logs t) p /\ p_lose row = tally is_loss (logs t) p.
Proof.
  intros (_ & (Hsc & _ & _) & [Hb1 _]) Hp. destruct (Hsc _ _ Hp) as (-> & -> & ->).
  split_and!; [|done|done]. rewrite tally_deltas; [lia|].
  intros [b q] d Hd. destruct (Hb1 _ _ _ Hd) as (r & _ & _ & ->). destruct (_ =? _); auto.
Qed.

(** C16: In any history of the five calls the server makes on its repositories
    ([StoreOp]: a settlement, a battle created, a player looked up, loaded or created,
    with plain names and default player data), and whatever calls fail, commits are lost or
    connections break: every player's score is 1000, plus 20 per win, minus 10
    per loss, the wins and losses being the ones recorded; every settled battle
    has one winner in its log and only losers besides; an unsettled battle has
    no log. *)
Theorem store_keeps_the_books c ops :
  idle c -> ledger (committed (srv c)) -> typed_ops ops ->
  let t := committed (srv (run_ops c ops)) in
  (forall p row, players t !! p = Some row ->
     p_win row = tally is_win (logs t) p /\ p_lose row = tally is_loss (logs t) p
     /\ p_score row = 1000 + 20 * p_win row - 10 * p_lose row)
  /\ (forall b row, battles t !! b = Some row ->
       if bt_settled row
       then logs t !! (b, bt_winner row) = Some 20
            /\ (forall p d, logs t !! (b, p) = Some d -> p <> bt_winner row -> d = -10)
       else forall p, logs t !! (b, p) = None).
Proof.
  intros Hi Hl Hops t. destruct (run_ops_steps c ops Hi Hl Hops) as [_ Hs].
  pose proof (steps_ledger _ _ Hl Hs) as Hlt. destruct (Hlt) as (_ & _ & [Hb1 Hb2]). fold t in Hlt, Hb1, Hb2. split.
  - intros p row Hp. destruct (ledger_scores _ _ _ Hlt Hp) as (? & ? & ?). auto.
  - intros b row Hb. destruct (bt_settled row) eqn:Hset; [split; [by apply Hb2|]|].
    + intros p d Hd Hne. destruct (Hb1 _ _ _ Hd) as (r & Hr & _ & ->).
      rewrite (proj2 (Z.eqb_neq _ _)); [done|]. congruence.
    + intros p. destruct (logs t !! (b, p)) as [d|] eqn:Hd; [|done].
      destruct (Hb1 _ _ _ Hd) as (r & Hr & ? & _). congruence.
Qed.

(** C17: One settlement, whatever fails in it: it never throws and never leaves a
    transaction open; answering [true], the battle is now settled with exactly
    these results, by this call or an earlier one; answering [false], nothing
    was written, or the whole settlement was and only its confirmation was
    lost. *)
Theorem ApplySettlement_atomic battle results c r c' :
  idle c -> ledger (committed (srv c)) -> typed_request battle results ->
  ApplySettlement config true c battle results = (r, c') ->
  let ordered := sort_results results in
  idle c'
  /\ ((r = Ok true /\ already battle ordered (committed (srv c')))
      \/ (r = Ok false
          /\ (committed (srv c') = committed (srv c) \/ already battle ordered (committed (srv c')))))
  /\ (committed (srv c') = committed (srv c)
      \/ exists now, well_formed battle ordered /\ unsettled battle (committed (srv c))
          /\ committed (srv c') = settled now battle ordered (committed (srv c))).
Proof.
  intros Hi Hl Hreq Hs.
  destruct (ApplySettlement_spec _ _ _ _ _ _ Hi (proj1 Hl) Hreq Hs) as (Hi1 & b & -> & Hb).
  cbn zeta. split; [done|].
  destruct Hb as [[-> ->] | [Hwf [[Hal Heq] | [Hun [_ [now Heq]]]]]]; [split; [right; auto|by left]|..].
  - rewrite Heq. split; [|by left]. destruct b; auto.
  - pose proof (settled_already now _ _ _ Hl Hwf Hun) as Hal. rewrite <- Heq in Hal.
    split; [|right; eauto]. destruct b; auto.
Qed.

(** C18: A settled battle is settled for good: no later call the server makes on its
    repositories ([StoreOp]), a retry, a conflicting result or anything else, changes its row, its results or its log. *)
Theorem settlement_is_final c ops b row :
  idle c -> ledger (committed (srv c)) -> typed_ops ops ->
  battles (committed (srv c)) !! b = Some row -> bt_settled row = true ->
  battle_frozen b (committed (srv c)) (committed (srv (run_ops c ops))).
Proof.
  intros Hi Hl Hops Hb Hset. destruct (run_ops_steps c ops Hi Hl Hops) as [_ Hs].
  clear Hl. revert Hb. induction Hs as [t|t t1 t2 Ht _ IH]; intros Hb; [done|].
  destruct (step_frozen b row t t1 Hb Hset Ht) as [Hb1 Hr1].
  destruct IH as [Hb2 Hr2]; [congruence|]. split; [congruence|].
  intros p. destruct (Hr1 p), (Hr2 p). split; congruence.
Qed.
End histories.

(** ** A healthy server settles *)
Section healthy.
Context {Srv : Type} {API : MysqlApi Srv} {L : MysqlLaws Srv} {Hl : MysqlHealthy Srv}.
Context (config : MysqlConfig).
Notation Client := (MysqlClient Srv).
Implicit Types (c : Client) (t : Tables).

Definition txh c t0 t : Prop := tx c t0 t /\ healthy (srv c).

Lemma healthy_drain fuel (s : Srv) : healthy s -> healthy (drain_results fuel s).
Proof.
  revert s. induction fuel as [|fuel IH]; intros s Hs; cbn; [done|].
  pose proof (healthy_next_result s Hs) as Hn. destruct (mysql_next_result s) as [rc s1]. cbn in Hn.
  case_match; [done|]. pose proof (healthy_store_result s1 Hn) as Hst.
  destruct (mysql_store_result s1) as [x s2]. by apply IH.
Qed.

(** The query itself succeeds; what it does is in the lemmas on [tx]. *)
Lemma txh_query st c t0 t :
  txh c t0 t -> stmt_fits st -> (forall env, exec env st t <> None) ->
  exists s, mysql_query (sql_text escape st) (srv c) = (0, s) /\ healthy s.
Proof.
  intros [(_&_&_&_&Hv) Hh] Hfit Hex. rewrite <- Hv in Hex.
  destruct (healthy_query st (srv c) Hh Hfit Hex) as [H1 H2].
  destruct (mysql_query _ _) as [rc s]. cbn in *. subst. eauto.
Qed.

Lemma txh_Execute st c t0 t :
  txh c t0 t -> stmt_fits st -> (forall env, exec env st t <> None) ->
  exists c' env out, Execute config c (sql_text escape st) = (true, c')
    /\ exec env st t = Some out /\ txh c' t0 (out_tables out).
Proof.
  intros Ht Hfit Hex. destruct (txh_query st c t0 t Ht Hfit Hex) as (s & Hq & Hh).
  destruct (Execute config c (sql_text escape st)) as [ok c'] eqn:Hx.
  pose proof (tx_Execute config st c t0 t ok c' (proj1 Ht) Hx) as Hs.
  unfold Execute, ensure_connected in Hx. destruct Ht as [(Hup&_) _]. rewrite Hup in Hx. cbn in Hx.
  rewrite Hq in Hx. cbn [negb Z.eqb] in Hx. injection Hx as Hok Hc'. subst ok.
  destruct Hs as (env & out & He & Htx).
  exists c', env, out. split; [done|]. split; [done|]. split; [done|]. rewrite <- Hc'.
  exact (healthy_drain (S (mysql_result_count s)) s Hh).
Qed.

Lemma txh_ExecuteAffected st c t0 t :
  txh c t0 t -> stmt_fits st -> (forall env, exec env st t <> None) -> is_select st = false ->
  exists c' env out, ExecuteAffected config c (sql_text escape st) = (out_affected out, c')
    /\ exec env st t = Some out /\ txh c' t0 (out_tables out).
Proof.
  intros Ht Hfit Hex Hsel. destruct (txh_query st c t0 t Ht Hfit Hex) as (s & Hq & Hh).
  destruct (ExecuteAffected config c (sql_text escape st)) as [n c'] eqn:Hx.
  pose proof (tx_query st c t0 t 0 s (proj1 Ht) Hq) as (env & out & He & Htx & Ha & _).
  unfold ExecuteAffected, ensure_connected in Hx. destruct Ht as [(Hup&_) _]. rewrite Hup in Hx. cbn in Hx.
  rewrite Hq in Hx. cbn in Hx. simplify_eq.
  exists (with_srv c s), env, out. rewrite <- Ha. done.
Qed.

Lemma txh_Query st c t0 t :
  txh c t0 t -> stmt_fits st -> (forall env, exec env st t <> None) -> is_select st = true ->
  exists c' env out, Query config c (sql_text escape st) = (out_rows out, c')
    /\ exec env st t = Some out /\ txh c' t0 (out_tables out).
Proof.
  intros Ht Hfit Hex Hsel. destruct (txh_query st c t0 t Ht Hfit Hex) as (s & Hq & Hh).
  pose proof (tx_query st c t0 t 0 s (proj1 Ht) Hq) as (env & out & He & (?&?&?&?&?) & Ha & Hr).
  pose proof (healthy_rows st _ s (proj2 Ht) Hq Hsel) as Hne.
  pose proof (store_result_spec s) as Hs. pose proof (healthy_store_result s Hh) as Hhs.
  unfold Query, ensure_connected. destruct Ht as [(Hup&_) _]. rewrite Hup. cbn [negb].
  rewrite Hq. cbn [Z.eqb negb]. change (srv (with_srv c s)) with s.
  destruct (mysql_store_result s) as [[raw|] s']; [|done]. cbn in Hr, Hs, Hhs.
  exists (with_srv (with_srv c s) s'), env, out. rewrite (Hr raw) by done.
  split; [done|]. split; [done|]. split; [|done]. destruct Hs as (?&?&?).
  cbn in *. repeat split; cbn; congruence.
Qed.

(** Room for the next result in the INT columns. *)
Definition columns_room t (p : Z) : Prop :=
  forall row d, players t !! p = Some row -> d = 20 \/ d = -10 ->
    int_columns (mkPlayerRow (p_name row) (p_score row + d)
                   (p_win row + if 0 <? d then 1 else 0) (p_lose row + if d <? 0 then 1 else 0)) = true.

(** A result row as the service builds it. *)
Definition row_ok (b : Z) (r : BattlePlayerResult) : Prop :=
  delta_ok b r /\ is_i64 b /\ is_i64 (res_player_id r) /\ (res_result r = "WIN" \/ res_result r = "LOSE").

Lemma row_ok_fits b r won lost :
  row_ok b r -> is_i32 won -> is_i32 lost ->
  stmt_fits (SInsertResult b (res_player_id r) (res_result r) (res_score_delta r))
  /\ stmt_fits (SInsertLog b (res_player_id r) (res_score_delta r))
  /\ stmt_fits (SUpdateScore (res_player_id r) (1000 + res_score_delta r) (res_score_delta r) won lost).
Proof.
  intros ([_ Hd] & Hb & Hp & Hres) ? ?.
  assert (is_i32 (res_score_delta r) /\ is_i32 (1000 + res_score_delta r)) as [? ?]
    by (unfold is_i32, int32_min, int32_max; lia).
  cbn. destruct Hres as [-> | ->]; cbn; split_and!; (done || lia).
Qed.

Lemma txh_write_one r c t0 t :
  txh c t0 t -> row_ok (res_battle_id r) r -> columns_room t (res_player_id r) ->
  results t !! (res_battle_id r, res_player_id r) = None ->
  logs t !! (res_battle_id r, res_player_id r) = None ->
  forall battle ordered, res_battle_id r = b_battle_id battle ->
  exists c', write_results config c battle (r :: ordered) = write_results config c' battle ordered
    /\ txh c' t0 (award t r).
Proof.
  intros Ht Hok Hroom Hnr Hnl battle ordered Hb. cbn [write_results].
  set (won := if 0 <? res_score_delta r then 1 else 0). set (lost := if res_score_delta r <? 0 then 1 else 0).
  destruct (row_ok_fits _ r won lost Hok) as (Hf1 & Hf2 & Hf3);
    [unfold won; by case_match|unfold lost; by case_match|]. destruct Hok as [[_ Hd] _].
  unfold InsertBattlePlayerResult, InsertSettlementLog, UpdatePlayerScore. cbn [negb log_settlement_id
    log_battle_id log_player_id log_score_delta].
  destruct (EscapeString _ _ _) as [esc c0] eqn:He. destruct (tx_escape _ _ _ _ _ _ _ (proj1 Ht) He) as [-> ->].
  destruct (txh_ExecuteAffected (SInsertResult (res_battle_id r) (res_player_id r) (res_result r) (res_score_delta r))
    c t0 t Ht) as (c1 & env1 & out1 & E1 & X1 & T1); [done|intros env; cbn; by rewrite Hnr|done|].
  cbn [sql_text] in E1. rewrite E1. cbn in X1. rewrite Hnr in X1. simplify_eq. cbn [out_affected out_tables] in *.
  cbn [Z.ltb Z.compare negb].
  destruct (txh_ExecuteAffected (SInsertLog (b_battle_id battle) (res_player_id r) (res_score_delta r))
    c1 t0 _ T1) as (c2 & env2 & out2 & E2 & X2 & T2); [by rewrite <- Hb|intros env; cbn; by rewrite <- Hb, Hnl|done|].
  cbn [sql_text] in E2. rewrite E2. cbn in X2. rewrite <- Hb, Hnl in X2. simplify_eq. cbn [out_affected out_tables] in *.
  cbn [Z.ltb Z.compare negb].
  destruct (txh_Execute (SUpdateScore (res_player_id r) (1000 + res_score_delta r) (res_score_delta r) won lost)
    c2 t0 _ T2) as (c3 & env3 & out3 & E3 & X3 & T3); [done|..].
  { intros env. cbn. destruct (players t !! _) as [row|] eqn:Hp; [|done].
    pose proof (Hroom _ _ Hp Hd) as Hc. fold won lost in Hc. by rewrite Hc. }
  rewrite wrap_i32_id by (unfold is_i32, int32_min, int32_max; lia).
  fold won lost. cbn [sql_text] in E3. rewrite E3. cbn [negb].
  exists c3. split; [done|]. cbn in X3. unfold award.
  destruct (players t !! _) as [row|] eqn:Hp;
    [pose proof (Hroom _ _ Hp Hd) as Hc; fold won lost in Hc; rewrite Hc in X3|]; by simplify_eq.
Qed.
Lemma txh_write_results battle ordered c t0 t :
  txh c t0 t -> NoDup (res_player_id <$> ordered) ->
  (forall r, r ∈ ordered -> row_ok (b_battle_id battle) r /\ columns_room t (res_player_id r)
     /\ results t !! (b_battle_id battle, res_player_id r) = None
     /\ logs t !! (b_battle_id battle, res_player_id r) = None) ->
  exists c', write_results config c battle ordered = (true, c') /\ txh c' t0 (fold_left award ordered t).
Proof.
  revert c t. induction ordered as [|r ordered IH]; intros c t Ht Hnd Hall; [by exists c|].
  inversion Hnd as [|? ? Hnin Hnd']; subst.
  destruct (Hall r) as (Hd & Hroom & Hnr & Hnl); [left|]. pose proof (proj1 (proj1 Hd)) as Hb.
  rewrite <- Hb in Hd, Hnr, Hnl.
  destruct (txh_write_one r c t0 t Ht Hd Hroom Hnr Hnl battle ordered Hb) as (c1 & -> & Ht1).
  apply IH; [done|done|]. intros r' Hr'. destruct (Hall r') as (Hd' & Hroom' & Hnr' & Hnl'); [by right|].
  assert (Hne : res_player_id r <> res_player_id r')
    by (intros E; apply Hnin; rewrite E; apply list_elem_of_fmap; eauto).
  split; [done|]. split_and!.
  - intros row d. unfold award. cbn. rewrite lookup_insert_ne by done. apply Hroom'.
  - rewrite results_award, lookup_insert_ne; [done|congruence].
  - rewrite logs_award, lookup_insert_ne; [done|congruence].
Qed.

Lemma settle_transaction_healthy battle ordered c t0 :
  txh c t0 t0 -> ledger t0 -> unsettled battle t0 -> well_formed battle ordered ->
  is_i64 (b_room_id battle) -> is_i64 (b_winner_id battle) -> is_i64 (b_battle_id battle) ->
  (forall r, r ∈ ordered -> is_i64 (res_player_id r) /\ columns_room t0 (res_player_id r)) ->
  exists c', settle_transaction config battle ordered c = (Ok true, c') /\ txh c' t0 (view (srv c')).
Proof.
  intros Ht Hled Hun Hwf Hr64 Hw64 Hb64 Hcol. pose proof Hun as (row & Hrow & Hroom & Hset). unfold settle_transaction.
  destruct (txh_Query (SSelectBattle (b_battle_id battle)) c t0 t0 Ht) as (c1 & env & out & E1 & X1 & T1); [done..|].
  cbn [sql_text] in E1. rewrite E1. cbn in X1. rewrite Hrow in X1. simplify_eq. cbn [out_rows out_tables] in *.
  change (at_ (battle_row row) "room_id") with (Ok (to_string (bt_room row)) : result string).
  change (at_ (battle_row row) "settled") with (Ok (if bt_settled row then "1" else "0") : result string).
  cbn [mbind result_bind]. rewrite Hroom, stoll_to_string, Z.eqb_refl, Hset by done. cbn [negb].
  rewrite bool_decide_eq_false_2 by done.
  destruct (txh_write_results battle ordered c1 t0 t0 T1) as (c2 & E2 & T2).
  { by eapply well_formed_NoDup. }
  { intros r Hr. split_and!; [|by apply Hcol|..].
    - split_and!; [by eapply well_formed_delta|done|by apply Hcol|].
      destruct Hwf as (_ & _ & Hwf). destruct (Hwf r Hr) as (_ & _ & Hres). destruct (_ =? _); [left|right]; apply Hres.
    - by apply no_results_unsettled.
    - apply no_logs_unsettled; [apply Hled|done]. }
  rewrite E2. cbn [negb].
  destruct (txh_ExecuteAffected (SSettleBattle (b_winner_id battle) (b_battle_id battle)) c2 t0 _ T2)
    as (c3 & env3 & out3 & E3 & X3 & T3); [by split| | |].
  { intros env3. cbn. by rewrite battles_award, Hrow. }
  { done. }
  cbn [sql_text] in E3. rewrite E3. cbn in X3. rewrite battles_award, Hrow in X3. simplify_eq. cbn [out_affected].
  rewrite decide_False by (intros E; rewrite <- E in Hset; done).
  exists c3. split; [done|]. destruct T3 as [(?&?&?&?&?) ?]. by repeat split.
Qed.

Lemma healthy_ensure_connected c up c1 :
  idle c -> healthy (srv c) -> ensure_connected config c = (up, c1) -> up = true /\ healthy (srv c1).
Proof.
  intros Hi Hh He. unfold ensure_connected in He. destruct (conn_up c) eqn:Hup; [by simplify_eq|].
  unfold Connect in He. rewrite (proj1 Hi) in He. cbv zeta in He.
  assert (HD : Disconnect c = c) by (unfold Disconnect; by rewrite Hup). rewrite HD in He.
  pose proof (healthy_init _ Hh) as [E1 E2]. destruct (mysql_init (srv c)) as [ok s]. cbn in E1, E2. subst ok.
  cbn in He. pose proof (healthy_connect config _ E2) as [E3 E4].
  destruct (mysql_real_connect config s) as [ok s']. cbn in E3, E4. subst ok.
  injection He as <- <-. split; [done|exact E4].
Qed.

(** The settlement goes through, and the server stays healthy. *)
Lemma ApplySettlement_healthy battle rs c :
  idle c -> healthy (srv c) -> ledger (committed (srv c)) -> typed_request battle rs ->
  0 < b_battle_id battle -> is_i64 (b_battle_id battle) -> 0 < b_room_id battle -> unsettled battle (committed (srv c)) ->
  check_results battle (sort_results rs) 0 0 = Some 1 ->
  (forall r, r ∈ rs -> columns_room (committed (srv c)) (res_player_id r)) ->
  exists now c', ApplySettlement config true c battle rs = (Ok true, c')
    /\ committed (srv c') = settled now battle (sort_results rs) (committed (srv c))
    /\ idle c' /\ healthy (srv c').
Proof.
  intros Hi Hh Hled Hreq Hb Hb64 Hr Hun Hck Hcol.
  pose proof (check_results_well_formed _ _ _ Hck eq_refl) as Hwf.
  destruct (ApplySettlement config true c battle rs) as [r c'] eqn:Hap.
  pose proof (ApplySettlement_spec _ _ _ _ _ _ Hi (proj1 Hled) Hreq Hap) as (Hi' & b & -> & Hspec).
  enough (b = true /\ healthy (srv c')) as [-> Hh'].
  { destruct Hspec as [[? _] | [_ [[(row & H1 & _ & H2 & _) _] | [_ [_ [now Heq]]]]]]; [done| |by exists now, c'].
    destruct Hun as (row' & H1' & _ & H2'). congruence. }
  clear Hspec. revert Hap. unfold ApplySettlement.
  destruct Hwf as (Hsort & Hin & Hall).
  assert (Hwin : 0 < b_winner_id battle).
  { apply list_elem_of_fmap in Hin as (rw & -> & Hrw). by apply Hall in Hrw as (_ & ? & _). }
  rewrite (proj2 (Z.leb_gt _ _)), (proj2 (Z.leb_gt _ _)), (proj2 (Z.leb_gt _ _)) by done.
  rewrite bool_decide_eq_false_2.
  2: { intros E%nil_length_inv. subst rs. by apply elem_of_nil in Hin. }
  rewrite Hck. cbn [negb orb Z.eqb Pos.eqb]. unfold RunTransaction. rewrite (proj1 Hi).
  destruct (ensure_connected config c) as [up c1] eqn:He.
  pose proof (ensure_connected_spec _ _ _ _ Hi He) as (Hi1 & Hco1 & Hup1).
  destruct (healthy_ensure_connected _ _ _ Hi Hh He) as [-> Hh1].
  cbn [negb]. pose proof (healthy_begin _ Hh1 (proj2 Hi1 Hup1)) as [E5 E6].
  pose proof (begin_spec (srv c1) (proj2 Hi1 Hup1)) as Hbg.
  destruct (mysql_query "START TRANSACTION" (srv c1)) as [rc s]. cbn in E5, E6. subst rc.
  destruct Hbg as [Hs [Htx Hv]]; [done|]. cbn [Z.eqb negb].
  destruct (settle_transaction_healthy battle (sort_results rs)
    (set_in_transaction (with_srv c1 s) true) (committed (srv c)))
    as (c2 & -> & Ht2); [|done|done|by split_and!|apply Hreq|apply Hreq|done| |].
  { split; [|done]. repeat split; cbn; congruence. }
  { intros r. unfold sort_results. rewrite merge_sort_Permutation. intros Hr'. split; [by apply Hreq|by apply Hcol]. }
  destruct Ht2 as [(Hup2 & _ & Htx2 & _) Hh2]. rewrite Hup2. cbn [negb].
  pose proof (healthy_commit _ Hh2 Htx2) as [E7 E8]. destruct (mysql_commit (srv c2)) as [rc s2]. cbn in E7, E8. subst rc.
  cbn [Z.eqb negb]. by intros [= <- <-].
Qed.

(** On a healthy server with an unsettled battle the settlement goes through,
    connecting first if need be: the answer is [true] and the tables are the
    specified ones. *)
Theorem ApplySettlement_completes battle rs c :
  idle c -> healthy (srv c) -> ledger (committed (srv c)) -> typed_request battle rs ->
  0 < b_battle_id battle -> is_i64 (b_battle_id battle) -> 0 < b_room_id battle -> unsettled battle (committed (srv c)) ->
  check_results battle (sort_results rs) 0 0 = Some 1 ->
  (forall r, r ∈ rs -> columns_room (committed (srv c)) (res_player_id r)) ->
  exists now c', ApplySettlement config true c battle rs = (Ok true, c')
    /\ committed (srv c') = settled now battle (sort_results rs) (committed (srv c)).
Proof.
  intros Hi Hh Hled Hreq Hb Hb64 Hr Hun Hck Hcol.
  destruct (ApplySettlement_healthy battle rs c) as (now & c' & Hap & Hco & _); [done..|]. eauto.
Qed.
End healthy.
