(* ===== verification/Redis.v ===== *)
(** * Redis: the Redis client wrapper and the ranking

    Models [storage/redis_client.h/.cpp] and [rank/rank_service.h/.cpp].  The
    hiredis library and the server are the class [RedisApi] over a state [Rds];
    [redisCommand] receives the arguments hiredis builds from its format.  The
    lock makes every method one function on the client. *)
From S2P Require Import Prelude StdString Config Messages SqlModel.
From Stdlib Require Import Ascii.
Local Open Scope string_scope.
Local Open Scope Z_scope.

(** [std::string::c_str()] read as a C string. *)
Fixpoint c_str (s : string) : string :=
  match s with
  | EmptyString => ""
  | String a s => if (nat_of_ascii a =? 0)%nat then "" else String a (c_str s)
  end.

(** ** hiredis *)

(** A [redisReply]: [None] is a null pointer. *)
Inductive RedisReply : Type :=
  | REDIS_REPLY_STRING (str : option string)
  | REDIS_REPLY_ARRAY (element : list (option RedisReply))
  | REDIS_REPLY_INTEGER (integer : Z)
  | REDIS_REPLY_NIL
  | REDIS_REPLY_STATUS (str : option string)
  | REDIS_REPLY_ERROR (str : option string).

(** [reply->str] with its length. *)
Definition reply_str (r : RedisReply) : option string :=
  match r with
  | REDIS_REPLY_STRING s | REDIS_REPLY_STATUS s | REDIS_REPLY_ERROR s => s
  | _ => None
  end.
Definition is_error (r : RedisReply) : bool :=
  match r with REDIS_REPLY_ERROR _ => true | _ => false end.

Class RedisApi (Rds : Type) := {
  (** [None]: null; [Some err]: a context, in error or not. *)
  redisConnect : string -> Z -> Rds -> option bool * Rds;
  redisFree : Rds -> Rds;
  redisCommand : list string -> Rds -> option RedisReply * Rds
}.

Record RedisClient (Rds : Type) := mkRedisClient {
  ctx_up : bool;            (* context_ is not null *)
  rds : Rds
}.
Arguments mkRedisClient {Rds}.
Arguments ctx_up {Rds}.
Arguments rds {Rds}.

(** ** RedisClient (redis_client.cpp) *)
Section redis_client.
Context {Rds : Type} {API : RedisApi Rds}.
(** [ConfigManager::Instance().Redis()]. *)
Context (config : RedisConfig).
Notation Client := (RedisClient Rds).

Definition Redis_Disconnect (c : Client) : Client :=
  if ctx_up c then mkRedisClient false (redisFree (rds c)) else c.

Definition Redis_Connect (c : Client) : bool * Client :=
  let c := Redis_Disconnect c in
  let '(context, s) := redisConnect (c_str (redis_host config)) (redis_port config) (rds c) in
  let c := mkRedisClient (if context is Some _ then true else false) s in
  match context with
  | Some false => (true, c)
  | _ => (false, Redis_Disconnect c)
  end.

(** [!context_ && !Connect()]: [true] to go on. *)
Definition Redis_ensure (c : Client) : bool * Client :=
  if ctx_up c then (true, c) else Redis_Connect c.

Definition Redis_command (c : Client) (args : list string) : option RedisReply * Client :=
  let '(reply, s) := redisCommand args (rds c) in (reply, mkRedisClient (ctx_up c) s).

Definition ZAdd (c : Client) (key : string) (score : Z) (member : string) : bool * Client :=
  let '(ok, c) := Redis_ensure c in
  if negb ok then (false, c)
  else
    let '(reply, c) := Redis_command c ["ZADD"; c_str key; to_string score; c_str member] in
    match reply with
    | None => (false, Redis_Disconnect c)
    | Some reply => (negb (is_error reply), c)
    end.

(** The loop over the elements, two at a time: [i + 1 < reply->elements]. *)
Fixpoint zrevrange_items (element : list (option RedisReply)) : list (string * Z) :=
  match element with
  | member :: score :: element =>
    match member ≫= reply_str, score ≫= reply_str with
    | Some m, Some s => (m, atoi (c_str s)) :: zrevrange_items element
    | _, _ => zrevrange_items element
    end
  | _ => []
  end.

Definition ZRevRange (c : Client) (key : string) (start stop : Z) : list (string * Z) * Client :=
  let '(ok, c) := Redis_ensure c in
  if negb ok then ([], c)
  else
    let '(reply, c) := Redis_command c ["ZREVRANGE"; c_str key; to_string start; to_string stop; "WITHSCORES"] in
    match reply with
    | None => ([], Redis_Disconnect c)
    | Some (REDIS_REPLY_ARRAY element) => (zrevrange_items element, c)
    | Some _ => ([], c)
    end.

Definition Redis_Set (c : Client) (key value : string) : bool * Client :=
  let '(ok, c) := Redis_ensure c in
  if negb ok then (false, c)
  else
    let '(reply, c) := Redis_command c ["SET"; c_str key; c_str value] in
    match reply with
    | None => (false, Redis_Disconnect c)
    | Some reply => (negb (is_error reply), c)
    end.

Definition Redis_Get (c : Client) (key : string) : string * Client :=
  let '(ok, c) := Redis_ensure c in
  if negb ok then ("", c)
  else
    let '(reply, c) := Redis_command c ["GET"; c_str key] in
    match reply with
    | None => ("", Redis_Disconnect c)
    | Some (REDIS_REPLY_STRING (Some str)) => (str, c)
    | Some _ => ("", c)
    end.

(** ** RankService (rank_service.cpp); [redis : bool] is [redis_ != nullptr]. *)
Record RankEntry := mkRankEntry { re_player_id : Z; re_name : string; re_score : Z; re_rank : Z }.

Definition kRankScoreKey : string := "rank:score".

Definition Rank_Init (redis : bool) (c : Client) : bool * Client :=
  if negb redis then (true, c) else Redis_Connect c.

Definition UpdateScore (redis : bool) (c : Client) (player_id score : Z) : bool * Client :=
  if negb redis then (false, c) else ZAdd c kRankScoreKey score (to_string player_id).

(** The loop of [GetTopN] from index [i] on. *)
Fixpoint rank_entries (offset : Z) (i : Z) (items : list (string * Z)) : list RankEntry :=
  match items with
  | [] => []
  | (member, score) :: items =>
    mkRankEntry (strtoll (c_str member)) ("player_" +:+ member) score
                (wrap_i32 (wrap_i32 (offset + wrap_i32 i) + 1))
    :: rank_entries offset (i + 1) items
  end.

Definition GetTopN (redis : bool) (c : Client) (offset limit : Z) : list RankEntry * Client :=
  if negb redis || (limit <=? 0) then ([], c)
  else
    let offset := if offset <? 0 then 0 else offset in
    let stop := wrap_i32 (wrap_i32 (offset + limit) - 1) in
    let '(items, c) := ZRevRange c kRankScoreKey offset stop in
    (rank_entries offset 0 items, c).

(** The message the handler sends, [None] when the request does not parse. *)
Definition HandleRankRequest {PB : Protobuf} (redis : bool) (c : Client) (packet : Wire.Packet)
    : option Message * Client :=
  match parse_rank packet with
  | None => (None, c)
  | Some (offset, limit) =>
    let '(entries, c) := GetTopN redis c offset limit in
    (Some (RankResponse ((fun e => mkRankItem (re_player_id e) (re_name e) (re_score e) (re_rank e)) <$> entries)), c)
  end.
End redis_client.

(** ** The order of a sorted set, highest score first *)
Definition ranks_before (a b : string * Z) : Prop := b.2 < a.2 \/ (b.2 = a.2 /\ String.le b.1 a.1).

#[export] Instance ranks_before_dec : RelDecision ranks_before.
Proof. intros a b. unfold ranks_before. apply _. Defined.
#[export] Instance ranks_before_trans : Transitive ranks_before.
Proof.
  intros a b c [?|[? ?]] [?|[? ?]]; unfold ranks_before; [left; lia..|].
  right. split; [lia|]. by transitivity b.1.
Qed.
#[export] Instance ranks_before_total : Total ranks_before.
Proof.
  intros a b. unfold ranks_before. destruct (Z.lt_trichotomy a.2 b.2) as [|[|]]; auto.
  destruct (total String.le a.1 b.1); auto.
Qed.

Definition board (z : gmap string Z) : list (string * Z) := merge_sort ranks_before (map_to_list z).


(** ** What the code relies on from Redis

    [zset] is the sorted set of the ranking; other keys are left out. *)
Class RedisLaws (Rds : Type) {API : RedisApi Rds} := {
  zset : Rds -> gmap string Z;
  zset_connect host port s : zset (redisConnect host port s).2 = zset s;
  zset_free s : zset (redisFree s) = zset s;
  zadd_ok score member s r s' :
    redisCommand ["ZADD"; kRankScoreKey; to_string score; member] s = (Some r, s') ->
    is_error r = false -> zset s' = <[member := score]> (zset s);
  zadd_other score member s :
    let s' := (redisCommand ["ZADD"; kRankScoreKey; to_string score; member] s).2 in
    zset s' = zset s \/ zset s' = <[member := score]> (zset s);
  zrevrange_ok start stop s el s' :
    0 <= start -> 0 <= stop -> (forall m x, zset s !! m = Some x -> is_i32 x) ->
    redisCommand ["ZREVRANGE"; kRankScoreKey; to_string start; to_string stop; "WITHSCORES"] s
      = (Some (REDIS_REPLY_ARRAY el), s') ->
    zrevrange_items el = take (Z.to_nat (stop - start + 1)) (drop (Z.to_nat start) (board (zset s)))
}.

Section redis_laws.
Context {Rds : Type} {API : RedisApi Rds} {L : RedisLaws Rds} (config : RedisConfig).
Notation Client := (RedisClient Rds).

Lemma zset_Disconnect (c : Client) : zset (rds (Redis_Disconnect c)) = zset (rds c).
Proof. unfold Redis_Disconnect. case_match; [apply zset_free|done]. Qed.

Lemma zset_ensure (c : Client) : zset (rds (Redis_ensure config c).2) = zset (rds c).
Proof.
  unfold Redis_ensure, Redis_Connect. case_match; [done|].
  pose proof (zset_connect (c_str (redis_host config)) (redis_port config) (rds (Redis_Disconnect c))) as Hcn.
  destruct (redisConnect _ _ _) as [[[]|] s]; cbn in Hcn |- *; rewrite ?zset_free, ?Hcn; apply zset_Disconnect.
Qed.

Lemma c_str_plain v : SqlModel.plain v = true -> c_str v = v.
Proof.
  induction v as [|a v IH]; [done|]. cbn [SqlModel.plain c_str]. intros [Ha Hv]%andb_true_iff.
  rewrite IH by done. by destruct a as [[] [] [] [] [] [] [] []].
Qed.

(** A score is either written or the set is as before; [true] means written. *)
Lemma UpdateScore_spec (c : Client) player_id score ok c' :
  UpdateScore config true c player_id score = (ok, c') ->
  zset (rds c') = <[to_string player_id := score]> (zset (rds c))
  \/ (ok = false /\ zset (rds c') = zset (rds c)).
Proof.
  unfold UpdateScore, ZAdd. cbn [negb].
  pose proof (zset_ensure c) as He. destruct (Redis_ensure config c) as [up c1]. cbn in He.
  destruct up; cbn [negb]; [|intros [= <- <-]; auto].
  unfold Redis_command. rewrite (c_str_plain (to_string player_id)) by apply plain_sql_to_string.
  change (c_str kRankScoreKey) with kRankScoreKey.
  pose proof (zadd_other score (to_string player_id) (rds c1)) as Ho. cbn zeta in Ho.
  destruct (redisCommand _ _) as [[reply|] s] eqn:Hq; cbn in Ho |- *.
  - intros [= <- <-]. cbn. destruct (is_error reply) eqn:Herr; cbn.
    + rewrite <- He. destruct Ho; auto.
    + rewrite (zadd_ok _ _ _ _ _ Hq Herr), He. auto.
  - intros [= <- <-]. rewrite zset_Disconnect. cbn. rewrite <- He. destruct Ho; auto.
Qed.






End redis_laws.
