(* ===== verification/Settlement.v ===== *)
(** * Settlement: settling a battle and refreshing the ranking

    Models [game/settlement_service.h/.cpp] over the repositories and the
    ranking.  The pointers the service holds are booleans; its mutex makes a
    call one critical section. *)
From S2P Require Import Prelude StdString Config Messages Mysql Repositories SqlModel BattleStore Ledger Redis.
Local Open Scope string_scope.
Local Open Scope Z_scope.

(** ** [std::set<int64_t>], iterated in increasing order *)
Fixpoint set_insert (x : Z) (s : list Z) : list Z :=
  match s with
  | [] => [x]
  | y :: s' => if x <? y then x :: s else if x =? y then s else y :: set_insert x s'
  end.

Lemma elem_of_set_insert x y s : y ∈ set_insert x s <-> y = x \/ y ∈ s.
Proof.
  induction s as [|z s IH]; cbn; [set_solver|].
  destruct (Z.ltb_spec x z); [set_solver|]. destruct (Z.eqb_spec x z); [set_solver|].
  rewrite !elem_of_cons, IH. tauto.
Qed.

Lemma sorted_set_insert x s :
  Sorted.StronglySorted Z.lt s -> Sorted.StronglySorted Z.lt (set_insert x s).
Proof.
  intros Hs. induction Hs as [|y s Hs IH Hf]; cbn; [repeat constructor|].
  rewrite Forall_forall in Hf.
  destruct (Z.ltb_spec x y).
  - constructor; [by constructor; [|apply Forall_forall]|]. constructor; [done|].
    apply Forall_forall. intros z Hz. specialize (Hf z Hz). lia.
  - destruct (Z.eqb_spec x y); [by constructor; [|apply Forall_forall]|].
    constructor; [done|]. apply Forall_forall. intros z [->|Hz]%elem_of_set_insert; [lia|by apply Hf].
Qed.

Lemma sorted_unique (l1 l2 : list Z) :
  Sorted.StronglySorted Z.lt l1 -> Sorted.StronglySorted Z.lt l2 ->
  (forall x, x ∈ l1 <-> x ∈ l2) -> l1 = l2.
Proof.
  intros H1 H2 Heq.
  assert (E : (fun x => (x, ("", 0))) <$> l1 = (fun x => (x, ("", 0))) <$> l2).
  { apply sorted_by_player_unique.
    - by rewrite <- list_fmap_compose, list_fmap_id.
    - by rewrite <- list_fmap_compose, list_fmap_id.
    - intros x. rewrite !list_elem_of_fmap. setoid_rewrite Heq. done. }
  revert E. apply list_fmap_eq_inj. intros x y [= ->]. done.
Qed.

(** ** The service (settlement_service.cpp) *)

(** [participants]: [None] when a loser is not a valid other player. *)
Fixpoint add_losers (winner_id : Z) (losers : list Z) (participants : list Z) : option (list Z) :=
  match losers with
  | [] => Some participants
  | player_id :: losers =>
    if (player_id <=? 0) || (player_id =? winner_id) then None
    else add_losers winner_id losers (set_insert player_id participants)
  end.

Definition battle_result (battle_id winner_id player_id : Z) : BattlePlayerResult :=
  mkResult battle_id player_id (if player_id =? winner_id then "WIN" else "LOSE")
           (if player_id =? winner_id then 20 else -10).

(** The pointers of the service; a repository has its own pointer to the client. *)
Record SettlementService := mkSettlementService {
  ss_battle_repository : bool;
  ss_player_repository : bool;
  ss_rank_service : bool;
  ss_mysql : bool;
  ss_redis : bool
}.

Section settlement.
Context {Srv Rds : Type} {MA : MysqlApi Srv} {RA : RedisApi Rds}.
Context (mysql_config : MysqlConfig) (redis_config : RedisConfig).
Notation Mysql := (MysqlClient Srv).
Notation Redis := (RedisClient Rds).

(** The refresh of the ranking, player by player. *)
Fixpoint sync_ranks (ss : SettlementService) (participants : list Z) (m : Mysql) (r : Redis)
    : result bool * Mysql * Redis :=
  match participants with
  | [] => (Ok true, m, r)
  | player_id :: participants =>
    let '(found, m) := FindPlayer mysql_config (ss_mysql ss) m player_id in
    match found with
    | Throw e => (Throw e, m, r)
    | Ok None => (Ok false, m, r)
    | Ok (Some data) =>
      let '(ok, r) := UpdateScore redis_config (ss_redis ss) r player_id (pd_score data) in
      if negb ok then (Ok false, m, r) else sync_ranks ss participants m r
    end
  end.

(** The checks of [SettleBattle] and the players it settles. *)
Definition settlement_request (ss : SettlementService) (battle_id room_id winner_id : Z) (losers : list Z)
    : option (list Z) :=
  if negb (ss_battle_repository ss) || (ss_rank_service ss && negb (ss_player_repository ss))
     || (battle_id <=? 0) || (room_id <=? 0) || (winner_id <=? 0)
  then None
  else add_losers winner_id losers (set_insert winner_id []).

Definition SettleBattle (ss : SettlementService) (m : Mysql) (r : Redis)
    (battle_id room_id winner_id : Z) (losers : list Z) : result bool * Mysql * Redis :=
  match settlement_request ss battle_id room_id winner_id losers with
  | None => (Ok false, m, r)
  | Some participants =>
    let battle := mkBattle battle_id room_id winner_id "" in
    let results := battle_result battle_id winner_id <$> participants in
    let '(applied, m) := ApplySettlement mysql_config (ss_mysql ss) m battle results in
    match applied with
    | Throw e => (Throw e, m, r)
    | Ok false => (Ok false, m, r)
    | Ok true => if ss_rank_service ss then sync_ranks ss participants m r else (Ok true, m, r)
    end
  end.

(** ** The order of the losers is irrelevant *)
Lemma add_losers_spec winner losers ps :
  Sorted.StronglySorted Z.lt ps ->
  match add_losers winner losers ps with
  | Some qs => Forall (fun p => 0 < p /\ p <> winner) losers
               /\ Sorted.StronglySorted Z.lt qs /\ (forall x, x ∈ qs <-> x ∈ losers \/ x ∈ ps)
  | None => ~ Forall (fun p => 0 < p /\ p <> winner) losers
  end.
Proof.
  revert ps. induction losers as [|p losers IH]; intros ps Hs; cbn [add_losers].
  { split_and!; [constructor|done|]. intros x. rewrite elem_of_nil. tauto. }
  destruct (_ || _) eqn:Hbad.
  - intros Hf. apply Forall_cons in Hf as [[] _]. apply orb_true_iff in Hbad as [?%Z.leb_le | ?%Z.eqb_eq]; lia.
  - bools. specialize (IH (set_insert p ps) (sorted_set_insert _ _ Hs)).
    destruct (add_losers _ _ _) as [qs|].
    + destruct IH as (Hf & Hq & Hx). split_and!; [constructor; [lia|done]|done|].
      intros x. rewrite Hx, elem_of_set_insert, elem_of_cons. tauto.
    + intros Hf. apply Forall_cons in Hf as [_ ?]. done.
Qed.

Lemma settlement_request_spec ss battle_id room_id winner losers ps :
  settlement_request ss battle_id room_id winner losers = Some ps ->
  0 < battle_id /\ 0 < room_id /\ 0 < winner /\ (winner ∉ losers)
  /\ Sorted.StronglySorted Z.lt ps /\ (forall x, x ∈ ps <-> x = winner \/ x ∈ losers).
Proof.
  unfold settlement_request. destruct (_ || _) eqn:Hg; [done|]. bools. intros Hadd.
  pose proof (add_losers_spec winner losers [winner] ltac:(repeat constructor)) as Hs.
  change (set_insert winner []) with [winner] in Hadd. rewrite Hadd in Hs. destruct Hs as (Hf & Hsort & Hin).
  split_and!; [lia|lia|lia| |done|].
  - intros Hw. rewrite Forall_forall in Hf. by destruct (Hf winner Hw).
  - intros x. rewrite Hin, list_elem_of_singleton. tauto.
Qed.

Lemma add_losers_ext winner l1 l2 ps :
  Sorted.StronglySorted Z.lt ps -> (forall x, x ∈ l1 <-> x ∈ l2) ->
  add_losers winner l1 ps = add_losers winner l2 ps.
Proof.
  intros Hs Heq. pose proof (add_losers_spec winner l1 ps Hs) as H1.
  pose proof (add_losers_spec winner l2 ps Hs) as H2.
  assert (Hf : Forall (fun p => 0 < p /\ p <> winner) l1 <-> Forall (fun p => 0 < p /\ p <> winner) l2).
  { rewrite !Forall_forall. by setoid_rewrite Heq. }
  destruct (add_losers _ l1 _), (add_losers _ l2 _); try tauto.
  destruct H1 as (_ & Hs1 & Hx1), H2 as (_ & Hs2 & Hx2). f_equal. apply sorted_unique; [done..|].
  intros x. by rewrite Hx1, Hx2, Heq.
Qed.

(** A retry may list the losers in another order, or twice: the call is the
    same call. *)
Theorem SettleBattle_same_losers ss m r battle_id room_id winner_id l1 l2 :
  (forall x, x ∈ l1 <-> x ∈ l2) ->
  SettleBattle ss m r battle_id room_id winner_id l1 = SettleBattle ss m r battle_id room_id winner_id l2.
Proof.
  intros Heq. unfold SettleBattle, settlement_request. rewrite (add_losers_ext winner_id l1 l2); [done|repeat constructor|done].
Qed.
End settlement.

(** ** Settled and ranked *)
Section ranked.
Context {Srv Rds : Type} {MA : MysqlApi Srv} {ML : MysqlLaws Srv} {RA : RedisApi Rds} {RL : RedisLaws Rds}.
Context (mysql_config : MysqlConfig) (redis_config : RedisConfig).

(** The ranking shows the player's score of the database. *)
Definition ranked (t : Tables) (z : gmap string Z) (p : Z) : Prop :=
  exists row, players t !! p = Some row /\ z !! to_string p = Some (p_score row).

Lemma sync_ranks_spec ss ps (m m' : MysqlClient Srv) (r r' : RedisClient Rds) res :
  ss_mysql ss = true -> ss_redis ss = true ->
  idle m -> tables_typed (committed (srv m)) -> (forall p, p ∈ ps -> is_i64 p) ->
  sync_ranks mysql_config redis_config ss ps m r = (res, m', r') ->
  idle m' /\ committed (srv m') = committed (srv m)
  /\ exists b, res = Ok b
     /\ (forall p, ranked (committed (srv m)) (zset (rds r)) p -> ranked (committed (srv m)) (zset (rds r')) p)
     /\ (b = true -> forall p, p ∈ ps -> ranked (committed (srv m)) (zset (rds r')) p).
Proof.
  intros Hmy Hre. revert m r. induction ps as [|p ps IH]; intros m r Hi Hty Hps; cbn [sync_ranks].
  { intros [= <- <- <-]. split_and!; [done|done|]. exists true. split_and!; [done|auto|].
    intros _ p Hp. by apply elem_of_nil in Hp. }
  rewrite Hmy, Hre. destruct (FindPlayer _ _ _ _) as [found m1] eqn:Hf.
  destruct (FindPlayer_spec _ _ _ _ _ Hi Hty (Hps p (list_elem_of_here _ _)) Hf) as (Hi1 & Hco1 & Hfound).
  destruct Hfound as [-> | (row & Hrow & ->)].
  { intros [= <- <- <-]. split_and!; [done|done|]. exists false. split_and!; [done|auto|done]. }
  destruct (UpdateScore _ _ _ _ _) as [ok r1] eqn:Hu. pose proof (UpdateScore_spec _ _ _ _ _ _ Hu) as Hz.
  cbn [pd_score] in Hz.
  assert (Hkeep : forall q, ranked (committed (srv m)) (zset (rds r)) q -> ranked (committed (srv m)) (zset (rds r1)) q).
  { intros q (rq & Hq & Hzq). exists rq. split; [done|]. destruct Hz as [-> | [_ ->]]; [|done].
    destruct (decide (p = q)) as [->|Hne]; [rewrite lookup_insert_eq; congruence|].
    rewrite lookup_insert_ne; [done|]. intros ?%(inj to_string). done. }
  destruct ok; cbn [negb].
  2: { intros [= <- <- <-]. split_and!; [done|done|]. exists false. split_and!; [done|done|done]. }
  intros Hs. apply IH in Hs; [|done|by rewrite Hco1|intros; apply Hps; by right].
  destruct Hs as (Hi2 & Hco2 & b & -> & Hk2 & Hb). rewrite Hco1 in Hco2, Hk2, Hb.
  split_and!; [done|done|]. exists b. split_and!; [done|auto|].
  intros Hbt q [->|Hq]%elem_of_cons; [|by apply Hb].
  apply Hk2. exists row. split; [done|]. destruct Hz as [-> | [? _]]; [|done]. by rewrite lookup_insert_eq.
Qed.

(** The battle is settled in the room, among these players. *)
Definition settled_among (t : Tables) (battle_id room_id winner_id : Z) (ps : list Z) : Prop :=
  exists row, battles t !! battle_id = Some row
    /\ bt_room row = room_id /\ bt_settled row = true /\ bt_winner row = winner_id
    /\ (forall p d, logs t !! (battle_id, p) = Some d -> p ∈ ps)
    /\ forall p, p ∈ ps -> logs t !! (battle_id, p) = Some (if p =? winner_id then 20 else -10).

Lemma ApplySettlement_among (m m' : MysqlClient Srv) battle_id room_id winner_id ps applied :
  idle m -> ledger (committed (srv m)) ->
  is_i64 room_id -> is_i64 winner_id -> (forall p, p ∈ ps -> is_i64 p) ->
  ApplySettlement mysql_config true m (mkBattle battle_id room_id winner_id "")
    (battle_result battle_id winner_id <$> ps) = (applied, m') ->
  idle m' /\ ledger (committed (srv m')) /\ rtc table_step (committed (srv m)) (committed (srv m'))
  /\ (applied = Ok false
      \/ (applied = Ok true /\ settled_among (committed (srv m')) battle_id room_id winner_id ps)).
Proof.
  intros Hi Hl Hroom Hwin Hps64. set (battle := mkBattle battle_id room_id winner_id "").
  set (rs := battle_result battle_id winner_id <$> ps). intros Hap.
  assert (Hreq : typed_request battle rs).
  { split_and!; [done|done|]. intros x (p & -> & Hp)%list_elem_of_fmap. by apply Hps64. }
  pose proof (steps_ApplySettlement mysql_config battle rs m Hi (proj1 Hl) Hreq) as [_ Hsteps].
  rewrite Hap in Hsteps. cbn in Hsteps.
  pose proof (ApplySettlement_cases _ _ _ _ _ _ Hi Hl Hreq Hap) as (Hi1 & Hl1 & Hcase).
  split; [done|]. split; [done|]. split; [done|].
  destruct Hcase as [-> | [-> Hal]]; [by left|right]. split; [done|].
  destruct Hal as (row & Hrow & Hbroom & Hset & Hw & Hres). exists row.
  change (results_of (committed (srv m')) battle_id = saved_result <$> sort_results rs) in Hres.
  set (saved := fun p : Z => (p, (if p =? winner_id then "WIN" else "LOSE", if p =? winner_id then 20 else -10))).
  assert (Hmem : forall x, x ∈ results_of (committed (srv m')) battle_id <-> exists p, x = saved p /\ p ∈ ps).
  { intros x. rewrite Hres, list_elem_of_fmap. unfold sort_results. split.
    - intros (y & -> & Hy). rewrite merge_sort_Permutation in Hy.
      apply list_elem_of_fmap in Hy as (p & -> & Hp). by exists p.
    - intros (p & -> & Hp). exists (battle_result battle_id winner_id p). split; [done|].
      rewrite merge_sort_Permutation. apply list_elem_of_fmap. eauto. }
  split_and!; [done|done|done|done|..].
  - intros p d Hd. destruct (proj1 (proj2 (proj2 (proj1 (proj2 Hl1))) _ _) Hd) as [res Hr].
    assert (Hx : (p, (res, d)) ∈ results_of (committed (srv m')) battle_id) by by apply elem_of_results_of.
    by apply Hmem in Hx as (q & [= -> _ _] & Hq).
  - intros p Hp. assert (Hx : saved p ∈ results_of (committed (srv m')) battle_id) by (apply Hmem; eauto).
    apply elem_of_results_of in Hx. apply Hl1. eexists. exact Hx.
Qed.

Lemma SettleBattle_spec ss (m m' : MysqlClient Srv) (r r' : RedisClient Rds)
    battle_id room_id winner_id losers res :
  ss_mysql ss = true -> ss_redis ss = true -> ss_rank_service ss = true ->
  idle m -> ledger (committed (srv m)) ->
  is_i64 room_id -> is_i64 winner_id -> (forall p, p ∈ losers -> is_i64 p) ->
  SettleBattle mysql_config redis_config ss m r battle_id room_id winner_id losers = (res, m', r') ->
  idle m' /\ rtc table_step (committed (srv m)) (committed (srv m'))
  /\ (res = Ok false
      \/ (res = Ok true /\ exists row, battles (committed (srv m')) !! battle_id = Some row
            /\ bt_room row = room_id /\ bt_settled row = true /\ bt_winner row = winner_id
            /\ (forall p d, logs (committed (srv m')) !! (battle_id, p) = Some d -> p = winner_id \/ p ∈ losers)
            /\ forall p, p = winner_id \/ p ∈ losers ->
                 logs (committed (srv m')) !! (battle_id, p) = Some (if p =? winner_id then 20 else -10)
                 /\ ranked (committed (srv m')) (zset (rds r')) p)).
Proof.
  intros Hmy Hre Hrk Hi Hl Hroom Hwin Hlos. unfold SettleBattle.
  pose proof (rtc_refl table_step (committed (srv m))) as Hrefl.
  destruct (settlement_request _ _ _ _ _) as [ps|] eqn:Hrq; [|intros [= <- <- <-]; auto].
  destruct (settlement_request_spec _ _ _ _ _ _ Hrq) as (_ & _ & _ & _ & Hsort & Hps).
  assert (Hps64 : forall p, p ∈ ps -> is_i64 p) by (intros p [->|Hp]%Hps; [done|by apply Hlos]).
  rewrite Hmy, Hrk. destruct (ApplySettlement _ _ _ _ _) as [applied m1] eqn:Hap.
  destruct (ApplySettlement_among _ _ _ _ _ _ _ Hi Hl Hroom Hwin Hps64 Hap) as (Hi1 & Hl1 & Hsteps & Hcase).
  destruct Hcase as [-> | [-> (row & Hrow & Hbr & Hset & Hw & Honly & Hlog)]]; [intros [= <- <- <-]; auto|].
  intros Hs. destruct (sync_ranks_spec _ _ _ _ _ _ _ Hmy Hre Hi1 (proj1 Hl1) Hps64 Hs)
    as (Hi2 & Hco2 & b & -> & _ & Hrank). rewrite Hco2.
  split_and!; [done|done|]. destruct b; [right|by left]. split; [done|].
  exists row. split_and!; [done..| |].
  - intros p d Hd. by eapply Hps, Honly.
  - intros p Hp%Hps. split; [by apply Hlog|by apply Hrank].
Qed.

(** C19: [SettleBattle] never throws, keeps the connection out of any transaction
    and writes at most this settlement; when it answers [true] the battle is
    settled with these participants and each of them stands on the ranking with
    the score of the database. *)
Theorem SettleBattle_settles_and_ranks ss (m m' : MysqlClient Srv) (r r' : RedisClient Rds)
    battle_id room_id winner_id losers res :
  ss_mysql ss = true -> ss_redis ss = true -> ss_rank_service ss = true ->
  idle m -> ledger (committed (srv m)) ->
  is_i64 room_id -> is_i64 winner_id -> (forall p, p ∈ losers -> is_i64 p) ->
  SettleBattle mysql_config redis_config ss m r battle_id room_id winner_id losers = (res, m', r') ->
  idle m' /\ ledger (committed (srv m'))
  /\ (res = Ok false
      \/ (res = Ok true /\ exists row, battles (committed (srv m')) !! battle_id = Some row
            /\ bt_settled row = true /\ bt_winner row = winner_id
            /\ forall p, p = winner_id \/ p ∈ losers ->
                 logs (committed (srv m')) !! (battle_id, p) = Some (if p =? winner_id then 20 else -10)
                 /\ ranked (committed (srv m')) (zset (rds r')) p)).
Proof.
  intros Hmy Hre Hrk Hi Hl Hroom Hwin Hlos Hs.
  destruct (SettleBattle_spec _ _ _ _ _ _ _ _ _ _ Hmy Hre Hrk Hi Hl Hroom Hwin Hlos Hs) as (Hi' & Hst & Hc).
  split_and!; [done|by eapply steps_ledger|]. destruct Hc as [|(? & row & ? & _ & ? & ? & _ & ?)]; [by left|right]. eauto 7.
Qed.
End ranked.
