(* ===== verification/Healthy.v ===== *)
(** * Healthy: a settlement on healthy storage

    With a MySQL server that serves what its tables allow ([MysqlHealthy]) and a
    Redis server that answers ([RedisHealthy]), [CreateBattle] gives the room an
    unsettled battle and [SettleBattle] answers [true].  What the answer means is
    [SettleBattle_spec] of [Settlement]. *)
From S2P Require Import Prelude StdString Config Messages Mysql Repositories SqlModel BattleStore Ledger Redis Settlement.
Local Open Scope string_scope.
Local Open Scope Z_scope.

(** A Redis server in good health accepts connections and scores. *)
Class RedisHealthy (Rds : Type) {API : RedisApi Rds} := {
  redis_healthy : Rds -> Prop;
  redis_healthy_connect host port s :
    redis_healthy s ->
    (redisConnect host port s).1 = Some false /\ redis_healthy (redisConnect host port s).2;
  redis_healthy_zadd key score member s :
    redis_healthy s ->
    exists r s', redisCommand ["ZADD"; key; to_string score; member] s = (Some r, s')
      /\ is_error r = false /\ redis_healthy s'
}.

#[export] Instance by_player_trans : Transitive by_player.
Proof. intros x y z. unfold by_player. lia. Qed.
#[export] Instance by_player_total : Total by_player.
Proof. intros x y. unfold by_player. lia. Qed.

(** ** The results the service sends are accepted *)
Section results.
Context (battle : Battle).
Notation mine := (battle_result (b_battle_id battle) (b_winner_id battle)).

Lemma sort_battle_results (ps : list Z) :
  Sorted.StronglySorted Z.lt ps -> sort_results (mine <$> ps) = mine <$> ps.
Proof.
  intros Hs. apply (StronglySorted_unique_strong by_player).
  - intros x y (p & -> & _)%(elem_of_Permutation_proper _ _ _ (merge_sort_Permutation _ _))%list_elem_of_fmap
      (q & -> & _)%list_elem_of_fmap.
    unfold by_player. cbn. intros H1 H2. by replace q with p by lia.
  - apply StronglySorted_merge_sort; apply _.
  - induction Hs as [|p ps Hs IH Hf]; cbn; constructor; [done|].
    rewrite Forall_forall in Hf. apply Forall_forall. intros x (q & -> & Hq)%list_elem_of_fmap.
    specialize (Hf q Hq). unfold by_player. cbn. lia.
  - apply merge_sort_Permutation.
Qed.

Lemma check_battle_results ps prev n :
  Sorted.StronglySorted Z.lt ps -> (forall p, p ∈ ps -> prev < p) ->
  check_results battle (mine <$> ps) prev n
  = Some (n + if decide (b_winner_id battle ∈ ps) then 1 else 0).
Proof.
  intros Hs. revert prev n. induction Hs as [|p ps Hs IH Hf]; intros prev n Hp; cbn [fmap list_fmap check_results].
  { rewrite decide_False by apply not_elem_of_nil. by rewrite Z.add_0_r. }
  rewrite Forall_forall in Hf.
  cbn [battle_result res_battle_id res_player_id res_result res_score_delta].
  rewrite !Z.eqb_refl, (proj2 (Z.leb_gt _ _)) by (apply Hp; left).
  rewrite bool_decide_eq_true_2 by done. cbn [negb orb].
  rewrite IH by done. f_equal. destruct (Z.eqb_spec p (b_winner_id battle)) as [->|Hne].
  - rewrite decide_False by (intros Hin; specialize (Hf _ Hin); lia).
    rewrite decide_True by left. lia.
  - rewrite Z.add_0_r. f_equal. apply decide_ext. rewrite elem_of_cons. split; [auto|by intros [|]].
Qed.
End results.

(** ** The calls of a settlement *)
Section healthy.
Context {Srv Rds : Type} {MA : MysqlApi Srv} {ML : MysqlLaws Srv} {MH : MysqlHealthy Srv}.
Context {RA : RedisApi Rds} {RH : RedisHealthy Rds}.
Context (config : MysqlConfig) (redis_config : RedisConfig).
Notation Client := (MysqlClient Srv).
Implicit Types (c : Client) (t : Tables).

(** Between two calls of a healthy server. *)
Definition fit c : Prop := idle c /\ healthy (srv c).

(** A statement on its own: the connection is up and it goes through. *)
Lemma fit_query st c :
  fit c -> (forall s : Srv, healthy s -> in_tx s = false -> view s = committed (srv c) ->
            (mysql_query (sql_text escape st) s).1 = 0 /\ healthy (mysql_query (sql_text escape st) s).2) ->
  exists c1 s env out,
    ensure_connected config c = (true, c1) /\ mysql_query (sql_text escape st) (srv c1) = (0, s)
    /\ healthy s /\ healthy (srv c1) /\ 0 < env_auto env <= int64_max
    /\ exec env st (committed (srv c)) = Some out /\ idle (with_srv c1 s)
    /\ committed s = out_tables out
    /\ wrap_i64 (mysql_affected_rows s) = out_affected out
    /\ (if st is SCreateBattle _ then mysql_insert_id s = env_auto env else True).
Proof.
  intros [Hi Hh] Hq. destruct (ensure_connected config c) as [up c1] eqn:He.
  pose proof (ensure_connected_spec _ _ _ _ Hi He) as (Hi1 & Hco & Hup).
  destruct (healthy_ensure_connected _ _ _ _ Hi Hh He) as [-> Hh1].
  pose proof (proj2 Hi1 Hup) as Htx. pose proof (autocommit _ Htx) as Hv. rewrite Hco in Hv.
  destruct (Hq _ Hh1 Htx Hv) as [Hrc Hhs]. destruct (mysql_query _ (srv c1)) as [rc s] eqn:Hs. cbn in Hrc, Hhs.
  subst rc. destruct (stmt_ok _ _ _ Hs) as (env & out & Hr & Hex & Hvs & Htxs & _ & Ha & Hid & _).
  rewrite Hv in Hex. rewrite Htx in Htxs. exists c1, s, env, out.
  split_and!; try done; [apply Hr|apply Hr|split; [apply Hi1|done]|]. by rewrite <- (autocommit _ Htxs).
Qed.

Lemma fit_select st c :
  fit c -> is_select st = true ->
  exists c' env out, Query config c (sql_text escape st) = (out_rows out, c')
    /\ exec env st (committed (srv c)) = Some out
    /\ fit c' /\ committed (srv c') = committed (srv c).
Proof.
  intros Hf Hsel. destruct (fit_query st c Hf) as (c1 & s & env & out & He & Hq & Hs & Hh1 & _ & Hex & _).
  { intros s Hs _ _. apply healthy_query; [done|by destruct st|]. by destruct st. }
  destruct (Query config c (sql_text escape st)) as [rows c'] eqn:Hrun.
  destruct (idle_select _ st _ _ _ (proj1 Hf) Hsel Hrun) as (Hi' & Hco & _).
  unfold Query in Hrun. rewrite He in Hrun. cbn [negb] in Hrun. rewrite Hq in Hrun. cbn [Z.eqb negb] in Hrun.
  change (srv (with_srv c1 s)) with s in Hrun.
  pose proof (healthy_rows _ _ _ Hh1 Hq Hsel) as Hne. pose proof (healthy_store_result s Hs) as Hst.
  destruct (stmt_ok _ _ _ Hq) as (env' & out' & _ & Hex' & _ & _ & _ & _ & _ & Hr).
  destruct (mysql_store_result s) as [[raw|] s']; [|done]. cbn in Hr, Hst. injection Hrun as <- <-.
  pose proof (ensure_connected_spec _ _ _ _ (proj1 Hf) He) as ([_ Hc1] & Hco1 & Hup).
  rewrite (autocommit _ (Hc1 Hup)), Hco1 in Hex'.
  eexists _, env', out'. rewrite (Hr raw) by done. split_and!; [done|done|by split|done].
Qed.

Lemma fit_FindPlayer c p row :
  fit c -> tables_typed (committed (srv c)) -> is_i64 p -> players (committed (srv c)) !! p = Some row ->
  exists c', FindPlayer config true c p
      = (Ok (Some (mkPlayerData p (p_name row) (p_score row) (p_win row) (p_lose row))), c')
    /\ fit c' /\ committed (srv c') = committed (srv c).
Proof.
  intros Hf Hty Hp Hrow. destruct (fit_select (SFindPlayer p) c Hf eq_refl) as (c' & env & out & Hq & Hex & Hf' & Hco).
  exists c'. split_and!; [|done..]. cbn in Hex. rewrite Hrow in Hex. injection Hex as <-. cbn [out_rows sql_text] in Hq.
  destruct (FindPlayer config true c p) as [found c2] eqn:Hfind.
  destruct (FindPlayer_spec _ _ _ _ _ (proj1 Hf) Hty Hp Hfind) as (_ & _ & Hcase).
  assert (c2 = c' /\ found <> Ok None) as [-> Hne].
  { unfold FindPlayer in Hfind. cbn [negb] in Hfind. rewrite Hq in Hfind. injection Hfind as <- <-. split; [done|].
    by destruct (read_player _). }
  destruct Hcase as [-> | (row' & Hrow' & ->)]; [done|]. congruence.
Qed.

(** The room gets an unsettled battle. *)
Lemma fit_CreateBattle c room :
  fit c -> ledger (committed (srv c)) -> 0 < room -> is_i64 room ->
  (forall b, is_Some (battles (committed (srv c)) !! b) -> b < int64_max) ->
  exists b c', CreateBattle config true c room = (b, c') /\ 0 < b /\ is_i64 b /\ fit c'
    /\ battles (committed (srv c)) !! b = None
    /\ committed (srv c')
       = set_battles (committed (srv c)) (<[b := mkBattleRow room 0 false None]> (battles (committed (srv c)))).
Proof.
  intros Hf Hl Hroom Hr64 Hleft.
  destruct (fit_query (SCreateBattle room) c Hf)
    as (c1 & s & env & out & He & Hq & Hs & _ & Henv & Hex & Hi1 & Hco & Ha & Hid).
  { intros s Hs Htx Hv. apply healthy_create; [done..|]. by rewrite Hv. }
  cbn in Hex. destruct (battles (committed (srv c)) !! env_auto env) eqn:Hnone; [done|].
  injection Hex as <-. cbn [out_tables out_affected] in *.
  assert (H64 : is_i64 (env_auto env)) by (unfold is_i64, int64_min in *; lia).
  exists (env_auto env), (with_srv c1 s). split_and!; [|lia|done|by split|done|done].
  unfold CreateBattle. rewrite (proj2 (Z.leb_gt _ _)) by done. cbn [negb orb].
  unfold ExecuteInsert, ExecuteAffected. rewrite He. cbn [negb]. cbn [sql_text] in Hq. rewrite Hq. cbn [Z.eqb negb].
  change (srv (with_srv c1 s)) with s. rewrite Ha, Hid. cbn [Z.eqb Pos.eqb negb]. by rewrite wrap_i64_id.
Qed.

(** ** The ranking *)
Lemma fit_UpdateScore (r : RedisClient Rds) p score :
  redis_healthy (rds r) ->
  exists r', UpdateScore redis_config true r p score = (true, r') /\ redis_healthy (rds r').
Proof.
  intros Hh. unfold UpdateScore, ZAdd. cbn [negb].
  assert (Hup : exists r1, Redis_ensure redis_config r = (true, r1) /\ redis_healthy (rds r1)).
  { unfold Redis_ensure. destruct (ctx_up r) eqn:Hc; [by eexists|]. unfold Redis_Connect, Redis_Disconnect.
    rewrite Hc. pose proof (redis_healthy_connect (c_str (redis_host redis_config)) (redis_port redis_config) _ Hh) as [H1 H2].
    destruct (redisConnect _ _ _) as [ctx s]. cbn in H1, H2. subst ctx. by eexists. }
  destruct Hup as (r1 & -> & Hh1). cbn [negb]. unfold Redis_command.
  destruct (redis_healthy_zadd (c_str kRankScoreKey) score (c_str (to_string p)) _ Hh1) as (reply & s & -> & Herr & Hs).
  rewrite Herr. by eexists.
Qed.

Lemma fit_sync_ranks ss ps c (r : RedisClient Rds) :
  ss_mysql ss = true -> ss_redis ss = true ->
  fit c -> redis_healthy (rds r) -> tables_typed (committed (srv c)) ->
  (forall p, p ∈ ps -> is_i64 p /\ is_Some (players (committed (srv c)) !! p)) ->
  exists c' r', sync_ranks config redis_config ss ps c r = (Ok true, c', r').
Proof.
  intros Hmy Hre. revert c r. induction ps as [|p ps IH]; intros c r Hf Hh Hty Hps; [by eexists _, _|].
  cbn [sync_ranks]. rewrite Hmy, Hre. destruct (Hps p (list_elem_of_here _ _)) as [Hp [row Hrow]].
  destruct (fit_FindPlayer c p row Hf Hty Hp Hrow) as (c1 & -> & Hf1 & Hco).
  destruct (fit_UpdateScore r p (p_score row) Hh) as (r1 & Hu & Hh1). cbn [pd_score]. rewrite Hu. cbn [negb].
  apply IH; [done|done|by rewrite Hco|]. intros q Hq. rewrite Hco. apply Hps. by right.
Qed.

(** A settled player has a row. *)
Lemma players_fold_award ordered t p :
  is_Some (players t !! p) \/ p ∈ (res_player_id <$> ordered) -> is_Some (players (fold_left award ordered t) !! p).
Proof.
  revert t. induction ordered as [|r ordered IH]; intros t; cbn.
  { intros [?|?%elem_of_nil]; done. }
  intros Hp. apply IH. rewrite elem_of_cons in Hp. destruct (decide (p = res_player_id r)) as [->|Hne].
  - left. cbn. rewrite lookup_insert_eq. by eexists.
  - destruct Hp as [Hp | [|Hp]]; [|done|by right]. left. cbn. by rewrite lookup_insert_ne.
Qed.

(** Everything the settlement of a battle needs. *)
Record can_settle c (r : RedisClient Rds) (b room winner : Z) (losers : list Z) : Prop := {
  cs_fit : fit c;
  cs_redis : redis_healthy (rds r);
  cs_ledger : ledger (committed (srv c));
  cs_battle : 0 < b /\ is_i64 b;
  cs_room : 0 < room /\ is_i64 room;
  cs_players p : p ∈ winner :: losers -> 0 < p /\ is_i64 p /\ columns_room (committed (srv c)) p;
  cs_losers : winner ∉ losers;
  cs_unsettled : unsettled (mkBattle b room winner "") (committed (srv c))
}.

Lemma fit_SettleBattle c r b room winner losers :
  can_settle c r b room winner losers ->
  exists c' r', SettleBattle config redis_config (mkSettlementService true true true true true) c r b room winner losers
    = (Ok true, c', r').
Proof.
  intros [Hf Hh Hl [Hb Hb64] [Hr Hr64] Hps Hnl Hun]. unfold SettleBattle.
  destruct (Hps winner (list_elem_of_here _ _)) as (Hw & Hw64 & _).
  assert (exists ps, settlement_request (mkSettlementService true true true true true) b room winner losers = Some ps)
    as [ps Hrq].
  { unfold settlement_request. cbn [ss_battle_repository ss_rank_service ss_player_repository].
    rewrite !(proj2 (Z.leb_gt _ _)) by done. cbn [negb orb andb].
    pose proof (add_losers_spec winner losers [winner] ltac:(repeat constructor)) as Hadd.
    change (set_insert winner []) with [winner].
    destruct (add_losers winner losers [winner]) as [ps|]; [by exists ps|]. exfalso. apply Hadd, Forall_forall.
    intros p Hp. split; [|by intros ->]. apply (Hps p). by right. }
  rewrite Hrq. destruct (settlement_request_spec _ _ _ _ _ _ Hrq) as (_ & _ & _ & _ & Hsort & Hin).
  set (battle := mkBattle b room winner "").
  assert (Hall : forall p, p ∈ ps -> p ∈ winner :: losers) by (intros p; rewrite Hin, elem_of_cons; tauto).
  change (battle_result b winner) with (battle_result (b_battle_id battle) (b_winner_id battle)).
  cbn [ss_mysql ss_rank_service].
  set (rs := battle_result (b_battle_id battle) (b_winner_id battle) <$> ps).
  assert (Hreq : typed_request battle rs).
  { split_and!; [done|done|]. intros x (p & -> & Hp%Hall)%list_elem_of_fmap. by apply Hps. }
  assert (Hsorted : sort_results rs = rs) by by apply sort_battle_results.
  destruct (ApplySettlement_healthy config battle rs c)
    as (now & c1 & Hap & Hco & Hi1 & Hh1); [apply Hf|apply Hf|done|done|done|done|done|done|..].
  - rewrite Hsorted. unfold rs. rewrite check_battle_results by (try done; intros p Hp%Hall; by apply Hps).
    rewrite decide_True; [done|]. apply Hin. by left.
  - intros x (p & -> & Hp%Hall)%list_elem_of_fmap. by apply Hps.
  - rewrite Hap. destruct (ApplySettlement_cases _ _ _ _ _ _ (proj1 Hf) Hl Hreq Hap) as (_ & Hl1 & _).
    apply fit_sync_ranks; [done|done|by split|done|apply Hl1|]. intros p Hp. split; [by apply (Hps p), Hall|].
    rewrite Hco, Hsorted. apply (players_fold_award rs). right. unfold rs. rewrite <- list_fmap_compose.
    apply list_elem_of_fmap. by exists p.
Qed.
End healthy.
