(* ===== verification/Store.v ===== *)
(** * Store: what the services rely on when they call the database

    [StoreContract] is the interface between the services and the storage: an
    invariant of the MySQL client and the set of battles on record, and what
    each call of the services does to them.  The services are verified against
    it.  [LedgerContract] is the implementation: the repositories over a MySQL
    server with its documented laws.  [NoContract] promises nothing and needs no
    law: what is proved with it holds whatever the database does. *)
From S2P Require Import Prelude StdString Config Messages Mysql Repositories SqlModel BattleStore Ledger Redis Settlement.
Local Open Scope Z_scope.

Class StoreContract (Srv Rds : Type) {MA : MysqlApi Srv} {RA : RedisApi Rds} := {
  store_ok : MysqlClient Srv -> Prop;
  (** The battle of a room among these players is on record. *)
  recorded : MysqlClient Srv -> Z -> list Z -> Prop;
  recorded_members c room ids ids' :
    (forall k, k ∈ ids' <-> k ∈ ids) -> recorded c room ids -> recorded c room ids';
  (** [name] is the quoted name of the new player [p]. *)
  quoted : Z -> string -> Prop;
  store_EscapeString config c p :
    store_ok c ->
    let '(name, c') := EscapeString config c ("player_" +:+ to_string p) in
    quoted p name /\ store_ok c' /\ (forall room ids, recorded c room ids -> recorded c' room ids);
  store_insert_player config c p name :
    store_ok c -> is_i64 p -> quoted p name ->
    let c' := (Execute config c (sql_create_player p name 1000 0 0)).2 in
    store_ok c' /\ (forall room ids, recorded c room ids -> recorded c' room ids);
  store_FindPlayer config c p :
    store_ok c ->
    let c' := (FindPlayer config true c p).2 in
    store_ok c' /\ (forall room ids, recorded c room ids -> recorded c' room ids);
  store_CreateBattle config c room :
    store_ok c -> is_i64 room ->
    let c' := (CreateBattle config true c room).2 in
    store_ok c' /\ (forall room ids, recorded c room ids -> recorded c' room ids);
  store_ApplySettlement config c battle room winner ps res c' :
    store_ok c -> is_i64 room -> is_i64 winner -> (forall p, p ∈ ps -> is_i64 p) -> winner ∈ ps ->
    ApplySettlement config true c (mkBattle battle room winner "") (battle_result battle winner <$> ps) = (res, c') ->
    store_ok c' /\ (forall room ids, recorded c room ids -> recorded c' room ids)
    /\ (res = Ok true -> forall ids, (forall k, k ∈ ids <-> k ∈ ps) -> recorded c' room ids)
}.

(** ** The trivial contract *)
Section no_contract.
Context {Srv Rds : Type} {MA : MysqlApi Srv} {RA : RedisApi Rds}.

#[program] Definition NoContract : StoreContract Srv Rds := {|
  store_ok _ := True;
  recorded _ _ _ := True;
  quoted _ _ := True
|}.
Solve All Obligations with auto.
Next Obligation. intros. by destruct (EscapeString _ _ _). Qed.
End no_contract.

(** ** The ledger *)

(** A settled battle of the room among exactly these players, one of them the
    winner, and the points of each in the log. *)
Definition battle_recorded (t : Tables) (room : Z) (ids : list Z) : Prop :=
  exists b row, battles t !! b = Some row /\ bt_room row = room /\ bt_settled row = true
    /\ bt_winner row ∈ ids
    /\ (forall p, p ∈ ids <-> is_Some (logs t !! (b, p)))
    /\ (forall p, p ∈ ids -> logs t !! (b, p) = Some (if p =? bt_winner row then 20 else -10)).

Lemma battle_recorded_members t room ids ids' :
  (forall k, k ∈ ids' <-> k ∈ ids) -> battle_recorded t room ids -> battle_recorded t room ids'.
Proof.
  intros H (b & row & ? & ? & ? & Hw & Hin & Hlog). exists b, row. rewrite H. split_and!; try done.
  - intros p. by rewrite H.
  - intros p Hp. by apply Hlog, H.
Qed.

Lemma battle_recorded_steps t t' room ids :
  rtc table_step t t' -> battle_recorded t room ids -> battle_recorded t' room ids.
Proof.
  intros Hs. induction Hs as [t|t t1 t2 Ht _ IH]; [done|].
  intros (b & row & Hb & Hroom & Hset & Hw & Hin & Hlog). apply IH. exists b, row.
  destruct (step_frozen b row t t1 Hb Hset Ht) as [Hb1 Hr1].
  split_and!; [congruence|done|done|done|..].
  - intros p. rewrite Hin. by destruct (Hr1 p) as [_ ->].
  - intros p Hp. destruct (Hr1 p) as [_ ->]. by apply Hlog.
Qed.

Section ledger_contract.
Context {Srv Rds : Type} {MA : MysqlApi Srv} {ML : MysqlLaws Srv} {RA : RedisApi Rds} {RL : RedisLaws Rds}.
Notation Client := (MysqlClient Srv).

Definition ledger_ok (c : Client) : Prop := idle c /\ ledger (committed (srv c)).
Definition ledger_recorded (c : Client) : Z -> list Z -> Prop := battle_recorded (committed (srv c)).

Lemma ledger_extends (c c' : Client) :
  ledger_ok c -> idle c' /\ rtc table_step (committed (srv c)) (committed (srv c')) ->
  ledger_ok c' /\ (forall room ids, ledger_recorded c room ids -> ledger_recorded c' room ids).
Proof.
  intros [_ Hl] [Hi Hs]. split; [split; [done|by eapply steps_ledger]|].
  intros room ids. by apply battle_recorded_steps.
Qed.

#[program] Definition LedgerContract : StoreContract Srv Rds := {|
  store_ok := ledger_ok;
  recorded := ledger_recorded;
  quoted p name := name = escape ("player_" +:+ to_string p)
|}.
Next Obligation. intros c room ids ids'. apply battle_recorded_members. Qed.
Next Obligation.
  intros config c p [Hi Hl]. destruct (EscapeString _ _ _) as [name c'] eqn:He.
  destruct (EscapeString_plain _ _ _ _ _ Hi (plain_player_name p) He) as (-> & Hi' & Hco).
  split; [done|]. unfold ledger_ok, ledger_recorded. by rewrite Hco.
Qed.
Next Obligation.
  intros config c p name [Hi Hl] Hp ->. apply ledger_extends; [done|].
  apply steps_insert_player; [done|done|apply plain_player_name].
Qed.
Next Obligation. intros config c p [Hi Hl]. apply ledger_extends; [done|by apply steps_FindPlayer]. Qed.
Next Obligation. intros config c room [Hi Hl] ?. apply ledger_extends; [done|by apply steps_CreateBattle]. Qed.
Next Obligation.
  intros config c battle room winner ps res c' [Hi Hl] Hroom Hwin Hps Hin Hs.
  destruct (ApplySettlement_among _ _ _ _ _ _ _ _ Hi Hl Hroom Hwin Hps Hs) as (Hi' & Hl' & Hst & Hc).
  assert (He : ledger_ok c' /\ (forall room ids, ledger_recorded c room ids -> ledger_recorded c' room ids))
    by by apply ledger_extends.
  refine (conj (proj1 He) (conj (proj2 He) _)). intros ->.
  destruct Hc as [|(_ & row & Hrow & Hbr & Hset & Hw & Honly & Hall)]; [done|]. intros ids Hids.
  exists battle, row. rewrite Hw. split_and!; [done|done|done|by apply Hids| |].
  - intros p. rewrite Hids. split; [intros Hp; eexists; by apply Hall|intros [d Hd]; by eapply Honly].
  - intros p Hp%Hids. by apply Hall.
Qed.
End ledger_contract.
