(* ===== verification/Timer.v ===== *)
(** * Timer: the periodic tasks

    Models [timer/timer_manager.h/.cpp].  The callbacks are named, so that the
    list of tasks is data; [GameServer] gives them their meaning.  Times are
    milliseconds of the steady clock. *)
From S2P Require Import Prelude.
Local Open Scope Z_scope.

(** The callbacks the server registers. *)
Inductive TimerCallback := HeartbeatScan.

Record TimerTask := mkTask { interval_ms : Z; callback : TimerCallback; next_run : Z }.

Definition AddTimer (now interval : Z) (cb : TimerCallback) (tasks : list TimerTask) : list TimerTask :=
  tasks ++ [mkTask interval cb (now + interval)].

(** The loop over the tasks under the lock: the callbacks that are due, and the
    tasks with their next run. *)
Fixpoint collect_due (now : Z) (tasks : list TimerTask) : list TimerCallback * list TimerTask :=
  match tasks with
  | [] => ([], [])
  | task :: tasks =>
    let '(callbacks, tasks) := collect_due now tasks in
    if next_run task <=? now
    then (callback task :: callbacks, mkTask (interval_ms task) (callback task) (now + interval_ms task) :: tasks)
    else (callbacks, task :: tasks)
  end.

(** ** A task over time *)

(** The runs of one task when the loop wakes at the times [wakes]. *)
Fixpoint runs (task : TimerTask) (wakes : list Z) : list Z :=
  match wakes with
  | [] => []
  | now :: wakes =>
    match collect_due now [task] with
    | ([], _) => runs task wakes
    | (_, [task]) => now :: runs task wakes
    | _ => []
    end
  end.

(** Consecutive elements are at least [d] apart. *)
Fixpoint spaced (d : Z) (l : list Z) : Prop :=
  match l with
  | x :: ((y :: _) as l') => x + d <= y /\ spaced d l'
  | _ => True
  end.

Lemma runs_cons task now wakes :
  runs task (now :: wakes)
  = if next_run task <=? now
    then now :: runs (mkTask (interval_ms task) (callback task) (now + interval_ms task)) wakes
    else runs task wakes.
Proof. cbn. by destruct (next_run task <=? now). Qed.

Lemma runs_after task wakes t : t ∈ runs task wakes -> 0 <= interval_ms task -> next_run task <= t.
Proof.
  revert task. induction wakes as [|now wakes IH]; intros task; [intros Ht; by apply elem_of_nil in Ht|].
  rewrite runs_cons. destruct (Z.leb_spec (next_run task) now); [|apply IH].
  intros [->|Ht]%elem_of_cons Hd; [done|]. apply IH in Ht; cbn in *; lia.
Qed.

(** Whenever the loop wakes, the runs of a task are at least its interval
    apart, none is before its first due time, and a task that is due at a
    waking runs at that waking. *)
Theorem timer_runs_spaced (now interval : Z) (cb : TimerCallback) (wakes : list Z)
    (Hint : 0 <= interval) :
  let task := mkTask interval cb (now + interval) in
  AddTimer now interval cb [] = [task]
  /\ spaced interval (runs task wakes)
  /\ (forall t, t ∈ runs task wakes -> now + interval <= t)
  /\ (forall before t after, wakes = before ++ t :: after -> runs task before = [] ->
       now + interval <= t -> t ∈ runs task wakes).
Proof.
  intros task. split; [done|]. assert (Hsp : forall ws tk, interval_ms tk = interval -> spaced interval (runs tk ws)).
  { intros ws. induction ws as [|w ws IH]; intros tk Hi; [done|]. rewrite runs_cons.
    destruct (Z.leb_spec (next_run tk) w); [|by apply IH].
    pose proof (IH (mkTask (interval_ms tk) (callback tk) (w + interval_ms tk)) Hi) as Hs.
    pose proof (runs_after (mkTask (interval_ms tk) (callback tk) (w + interval_ms tk)) ws) as Ha.
    destruct (runs _ ws) as [|y l]; [done|]. split; [|done].
    specialize (Ha y (list_elem_of_here _ _)). cbn in Ha. lia. }
  split; [apply (Hsp wakes task); reflexivity|]. split.
  - intros t Ht. apply runs_after in Ht; cbn in *; lia.
  - intros before t after -> Hb Ht.
    assert (Hgen : forall tk, next_run tk <= t -> runs tk before = [] -> t ∈ runs tk (before ++ t :: after)).
    { clear Hb. induction before as [|w ws IH]; intros tk Hn.
      - intros _. cbn [app]. rewrite runs_cons, (proj2 (Z.leb_le _ _)) by done. left.
      - cbn [app]. rewrite !runs_cons. destruct (next_run tk <=? w); [done|]. by apply IH. }
    by apply Hgen.
Qed.

Lemma timer_runs_spaced_witness :
  let task := mkTask 5000 HeartbeatScan 5100 in
  runs task [100; 5090; 5105; 5200; 10110; 10200] = [5105; 10110]
  /\ AddTimer 100 5000 HeartbeatScan [] = [task]
  /\ spaced 5000 (runs task [100; 5090; 5105; 5200; 10110; 10200]).
Proof.
  cbn zeta. split; [reflexivity|].
  pose proof (timer_runs_spaced 100 5000 HeartbeatScan [100; 5090; 5105; 5200; 10110; 10200] ltac:(lia)) as H.
  split; [exact (proj1 H)|exact (proj1 (proj2 H))].
Defined.
