(* ===== verification/World.v ===== *)
(** * World: the shared state of the server and its primitive effects

    The services share objects through pointers ([server/service_context.h]);
    the model keeps them in one record.  A [SessionPtr], [RoomPtr] or
    [GameRoomPtr] is the address of an object in a heap, so that two tables can
    point to the same object; an object stays in its heap as long as a
    [shared_ptr] may reach it.  The address of a session is its id, the address
    of a room its room id (both are drawn once from [IdGenerator]), the address
    of a game room a fresh number.

    A handler reads and writes the world and may throw.  It is written over the
    class [Sections], which says where another thread may run; [M] is the reading
    in which none does, [Threads.Prog] the one in which any may. *)
From S2P Require Import Prelude Wire Net StdString Float32 Messages GameRoom MatchQueue Config Registry Room Mysql Repositories Redis Settlement Timer.
Local Open Scope string_scope.
Local Open Scope Z_scope.

(** ** ServiceContext (service_context.h): which pointers are not null *)
Record ServiceContext := mkServiceContext {
  connection_manager : bool;
  player_manager : bool;
  room_manager : bool;
  login_service : bool;
  match_service : bool;
  rank_service : bool;
  settlement_service : bool;
  game_loop : bool;
  mysql_client : bool;
  redis_client : bool;
  player_repository : bool;
  battle_repository : bool
}.
Definition ServiceContext_null : ServiceContext :=
  mkServiceContext false false false false false false false false false false false false.

(** [GameServer::PendingSettlement]; [next_attempt] starts at the epoch. *)
Record PendingSettlement := mkPending { ps_battle_id : Z; ps_next_attempt : Z }.
Definition PendingSettlement_default : PendingSettlement := mkPending 0 0.

Notation RoomPtr := Z (only parsing).
Notation GameRoomPtr := Z (only parsing).

(** ** The world *)
Record World (Srv Rds : Type) := mkWorld {
  w_config : ConfigManager;                       (* ConfigManager::Instance() *)
  w_ctx : ServiceContext;                         (* the pointers of ServiceContext that are set *)
  w_ids : IdGenerator;                            (* IdGenerator's counters *)
  w_now : Z;                                      (* NowMs() *)
  w_steady : Z;                                   (* steady_clock::now(), ms *)
  w_sessions : SessionHeap;                       (* Session objects, by address *)
  w_conns : gmap Z TcpConnection;                 (* live TcpConnection objects, by id *)
  w_cm : ConnectionManager;                       (* *connection_manager_ *)
  w_pm : PlayerManager;                           (* *player_manager_ *)
  w_room_heap : gmap Z Room;                      (* Room objects, by address *)
  w_rooms : gmap Z RoomPtr;                       (* RoomManager::rooms_ *)
  w_player_room_map : gmap Z Z;                   (* RoomManager::player_room_map_ *)
  w_games : gmap Z GameRoom;                      (* GameRoom objects, by address *)
  w_next_game : Z;                                (* the next free address of w_games *)
  w_loop_rooms : gmap Z GameRoomPtr;              (* GameLoop::rooms_ *)
  w_queue : MatchQueue;                           (* MatchService::queue_ *)
  w_account_players : gmap string Z;              (* LoginService::account_players_ *)
  w_session_tokens : gmap Z string;               (* LoginService::session_tokens_ *)
  w_mysql : MysqlClient Srv;                      (* *mysql_client_ *)
  w_redis : RedisClient Rds;                      (* *redis_client_ *)
  w_pending : gmap Z PendingSettlement;           (* pending_settlements_ *)
  w_timers : list TimerTask; (* TimerManager::tasks_ *)
  w_running : bool; (* TcpServer::running_ *)
  w_accepting : option Z (* the connection async_accept waits for *)
}.
Arguments mkWorld {Srv Rds}.
Arguments w_config {Srv Rds}.
Arguments w_ctx {Srv Rds}.
Arguments w_ids {Srv Rds}.
Arguments w_now {Srv Rds}.
Arguments w_steady {Srv Rds}.
Arguments w_sessions {Srv Rds}.
Arguments w_conns {Srv Rds}.
Arguments w_cm {Srv Rds}.
Arguments w_pm {Srv Rds}.
Arguments w_room_heap {Srv Rds}.
Arguments w_rooms {Srv Rds}.
Arguments w_player_room_map {Srv Rds}.
Arguments w_games {Srv Rds}.
Arguments w_next_game {Srv Rds}.
Arguments w_loop_rooms {Srv Rds}.
Arguments w_queue {Srv Rds}.
Arguments w_account_players {Srv Rds}.
Arguments w_session_tokens {Srv Rds}.
Arguments w_mysql {Srv Rds}.
Arguments w_redis {Srv Rds}.
Arguments w_pending {Srv Rds}.
Arguments w_timers {Srv Rds}.
Arguments w_running {Srv Rds}.
Arguments w_accepting {Srv Rds}.

(** Updates of one field. *)
Section updates.
Context {Srv Rds : Type}.
Notation World := (World Srv Rds).
Definition upd_config (f : ConfigManager -> ConfigManager) (w : World) : World :=
  mkWorld (f (w_config w)) (w_ctx w) (w_ids w) (w_now w) (w_steady w) (w_sessions w) (w_conns w) (w_cm w)
    (w_pm w) (w_room_heap w) (w_rooms w) (w_player_room_map w) (w_games w) (w_next_game w)
    (w_loop_rooms w) (w_queue w) (w_account_players w) (w_session_tokens w) (w_mysql w) (w_redis w)
    (w_pending w)
   (w_timers w) (w_running w) (w_accepting w).
Definition upd_ctx (f : ServiceContext -> ServiceContext) (w : World) : World :=
  mkWorld (w_config w) (f (w_ctx w)) (w_ids w) (w_now w) (w_steady w) (w_sessions w) (w_conns w) (w_cm w)
    (w_pm w) (w_room_heap w) (w_rooms w) (w_player_room_map w) (w_games w) (w_next_game w)
    (w_loop_rooms w) (w_queue w) (w_account_players w) (w_session_tokens w) (w_mysql w) (w_redis w)
    (w_pending w)
   (w_timers w) (w_running w) (w_accepting w).
Definition upd_ids (f : IdGenerator -> IdGenerator) (w : World) : World :=
  mkWorld (w_config w) (w_ctx w) (f (w_ids w)) (w_now w) (w_steady w) (w_sessions w) (w_conns w) (w_cm w)
    (w_pm w) (w_room_heap w) (w_rooms w) (w_player_room_map w) (w_games w) (w_next_game w)
    (w_loop_rooms w) (w_queue w) (w_account_players w) (w_session_tokens w) (w_mysql w) (w_redis w)
    (w_pending w)
   (w_timers w) (w_running w) (w_accepting w).
Definition upd_now (f : Z -> Z) (w : World) : World :=
  mkWorld (w_config w) (w_ctx w) (w_ids w) (f (w_now w)) (w_steady w) (w_sessions w) (w_conns w) (w_cm w)
    (w_pm w) (w_room_heap w) (w_rooms w) (w_player_room_map w) (w_games w) (w_next_game w)
    (w_loop_rooms w) (w_queue w) (w_account_players w) (w_session_tokens w) (w_mysql w) (w_redis w)
    (w_pending w)
   (w_timers w) (w_running w) (w_accepting w).
Definition upd_steady (f : Z -> Z) (w : World) : World :=
  mkWorld (w_config w) (w_ctx w) (w_ids w) (w_now w) (f (w_steady w)) (w_sessions w) (w_conns w) (w_cm w)
    (w_pm w) (w_room_heap w) (w_rooms w) (w_player_room_map w) (w_games w) (w_next_game w)
    (w_loop_rooms w) (w_queue w) (w_account_players w) (w_session_tokens w) (w_mysql w) (w_redis w)
    (w_pending w)
   (w_timers w) (w_running w) (w_accepting w).
Definition upd_sessions (f : SessionHeap -> SessionHeap) (w : World) : World :=
  mkWorld (w_config w) (w_ctx w) (w_ids w) (w_now w) (w_steady w) (f (w_sessions w)) (w_conns w) (w_cm w)
    (w_pm w) (w_room_heap w) (w_rooms w) (w_player_room_map w) (w_games w) (w_next_game w)
    (w_loop_rooms w) (w_queue w) (w_account_players w) (w_session_tokens w) (w_mysql w) (w_redis w)
    (w_pending w)
   (w_timers w) (w_running w) (w_accepting w).
Definition upd_conns (f : gmap Z TcpConnection -> gmap Z TcpConnection) (w : World) : World :=
  mkWorld (w_config w) (w_ctx w) (w_ids w) (w_now w) (w_steady w) (w_sessions w) (f (w_conns w)) (w_cm w)
    (w_pm w) (w_room_heap w) (w_rooms w) (w_player_room_map w) (w_games w) (w_next_game w)
    (w_loop_rooms w) (w_queue w) (w_account_players w) (w_session_tokens w) (w_mysql w) (w_redis w)
    (w_pending w)
   (w_timers w) (w_running w) (w_accepting w).
Definition upd_cm (f : ConnectionManager -> ConnectionManager) (w : World) : World :=
  mkWorld (w_config w) (w_ctx w) (w_ids w) (w_now w) (w_steady w) (w_sessions w) (w_conns w) (f (w_cm w))
    (w_pm w) (w_room_heap w) (w_rooms w) (w_player_room_map w) (w_games w) (w_next_game w)
    (w_loop_rooms w) (w_queue w) (w_account_players w) (w_session_tokens w) (w_mysql w) (w_redis w)
    (w_pending w)
   (w_timers w) (w_running w) (w_accepting w).
Definition upd_pm (f : PlayerManager -> PlayerManager) (w : World) : World :=
  mkWorld (w_config w) (w_ctx w) (w_ids w) (w_now w) (w_steady w) (w_sessions w) (w_conns w) (w_cm w)
    (f (w_pm w)) (w_room_heap w) (w_rooms w) (w_player_room_map w) (w_games w) (w_next_game w)
    (w_loop_rooms w) (w_queue w) (w_account_players w) (w_session_tokens w) (w_mysql w) (w_redis w)
    (w_pending w)
   (w_timers w) (w_running w) (w_accepting w).
Definition upd_room_heap (f : gmap Z Room -> gmap Z Room) (w : World) : World :=
  mkWorld (w_config w) (w_ctx w) (w_ids w) (w_now w) (w_steady w) (w_sessions w) (w_conns w) (w_cm w) (w_pm w)
    (f (w_room_heap w)) (w_rooms w) (w_player_room_map w) (w_games w) (w_next_game w) (w_loop_rooms w)
    (w_queue w) (w_account_players w) (w_session_tokens w) (w_mysql w) (w_redis w) (w_pending w)
   (w_timers w) (w_running w) (w_accepting w).
Definition upd_rooms (f : gmap Z RoomPtr -> gmap Z RoomPtr) (w : World) : World :=
  mkWorld (w_config w) (w_ctx w) (w_ids w) (w_now w) (w_steady w) (w_sessions w) (w_conns w) (w_cm w) (w_pm w)
    (w_room_heap w) (f (w_rooms w)) (w_player_room_map w) (w_games w) (w_next_game w) (w_loop_rooms w)
    (w_queue w) (w_account_players w) (w_session_tokens w) (w_mysql w) (w_redis w) (w_pending w)
   (w_timers w) (w_running w) (w_accepting w).
Definition upd_player_room_map (f : gmap Z Z -> gmap Z Z) (w : World) : World :=
  mkWorld (w_config w) (w_ctx w) (w_ids w) (w_now w) (w_steady w) (w_sessions w) (w_conns w) (w_cm w) (w_pm w)
    (w_room_heap w) (w_rooms w) (f (w_player_room_map w)) (w_games w) (w_next_game w) (w_loop_rooms w)
    (w_queue w) (w_account_players w) (w_session_tokens w) (w_mysql w) (w_redis w) (w_pending w)
   (w_timers w) (w_running w) (w_accepting w).
Definition upd_games (f : gmap Z GameRoom -> gmap Z GameRoom) (w : World) : World :=
  mkWorld (w_config w) (w_ctx w) (w_ids w) (w_now w) (w_steady w) (w_sessions w) (w_conns w) (w_cm w) (w_pm w)
    (w_room_heap w) (w_rooms w) (w_player_room_map w) (f (w_games w)) (w_next_game w) (w_loop_rooms w)
    (w_queue w) (w_account_players w) (w_session_tokens w) (w_mysql w) (w_redis w) (w_pending w)
   (w_timers w) (w_running w) (w_accepting w).
Definition upd_next_game (f : Z -> Z) (w : World) : World :=
  mkWorld (w_config w) (w_ctx w) (w_ids w) (w_now w) (w_steady w) (w_sessions w) (w_conns w) (w_cm w) (w_pm w)
    (w_room_heap w) (w_rooms w) (w_player_room_map w) (w_games w) (f (w_next_game w)) (w_loop_rooms w)
    (w_queue w) (w_account_players w) (w_session_tokens w) (w_mysql w) (w_redis w) (w_pending w)
   (w_timers w) (w_running w) (w_accepting w).
Definition upd_loop_rooms (f : gmap Z GameRoomPtr -> gmap Z GameRoomPtr) (w : World) : World :=
  mkWorld (w_config w) (w_ctx w) (w_ids w) (w_now w) (w_steady w) (w_sessions w) (w_conns w) (w_cm w) (w_pm w)
    (w_room_heap w) (w_rooms w) (w_player_room_map w) (w_games w) (w_next_game w) (f (w_loop_rooms w))
    (w_queue w) (w_account_players w) (w_session_tokens w) (w_mysql w) (w_redis w) (w_pending w)
   (w_timers w) (w_running w) (w_accepting w).
Definition upd_queue (f : MatchQueue -> MatchQueue) (w : World) : World :=
  mkWorld (w_config w) (w_ctx w) (w_ids w) (w_now w) (w_steady w) (w_sessions w) (w_conns w) (w_cm w) (w_pm w)
    (w_room_heap w) (w_rooms w) (w_player_room_map w) (w_games w) (w_next_game w) (w_loop_rooms w)
    (f (w_queue w)) (w_account_players w) (w_session_tokens w) (w_mysql w) (w_redis w) (w_pending w)
   (w_timers w) (w_running w) (w_accepting w).
Definition upd_account_players (f : gmap string Z -> gmap string Z) (w : World) : World :=
  mkWorld (w_config w) (w_ctx w) (w_ids w) (w_now w) (w_steady w) (w_sessions w) (w_conns w) (w_cm w) (w_pm w)
    (w_room_heap w) (w_rooms w) (w_player_room_map w) (w_games w) (w_next_game w) (w_loop_rooms w)
    (w_queue w) (f (w_account_players w)) (w_session_tokens w) (w_mysql w) (w_redis w) (w_pending w)
   (w_timers w) (w_running w) (w_accepting w).
Definition upd_session_tokens (f : gmap Z string -> gmap Z string) (w : World) : World :=
  mkWorld (w_config w) (w_ctx w) (w_ids w) (w_now w) (w_steady w) (w_sessions w) (w_conns w) (w_cm w) (w_pm w)
    (w_room_heap w) (w_rooms w) (w_player_room_map w) (w_games w) (w_next_game w) (w_loop_rooms w)
    (w_queue w) (w_account_players w) (f (w_session_tokens w)) (w_mysql w) (w_redis w) (w_pending w)
   (w_timers w) (w_running w) (w_accepting w).
Definition upd_mysql (f : MysqlClient Srv -> MysqlClient Srv) (w : World) : World :=
  mkWorld (w_config w) (w_ctx w) (w_ids w) (w_now w) (w_steady w) (w_sessions w) (w_conns w) (w_cm w) (w_pm w)
    (w_room_heap w) (w_rooms w) (w_player_room_map w) (w_games w) (w_next_game w) (w_loop_rooms w)
    (w_queue w) (w_account_players w) (w_session_tokens w) (f (w_mysql w)) (w_redis w) (w_pending w)
   (w_timers w) (w_running w) (w_accepting w).
Definition upd_redis (f : RedisClient Rds -> RedisClient Rds) (w : World) : World :=
  mkWorld (w_config w) (w_ctx w) (w_ids w) (w_now w) (w_steady w) (w_sessions w) (w_conns w) (w_cm w) (w_pm w)
    (w_room_heap w) (w_rooms w) (w_player_room_map w) (w_games w) (w_next_game w) (w_loop_rooms w)
    (w_queue w) (w_account_players w) (w_session_tokens w) (w_mysql w) (f (w_redis w)) (w_pending w)
   (w_timers w) (w_running w) (w_accepting w).
Definition upd_pending (f : gmap Z PendingSettlement -> gmap Z PendingSettlement) (w : World) : World :=
  mkWorld (w_config w) (w_ctx w) (w_ids w) (w_now w) (w_steady w) (w_sessions w) (w_conns w) (w_cm w) (w_pm w)
    (w_room_heap w) (w_rooms w) (w_player_room_map w) (w_games w) (w_next_game w) (w_loop_rooms w)
    (w_queue w) (w_account_players w) (w_session_tokens w) (w_mysql w) (w_redis w) (f (w_pending w))
   (w_timers w) (w_running w) (w_accepting w).
Definition upd_timers (f : list TimerTask -> list TimerTask) (w : World) : World :=
  mkWorld (w_config w) (w_ctx w) (w_ids w) (w_now w) (w_steady w) (w_sessions w) (w_conns w) (w_cm w) (w_pm w)
    (w_room_heap w) (w_rooms w) (w_player_room_map w) (w_games w) (w_next_game w) (w_loop_rooms w)
    (w_queue w) (w_account_players w) (w_session_tokens w) (w_mysql w) (w_redis w) (w_pending w)
    (f (w_timers w)) (w_running w) (w_accepting w).
Definition upd_running (f : bool -> bool) (w : World) : World :=
  mkWorld (w_config w) (w_ctx w) (w_ids w) (w_now w) (w_steady w) (w_sessions w) (w_conns w) (w_cm w) (w_pm w)
    (w_room_heap w) (w_rooms w) (w_player_room_map w) (w_games w) (w_next_game w) (w_loop_rooms w)
    (w_queue w) (w_account_players w) (w_session_tokens w) (w_mysql w) (w_redis w) (w_pending w)
    (w_timers w) (f (w_running w)) (w_accepting w).
Definition upd_accepting (f : option Z -> option Z) (w : World) : World :=
  mkWorld (w_config w) (w_ctx w) (w_ids w) (w_now w) (w_steady w) (w_sessions w) (w_conns w) (w_cm w) (w_pm w)
    (w_room_heap w) (w_rooms w) (w_player_room_map w) (w_games w) (w_next_game w) (w_loop_rooms w)
    (w_queue w) (w_account_players w) (w_session_tokens w) (w_mysql w) (w_redis w) (w_pending w)
    (w_timers w) (w_running w) (f (w_accepting w)).
End updates.

(** ** Computations *)
Definition M (Srv Rds A : Type) : Type := World Srv Rds -> result A * World Srv Rds.

#[export] Instance M_ret {Srv Rds} : MRet (M Srv Rds) := fun A a w => (Ok a, w).
#[export] Instance M_bind {Srv Rds} : MBind (M Srv Rds) :=
  fun A B f m w => match m w with (Ok a, w) => f a w | (Throw e, w) => (Throw e, w) end.

(** A handler is written over the monad it runs in: what it does between two
    points where another thread may run is one [critical] section, a computation
    in [M].  [while_] is a loop that goes on as long as its body says so; its
    first argument bounds the turns of a run that nobody disturbs.
    [unspecified] is a choice C++ leaves to the compiler. *)
Class Sections (Srv Rds : Type) (proc : Type -> Type) := {
  sections_ret :: MRet proc;
  sections_bind :: MBind proc;
  critical {A} : M Srv Rds A -> proc A;
  catch_ : proc unit -> proc unit -> proc unit;
  while_ : (World Srv Rds -> nat) -> proc bool -> proc unit;
  unspecified : proc nat
}.

(** The handler alone, from beginning to end. *)
Fixpoint M_while {Srv Rds} (fuel : nat) (body : M Srv Rds bool) : M Srv Rds unit :=
  match fuel with
  | O => mret tt
  | S fuel => again ← body; if again : bool then M_while fuel body else mret tt
  end.

#[export] Instance M_sections {Srv Rds} : Sections Srv Rds (M Srv Rds) := {
  sections_ret := M_ret;
  sections_bind := M_bind;
  critical A section := section;
  catch_ m h w := match m w with (Throw _, w) => h w | r => r end;
  while_ fuel body w := M_while (fuel w) body w;
  unspecified w := (Ok O, w)
}.

Section effects.
Context {Srv Rds : Type} {MA : MysqlApi Srv} {RA : RedisApi Rds} {PB : Protobuf}.
Context {proc : Type -> Type} {SE : Sections Srv Rds proc}.
Notation World := (World Srv Rds).
Notation M := (M Srv Rds).

Definition reads {A} (f : World -> A) : proc A := critical (fun w => (Ok (f w), w)).
Definition writes (f : World -> World) : proc unit := critical (fun w => (Ok tt, f w)).

(** [for (auto x : l) f(x);] *)
Fixpoint for_each {A} (l : list A) (f : A -> proc unit) : proc unit :=
  match l with
  | [] => mret tt
  | x :: l => f x ;; for_each l f
  end.

Definition when_ (b : bool) (m : proc unit) : proc unit := if b then m else mret tt.

(** The arguments of a call are evaluated in any order. *)
Definition arguments {A B C} (a : proc A) (b : proc B) (c : proc C) : proc (A * B * C) :=
  order ← unspecified;
  match (order `mod` 6)%nat with
  | 0%nat => x ← a; y ← b; z ← c; mret (x, y, z)
  | 1%nat => x ← a; z ← c; y ← b; mret (x, y, z)
  | 2%nat => y ← b; x ← a; z ← c; mret (x, y, z)
  | 3%nat => y ← b; z ← c; x ← a; mret (x, y, z)
  | 4%nat => z ← c; x ← a; y ← b; mret (x, y, z)
  | _ => z ← c; y ← b; x ← a; mret (x, y, z)
  end.

(** [IdGenerator::Next...], an atomic increment. *)
Definition next_id (f : IdGenerator -> Z * IdGenerator) : proc Z :=
  critical (fun w => let '(z, g) := f (w_ids w) in (Ok z, upd_ids (fun _ => g) w)).

(** A method of the clients, under the lock of the client. *)
Definition with_mysql {A} (f : MysqlClient Srv -> result A * MysqlClient Srv) : proc A :=
  critical (fun w => let '(r, c) := f (w_mysql w) in (r, upd_mysql (fun _ => c) w)).
Definition with_redis {A} (f : RedisClient Rds -> A * RedisClient Rds) : proc A :=
  critical (fun w => let '(a, c) := f (w_redis w) in (Ok a, upd_redis (fun _ => c) w)).

(** ** Session (session.cpp): the methods that reach the connection *)
Definition on_conn (session : SessionPtr) (f : TcpConnection -> TcpConnection) : proc unit :=
  writes (fun w =>
    match w_sessions w !! session ≫= conn_ with
    | Some conn => upd_conns (alter f conn) w      (* no effect when the pointer has expired *)
    | None => w
    end).
Definition Session_SendPacket (session : SessionPtr) (packet : Packet) : proc unit :=
  on_conn session (TcpConnection_Send packet).
Definition Session_Send (session : SessionPtr) (msg_id : Z) (msg : Message) : proc unit :=
  Session_SendPacket session (ProtoHelper_Build msg_id msg 0).
Definition Session_Close (session : SessionPtr) : proc unit := on_conn session TcpConnection_Close.

(** A setter through a [SessionPtr]. *)
Definition on_session (session : SessionPtr) (f : Session -> Session) : proc unit :=
  writes (upd_sessions (alter f session)).
Definition NowMs : proc Z := reads w_now.
Definition UpdateHeartbeatTime (session : SessionPtr) : proc unit :=
  now ← NowMs; on_session session (Session_UpdateHeartbeatTime now).

Definition session_player (session : SessionPtr) : proc Z := reads (fun w => PlayerId (w_sessions w) session).
Definition session_room (session : SessionPtr) : proc Z := reads (fun w => RoomId (w_sessions w) session).

(** ** The managers, from a service *)
Definition GetByPlayerId (player_id : Z) : proc (option SessionPtr) :=
  reads (fun w => CM_GetByPlayerId (w_cm w) player_id).
Definition GetOrCreatePlayer (player_id : Z) (name : string) : proc Z :=
  critical (fun w => let '(p, pm) := PM_GetOrCreatePlayer (w_pm w) player_id name in (Ok p, upd_pm (fun _ => pm) w)).
(** A setter through a [PlayerPtr]. *)
Definition on_player (player : Z) (f : Player -> Player) : proc unit := writes (upd_pm (PM_update f player)).

(** ** Rooms *)
Definition on_room (room : RoomPtr) (f : Room -> Room) : proc unit := writes (upd_room_heap (alter f room)).
Definition room_in (w : World) (room : RoomPtr) : Room := default (Room_new room) (w_room_heap w !! room).
Definition room_at (room : RoomPtr) : proc Room := reads (fun w => room_in w room).

(** [Room::Broadcast]. *)
Definition Room_Broadcast (room : RoomPtr) (msg_id : Z) (msg : Message) : proc unit :=
  r ← room_at room;
  let player_ids := Room_PlayerIds r in
  ctx ← reads w_ctx;
  if negb (connection_manager ctx) then mret tt
  else for_each player_ids (fun player_id =>
         session ← GetByPlayerId player_id;
         match session with Some s => Session_Send s msg_id msg | None => mret tt end).

(** [Room::SetReadyAndTryStart] with its broadcast. *)
Definition SetReadyAndTryStart (room : RoomPtr) (player_id : Z) (ready : bool) : proc bool :=
  res ← critical (fun w =>
    let '(res, r) := Room_SetReadyAndTryStart (room_in w room) player_id ready in
    (Ok res, upd_room_heap (alter (fun _ => r) room) w));
  match res with
  | None => mret false
  | Some started => Room_Broadcast room MSG_READY_NOTIFY (ReadyNotify player_id ready) ;; mret started
  end.

(** [Room::SetReady] with its broadcast. *)
Definition SetReady (room : RoomPtr) (player_id : Z) (ready : bool) : proc unit :=
  told ← critical (fun w =>
    let '(told, r) := Room_SetReady (room_in w room) player_id ready in
    (Ok told, upd_room_heap (alter (fun _ => r) room) w));
  when_ told (Room_Broadcast room MSG_READY_NOTIFY (ReadyNotify player_id ready)).

(** [Room::OnPlayerReconnect]. *)
Definition OnPlayerReconnect (room : RoomPtr) (player_id : Z) (session : option SessionPtr) : proc unit :=
  on_room room (fun r => Room_OnPlayerReconnect r player_id) ;;
  r ← room_at room;
  match session with Some s => on_session s (Session_SetRoomId (r_room_id r)) | None => mret tt end.

(** ** GameLoop (game_loop.cpp): the table of running battles *)
Definition GameLoop_AddRoom (room : option GameRoomPtr) : proc unit :=
  match room with
  | None => mret tt
  | Some g =>
    room_id ← reads (fun w => default 0 (gr_room_id <$> w_games w !! g));
    writes (upd_loop_rooms (insert room_id g))
  end.
Definition GameLoop_RemoveRoom (room_id : Z) : proc unit := writes (upd_loop_rooms (delete room_id)).
Definition GameLoop_GetRoom (room_id : Z) : proc (option GameRoomPtr) :=
  reads (fun w => w_loop_rooms w !! room_id).
Definition on_game (g : GameRoomPtr) (f : GameRoom -> GameRoom) : proc unit := writes (upd_games (alter f g)).

(** [std::make_shared<GameRoom>]. *)
Definition new_game (g : GameRoom) : proc GameRoomPtr :=
  critical (fun w => (Ok (w_next_game w), upd_next_game (Z.add 1) (upd_games (insert (w_next_game w) g) w))).
End effects.
