(* ===== verification/Reason.v ===== *)
(** * Reason: triples for handlers

    [triple T P m Q]: from a world with [P], the computation [m] returns [a] in
    a world with [Q a], or throws in a world with [T].  [inv T I m] is the case
    of an invariant; [keeps I m] lets [m] throw as long as the invariant holds,
    [safe I m] says that it does not throw.  The rules follow the constructs of
    the handlers; [keeps_tac] applies them down to the primitive updates, which
    it closes when the invariant does not read the updated field.  Lemmas on
    larger pieces are in the hint database [keeps]. *)
From S2P Require Import Prelude Wire Net StdString Messages GameRoom MatchQueue Config Registry Room Mysql Repositories Redis Settlement Timer World.
Local Open Scope Z_scope.

Create HintDb keeps.

Section triples.
Context {Srv Rds : Type}.
Notation World := (World Srv Rds).
Notation M := (M Srv Rds).
Implicit Types (I P : World -> Prop) (T : World -> Prop).

Definition triple T P {A} (m : M A) (Q : A -> World -> Prop) : Prop :=
  forall w, P w -> match m w with (Ok a, w') => Q a w' | (Throw _, w') => T w' end.

Definition inv T I {A} (m : M A) : Prop := triple T I m (fun _ => I).
Definition keeps I {A} (m : M A) : Prop := inv I I m.
Definition safe I {A} (m : M A) : Prop := inv (fun _ => False) I m.

(** ** Consequence *)
Lemma triple_weaken T T' P P' {A} (m : M A) (Q Q' : A -> World -> Prop) :
  triple T P m Q -> (forall w, P' w -> P w) -> (forall a w, Q a w -> Q' a w) ->
  (forall w, T w -> T' w) -> triple T' P' m Q'.
Proof.
  intros H HP HQ HT w Hw. specialize (H w (HP w Hw)). destruct (m w) as [[a|e] w']; auto.
Qed.

Lemma triple_pre T P P' {A} (m : M A) Q :
  triple T P m Q -> (forall w, P' w -> P w) -> triple T P' m Q.
Proof. eauto using triple_weaken. Qed.

Lemma triple_post T P {A} (m : M A) (Q Q' : A -> World -> Prop) :
  triple T P m Q -> (forall a w, Q a w -> Q' a w) -> triple T P m Q'.
Proof. eauto using triple_weaken. Qed.

(** A fact about the first world. *)
Lemma triple_pull T P (F : Prop) {A} (m : M A) Q :
  (F -> triple T P m Q) -> triple T (fun w => F /\ P w) m Q.
Proof. intros H w [HF Hw]. by apply H. Qed.

Lemma safe_triple T I {A} (m : M A) : safe I m -> inv T I m.
Proof. intros H. eapply triple_weaken; [exact H|done..]. Qed.

Lemma keeps_run I {A} (m : M A) w : keeps I m -> I w -> I (m w).2.
Proof. intros H Hw. specialize (H w Hw). by destruct (m w) as [[a|e] w']. Qed.

(** Two invariants together. *)
Lemma keeps_and I1 I2 {A} (m : M A) :
  keeps I1 m -> keeps I2 m -> keeps (fun w => I1 w /\ I2 w) m.
Proof.
  intros H1 H2 w [Hw1 Hw2]. specialize (H1 w Hw1). specialize (H2 w Hw2).
  by destruct (m w) as [[a|e] w'].
Qed.

Lemma triple_and T P1 P2 {A} (m : M A) Q1 Q2 :
  triple T P1 m Q1 -> triple T P2 m Q2 ->
  triple T (fun w => P1 w /\ P2 w) m (fun a w => Q1 a w /\ Q2 a w).
Proof.
  intros H1 H2 w [Hw1 Hw2]. specialize (H1 w Hw1). specialize (H2 w Hw2).
  by destruct (m w) as [[a|e] w'].
Qed.

Lemma triple_and2 T1 T2 P1 P2 {A} (m : M A) Q1 Q2 :
  triple T1 P1 m Q1 -> triple T2 P2 m Q2 ->
  triple (fun w => T1 w /\ T2 w) (fun w => P1 w /\ P2 w) m (fun a w => Q1 a w /\ Q2 a w).
Proof.
  intros H1 H2 w [Hw1 Hw2]. specialize (H1 w Hw1). specialize (H2 w Hw2).
  by destruct (m w) as [[a|e] w'].
Qed.

(** An invariant that needs another one. *)
Lemma inv_stack T I1 I2 {A} (m : M A) :
  inv T I1 m -> triple T (fun w => I1 w /\ I2 w) m (fun _ => I2) -> inv T (fun w => I1 w /\ I2 w) m.
Proof.
  intros H1 H2 w [Hw1 Hw2]. specialize (H1 w Hw1). specialize (H2 w (conj Hw1 Hw2)).
  by destruct (m w) as [[a|e] w'].
Qed.

Lemma keeps_stack I1 I2 {A} (m : M A) :
  keeps I1 m -> triple I2 (fun w => I1 w /\ I2 w) m (fun _ => I2) -> keeps (fun w => I1 w /\ I2 w) m.
Proof.
  intros H1 H2 w [Hw1 Hw2]. specialize (H1 w Hw1). specialize (H2 w (conj Hw1 Hw2)).
  by destruct (m w) as [[a|e] w'].
Qed.

(** ** The constructs *)
Lemma triple_ret T P {A} (a : A) (Q : A -> World -> Prop) :
  (forall w, P w -> Q a w) -> triple T P (mret a) Q.
Proof. intros H w Hw. by apply H. Qed.

Lemma triple_bind T P {A B} (m : M A) (f : A -> M B) R Q :
  triple T P m R -> (forall a, triple T (R a) (f a) Q) -> triple T P (m ≫= f) Q.
Proof.
  intros Hm Hf w Hw. specialize (Hm w Hw). unfold mbind, M_bind.
  destruct (m w) as [[a|e] w1]; [by apply Hf|done].
Qed.

(** A read, and code that uses what was read. *)
Lemma triple_reads_bind T P {A B} (f : World -> A) (k : A -> M B) Q :
  (forall v, triple T (fun w => P w /\ f w = v) (k v) Q) -> triple T P (reads f ≫= k) Q.
Proof. intros H w Hw. by apply (H (f w) w). Qed.

Lemma triple_writes T P (f : World -> World) Q :
  (forall w, P w -> Q tt (f w)) -> triple T P (writes f) Q.
Proof. intros H w Hw. by apply H. Qed.

Lemma triple_for_each T I {A} (l : list A) (f : A -> M unit) :
  (forall x, x ∈ l -> inv T I (f x)) -> inv T I (for_each l f).
Proof.
  induction l as [|x l IH]; intros Hf; [by apply triple_ret|]. cbn [for_each].
  apply (triple_bind _ _ _ _ (fun _ => I)); [apply Hf; left|]. intros _. apply IH. intros; apply Hf. by right.
Qed.

Lemma triple_catch T T' P (m h : M unit) Q :
  triple T' P m Q -> triple T T' h Q ->
  triple T P (catch_ m h) Q.
Proof.
  intros Hm Hh w Hw. specialize (Hm w Hw). cbn. destruct (m w) as [[a|e] w1]; [done|by apply Hh].
Qed.

(** ** Invariants *)
Lemma inv_ret T I {A} (a : A) : inv T I (mret a).
Proof. by apply triple_ret. Qed.

Lemma inv_bind T I {A B} (m : M A) (f : A -> M B) :
  inv T I m -> (forall a, inv T I (f a)) -> inv T I (m ≫= f).
Proof. apply (triple_bind _ _ _ _ (fun _ => I)). Qed.

Lemma inv_reads T I {A} (f : World -> A) : inv T I (reads f).
Proof. by intros w Hw. Qed.

Lemma inv_writes T I (f : World -> World) : (forall w, I w -> I (f w)) -> inv T I (writes f).
Proof. intros. by apply triple_writes. Qed.

Lemma inv_when T I b (m : M unit) : inv T I m -> inv T I (when_ b m).
Proof. intros Hm. destruct b; [exact Hm|apply inv_ret]. Qed.

Lemma inv_for_each T I {A} (l : list A) (f : A -> M unit) :
  (forall x, inv T I (f x)) -> inv T I (for_each l f).
Proof. intros. by apply triple_for_each. Qed.

Lemma inv_with_mysql T I {A} (f : MysqlClient Srv -> result A * MysqlClient Srv) :
  (forall w, I w -> T w) -> (forall w c, I w -> I (upd_mysql (fun _ => c) w)) -> inv T I (with_mysql f).
Proof.
  intros HT H w Hw. unfold with_mysql. cbn. destruct (f (w_mysql w)) as [[a|e] c]; auto.
Qed.

Lemma inv_with_redis T I {A} (f : RedisClient Rds -> A * RedisClient Rds) :
  (forall w c, I w -> I (upd_redis (fun _ => c) w)) -> inv T I (with_redis f).
Proof. intros H w Hw. unfold with_redis. cbn. destruct (f (w_redis w)) as [a c]. auto. Qed.

Lemma inv_critical T I {A} (m : M A) : inv T I m -> inv T I (critical m).
Proof. done. Qed.

Lemma inv_while T I fuel (body : M bool) : inv T I body -> inv T I (while_ fuel body).
Proof.
  intros Hb w Hw. cbn. generalize (fuel w). intros n. revert w Hw. induction n as [|n IH]; [done|].
  apply (triple_bind _ _ _ _ (fun _ => I)); [exact Hb|]. intros []; [exact IH|by apply triple_ret].
Qed.

Lemma inv_unspecified T I : inv T I unspecified.
Proof. by intros w Hw. Qed.

Lemma inv_arguments T I {A B C} (a : M A) (b : M B) (c : M C) :
  inv T I a -> inv T I b -> inv T I c -> inv T I (arguments a b c).
Proof.
  intros Ha Hb Hc. apply inv_bind; [apply inv_unspecified|]. intros n.
  destruct (n `mod` 6)%nat as [|[|[|[|[|k]]]]].
  all: repeat (apply inv_bind; [done|]; intros ?); apply inv_ret.
Qed.

Lemma inv_next_id T I f :
  (forall w, I w -> I (upd_ids (fun _ => (f (w_ids w)).2) w)) -> inv T I (next_id f).
Proof. intros H w Hw. unfold next_id. cbn. specialize (H w Hw). by destruct (f (w_ids w)) as [z g]. Qed.

Lemma inv_GetOrCreatePlayer T I p name :
  (forall w pm, I w -> I (upd_pm (fun _ => pm) w)) -> inv T I (GetOrCreatePlayer p name).
Proof.
  intros H w Hw. unfold GetOrCreatePlayer. cbn. destruct (PM_GetOrCreatePlayer _ _ _) as [q pm]. by apply H.
Qed.

Lemma inv_on_conn T I s f :
  (forall w c, I w -> I (upd_conns c w)) -> inv T I (on_conn s f).
Proof. intros H w Hw. cbn. destruct (_ ≫= _); auto. Qed.

Lemma inv_new_game T I g :
  (forall w, I w -> I (upd_next_game (Z.add 1) (upd_games (insert (w_next_game w) g) w))) ->
  inv T I (new_game g).
Proof. intros H w Hw. by apply H. Qed.
End triples.

(** Close the goal of a primitive whose field the invariant does not read. *)
Ltac keeps_frame :=
  let w := fresh "w" in intros w; intros; match goal with H : _ |- _ => exact H end.

Ltac head_of m := lazymatch m with ?f _ => head_of f | _ => m end.
Ltac unfold_head m := let h := head_of m in unfold h; cbv beta zeta.

(** The sections of a handler that runs alone. *)
Ltac sections := cbn [critical catch_ while_ unspecified M_sections sections_ret sections_bind].

(** A section written out as [let '(a, b) := ... in ...]. *)
Ltac keeps_section :=
  let w := fresh "w" in let Hw := fresh "Hw" in
  intros w Hw; cbv beta;
  repeat (match goal with
    | |- context [match ?x with pair _ _ => _ end] =>
      lazymatch x with context [match _ with pair _ _ => _ end] => fail | _ => destruct x end
    end; cbv beta iota);
  first [exact Hw | case_match; first [exact Hw | exact (conj I Hw)]].

(** The rule of the construct at the head of the computation; [GameServer]'s
    constructs are added in [Steps]. *)
Ltac keeps_rule m :=
  lazymatch m with
  | mret _ => apply inv_ret
  | mbind _ _ => apply inv_bind; [|intros]
  | reads _ => apply inv_reads
  | writes _ => apply inv_writes; solve [keeps_frame]
  | when_ _ _ => apply inv_when
  | critical _ => apply inv_critical
  | while_ _ _ => apply inv_while
  | unspecified => apply inv_unspecified
  | arguments _ _ _ => apply inv_arguments
  | for_each _ _ => apply inv_for_each; intros
  | with_mysql _ => apply inv_with_mysql; solve [keeps_frame]
  | with_redis _ => apply inv_with_redis; solve [keeps_frame]
  | next_id _ => apply inv_next_id; solve [keeps_frame]
  | GetOrCreatePlayer _ _ => apply inv_GetOrCreatePlayer; solve [keeps_frame]
  | on_conn _ _ => apply inv_on_conn; solve [keeps_frame]
  | new_game _ => apply inv_new_game; solve [keeps_frame]
  | match _ with _ => _ end => case_match
  | (fun _ => _) => keeps_section
  | _ => unfold_head m
  end.

Ltac keeps_step :=
  lazymatch goal with
  | |- inv _ _ ?m => first [ solve [auto 1 with keeps nocore] | keeps_rule m ]
  end.
Ltac as_inv :=
  lazymatch goal with
  | |- triple ?T ?P ?m _ => change (inv T P m)
  | |- _ => unfold keeps, safe
  end.
Ltac keeps_tac := as_inv; repeat keeps_step.
