(* ===== verification/Lobby.v ===== *)
(** * Lobby: rooms and matching

    Models [room/room_manager.h/.cpp] and [match/match_service.h/.cpp], handler
    by handler.  A handler receives a [SessionPtr] that may be null and a
    packet. *)
From S2P Require Import Prelude Wire Net StdString Float32 Messages GameRoom MatchQueue Config Registry Room Mysql Repositories Redis Settlement World.
Local Open Scope string_scope.
Local Open Scope Z_scope.

Section lobby.
Context {Srv Rds : Type} {MA : MysqlApi Srv} {RA : RedisApi Rds} {PB : Protobuf}.
Context {proc : Type -> Type} {SE : Sections Srv Rds proc}.
Notation World := (World Srv Rds).
Notation M := (M Srv Rds).

(** ** RoomManager (room_manager.cpp) *)

(** The room with its players, [Room::AddPlayer] for each id in turn. *)
Definition add_players (room : Room) (player_ids : list Z) : Room :=
  fold_left (fun r player_id => (Room_AddPlayer r player_id).2) player_ids room.

(** The part of [CreateRoom] under the lock.  The tables, which only holders of the
    lock see, are one section; [GetByPlayerId] and [SetRoomId] take other locks or
    none and are sections of their own ([CreateRoom_player]), after which other
    threads may run.  The lock is then no longer held in the model, which allows
    more interleavings than the code. *)
Definition CreateRoom_tables (room_id : Z) (room : RoomPtr) (player_ids : list Z) : M unit :=
  writes (upd_rooms (insert room_id room)) ;;
  for_each player_ids (fun player_id => writes (upd_player_room_map (insert player_id room_id))).

Definition CreateRoom_player (room_id player_id : Z) : proc unit :=
  ctx ← reads w_ctx;
  when_ (connection_manager ctx)
    (session ← GetByPlayerId player_id;
     match session with Some s => on_session s (Session_SetRoomId room_id) | None => mret tt end).

Definition CreateRoom (player_ids : list Z) : proc RoomPtr :=
  room_id ← next_id NextRoomId;
  let room := room_id in
  writes (upd_room_heap (insert room (add_players (Room_new room_id) player_ids))) ;;
  critical (CreateRoom_tables room_id room player_ids) ;;
  for_each player_ids (CreateRoom_player room_id) ;;
  mret room.

Definition GetRoom (room_id : Z) : proc (option RoomPtr) := reads (fun w => w_rooms w !! room_id).

(** The part of [RemoveRoom] under the lock: the players of the room. *)
Definition RemoveRoom_tables (room_id : Z) : M (list Z) :=
  it ← reads (fun w => w_rooms w !! room_id);
  player_ids ← match it with
               | Some room =>
                 r ← room_at room;
                 for_each (Room_PlayerIds r) (fun player_id => writes (upd_player_room_map (delete player_id))) ;;
                 mret (Room_PlayerIds r)
               | None => mret []
               end;
  writes (upd_rooms (delete room_id)) ;;
  mret player_ids.

(** What [RemoveRoom] does for one of its players. *)
Definition RemoveRoom_player (player_id : Z) : proc unit :=
  ctx ← reads w_ctx;
  session ← (if connection_manager ctx then GetByPlayerId player_id else mret None);
  (match session with Some s => on_session s (Session_SetRoomId 0) | None => mret tt end) ;;
  when_ (player_manager ctx)
    (player ← GetOrCreatePlayer player_id "";
     on_player player (Player_SetRoomId 0) ;;
     on_player player (Player_SetStatus (if session is Some _ then Online else Offline))).

Definition RemoveRoom (room_id : Z) : proc unit :=
  player_ids ← critical (RemoveRoom_tables room_id);
  for_each player_ids RemoveRoom_player ;;
  ctx ← reads w_ctx;
  when_ (game_loop ctx) (GameLoop_RemoveRoom room_id).

Definition GetPlayerRoom (player_id : Z) : proc (option RoomPtr) :=
  reads (fun w =>
    match w_player_room_map w !! player_id with
    | None => None
    | Some room_id => w_rooms w !! room_id
    end).

Definition StartGameRoom (room : RoomPtr) : proc unit :=
  ctx ← reads w_ctx;
  if negb (game_loop ctx) then mret tt
  else
    r ← room_at room;
    let player_ids := Room_PlayerIds r in
    game_room ← new_game (GameRoom_Start (GameRoom_new (r_room_id r)) player_ids);
    GameLoop_AddRoom (Some game_room) ;;
    for_each player_ids (fun player_id =>
      when_ (player_manager ctx)
        (player ← GetOrCreatePlayer player_id "";
         on_player player (Player_SetStatus Playing) ;;
         on_player player (Player_SetRoomId (r_room_id r)))) ;;
    Room_Broadcast room MSG_ROOM_STATE_NOTIFY
      (RoomStateNotify (r_room_id r) (RoomState.to_int RoomState.Playing) player_ids).

Definition HandleReady (session : option SessionPtr) (packet : Packet) : proc unit :=
  match session with
  | None => mret tt
  | Some s =>
    match parse_ready packet with
    | None => mret tt
    | Some ready =>
      player_id ← session_player s;
      room ← GetPlayerRoom player_id;
      match room with
      | None => mret tt
      | Some room =>
        started ← SetReadyAndTryStart room player_id ready;
        when_ started (StartGameRoom room)
      end
    end
  end.

Definition HandleInput (session : option SessionPtr) (packet : Packet) : proc unit :=
  ctx ← reads w_ctx;
  match session with
  | None => mret tt
  | Some s =>
    if negb (game_loop ctx) then mret tt
    else
      match parse_input packet with
      | None => mret tt
      | Some i =>
        room_id ← session_room s;
        game_room ← GameLoop_GetRoom room_id;
        match game_room with
        | None => mret tt
        | Some g =>
          own_id ← session_player s;
          now ← NowMs;
          on_game g (fun gr => GameRoom_HandleInput gr
            (mkInput (if pi_player_id i =? 0 then own_id else pi_player_id i) (pi_input_seq i)
               (pi_move_x i) (pi_move_y i) (pi_fire i) now))
        end
      end
  end.

(** ** MatchService (match_service.cpp) *)

(** What [TryCreateRoom] does for one matched player. *)
Definition notify_matched (room_id : Z) (players : list Z) (player_id : Z) : proc unit :=
  ctx ← reads w_ctx;
  when_ (player_manager ctx)
    (player ← GetOrCreatePlayer player_id "";
     on_player player (Player_SetStatus InRoom) ;;
     on_player player (Player_SetRoomId room_id)) ;;
  when_ (connection_manager ctx)
    (session ← GetByPlayerId player_id;
     match session with
     | Some s => Session_Send s MSG_MATCH_SUCCESS_NOTIFY (MatchSuccessNotify room_id players)
     | None => mret tt
     end).

Definition TryPopN (n : Z) : proc (list Z) :=
  critical (fun w => let '(players, q) := MatchQueue_TryPopN (w_queue w) n in (Ok players, upd_queue (fun _ => q) w)).

(** [static_cast<size_t>(RoomPlayerCount())]. *)
Definition need_count (config : ConfigManager) : Z := wrap_u64 (room_player_count_ config).

(** One turn of the loop of [TryCreateRoom]: [true] to go on. *)
Definition TryCreateRoom_turn (need_count : Z) : proc bool :=
  players ← TryPopN need_count;
  ctx ← reads w_ctx;
  if bool_decide (players = []) then mret false
  else if negb (Z.of_nat (length players) =? need_count) || negb (room_manager ctx) then mret false
  else
    room ← CreateRoom players;
    r ← room_at room;
    for_each players (notify_matched (r_room_id r) players) ;;
    mret true.

(** The [while (true)] of [TryCreateRoom]; a turn that goes on takes at least
    one player out of the queue, so undisturbed it takes at most as many turns as
    there are players, and one more to find that no room can be made. *)
Definition TryCreateRoom : proc unit :=
  config ← reads w_config;
  while_ (fun w => S (length (queue_ (w_queue w)))) (TryCreateRoom_turn (need_count config)).

Definition queue_Push (player_id : Z) : proc bool :=
  critical (fun w => let '(b, q) := MatchQueue_Push (w_queue w) player_id in (Ok b, upd_queue (fun _ => q) w)).
Definition queue_Remove (player_id : Z) : proc bool :=
  critical (fun w => let '(b, q) := MatchQueue_Remove (w_queue w) player_id in (Ok b, upd_queue (fun _ => q) w)).

Definition StartMatching (player_id : Z) (session : option SessionPtr) (message : string) : proc bool :=
  match session with
  | None => mret false
  | Some s =>
    if player_id =? 0 then
      Session_Send s MSG_MATCH_RESP (MatchResponse 1 "not login") ;; mret false
    else
      pushed ← queue_Push player_id;
      ctx ← reads w_ctx;
      if negb pushed then
        q ← reads w_queue;
        when_ (MatchQueue_Contains q player_id && player_manager ctx)
          (player ← GetOrCreatePlayer player_id "";
           on_player player (Player_SetStatus Matching) ;;
           on_player player (Player_SetRoomId 0) ;;
           on_session s (Session_SetRoomId 0)) ;;
        Session_Send s MSG_MATCH_RESP (MatchResponse 2 "already matching") ;;
        mret false
      else
        when_ (player_manager ctx)
          (player ← GetOrCreatePlayer player_id "";
           on_player player (Player_SetStatus Matching) ;;
           on_player player (Player_SetRoomId 0)) ;;
        on_session s (Session_SetRoomId 0) ;;
        Session_Send s MSG_MATCH_RESP (MatchResponse 0 message) ;;
        TryCreateRoom ;;
        mret true
  end.

Definition RequeuePlayer (player_id : Z) : proc bool :=
  ctx ← reads w_ctx;
  if negb (connection_manager ctx) then mret false
  else
    session ← GetByPlayerId player_id;
    match session with
    | None => mret false
    | Some s => StartMatching player_id (Some s) "matching"
    end.

Definition HandleMatch (session : option SessionPtr) (packet : Packet) : proc unit :=
  match parse_match packet, session with
  | Some requested, Some s =>
    own_id ← session_player s;
    let player_id := if requested =? 0 then own_id else requested in
    if player_id =? 0 then Session_Send s MSG_MATCH_RESP (MatchResponse 1 "not login")
    else StartMatching player_id (Some s) "matching" ;; mret tt
  | _, _ => mret tt
  end.

Definition HandleCancelMatch (session : option SessionPtr) (packet : Packet) : proc unit :=
  match parse_match_cancel packet, session with
  | Some requested, Some s =>
    own_id ← session_player s;
    let player_id := if requested =? 0 then own_id else requested in
    removed ← queue_Remove player_id;
    ctx ← reads w_ctx;
    let '(code, message) := if (removed : bool) then (0, "cancelled") else (2, "not matching") in
    when_ ((code =? 0) && player_manager ctx)
      (player ← GetOrCreatePlayer player_id "";
       on_player player (Player_SetStatus Online) ;;
       on_player player (Player_SetRoomId 0) ;;
       on_session s (Session_SetRoomId 0)) ;;
    Session_Send s MSG_MATCH_CANCEL_RESP (MatchCancelResponse code message)
  | _, _ => mret tt
  end.

(** ** Leaving a room (room_manager.cpp) *)
Definition HandleLeaveWaiting (session : SessionPtr) (room : RoomPtr) : proc unit :=
  r ← room_at room;
  let room_id := r_room_id r in
  leaver_id ← session_player session;
  let requeue_players := filter (fun p => p <> leaver_id) (Room_PlayerIds r) in
  Room_Broadcast room MSG_PLAYER_LEAVE_ROOM_NOTIFY (PlayerLeaveRoomNotify room_id leaver_id 1) ;;
  Session_Send session MSG_LEAVE_ROOM_RESP (LeaveRoomResponse 0 "left room") ;;
  RemoveRoom room_id ;;
  ctx ← reads w_ctx;
  if negb (match_service ctx) then mret tt
  else for_each requeue_players (fun player_id => RequeuePlayer player_id ;; mret tt).

Definition HandleLeavePlaying (session : SessionPtr) (room : RoomPtr) : proc unit :=
  ctx ← reads w_ctx;
  let not_running := Session_Send session MSG_LEAVE_ROOM_RESP (LeaveRoomResponse 4 "game not running") in
  if negb (game_loop ctx) then not_running
  else
    r ← room_at room;
    game_room ← GameLoop_GetRoom (r_room_id r);
    match game_room with
    | None => not_running
    | Some g =>
      player_id ← session_player session;
      on_game g (fun gr => EliminatePlayer gr player_id) ;;
      Room_Broadcast room MSG_PLAYER_LEAVE_ROOM_NOTIFY (PlayerLeaveRoomNotify (r_room_id r) player_id 2) ;;
      Session_Send session MSG_LEAVE_ROOM_RESP (LeaveRoomResponse 0 "surrendered")
    end.

Definition HandleLeaveRoom (session : option SessionPtr) (packet : Packet) : proc unit :=
  match session with
  | None => mret tt
  | Some s =>
    match parse_leave packet with
    | None => Session_Send s MSG_LEAVE_ROOM_RESP (LeaveRoomResponse 1 "bad request")
    | Some requested =>
      player_id ← session_player s;
      room ← GetPlayerRoom player_id;
      match room with
      | None => Session_Send s MSG_LEAVE_ROOM_RESP (LeaveRoomResponse 2 "not in room")
      | Some room =>
        r ← room_at room;
        if negb (requested =? 0) && negb (requested =? r_room_id r)
        then Session_Send s MSG_LEAVE_ROOM_RESP (LeaveRoomResponse 2 "not in room")
        else
          r ← room_at room;
          if bool_decide (r_state r = RoomState.Waiting) then HandleLeaveWaiting s room
          else
            r ← room_at room;
            if bool_decide (r_state r = RoomState.Playing) then HandleLeavePlaying s room
            else Session_Send s MSG_LEAVE_ROOM_RESP (LeaveRoomResponse 3 "room closing")
      end
    end
  end.
End lobby.
