(* ===== verification/Login.v ===== *)
(** * Login: accounts, tokens, heartbeats and reconnection

    Models [login/login_service.h/.cpp], handler by handler. *)
From S2P Require Import Prelude Wire Net StdString Float32 Messages GameRoom MatchQueue Config Registry Room Mysql Repositories Redis Settlement World Lobby.
Local Open Scope string_scope.
Local Open Scope Z_scope.

Section login.
Context {Srv Rds : Type} {MA : MysqlApi Srv} {RA : RedisApi Rds} {PB : Protobuf}.
Context {proc : Type -> Type} {SE : Sections Srv Rds proc}.
Notation World := (World Srv Rds).
Notation M := (M Srv Rds).

(** [ConfigManager::Instance().Mysql()], read at each connection. *)
Definition mysql_call {A} (f : MysqlConfig -> MysqlClient Srv -> result A * MysqlClient Srv) : proc A :=
  critical (config ← reads (fun w => mysql_ (w_config w)); with_mysql (f config)).

(** The data of a player the database does not know. *)
Definition named_player (player_id : Z) : PlayerData :=
  mkPlayerData player_id ("player_" +:+ to_string player_id) (pd_score PlayerData_default)
    (pd_win_count PlayerData_default) (pd_lose_count PlayerData_default).

(** [CreatePlayer] and [LoadPlayer] of [PlayerRepository], one lock of the client
    after the other; [mysql] is [mysql_ != nullptr]. *)
Definition repository_CreatePlayer (mysql : bool) (data : PlayerData) : proc unit :=
  when_ mysql
    (name ← mysql_call (fun config c => let '(name, c) := EscapeString config c (pd_name data) in (Ok name, c));
     mysql_call (fun config c =>
       let '(ok, c) := Execute config c (sql_create_player (pd_player_id data) name
                         (pd_score data) (pd_win_count data) (pd_lose_count data)) in
       (Ok tt, c))).

Definition repository_LoadPlayer (mysql : bool) (player_id : Z) : proc PlayerData :=
  found ← mysql_call (fun config c => FindPlayer config mysql c player_id);
  match found with
  | Some data => mret data
  | None =>
    let data := named_player player_id in
    repository_CreatePlayer mysql data ;;
    mret data
  end.

Definition GenerateSessionToken (player_id : Z) : proc string :=
  now ← NowMs; mret (to_string player_id +:+ "_" +:+ to_string now).

Definition GetOrCreatePlayerId (account : string) : proc Z :=
  key ← (if bool_decide (account = "")
         then id ← next_id NextPlayerId; mret ("guest_" +:+ to_string id)
         else mret account);
  it ← reads (fun w => w_account_players w !! key);
  match it with
  | Some player_id => mret player_id
  | None =>
    player_id ← next_id NextPlayerId;
    writes (upd_account_players (insert key player_id)) ;;
    ctx ← reads w_ctx;
    when_ (player_repository ctx) (repository_CreatePlayer (mysql_client ctx) (named_player player_id)) ;;
    mret player_id
  end.

(** The room of a player who comes back: [Some room_id] when there is one. *)
Definition rejoin_room (player : option Z) (player_id : Z) (session : SessionPtr) : proc (option Z) :=
  room ← GetPlayerRoom player_id;
  match room with
  | Some room =>
    OnPlayerReconnect room player_id (Some session) ;;
    r ← room_at room;
    (match player with
     | Some player =>
       on_player player (Player_SetRoomId (r_room_id r)) ;;
       r ← room_at room;
       on_player player (Player_SetStatus (if bool_decide (r_state r = RoomState.Playing) then Playing else InRoom))
     | None => mret tt
     end) ;;
    mret (Some (r_room_id r))
  | None =>
    (match player with Some player => on_player player (Player_SetRoomId 0) | None => mret tt end) ;;
    mret None
  end.

Definition HandleLogin (session : option SessionPtr) (packet : Packet) : proc unit :=
  match session with
  | None => mret tt
  | Some s =>
    match parse_login packet with
    | None => Session_Send s MSG_LOGIN_RESP (LoginResponse 1 0 "" "")
    | Some (account, _) =>
      player_id ← GetOrCreatePlayerId account;
      token ← GenerateSessionToken player_id;
      writes (upd_session_tokens (insert player_id token)) ;;
      ctx ← reads w_ctx;
      when_ (connection_manager ctx)
        (old ← GetByPlayerId player_id;
         match old with
         | Some old_session =>
           h ← reads w_sessions;
           when_ (negb (SessionId h old_session =? SessionId h s)) (Session_Close old_session)
         | None => mret tt
         end) ;;
      on_session s (Session_BindPlayerId player_id) ;;
      UpdateHeartbeatTime s ;;
      when_ (connection_manager ctx) (writes (upd_cm (fun cm => CM_BindPlayer cm player_id (Some s)))) ;;
      data ← (if player_repository ctx
              then repository_LoadPlayer (mysql_client ctx) player_id
              else mret (mkPlayerData player_id ("player_" +:+ to_string player_id) 1000 0 0));
      player ← (if player_manager ctx
                then p ← GetOrCreatePlayer player_id (pd_name data);
                     on_player p (Player_SetScore (pd_score data)) ;;
                     writes (upd_pm (fun pm => PM_SetOnline pm player_id s)) ;;
                     mret (Some p)
                else mret None);
      when_ (room_manager ctx) (rejoin_room player player_id s ;; mret tt) ;;
      Session_Send s MSG_LOGIN_RESP (LoginResponse 0 player_id (pd_name data) token)
    end
  end.

Definition HandleHeartbeat (session : option SessionPtr) (packet : Packet) : proc unit :=
  match session with
  | None => mret tt
  | Some s =>
    UpdateHeartbeatTime s ;;
    now ← NowMs;
    Session_Send s MSG_HEARTBEAT_RESP (HeartbeatResponse now)
  end.

Definition HandleReconnect (session : option SessionPtr) (packet : Packet) : proc unit :=
  match session with
  | None => mret tt
  | Some s =>
    match parse_reconnect packet with
    | None => Session_Send s MSG_RECONNECT_RESP (ReconnectResponse 1 0)
    | Some (player_id, token) =>
      saved ← reads (fun w => w_session_tokens w !! player_id);
      if negb (bool_decide (saved = Some token)) then
        Session_Send s MSG_RECONNECT_RESP (ReconnectResponse 2 0)
      else
        on_session s (Session_BindPlayerId player_id) ;;
        ctx ← reads w_ctx;
        when_ (connection_manager ctx) (writes (upd_cm (fun cm => CM_BindPlayer cm player_id (Some s)))) ;;
        player ← (if player_manager ctx
                  then writes (upd_pm (fun pm => PM_SetOnline pm player_id s)) ;;
                       p ← GetOrCreatePlayer player_id "";
                       mret (Some p)
                  else mret None);
        room_id ← (if room_manager ctx then rejoin_room player player_id s else mret None);
        Session_Send s MSG_RECONNECT_RESP (ReconnectResponse 0 (default 0 room_id))
    end
  end.
End login.
