(* ===== verification/GameServer.v ===== *)
(** * GameServer: the callbacks, the dispatcher and the steps of the server

    Models [server/game_server.h/.cpp], [server/message_dispatcher.h/.cpp],
    [game/game_loop.h/.cpp], the callbacks of [net/tcp_server.h/.cpp] and the
    completion handlers of [net/tcp_connection.cpp] that call them.

    [step] is one step of the process when handlers run one after the other: a
    completion handler of a connection, a round of the game loop, a waking of the
    timer thread, or time passing.  [Threads] interleaves the sections of the same
    handlers.  An exception that no handler catches ends the process: [step] is
    [None]. *)
From S2P Require Import Prelude Wire Net StdString Float32 Messages GameRoom MatchQueue Config Registry Room Mysql Repositories Redis Settlement Timer World Lobby Login.
Local Open Scope string_scope.
Local Open Scope Z_scope.

Section handlers.
Context {Srv Rds : Type} {MA : MysqlApi Srv} {RA : RedisApi Rds} {PB : Protobuf}.
Context {proc : Type -> Type} {SE : Sections Srv Rds proc}.
Notation World := (World Srv Rds).
Notation M := (M Srv Rds).

(** ** MessageDispatcher (message_dispatcher.cpp) *)
Definition Handler : Type := option SessionPtr -> Packet -> proc unit.
Definition handlers : Type := gmap Z Handler.

Definition RegisterHandler (id : Z) (h : Handler) (hs : handlers) : handlers := <[id := h]> hs.

Definition Dispatch (hs : handlers) (session : option SessionPtr) (packet : Packet) : proc unit :=
  match hs !! msg_id packet with
  | None => mret tt
  | Some handler => handler session packet
  end.

(** [RegisterHandlers] of the services, in the order of [Init]. *)
Definition Login_RegisterHandlers (hs : handlers) : handlers :=
  RegisterHandler MSG_RECONNECT_REQ HandleReconnect
    (RegisterHandler MSG_HEARTBEAT_REQ HandleHeartbeat
      (RegisterHandler MSG_LOGIN_REQ HandleLogin hs)).
Definition Match_RegisterHandlers (hs : handlers) : handlers :=
  RegisterHandler MSG_MATCH_CANCEL_REQ HandleCancelMatch (RegisterHandler MSG_MATCH_REQ HandleMatch hs).
Definition Room_RegisterHandlers (hs : handlers) : handlers :=
  RegisterHandler MSG_LEAVE_ROOM_REQ HandleLeaveRoom
    (RegisterHandler MSG_INPUT_REQ HandleInput
      (RegisterHandler MSG_READY_REQ HandleReady hs)).

(** [RankService::HandleRankRequest] on the world; the session is not checked. *)
Definition Rank_Handle (session : option SessionPtr) (packet : Packet) : proc unit :=
  ctx ← reads w_ctx;
  config ← reads w_config;
  response ← with_redis (fun c => HandleRankRequest (redis_ config) (redis_client ctx) c packet);
  match response, session with
  | Some m, Some s => Session_Send s MSG_RANK_RESP m
  | _, _ => mret tt
  end.
Definition Rank_RegisterHandlers (hs : handlers) : handlers := RegisterHandler MSG_RANK_REQ Rank_Handle hs.

Definition dispatcher : handlers :=
  Rank_RegisterHandlers (Room_RegisterHandlers (Match_RegisterHandlers (Login_RegisterHandlers ∅))).

(** ** The tick callback (game_server.cpp) *)

(** [SettleBattle], lock by lock of the clients; the lock of the service itself is
    only ever taken by the thread of the game loop. *)
Definition settlement_pointers (ctx : ServiceContext) : SettlementService :=
  mkSettlementService (battle_repository ctx) (player_repository ctx) (rank_service ctx)
    (mysql_client ctx) (redis_client ctx).

Fixpoint sync_ranks_sections (ss : SettlementService) (participants : list Z) : proc bool :=
  match participants with
  | [] => mret true
  | player_id :: participants =>
    found ← mysql_call (fun config c => FindPlayer config (ss_mysql ss) c player_id);
    match found with
    | None => mret false
    | Some data =>
      config ← reads w_config;
      ok ← with_redis (fun r => UpdateScore (redis_ config) (ss_redis ss) r player_id (pd_score data));
      if negb ok then mret false else sync_ranks_sections ss participants
    end
  end.

Definition settle_battle (battle_id room_id winner_id : Z) (losers : list Z) : proc bool :=
  ctx ← reads w_ctx;
  let ss := settlement_pointers ctx in
  match settlement_request ss battle_id room_id winner_id losers with
  | None => mret false
  | Some participants =>
    applied ← mysql_call (fun config c =>
      ApplySettlement config (ss_mysql ss) c (mkBattle battle_id room_id winner_id "")
        (battle_result battle_id winner_id <$> participants));
    if negb applied then mret false
    else if ss_rank_service ss then sync_ranks_sections ss participants else mret true
  end.

Definition losers_of (state : GameState) (winner_id : Z) : list Z :=
  filter (fun p => p <> winner_id) (map_to_list (gs_players state)).*1.

(** [pending_settlements_[room_id]] creates the entry. *)
Definition pending_of (room_id : Z) : proc PendingSettlement :=
  p ← reads (fun w => default PendingSettlement_default (w_pending w !! room_id));
  writes (upd_pending (insert room_id p)) ;;
  mret p.
Definition set_pending (room_id : Z) (p : PendingSettlement) : proc unit :=
  writes (upd_pending (insert room_id p)).

(** The battle id of the room, drawn when there is none yet. *)
Definition battle_id_of (room_id : Z) (pending : PendingSettlement) : proc Z :=
  if ps_battle_id pending =? 0 then
    battle_id ← mysql_call (fun config c =>
      let '(id, c) := CreateBattle config true c room_id in (Ok id, c));
    set_pending room_id (mkPending battle_id (ps_next_attempt pending)) ;;
    mret battle_id
  else mret (ps_battle_id pending).

(** After a successful settlement. *)
Definition finish_room (room : RoomPtr) (room_id winner_id : Z) (losers : list Z) : proc unit :=
  writes (upd_pending (delete room_id)) ;;
  Room_Broadcast room MSG_GAME_OVER_NOTIFY (GameOverNotify room_id winner_id losers) ;;
  on_room room Room_Close ;;
  RemoveRoom room_id.

Definition tick_callback (room_id : Z) (state : GameState) (game_over : bool) (winner_id : Z) : proc unit :=
  room ← GetRoom room_id;
  match room with
  | None => mret tt
  | Some room =>
    Room_Broadcast room MSG_GAME_STATE_NOTIFY (BuildNotify room_id state) ;;
    if negb game_over then mret tt
    else
      let losers := losers_of state winner_id in
      on_room room Room_SetSettlement ;;
      pending ← pending_of room_id;
      now ← reads w_steady;
      if now <? ps_next_attempt pending then mret tt
      else
        let pending := mkPending (ps_battle_id pending) (now + 1000) in
        set_pending room_id pending ;;
        battle_id ← battle_id_of room_id pending;
        settled ← (if battle_id =? 0 then mret false
                   else settle_battle battle_id room_id winner_id losers);
        if negb settled then mret tt else finish_room room room_id winner_id losers
  end.

(** ** GameLoop (game_loop.cpp) *)
Definition GameLoop_interval (tick_interval_ms : Z) : Z :=
  if 0 <? tick_interval_ms then tick_interval_ms else 50.

(** [GameRoom::Tick] and the getters of a [GameRoom], lock by lock. *)
Definition tick_game (g : GameRoomPtr) : proc unit :=
  inputs ← critical (fun w =>
    let '(inputs, gr) := Tick_inputs (default (GameRoom_new 0) (w_games w !! g)) in
    (Ok inputs, upd_games (alter (fun _ => gr) g) w));
  on_game g (Tick_locked inputs).
Definition game_reads {A} (g : GameRoomPtr) (f : GameRoom -> A) : proc A :=
  reads (fun w => f (default (GameRoom_new 0) (w_games w !! g))).

(** One room of a round: [Tick], then the callback on the state it leaves. *)
Definition Loop_room (g : GameRoomPtr) : proc unit :=
  tick_game g ;;
  room_id ← game_reads g gr_room_id;
  '(state, game_over, winner_id) ←
    arguments (game_reads g gr_state) (game_reads g gr_game_over) (game_reads g gr_winner_id);
  tick_callback room_id state game_over winner_id.

(** One round of [GameLoop::Loop] over a copy of the table. *)
Definition Loop_round : proc unit :=
  rooms ← reads (fun w => (map_to_list (w_loop_rooms w)).*2);
  for_each rooms Loop_room.

(** ** Timers and connections *)
Definition heartbeat_scan : proc unit :=
  now ← NowMs;
  sessions ← reads (fun w => CM_AllSessions (w_cm w));
  for_each sessions (fun session =>
    h ← reads w_sessions;
    when_ (30000 <? now - LastHeartbeatMs h session) (Session_Close session)).

Definition run_callback (cb : TimerCallback) : proc unit :=
  match cb with HeartbeatScan => heartbeat_scan end.

(** One waking of [TimerManager::Loop]. *)
Definition Timer_round : proc unit :=
  callbacks ← critical (fun w => let '(cbs, ts) := collect_due (w_steady w) (w_timers w) in
                                 (Ok cbs, upd_timers (fun _ => ts) w));
  for_each callbacks run_callback.

(** The session close callback given to [TcpServer]. *)
Definition session_closed (session : option SessionPtr) : proc unit :=
  match session with
  | None => mret tt
  | Some s =>
    player_id ← session_player s;
    if player_id =? 0 then mret tt
    else
      current ← GetByPlayerId player_id;
      h ← reads w_sessions;
      if match current with Some c => negb (SessionId h c =? SessionId h s) | None => false end then mret tt
      else
        ctx ← reads w_ctx;
        when_ (player_manager ctx) (writes (upd_pm (fun pm => PM_SetOffline pm player_id))) ;;
        room_id ← session_room s;
        when_ (room_manager ctx && negb (room_id =? 0))
          (room ← GetRoom room_id;
           match room with
           | Some room => on_room room (fun r => Room_OnPlayerDisconnect r player_id)
           | None => mret tt
           end)
  end.

(** The close callback [TcpServer::DoAccept] sets on a connection. *)
Definition close_callback (session : SessionPtr) (id : Z) : proc unit :=
  writes (fun w => upd_cm (fun cm => CM_Remove (w_sessions w) cm id) w) ;;
  session_closed (Some session).

(** [TcpServer::DoAccept]: draw the id of the next connection and wait for it. *)
Definition DoAccept : proc unit :=
  conn_id ← next_id NextSessionId;
  writes (upd_accepting (fun _ => Some (wrap_u64 conn_id))).

(** The completion handler of [async_accept]. *)
Definition on_accept (ok : bool) : proc unit :=
  accepting ← reads w_accepting;
  match accepting with
  | None => mret tt
  | Some conn_id =>
    writes (upd_accepting (fun _ => None)) ;;
    when_ ok
      (now ← NowMs;
       let session := conn_id in
       writes (upd_sessions (insert session (Session_new conn_id (Some conn_id) now))) ;;
       writes (upd_conns (insert conn_id (TcpConnection_new conn_id))) ;;
       writes (fun w => upd_cm (fun cm => CM_Add (w_sessions w) cm (Some session)) w) ;;
       writes (upd_conns (alter TcpConnection_Start conn_id))) ;;
    running ← reads w_running;
    when_ running DoAccept
  end.

(** ** The completion handlers of a connection (tcp_connection.cpp) *)
Definition on_tcp (conn : Z) (f : TcpConnection -> TcpConnection) : proc unit := writes (upd_conns (alter f conn)).

(** What the strand does to its connection at the start of the handler: [None]
    when nothing was read. *)
Definition receive (conn : Z) (data : bytes) : M (option (result (list Packet))) :=
  c ← reads (fun w => default (TcpConnection_new conn) (w_conns w !! conn));
  match on_read data c with
  | None => mret None
  | Some (decoded, c) => writes (upd_conns (alter (fun _ => c) conn)) ;; mret (Some decoded)
  end.

(** The handler of [async_read_some] without error. *)
Definition read_handler (conn : Z) (data : bytes) : proc unit :=
  decoded ← critical (receive conn data);
  match decoded with
  | None => mret tt
  | Some (Throw _) => on_tcp conn TcpConnection_Close
  | Some (Ok packets) =>
    catch_ (for_each packets (Dispatch dispatcher (Some conn)) ;; on_tcp conn DoRead)
           (on_tcp conn TcpConnection_Close)
  end.

(** The handlers of a failed read and of a failed write. *)
Definition read_error_handler (conn : Z) : proc unit :=
  on_tcp conn (fun c => set_read c false (tc_read_buffer c)) ;; close_callback conn conn.
Definition write_error_handler (conn : Z) : proc unit :=
  on_tcp conn on_write_error ;; close_callback conn conn.

(** The next posted handler of the strand: what it does to the connection;
    [true] when the close callback is to be called. *)
Definition take_posted (conn : Z) : M bool :=
  c ← reads (fun w => default (TcpConnection_new conn) (w_conns w !! conn));
  match tc_posted c with
  | [] => mret false
  | TSend packet :: ts =>
    c ← ((fun w => (run_send packet (set_posted c ts), w)) : M TcpConnection);
    writes (upd_conns (alter (fun _ => c) conn)) ;; mret false
  | TClose :: ts =>
    writes (upd_conns (alter (fun _ => run_close (set_posted c ts)) conn)) ;; mret true
  end.

Definition run_posted (conn : Z) : proc unit :=
  closed ← critical (take_posted conn);
  when_ closed (close_callback conn conn).

(** ** Events *)
Inductive Event :=
  | EClock (now steady : Z)
  | EAccept (ok : bool)
  | ERead (conn : Z) (data : bytes)
  | EReadError (conn : Z)
  | ERunPosted (conn : Z)
  | EWritten (conn : Z)
  | EWriteError (conn : Z)
  | EExpire (conn : Z)
  | ELoop
  | ETimers.

(** The state of a connection an event needs: what Asio has pending. *)
Definition conn_is (w : World) (conn : Z) (f : TcpConnection -> bool) : bool :=
  match w_conns w !! conn with Some c => f c | None => false end.

(** The connection is destroyed when nothing is pending on it. *)
Definition conn_unused (c : TcpConnection) : bool :=
  negb (tc_reading c) && negb (tc_writing c) && bool_decide (tc_posted c = []).

(** The handler an event starts, when it is pending. *)
Definition event_handler (w : World) (e : Event) : option (proc unit) :=
  match e with
  | EAccept ok => Some (on_accept ok)
  | ERead conn data =>
    if conn_is w conn tc_reading && (Z.of_nat (length data) <=? 4096) && negb (bool_decide (data = []))
    then Some (read_handler conn data) else None
  | EReadError conn => if conn_is w conn tc_reading then Some (read_error_handler conn) else None
  | ERunPosted conn => if conn_is w conn (fun _ => true) then Some (run_posted conn) else None
  | EWritten conn => if conn_is w conn tc_writing then Some (on_tcp conn on_written) else None
  | EWriteError conn => if conn_is w conn tc_writing then Some (write_error_handler conn) else None
  | ELoop => Some Loop_round
  | ETimers => Some Timer_round
  | EClock _ _ | EExpire _ => None
  end.
End handlers.

(** ** Steps *)
Section server.
Context {Srv Rds : Type} {MA : MysqlApi Srv} {RA : RedisApi Rds} {PB : Protobuf}.
Notation World := (World Srv Rds).
Notation M := (M Srv Rds).

Definition run (m : M unit) (w : World) : option World :=
  match m w with (Ok _, w) => Some w | (Throw _, _) => None end.

(** An event that is not pending changes nothing. *)
Definition step (w : World) (e : Event) : option World :=
  match e with
  | EClock now steady => Some (upd_steady (Z.max steady) (upd_now (fun _ => now) w))
  | EExpire conn => Some (if conn_is w conn conn_unused then upd_conns (delete conn) w else w)
  | _ => match event_handler w e with Some m => run m w | None => Some w end
  end.

Fixpoint steps (w : World) (es : list Event) : option World :=
  match es with
  | [] => Some w
  | e :: es => match step w e with Some w => steps w es | None => None end
  end.

(** ** Init, Start; [Stop] is in [ServerMain] *)
Definition Init : M bool :=
  connected ← mysql_call (fun config c => let '(ok, c) := Mysql.Connect config c in (Ok ok, c));
  if negb connected then mret false
  else
    redis_ok ← (fun w => let '(ok, c) := Redis_Connect (redis_ (w_config w)) (w_redis w) in
                         (Ok ok, upd_redis (fun _ => c) w));
    if negb redis_ok then mret false
    else
      writes (upd_ctx (fun _ => mkServiceContext true true true true true true true true true true true true)) ;;
      ((fun w => let '(ok, c) := Rank_Init (redis_ (w_config w)) true (w_redis w) in
                 (Ok tt, upd_redis (fun _ => c) w)) : M unit) ;;
      now ← reads w_steady;
      writes (upd_timers (AddTimer now 5000 HeartbeatScan)) ;;
      mret true.

(** [TcpServer::Start] once listening has succeeded, or not. *)
Definition Server_Start (listening : bool) : M bool :=
  if negb listening then mret false
  else writes (upd_running (fun _ => true)) ;; DoAccept ;; mret true.

(** A process before [Init]. *)
Definition new_world (config : ConfigManager) (srv : Srv) (rds : Rds) : World :=
  mkWorld config ServiceContext_null IdGenerator_init 0 0 ∅ ∅ ConnectionManager_new PlayerManager_new
    ∅ ∅ ∅ ∅ 0 ∅ MatchQueue_new ∅ ∅ (mkMysqlClient false false srv) (mkRedisClient false rds) ∅ [] false None.

(** A server that has come up. *)
Definition started (config : ConfigManager) (srv : Srv) (rds : Rds) (w : World) : Prop :=
  exists w1, Init (new_world config srv rds) = (Ok true, w1) /\ Server_Start true w1 = (Ok true, w).

Definition reachable (config : ConfigManager) (srv : Srv) (rds : Rds) (w : World) : Prop :=
  exists w0 es, started config srv rds w0 /\ steps w0 es = Some w.
End server.
