(* ===== verification/Threads.v ===== *)
(** * Threads: the handlers of the server, interleaved

    The server runs its completion handlers on a pool of threads, the game loop
    and the timers on threads of their own.  What one of them does between two
    points where another may run is a section of the handler: a method under the
    mutex of its object, an atomic operation, one access to a field.  [Prog] is a
    handler cut into its sections; the definitions of [Lobby], [Login] and
    [GameServer] give it when they are read over [Prog] instead of [M].

    Asio runs the handlers of one connection one after the other (its strand) and
    has one [async_accept] pending; so there is at most one handler of a
    connection, one of the acceptor, one round of the loop and one waking of the
    timers under way.  [cstep] starts a handler or lets a running one do its next
    section, in any order. *)
From S2P Require Import Prelude Wire Net StdString Messages GameRoom MatchQueue Config Registry Room Mysql Repositories Redis Settlement Timer World Lobby Login GameServer.
Local Open Scope Z_scope.

(** ** A handler cut into sections *)
Inductive Prog (Srv Rds A : Type) : Type :=
  | Ret (a : A)
  | Raise (e : exn)
  | Step (next : World Srv Rds -> World Srv Rds) (rest : World Srv Rds -> Prog Srv Rds A)
  | Choose (k : nat -> Prog Srv Rds A)
  | While (body : Prog Srv Rds bool) (k : Prog Srv Rds A)
  | Try (m h : Prog Srv Rds unit) (k : Prog Srv Rds A).
Arguments Ret {Srv Rds A} a.
Arguments Raise {Srv Rds A} e.
Arguments Step {Srv Rds A} next rest.
Arguments Choose {Srv Rds A} k.
Arguments While {Srv Rds A} body k.
Arguments Try {Srv Rds A} m h k.

Fixpoint Prog_bind {Srv Rds A B} (m : Prog Srv Rds A) (f : A -> Prog Srv Rds B) : Prog Srv Rds B :=
  match m with
  | Ret a => f a
  | Raise e => Raise e
  | Step next rest => Step next (fun w => Prog_bind (rest w) f)
  | Choose k => Choose (fun n => Prog_bind (k n) f)
  | While body k => While body (Prog_bind k f)
  | Try m h k => Try m h (Prog_bind k f)
  end.

(** One section: what it does to the world, and how the handler goes on. *)
Definition section_next {Srv Rds A} (s : M Srv Rds A) (w : World Srv Rds) : World Srv Rds := (s w).2.
Definition section_rest {Srv Rds A} (s : M Srv Rds A) (w : World Srv Rds) : Prog Srv Rds A :=
  match (s w).1 with Ok a => Ret a | Throw e => Raise e end.

#[export] Instance Prog_ret {Srv Rds} : MRet (Prog Srv Rds) := fun A a => Ret a.
#[export] Instance Prog_bind' {Srv Rds} : MBind (Prog Srv Rds) := fun A B f m => Prog_bind m f.

#[export] Instance Prog_sections {Srv Rds} : Sections Srv Rds (Prog Srv Rds) := {
  sections_ret := Prog_ret;
  sections_bind := Prog_bind';
  critical A s := Step (section_next s) (section_rest s);
  catch_ m h := Try m h (Ret tt);
  while_ _ body := While body (Ret tt);
  unspecified := Choose Ret
}.

(** ** Running *)
Section running.
Context {Srv Rds : Type}.
Notation World := (World Srv Rds).
Notation Prog := (Prog Srv Rds).

(** The next section; [n] is the choice, where there is one. *)
Fixpoint pstep {A : Type} (m : Prog A) (n : nat) (w : World) : option (Prog A * World) :=
  match m with
  | Ret _ | Raise _ => None
  | Step next rest => Some (rest w, next w)
  | Choose k => Some (k n, w)
  | While body k => Some (Prog_bind body (fun again : bool => if again then While body k else k), w)
  | Try m h k =>
    match m with
    | Ret _ => Some (k, w)
    | Raise _ => Some (Prog_bind h (fun _ => k), w)
    | _ => match pstep m n w with Some (m, w) => Some (Try m h k, w) | None => None end
    end
  end.

(** Only a handler that has returned or thrown is stuck. *)
Lemma pstep_None {A} (m : Prog A) n w :
  pstep m n w = None -> (exists a, m = Ret a) \/ (exists e, m = Raise e).
Proof.
  induction m as [A a|A e|A next rest IH|A k IH|A body _ k IHk|A m IHm h _ k IHk]; cbn; [eauto|eauto|done..|].
  destruct m as [a|e|next rest|k1|b k1|m1 h1 k1]; [done|done|..].
  all: destruct (pstep _ n w) as [[m2 w2]|]; [done|]; intros _; destruct (IHm eq_refl) as [[? ?]|[? ?]]; congruence.
Qed.

(** A handler whose last section throws ends the process if nobody catches. *)
Definition raised {A} (m : Prog A) : bool := match m with Raise _ => true | _ => false end.
End running.

(** ** The threads of the server *)
Inductive Thread := TAccept | TConn (conn : Z) | TLoop | TTimers.

#[export] Instance Thread_eq_dec : EqDecision Thread.
Proof. solve_decision. Defined.
#[export] Instance Thread_countable : Countable Thread.
Proof.
  refine (inj_countable' (fun t => match t with TAccept => inl 0%nat | TConn c => inr c | TLoop => inl 1%nat | TTimers => inl 2%nat end)
    (fun x => match x with inl 0%nat => TAccept | inl 1%nat => TLoop | inl _ => TTimers | inr c => TConn c end) _).
  by intros [].
Defined.

(** The thread, or strand, that runs the handler of an event. *)
Definition thread_of (e : Event) : option Thread :=
  match e with
  | EAccept _ => Some TAccept
  | ERead conn _ | EReadError conn | ERunPosted conn | EWritten conn | EWriteError conn => Some (TConn conn)
  | ELoop => Some TLoop
  | ETimers => Some TTimers
  | EClock _ _ | EExpire _ => None
  end.

Record Process (Srv Rds : Type) := mkProcess {
  c_world : World Srv Rds;
  c_threads : gmap Thread (Prog Srv Rds unit)     (* the handlers under way *)
}.
Arguments mkProcess {Srv Rds}.
Arguments c_world {Srv Rds}.
Arguments c_threads {Srv Rds}.

(** [Begin e]: the event happens; [Go t n]: the handler of [t] goes on. *)
Inductive Action := Begin (e : Event) | Go (t : Thread) (n : nat).

Section threads.
Context {Srv Rds : Type} {MA : MysqlApi Srv} {RA : RedisApi Rds} {PB : Protobuf}.
Notation World := (World Srv Rds).
Notation Process := (Process Srv Rds).

(** An event whose strand is busy, or that is not pending, does not happen. *)
Definition begin_event (c : Process) (e : Event) : Process :=
  let w := c_world c in
  match e with
  | EClock now steady => mkProcess (upd_steady (Z.max steady) (upd_now (fun _ => now) w)) (c_threads c)
  | EExpire conn =>
    match c_threads c !! TConn conn with
    | Some _ => c                                  (* the handler holds the connection *)
    | None => if conn_is w conn conn_unused then mkProcess (upd_conns (delete conn) w) (c_threads c) else c
    end
  | _ =>
    match thread_of e with
    | None => c
    | Some t =>
      match c_threads c !! t, event_handler w e with
      | None, Some m => mkProcess w (<[t := m]> (c_threads c))
      | _, _ => c
      end
    end
  end.

(** [None]: an exception ended the process. *)
Definition cstep (c : Process) (a : Action) : option Process :=
  match a with
  | Begin e => Some (begin_event c e)
  | Go t n =>
    match c_threads c !! t with
    | None => Some c
    | Some m =>
      if raised m then None
      else
        match pstep m n (c_world c) with
        | Some (m, w) => Some (mkProcess w (<[t := m]> (c_threads c)))
        | None => Some (mkProcess (c_world c) (delete t (c_threads c)))      (* it has returned *)
        end
    end
  end.

Fixpoint csteps (c : Process) (acts : list Action) : option Process :=
  match acts with
  | [] => Some c
  | a :: acts => match cstep c a with Some c => csteps c acts | None => None end
  end.

(** A configuration of a server that has come up, under some schedule. *)
Definition creachable config (srv : Srv) (rds : Rds) (c : Process) : Prop :=
  exists w0 acts, started config srv rds w0 /\ csteps (mkProcess w0 ∅) acts = Some c.

(** Nothing is under way. *)
Definition quiescent (c : Process) : Prop := c_threads c = ∅.

(** What the dispatcher calls. *)
Lemma dispatcher_handlers {proc} {SE : Sections Srv Rds proc} id (h : Handler) :
  dispatcher !! id = Some h ->
  h ∈ [HandleLogin; HandleHeartbeat; HandleReconnect; HandleMatch; HandleCancelMatch;
       HandleReady; HandleInput; HandleLeaveRoom; Rank_Handle].
Proof.
  unfold dispatcher, Rank_RegisterHandlers, Room_RegisterHandlers, Match_RegisterHandlers,
    Login_RegisterHandlers, RegisterHandler, handlers. intros Hh.
  repeat (rewrite (lookup_insert (M := gmap Z)) in Hh; case_decide; [injection Hh as <-; rewrite !elem_of_cons; tauto|]).
  by rewrite (lookup_empty (M := gmap Z)) in Hh.
Qed.

Lemma csteps_app (c : Process) acts1 acts2 :
  csteps c (acts1 ++ acts2) = match csteps c acts1 with Some c => csteps c acts2 | None => None end.
Proof. revert c. induction acts1 as [|a acts1 IH]; intros c; cbn; [done|]. by destruct (cstep c a). Qed.

(** Induction over the schedule. *)
Lemma csteps_ind (P : Process -> Prop) c c' acts :
  (forall c a c', P c -> cstep c a = Some c' -> P c') -> P c -> csteps c acts = Some c' -> P c'.
Proof.
  intros Hs. revert c. induction acts as [|a acts IH]; intros c Hc; cbn; [by intros [= <-]|].
  destruct (cstep c a) as [c1|] eqn:Ha; [|done]. apply IH. by eapply Hs.
Qed.
End threads.
