(* ===== verification/Alone.v ===== *)
(** * Alone: a run without interleaving is one of the schedules

    Every handler of [Lobby], [Login] and [GameServer] is written once and read
    twice: over [M], where it runs from beginning to end, and over [Prog], where
    others may run between its sections.  [sim] relates the two readings; it is
    proved for all handlers by rules that follow their shape.  So a run of
    [GameServer.steps] is a schedule of [Threads.csteps] in which each handler
    finishes before the next one starts ([sequential_runs_are_schedules]). *)
From Stdlib Require Import FunctionalExtensionality.
From S2P Require Import Prelude Wire Net StdString Messages GameRoom MatchQueue Config Registry Room Mysql Repositories Redis Settlement Timer World Reason Lobby Login GameServer Threads.
Local Open Scope Z_scope.

Section alone.
Context {Srv Rds : Type}.
Notation World := (World Srv Rds).
Notation M := (M Srv Rds).
Notation Prog := (Prog Srv Rds).

(** [m] runs with nobody in between; open choices fall on the first. *)
Inductive alone {A} : Prog A -> World -> result A -> World -> Prop :=
  | alone_ret a w : alone (Ret a) w (Ok a) w
  | alone_raise e w : alone (Raise e) w (Throw e) w
  | alone_step m w m1 w1 r w' : pstep m 0 w = Some (m1, w1) -> alone m1 w1 r w' -> alone m w r w'.

(** [p] is [m] cut into sections. *)
Definition sim {A} (p : Prog A) (m : M A) : Prop := forall w, alone p w (m w).1 (m w).2.

Lemma Prog_bind_assoc {A B C} (m : Prog A) (f : A -> Prog B) (g : B -> Prog C) :
  Prog_bind (Prog_bind m f) g = Prog_bind m (fun a => Prog_bind (f a) g).
Proof.
  induction m as [A a|A e|A next rest IH|A k IH|A body _ k IHk|A m _ h _ k IHk] in f |- *; cbn; try done.
  - f_equal. extensionality w. apply IH.
  - f_equal. extensionality n. apply IH.
  - by rewrite IHk.
  - by rewrite IHk.
Qed.

Lemma pstep_bind {A B} (m : Prog A) (f : A -> Prog B) n w m1 w1 :
  pstep m n w = Some (m1, w1) -> pstep (Prog_bind m f) n w = Some (Prog_bind m1 f, w1).
Proof.
  destruct m as [a|e|next rest|k|body k|m h k]; cbn; [done|done|..].
  - by intros [= <- <-].
  - by intros [= <- <-].
  - intros [= <- <-]. rewrite Prog_bind_assoc. do 3 f_equal. extensionality again. by destruct again.
  - assert (Hgo : forall r : option (Prog unit * World),
        match r with Some (m0, w0) => Some (Try m0 h k, w0) | None => None end = Some (m1, w1) ->
        match r with Some (m0, w0) => Some (Try m0 h (Prog_bind k f), w0) | None => None end = Some (Prog_bind m1 f, w1)).
    { intros [[m0 w0]|]; [|done]. by intros [= <- <-]. }
    destruct m as [a|e|next rest|k1|b k1|m2 h2 k2].
    + by intros [= <- <-].
    + intros [= <- <-]. by rewrite Prog_bind_assoc.
    + apply Hgo.
    + apply Hgo.
    + apply Hgo.
    + apply Hgo.
Qed.

Lemma alone_bind {A B} (m : Prog A) (f : A -> Prog B) w a w1 r w' :
  alone m w (Ok a) w1 -> alone (f a) w1 r w' -> alone (Prog_bind m f) w r w'.
Proof.
  intros Hm Hf. remember (Ok a : result A) as o eqn:Ho. revert Ho.
  induction Hm as [b w0|e w0|m w0 m1 w1' o w2 Hs Hm IH]; intros Ho.
  - by injection Ho as ->.
  - done.
  - eapply alone_step; [by apply pstep_bind|by apply IH].
Qed.

Lemma alone_bind_throw {A B} (m : Prog A) (f : A -> Prog B) w e w' :
  alone m w (Throw e) w' -> alone (Prog_bind m f) w (Throw e) w'.
Proof.
  intros Hm. remember (Throw e : result A) as o eqn:Ho. revert Ho.
  induction Hm as [b w0|e0 w0|m w0 m1 w1 o w2 Hs Hm IH]; intros Ho.
  - done.
  - injection Ho as ->. apply alone_raise.
  - eapply alone_step; [by apply pstep_bind|by apply IH].
Qed.

(** The body of a [catch_] goes on under it. *)
Lemma pstep_try (m h k : Prog unit) n w m1 w1 :
  pstep m n w = Some (m1, w1) -> pstep (Try m h k) n w = Some (Try m1 h k, w1).
Proof. intros Hm. cbn. by destruct m; try done; rewrite Hm. Qed.

Lemma alone_try (m h k : Prog unit) w o w1 r w' :
  alone m w o w1 -> alone (match o with Ok _ => k | Throw _ => Prog_bind h (fun _ => k) end) w1 r w' ->
  alone (Try m h k) w r w'.
Proof.
  intros Hm Hk. induction Hm as [b w0|e0 w0|m w0 m1 w1 o w2 Hs Hm IH].
  - by eapply alone_step.
  - by eapply alone_step.
  - eapply alone_step; [by apply pstep_try|by apply IH].
Qed.

(** ** The rules *)
Lemma sim_ret {A} (a : A) : sim (mret a) (mret a).
Proof. intros w. apply alone_ret. Qed.

Lemma sim_critical {A} (s : M A) : sim (critical s) (critical s).
Proof.
  intros w. eapply alone_step; [done|]. cbn. unfold section_rest, section_next.
  destruct (s w) as [[a|e] w']; constructor.
Qed.

Lemma sim_bind {A B} (p : Prog A) (m : M A) (f : A -> Prog B) (g : A -> M B) :
  sim p m -> (forall a, sim (f a) (g a)) -> sim (p ≫= f) (m ≫= g).
Proof.
  intros Hm Hf w. specialize (Hm w). unfold mbind. cbn [sections_bind M_sections]. unfold M_bind.
  destruct (m w) as [[a|e] w1]; cbn [fst snd] in *.
  - eapply alone_bind; [exact Hm|apply Hf].
  - by apply alone_bind_throw.
Qed.

Lemma sim_when b (p : Prog unit) (m : M unit) : sim p m -> sim (when_ b p) (when_ b m).
Proof. intros H. destruct b; [exact H|apply sim_ret]. Qed.

Lemma sim_for_each {A} (l : list A) (f : A -> Prog unit) (g : A -> M unit) :
  (forall x, sim (f x) (g x)) -> sim (for_each l f) (for_each l g).
Proof.
  intros H. induction l as [|x l IH]; cbn [for_each]; [apply sim_ret|]. by apply sim_bind.
Qed.

Lemma sim_catch (p h : Prog unit) (m g : M unit) : sim p m -> sim h g -> sim (catch_ p h) (catch_ m g).
Proof.
  intros Hp Hh w. eapply alone_try; [apply Hp|]. cbn. destruct (m w) as [[[]|e] w1]; cbn; [constructor|].
  specialize (Hh w1). destruct (g w1) as [[[]|e'] w2]; cbn in *.
  - eapply alone_bind; [exact Hh|constructor].
  - by apply alone_bind_throw.
Qed.

Lemma sim_unspecified : sim unspecified unspecified.
Proof. intros w. eapply alone_step; [done|constructor]. Qed.

Lemma sim_arguments {A B C} (a : Prog A) (b : Prog B) (c : Prog C) (a' : M A) (b' : M B) (c' : M C) :
  sim a a' -> sim b b' -> sim c c' -> sim (arguments a b c) (arguments a' b' c').
Proof.
  intros Ha Hb Hc. apply sim_bind; [apply sim_unspecified|]. intros n.
  destruct (n `mod` 6)%nat as [|[|[|[|[|k]]]]];
    do 3 (apply sim_bind; [assumption|]; intros ?); apply sim_ret.
Qed.

(** The bound of a loop is enough when every turn that goes on makes [size] smaller. *)
Lemma sim_while (fuel size : World -> nat) (p : Prog bool) (m : M bool) :
  sim p m -> (forall w, (size w < fuel w)%nat) ->
  (forall w w', m w = (Ok true, w') -> (size w' < size w)%nat) ->
  sim (while_ fuel p) (while_ fuel m).
Proof.
  intros Hp Hfuel Hsize w. unfold while_. cbn [Prog_sections M_sections].
  assert (H : forall n w, (size w < n)%nat -> alone (While p (Ret tt)) w (M_while n m w).1 (M_while n m w).2);
    [|by apply H].
  intros n. induction n as [|n IH]; intros w0 Hn; [lia|]. cbn [M_while]. eapply alone_step; [done|].
  specialize (Hp w0). specialize (Hsize w0). unfold mbind, M_bind.
  destruct (m w0) as [[[]|e] w1]; cbn [fst snd] in *.
  - eapply alone_bind; [exact Hp|]. apply IH. specialize (Hsize _ eq_refl). lia.
  - eapply alone_bind; [exact Hp|]. constructor.
  - by apply alone_bind_throw.
Qed.
End alone.

Ltac sim_rule p :=
  lazymatch p with
  | mret _ => apply sim_ret
  | mbind _ _ => apply sim_bind; [|intros]
  | critical _ => apply sim_critical
  | when_ _ _ => apply sim_when
  | for_each _ _ => apply sim_for_each; intros
  | catch_ _ _ => apply sim_catch
  | unspecified => apply sim_unspecified
  | arguments _ _ _ => apply sim_arguments
  | match _ with _ => _ end => case_match
  | _ => unfold_head p
  end.
Create HintDb sim.
Ltac sim_step :=
  lazymatch goal with
  | |- sim ?p _ => first [ solve [auto 1 with sim nocore] | sim_rule p ]
  end.
Ltac sim_tac := repeat sim_step.

(** ** The handlers *)
Section handlers.
Context {Srv Rds : Type} {MA : MysqlApi Srv} {RA : RedisApi Rds} {PB : Protobuf}.
Notation World := (World Srv Rds).
Notation M := (M Srv Rds).
Notation Prog := (Prog Srv Rds).
Notation queue_length := (fun w : World => length (queue_ (w_queue w))).

Lemma pop_loop_shorter n q res ps q' :
  pop_loop n q res = (ps, q') -> ps <> [] -> res = [] -> (length (queue_ q') < length (queue_ q))%nat.
Proof.
  intros Hp Hne ->. destruct n as [|n]; [by injection Hp as <- <-|]. cbn in Hp.
  destruct (queue_ q) as [|p rest] eqn:Hq; [by injection Hp as <- <-|]. cbn [length].
  enough (forall n q res ps q', pop_loop n q res = (ps, q') -> (length (queue_ q') <= length (queue_ q))%nat) as H.
  { apply H in Hp. cbn in Hp. lia. }
  clear. induction n as [|n IH]; intros q res ps q'; cbn; [by intros [= _ <-]|].
  destruct (queue_ q) as [|p rest] eqn:Hq; [intros [= _ <-]; by rewrite Hq|]. intros H%IH. cbn in *. lia.
Qed.

(** A turn that goes on has taken somebody out of the queue, and nothing puts
    anybody in. *)
Lemma turn_shorter n (w w' : World) :
  (TryCreateRoom_turn n : M bool) w = (Ok true, w') -> (queue_length w' < queue_length w)%nat.
Proof.
  set (k := queue_length w). intros Hrun. set (T := fun _ : World => True).
  assert (H : triple T (fun w => queue_length w = k) (TryCreateRoom_turn n : M bool)
                (fun again w => again = true -> (queue_length w < k)%nat)).
  2: { specialize (H w eq_refl). rewrite Hrun in H. by apply H. }
  set (I := fun w : World => (queue_length w < k)%nat). unfold TryCreateRoom_turn.
  apply triple_bind with (R := fun players w => players = [] \/ I w).
  - intros w0 Hw0. unfold TryPopN, MatchQueue_TryPopN. sections. destruct (_ <? n); [by left|].
    destruct (pop_loop _ _ _) as [ps q'] eqn:Hp. cbn. destruct (decide (ps = [])); [by left|right].
    unfold I. cbn. rewrite <- Hw0. by eapply pop_loop_shorter.
  - intros players. apply triple_reads_bind. intros ctx. case_bool_decide as He; [by apply triple_ret|].
    case_match; [by apply triple_ret|].
    apply triple_pre with (P := I); [|intros w0 [[?|?] _]; done].
    apply triple_bind with (R := fun _ => I); [|intros room].
    { keeps_tac. }
    apply triple_bind with (R := fun _ => I); [keeps_tac|intros r].
    apply triple_bind with (R := fun _ => I); [|intros ?; by apply triple_ret].
    keeps_tac.
Qed.

Lemma sim_TryCreateRoom : sim (TryCreateRoom : Prog unit) TryCreateRoom.
Proof.
  unfold TryCreateRoom. apply sim_bind; [apply sim_critical|]. intros config.
  apply sim_while with (size := queue_length); [|intros w; lia|].
  - sim_tac.
  - intros w w'. apply turn_shorter.
Qed.
#[local] Hint Resolve sim_TryCreateRoom : sim.

Lemma sim_sync_ranks ss ps : sim (sync_ranks_sections ss ps : Prog bool) (sync_ranks_sections ss ps).
Proof. induction ps as [|p ps IH]; cbn [sync_ranks_sections]; sim_tac; exact IH. Qed.
#[local] Hint Resolve sim_sync_ranks : sim.

(** The two readings of the table of the dispatcher. *)
Definition same_handlers (hs : handlers (proc := Prog)) (hs' : handlers (proc := M)) : Prop :=
  forall id s p, match hs !! id, hs' !! id with
    | Some h, Some h' => sim (h (Some s) p) (h' (Some s) p)
    | None, None => True
    | _, _ => False
    end.

Lemma same_RegisterHandler id (h : Handler (proc := Prog)) (h' : Handler (proc := M)) hs hs' :
  (forall s p, sim (h (Some s) p) (h' (Some s) p)) -> same_handlers hs hs' ->
  same_handlers (RegisterHandler id h hs) (RegisterHandler id h' hs').
Proof.
  intros Hh Hhs id' s p. unfold RegisterHandler, handlers. rewrite !(lookup_insert (M := gmap Z)).
  case_decide; [apply Hh|apply Hhs].
Qed.

Lemma same_dispatcher : same_handlers dispatcher dispatcher.
Proof.
  unfold dispatcher, Rank_RegisterHandlers, Room_RegisterHandlers, Match_RegisterHandlers, Login_RegisterHandlers.
  repeat (apply same_RegisterHandler; [intros; sim_tac|]).
  intros id s p. unfold handlers. by rewrite !(lookup_empty (M := gmap Z)).
Qed.

Lemma sim_Dispatch s p : sim (Dispatch dispatcher (Some s) p : Prog unit) (Dispatch dispatcher (Some s) p).
Proof.
  unfold Dispatch. pose proof (same_dispatcher (msg_id p) s p) as H.
  destruct (dispatcher !! msg_id p) as [h|]; destruct (dispatcher !! msg_id p) as [h'|]; try done. apply sim_ret.
Qed.
#[local] Hint Resolve sim_Dispatch : sim.

(** Every handler: the same event, in the same state, starts the two readings of
    one handler. *)
Lemma sim_event_handler w e :
  match event_handler w e : option (Prog unit), event_handler w e : option (M unit) with
  | Some p, Some m => sim p m
  | None, None => True
  | _, _ => False
  end.
Proof.
  destruct e; cbn [event_handler];
    repeat match goal with |- context [if ?b then _ else _] => destruct b end; try exact I; sim_tac.
Qed.
End handlers.

(** ** Schedules *)
Section schedules.
Context {Srv Rds : Type} {MA : MysqlApi Srv} {RA : RedisApi Rds} {PB : Protobuf}.
Notation World := (World Srv Rds).
Notation Process := (Process Srv Rds).

(** The events of a schedule, in order. *)
Definition begun (acts : list Action) : list Event :=
  omap (fun a => match a with Begin e => Some e | Go _ _ => None end) acts.

Lemma begun_app acts1 acts2 : begun (acts1 ++ acts2) = begun acts1 ++ begun acts2.
Proof. apply omap_app. Qed.

(** The thread of [t] runs until its handler has returned. *)
Lemma alone_schedule (m : Prog Srv Rds unit) w w' t :
  alone m w (Ok tt) w' ->
  exists acts, begun acts = [] /\ csteps (mkProcess w {[t := m]}) acts = Some (mkProcess w' ∅).
Proof.
  intros H. remember (Ok tt : result unit) as o eqn:Ho. revert Ho.
  induction H as [[] w|e w|m w m1 w1 r w' Hs H IH]; intros Ho; [..|destruct (IH Ho) as (acts & Hb & Hacts)]; [|done|].
  - exists [Go t 0]. split; [done|]. cbn. rewrite lookup_singleton_eq. cbn. by rewrite delete_singleton_eq.
  - exists (Go t 0 :: acts). split; [done|]. cbn. rewrite lookup_singleton_eq.
    destruct (raised m) eqn:Hr; [by destruct m|]. rewrite Hs, insert_singleton_eq. exact Hacts.
Qed.

Lemma step_schedule (w w' : World) e :
  step w e = Some w' ->
  exists acts, begun acts = [e] /\ csteps (mkProcess w ∅) acts = Some (mkProcess w' ∅).
Proof.
  intros Hstep.
  assert (Hrun : forall t, thread_of e = Some t ->
    match event_handler w e : option (M Srv Rds unit) with Some m => run m w | None => Some w end = Some w' ->
    begin_event (mkProcess w ∅) e = match event_handler w e with
      | Some m => mkProcess w {[t := m]} | None => mkProcess w ∅ end ->
    exists acts, begun acts = [e] /\ csteps (mkProcess w ∅) acts = Some (mkProcess w' ∅)).
  { intros t Ht Hr Hb. pose proof (sim_event_handler w e) as Hsim.
    destruct (event_handler (proc := Prog Srv Rds) w e) as [p|]; destruct (event_handler (proc := M Srv Rds) w e) as [m|];
      try done.
    - specialize (Hsim w). unfold run in Hr. destruct (m w) as [[[]|?] w1]; [|done]. injection Hr as ->.
      destruct (alone_schedule p w w' t Hsim) as (acts & Hno & Hacts). exists (Begin e :: acts).
      split; [change (e :: begun acts = [e]); by rewrite Hno|]. cbn. by rewrite Hb.
    - injection Hr as ->. exists [Begin e]. split; [done|]. cbn. by rewrite Hb. }
  destruct e as [now steady| | | | | | |conn| |]; cbn [step] in Hstep.
  1: { injection Hstep as <-. by exists [Begin (EClock now steady)]. }
  7: { injection Hstep as <-. exists [Begin (EExpire conn)]. split; [done|]. cbn. rewrite lookup_empty.
       by destruct (conn_is _ _ _). }
  all: eapply Hrun; [done|exact Hstep|]; cbn [begin_event thread_of c_threads c_world];
    rewrite lookup_empty; destruct (event_handler _ _); done.
Qed.

(** The two readings of the handlers agree where no handler is interrupted: a check of
    the model, with the same events in the same order. *)
Lemma sequential_runs_are_schedules (w w' : World) es (Hrun : steps w es = Some w') :
  exists acts, begun acts = es /\ csteps (mkProcess w ∅) acts = Some (mkProcess w' ∅).
Proof.
  revert w Hrun. induction es as [|e es IH]; intros w; cbn; [intros [= ->]; by exists []|].
  destruct (step w e) as [w1|] eqn:He; [|done]. intros Hrun.
  destruct (step_schedule _ _ _ He) as (acts1 & Hb1 & H1). destruct (IH _ Hrun) as (acts2 & Hb2 & H2).
  exists (acts1 ++ acts2). by rewrite begun_app, Hb1, Hb2, csteps_app, H1.
Qed.
End schedules.
