(* ===== verification/ThreadLogic.v ===== *)
(** * ThreadLogic: invariants that hold however the threads interleave

    A handler is verified alone, section by section, against what the others may
    do: between two sections the world moves along [R], and at each of them the
    invariant [Inv] holds.  A handler may own tokens, which the others do not have:
    a token stands for a right (to make the battle of a room that was just
    started), a reserved value (an id that was just drawn) or a duty (to look at
    the queue again).  [Inv] reads all tokens that are owned.

    [wp m Q E X w]: owning [X] in the world [w], the handler [m] keeps [Inv] and moves
    along [R] at each section, whatever the others do; it returns with [Q] or throws
    with [E].  Nothing is asked of it once the world is no longer [good] (a counter
    has run through).  [wp_schedule] is the soundness of it: if every handler is fine
    alone then [Inv] holds in every process.

    [tct T P m Q] packs [wp] as a triple: the handler owns some [D] with [P D w] and
    others it does not use; [T] says whether it may throw (with [D] given back).
    [ct] is the case of a handler that owns nothing, before and after; [quiet] the
    case where nothing has to be known of the world either. *)
From S2P Require Import Prelude Wire Net StdString Messages GameRoom MatchQueue Config Registry Room Mysql Repositories Redis Settlement Timer World Reason Lobby Login GameServer Threads.
Local Open Scope Z_scope.

Section logic.
Context {Srv Rds : Type}.
Context {Tok : Type} `{!EqDecision Tok, !Countable Tok}.
Notation World := (World Srv Rds).
Notation Prog := (Prog Srv Rds).
Context (good : World -> Prop) (Inv : gset Tok -> World -> Prop) (R : World -> World -> Prop).
Context {HR : PreOrder R}.
Notation assertion := (gset Tok -> World -> Prop).
#[local] Set Default Proof Using "HR".

(** What the others do does not make it false. *)
Definition stable (P : assertion) : Prop := forall X w w', R w w' -> P X w -> P X w'.

Fixpoint wp {A : Type} (m : Prog A) (Q : A -> assertion) (E : assertion) (X : gset Tok) (w : World) : Prop :=
  match m with
  | Ret a => Q a X w
  | Raise _ => E X w
  | Step next rest =>
    forall w1 F, R w w1 -> X ## F -> Inv (X ∪ F) w1 -> good (next w1) ->
      exists X', X' ## F /\ Inv (X' ∪ F) (next w1) /\ R w1 (next w1) /\ wp (rest w1) Q E X' (next w1)
  | Choose k => forall n, wp (k n) Q E X w
  | While body k =>
    exists L : assertion, stable L /\ L X w
      /\ forall X w, L X w -> wp body (fun (again : bool) X w => if again then L X w else wp k Q E X w) E X w
  | Try m h k => wp m (fun _ => wp k Q E) (wp h (fun _ => wp k Q E) E) X w
  end.

(** ** Consequence and stability *)
Lemma wp_mono {A} (m : Prog A) Q Q' E E' X w :
  (forall a X w, Q a X w -> Q' a X w) -> (forall X w, E X w -> E' X w) ->
  wp m Q E X w -> wp m Q' E' X w.
Proof.
  revert Q Q' E E' X w. induction m as [A a|A e|A next rest IH|A k IH|A body IHb k IHk|A m IHm h IHh k IHk];
    intros Q Q' E E' X w HQ HE; cbn; [apply HQ|apply HE|..].
  - intros Hm w1 F HRw HF HI Hg. destruct (Hm w1 F HRw HF HI Hg) as (X' & ? & ? & ? & H). exists X'.
    split_and!; [done..|]. by eapply IH.
  - intros Hm n. by eapply IH.
  - intros (L & HL & HX & Hb). exists L. split_and!; [done|done|]. intros X1 w1 HX1.
    eapply IHb; [|exact HE|by apply Hb]. intros [] X2 w2; [done|]. by apply IHk.
  - apply IHm.
    + intros _ X1 w1. by apply IHk.
    + intros X1 w1. apply IHh; [|done]. intros _ X2 w2. by apply IHk.
Qed.

Lemma wp_stable {A} (m : Prog A) Q E :
  (forall a, stable (Q a)) -> stable E -> stable (wp m Q E).
Proof.
  revert Q E. induction m as [A a|A e|A next rest IH|A k IH|A body IHb k IHk|A m IHm h IHh k IHk];
    intros Q E HQ HE X w w' Hw; cbn; [by apply HQ|by apply HE|..].
  - intros Hm w1 F Hw1. apply Hm. by etrans.
  - intros Hm n. eapply IH; [done..|apply Hm].
  - intros (L & HL & HX & Hb). exists L. split_and!; [done|by eapply HL|done].
  - apply IHm; [|apply IHh|done]; [|intros _; by apply IHk|done]. intros _. by apply IHk.
Qed.

(** ** Composition *)
Lemma wp_bind {A B} (m : Prog A) (f : A -> Prog B) Q E X w :
  wp m (fun a => wp (f a) Q E) E X w -> wp (Prog_bind m f) Q E X w.
Proof.
  revert X w. induction m as [A a|A e|A next rest IH|A k IH|A body _ k IHk|A m _ h _ k IHk] in f |- *;
    intros X w; cbn; [done|done|..].
  - intros Hm w1 F HRw HF HI Hg. destruct (Hm w1 F HRw HF HI Hg) as (X' & ? & ? & ? & H). exists X'.
    split_and!; [done..|]. by apply IH.
  - intros Hm n. by apply IH.
  - intros (L & HL & HX & Hb). exists L. split_and!; [done|done|]. intros X1 w1 HX1.
    eapply wp_mono; [|done|by apply Hb]. intros [] X2 w2; [done|]. by apply IHk.
  - apply wp_mono.
    + intros _ X1 w1. by apply IHk.
    + intros X1 w1. apply wp_mono; [|done]. intros _ X2 w2. by apply IHk.
Qed.

Lemma wp_section {A} (s : M Srv Rds A) Q E X w :
  (forall w1 F, R w w1 -> X ## F -> Inv (X ∪ F) w1 -> good (s w1).2 ->
     exists X', X' ## F /\ Inv (X' ∪ F) (s w1).2 /\ R w1 (s w1).2
       /\ match (s w1).1 with Ok a => Q a X' (s w1).2 | Throw _ => E X' (s w1).2 end) ->
  wp (critical s) Q E X w.
Proof.
  intros H w1 F HRw HF HI Hg. destruct (H w1 F HRw HF HI Hg) as (X' & ? & ? & ? & Hs). exists X'.
  split_and!; [done..|]. unfold section_rest, section_next. by destruct (s w1).1.
Qed.

(** ** One section of a running handler *)
Lemma wp_pstep {A} (m m' : Prog A) n w w' Q E X F :
  wp m Q E X w -> X ## F -> Inv (X ∪ F) w -> good w' -> pstep m n w = Some (m', w') ->
  exists X', X' ## F /\ Inv (X' ∪ F) w' /\ R w w' /\ wp m' Q E X' w'.
Proof.
  revert m' X Q E. induction m as [A a|A e|A next rest IH|A k IH|A body _ k IHk|A m IHm h _ k IHk];
    intros m' X Q E Hm HF HI Hg; cbn [pstep]; [done|done|..].
  - intros [= <- <-]. destruct (Hm w F) as (X' & ? & ? & ? & H); [done..|]. by exists X'.
  - intros [= <- <-]. exists X. split_and!; [done|done|done|apply Hm].
  - intros [= <- <-]. exists X. split_and!; [done|done|done|]. apply wp_bind.
    destruct Hm as (L & HL & HX & Hb). eapply wp_mono; [|done|by apply Hb].
    intros [] X1 w1 H1; [|exact H1]. cbn. by exists L.
  - cbn in Hm.
    assert (Hgo : pstep m n w = None -> match pstep m n w with Some (m, w) => Some (Try m h k, w) | None => None end
              = Some (m', w') -> False) by by intros ->.
    assert (Hstep : forall m1 w1, pstep m n w = Some (m1, w1) -> Some (Try m1 h k, w1) = Some (m', w') ->
              exists X', X' ## F /\ Inv (X' ∪ F) w' /\ R w w' /\ wp m' Q E X' w').
    { intros m1 w1 Hp [= <- <-]. destruct (IHm m1 X _ _ Hm HF HI Hg Hp) as (X' & ? & ? & ? & H). by exists X'. }
    destruct m as [a|e|next rest|k1|b k1|m1 h1 k1].
    + intros [= <- <-]. by exists X.
    + intros [= <- <-]. exists X. split_and!; [done|done|done|]. apply wp_bind. exact Hm.
    + destruct (pstep _ n w) as [[m1 w1]|] eqn:Hp; [by apply Hstep|done].
    + destruct (pstep _ n w) as [[m1 w1]|] eqn:Hp; [by apply Hstep|done].
    + destruct (pstep _ n w) as [[m2 w2]|] eqn:Hp; [by apply Hstep|done].
    + destruct (pstep _ n w) as [[m2 w2]|] eqn:Hp; [by apply Hstep|done].
Qed.

(** ** Triples *)
Definition tct (T : Prop) (P : gset Tok -> World -> Prop) {A} (m : Prog A) (Q : A -> gset Tok -> World -> Prop) : Prop :=
  forall X D w, X ## D -> P D w ->
    wp m (fun a X' w' => exists D', X' = X ∪ D' /\ X ## D' /\ R w w' /\ Q a D' w')
      (fun X' w' => T /\ X' = X /\ R w w') (X ∪ D) w.

Definition ct (T : Prop) (P : World -> Prop) {A} (m : Prog A) (Q : A -> World -> Prop) : Prop :=
  tct T (fun D w => D = ∅ /\ P w) m (fun a D w => D = ∅ /\ Q a w).

Definition quiet (T : Prop) {A} (m : Prog A) : Prop := ct T (fun _ => True) m (fun _ _ => True).

Class Stable (P : World -> Prop) := stable_move : forall w w', R w w' -> P w -> P w'.

#[global] Instance Stable_pure (F : Prop) : Stable (fun _ => F).
Proof using Type. by intros w w' _. Qed.
#[global] Instance Stable_and P Q : Stable P -> Stable Q -> Stable (fun w => P w /\ Q w).
Proof using Type. intros HP HQ w w' Hw [H1 H2]. split; [by eapply HP|by eapply HQ]. Qed.
#[global] Instance Stable_impl (F : Prop) P : Stable P -> Stable (fun w => F -> P w).
Proof using Type. intros HP w w' Hw H HF. eapply HP; [done|by apply H]. Qed.
#[global] Instance Stable_exists {B} (P : B -> World -> Prop) :
  (forall b, Stable (P b)) -> Stable (fun w => exists b, P b w).
Proof using Type. intros HP w w' Hw [b Hb]. exists b. by eapply HP. Qed.

Lemma tct_weaken T P P' {A} (m : Prog A) (Q Q' : A -> gset Tok -> World -> Prop) :
  tct T P m Q -> (forall D w, P' D w -> P D w) -> (forall a D w, Q a D w -> Q' a D w) -> tct T P' m Q'.
Proof.
  intros H HP HQ X D w HX HD. eapply wp_mono; [| |apply H; [done|by apply HP]]; [|done].
  intros a X' w' (D' & ? & ? & ? & HQ'). exists D'. eauto.
Qed.

Lemma tct_pure T (F : Prop) P {A} (m : Prog A) Q :
  (forall D w, P D w -> F) -> (F -> tct T P m Q) -> tct T P m Q.
Proof using Type. intros HF H X D w HX HD. by apply H; [eapply HF|..]. Qed.

Lemma tct_exists T {B} (P : B -> gset Tok -> World -> Prop) {A} (m : Prog A) Q :
  (forall x, tct T (P x) m Q) -> tct T (fun D w => exists x, P x D w) m Q.
Proof using Type. intros H X D w HX [x HD]. by apply (H x). Qed.

Lemma tct_ret T P {A} (a : A) (Q : A -> gset Tok -> World -> Prop) :
  (forall D w, P D w -> Q a D w) -> tct T P (mret a) Q.
Proof. intros H X D w HX HD. exists D. split_and!; [done..|by apply H]. Qed.

Lemma tct_bind T P {A B} (m : Prog A) (f : A -> Prog B) (R' : A -> gset Tok -> World -> Prop) Q :
  tct T P m R' -> (forall a, tct T (R' a) (f a) Q) -> tct T P (m ≫= f) Q.
Proof.
  intros Hm Hf X D w HX HD. apply wp_bind. eapply wp_mono; [| |by apply Hm]; [|done].
  intros a X' w1 (D1 & -> & HX1 & HR1 & H1). eapply wp_mono; [| |by apply Hf].
  - intros b X2 w2 (D2 & ? & ? & ? & ?). exists D2. split_and!; [done|done|by etrans|done].
  - intros X2 w2 (? & ? & ?). split_and!; [done|done|by etrans].
Qed.

(** A section; [Y] is everything that is owned. *)
Lemma tct_section T P {A} (s : M Srv Rds A) Q :
  (forall D, Stable (P D)) ->
  (forall D F w, D ## F -> Inv (D ∪ F) w -> good (s w).2 -> P D w ->
     exists D', D' ## F /\ Inv (D' ∪ F) (s w).2 /\ R w (s w).2
       /\ match (s w).1 with Ok a => Q a D' (s w).2 | Throw _ => T /\ D' = ∅ end) ->
  tct T P (critical s) Q.
Proof.
  intros HP H X D w HX HD. apply wp_section. intros w1 F HR1 HF HI Hg.
  destruct (H D (X ∪ F) w1) as (D' & HF' & HI' & HR' & HQ); [set_solver| |done|by eapply HP|].
  { by rewrite (assoc_L (∪)), (comm_L (∪) D). }
  exists (X ∪ D'). split_and!; [set_solver| |done|].
  { by rewrite (comm_L (∪) X), <- (assoc_L (∪)). }
  destruct (s w1).1 as [a|e].
  - exists D'. split_and!; [done|set_solver|by etrans|done].
  - destruct HQ as [? ->]. split_and!; [done|by rewrite (right_id_L ∅ (∪))|by etrans].
Qed.

Lemma tct_reads T P {A B} (f : World -> A) (k : A -> Prog B) Q (R' : A -> gset Tok -> World -> Prop) :
  (forall D, Stable (P D)) -> (forall D F w, Inv (D ∪ F) w -> P D w -> R' (f w) D w) ->
  (forall v, tct T (R' v) (k v) Q) -> tct T P (reads f ≫= k) Q.
Proof.
  intros HP H Hk. eapply tct_bind; [|exact Hk]. apply tct_section; [done|]. intros D F w HF HI _ Hw. exists D. cbn.
  split_and!; [done|done|done|by eapply H].
Qed.

(** What the handler does not use is left alone. *)
Lemma tct_frame T D0 P {A} (m : Prog A) Q :
  ct False P m Q -> tct T (fun D w => D = D0 /\ P w) m (fun a D w => D = D0 /\ Q a w).
Proof.
  intros H X D w HX [-> HP]. specialize (H (X ∪ D0) ∅ w). rewrite (right_id_L ∅ (∪)) in H.
  eapply wp_mono; [| |apply H; [set_solver|done]].
  - intros a X' w' (D' & -> & _ & ? & -> & ?). exists D0. by rewrite (right_id_L ∅ (∪)).
  - by intros X' w' [[] _].
Qed.

Lemma tct_while T P (Q : gset Tok -> World -> Prop) fuel (body : Prog bool) :
  (forall D, Stable (P D)) -> tct T P body (fun (again : bool) D w => if again then P D w else Q D w) ->
  tct T P (while_ fuel body) (fun _ => Q).
Proof.
  intros HP Hb X D w HX HD. cbn.
  exists (fun X' w' => exists D', X' = X ∪ D' /\ X ## D' /\ R w w' /\ P D' w'). split_and!.
  - intros X1 w1 w2 Hw2 (D' & ? & ? & ? & ?). exists D'. split_and!; [done|done|by etrans|by eapply HP].
  - by exists D.
  - intros X1 w1 (D' & -> & HX' & HR1 & Hw1). eapply wp_mono; [| |by apply Hb].
    + intros again X2 w2 (D2 & -> & ? & ? & ?). assert (R w w2) by by etrans.
      destruct again; [by exists D2|]. cbn. by exists D2.
    + intros X2 w2 (? & -> & ?). split_and!; [done|done|by etrans].
Qed.

(** ** Handlers that own nothing *)
Lemma ct_weaken T T' P P' {A} (m : Prog A) (Q Q' : A -> World -> Prop) :
  ct T P m Q -> (T -> T') -> (forall w, P' w -> P w) -> (forall a w, Q a w -> Q' a w) -> ct T' P' m Q'.
Proof.
  intros H HT HP HQ X D w HX [HD Hw]. eapply wp_mono; [| |apply H; [done|split; [done|by apply HP]]].
  - intros a X' w' (D' & ? & ? & ? & ? & ?). exists D'. split_and!; auto.
  - intros X' w' (? & ? & ?). auto.
Qed.
Lemma ct_pre T P P' {A} (m : Prog A) Q : ct T P m Q -> (forall w, P' w -> P w) -> ct T P' m Q.
Proof. eauto using ct_weaken. Qed.
Lemma ct_post T P {A} (m : Prog A) (Q Q' : A -> World -> Prop) :
  ct T P m Q -> (forall a w, Q a w -> Q' a w) -> ct T P m Q'.
Proof. eauto using ct_weaken. Qed.

Lemma ct_pull T (F : Prop) P {A} (m : Prog A) Q : (F -> ct T P m Q) -> ct T (fun w => F /\ P w) m Q.
Proof. intros H X D w HX [HD [HF Hw]]. by apply H. Qed.

Lemma ct_exists T {B} (P : B -> World -> Prop) {A} (m : Prog A) Q :
  (forall x, ct T (P x) m Q) -> ct T (fun w => exists x, P x w) m Q.
Proof using Type. intros H X D w HX [HD [x Hw]]. by apply (H x). Qed.

(** What is known of the world stays known. *)
Lemma ct_and T P P' {A} (m : Prog A) Q :
  ct T P m Q -> Stable P' -> ct T (fun w => P w /\ P' w) m (fun a w => Q a w /\ P' w).
Proof.
  intros H HP X D w HX (HD & Hw & Hw'). eapply wp_mono; [| |apply H; [done|by split]]; [|done].
  intros a X' w' (D' & ? & ? & HR' & ? & ?). exists D'. split_and!; [done..|by eapply HP].
Qed.

Lemma quiet_ct T P {A} (m : Prog A) : quiet T m -> Stable P -> ct T P m (fun _ => P).
Proof.
  intros H HP. eapply ct_weaken; [by apply (ct_and T _ P m _ H HP)|done|done|]. by intros a w [].
Qed.

(** A piece that neither throws nor has to do with what is owned and known. *)
Lemma tct_skip T D0 P {A B} (m : Prog A) (f : A -> Prog B) Q :
  quiet False m -> Stable P -> (forall a, tct T (fun D w => D = D0 /\ P w) (f a) Q) ->
  tct T (fun D w => D = D0 /\ P w) (m ≫= f) Q.
Proof.
  intros H HP Hf. eapply tct_bind; [|exact Hf]. apply (tct_frame T D0 P m (fun _ => P)). by apply quiet_ct.
Qed.

Lemma ct_ret T P {A} (a : A) (Q : A -> World -> Prop) : (forall w, P w -> Q a w) -> ct T P (mret a) Q.
Proof. intros H. apply tct_ret. intros D w [? ?]. split; auto. Qed.

Lemma ct_bind T P {A B} (m : Prog A) (f : A -> Prog B) (R' : A -> World -> Prop) Q :
  ct T P m R' -> (forall a, ct T (R' a) (f a) Q) -> ct T P (m ≫= f) Q.
Proof. intros H1 H2. eapply tct_bind; [exact H1|]. intros a. apply H2. Qed.

(** A piece that has nothing to do with what is known. *)
Lemma ct_skip T P {A B} (m : Prog A) (f : A -> Prog B) Q :
  quiet T m -> Stable P -> (forall a, ct T P (f a) Q) -> ct T P (m ≫= f) Q.
Proof. intros H HP Hf. eapply ct_bind; [by apply (quiet_ct T P m)|exact Hf]. Qed.

Lemma ct_section T P {A} (s : M Srv Rds A) Q :
  Stable P ->
  (forall Y w, Inv Y w -> good (s w).2 -> P w ->
     Inv Y (s w).2 /\ R w (s w).2 /\ match (s w).1 with Ok a => Q a (s w).2 | Throw _ => T end) ->
  ct T P (critical s) Q.
Proof.
  intros HP H. apply tct_section.
  { intros D. apply Stable_and; [apply Stable_pure|exact HP]. }
  intros D F w HF HI Hg [-> Hw].
  destruct (H (∅ ∪ F) w HI Hg Hw) as (H1 & H2 & H3). exists ∅. split_and!; [done..|]. by destruct (s w).1.
Qed.

Lemma ct_reads T P {A B} (f : World -> A) (k : A -> Prog B) Q (R' : A -> World -> Prop) :
  Stable P -> (forall Y w, Inv Y w -> P w -> R' (f w) w) -> (forall v, ct T (R' v) (k v) Q) ->
  ct T P (reads f ≫= k) Q.
Proof.
  intros HP H Hk. eapply ct_bind; [|exact Hk]. apply ct_section; [done|]. intros Y w HI _ Hw. cbn.
  split_and!; [done|done|by eapply H].
Qed.

Lemma ct_for_each T P {A} (l : list A) (f : A -> Prog unit) :
  (forall x, x ∈ l -> ct T P (f x) (fun _ => P)) -> ct T P (for_each l f) (fun _ => P).
Proof.
  induction l as [|x l IH]; intros Hf; [by apply ct_ret|]. cbn [for_each].
  eapply ct_bind; [apply Hf; left|]. intros ?. apply IH. intros; apply Hf. by right.
Qed.

Lemma ct_while T P fuel (body : Prog bool) :
  Stable P -> ct T P body (fun _ => P) -> ct T P (while_ fuel body) (fun _ => P).
Proof.
  intros HP Hb X D w HX [-> Hw]. cbn.
  exists (fun X' w' => X' = X ∪ ∅ /\ R w w' /\ P w'). split_and!; [|done|done|done|].
  { intros X1 w1 w2 Hw2 (-> & ? & ?). split_and!; [done|by etrans|by eapply HP]. }
  intros X1 w1 (-> & HR1 & Hw1). eapply wp_mono; [| |apply Hb; [done|by split]].
  - intros again X2 w2 (D2 & -> & _ & ? & -> & ?).
    assert (R w w2) by by etrans. destruct again; [done|]. cbn. exists ∅. by split_and!.
  - intros X2 w2 (? & -> & ?). split_and!; [done|done|by etrans].
Qed.

Lemma ct_catch T P (m h : Prog unit) :
  Stable P -> ct True P m (fun _ => P) -> ct T P h (fun _ => P) -> ct T P (catch_ m h) (fun _ => P).
Proof.
  intros HP Hm Hh X D w HX [-> Hw]. cbn. eapply wp_mono; [| |apply Hm; [done|by split]].
  - done.
  - intros X1 w1 (_ & -> & HR1). pose proof (Hh X ∅ w1 HX (conj eq_refl (HP _ _ HR1 Hw))) as H.
    rewrite (right_id_L ∅ (∪)) in H. eapply wp_mono; [| |exact H].
    + intros [] X2 w2 (D2 & ? & ? & ? & ? & ?). exists D2. split_and!; [done|done|by etrans|done..].
    + intros X2 w2 (? & ? & ?). split_and!; [done|done|by etrans].
Qed.

(** ** Quiet handlers *)
Lemma quiet_ret T {A} (a : A) : quiet T (mret a : Prog A).
Proof. by apply ct_ret. Qed.
Lemma quiet_bind T {A B} (m : Prog A) (f : A -> Prog B) :
  quiet T m -> (forall a, quiet T (f a)) -> quiet T (m ≫= f).
Proof. apply ct_bind. Qed.
Lemma quiet_section T {A} (s : M Srv Rds A) :
  (forall Y w, Inv Y w -> good (s w).2 ->
     Inv Y (s w).2 /\ R w (s w).2 /\ match (s w).1 with Ok _ => True | Throw _ => T end) ->
  quiet T (critical s : Prog A).
Proof.
  intros H. apply ct_section; [apply Stable_pure|]. intros Y w HI Hg _. by apply H.
Qed.
(** A section that is a computation of [Reason]. *)
Lemma quiet_critical T {A} (s : M Srv Rds A) :
  (forall Y w0, inv (fun w => T /\ Inv Y w /\ R w0 w) (fun w => Inv Y w /\ R w0 w) s) -> quiet T (critical s : Prog A).
Proof.
  intros H. apply quiet_section. intros Y w HI _. specialize (H Y w w (conj HI (reflexivity w))).
  destruct (s w) as [[a|e] w']; cbn; tauto.
Qed.

Lemma quiet_reads T {A} (f : World -> A) : quiet T (reads f : Prog A).
Proof. apply quiet_section. by intros Y w HI. Qed.
Lemma quiet_when T b (m : Prog unit) : quiet T m -> quiet T (when_ b m).
Proof. intros Hm. destruct b; [exact Hm|apply quiet_ret]. Qed.
Lemma quiet_for_each T {A} (l : list A) (f : A -> Prog unit) : (forall x, quiet T (f x)) -> quiet T (for_each l f).
Proof. intros H. apply ct_for_each. intros x _. apply H. Qed.
Lemma quiet_while T fuel (body : Prog bool) : quiet T body -> quiet T (while_ fuel body).
Proof. intros H. apply ct_while; [apply Stable_pure|exact H]. Qed.
Lemma quiet_catch T (m h : Prog unit) : quiet True m -> quiet T h -> quiet T (catch_ m h).
Proof. intros H1 H2. apply ct_catch; [apply Stable_pure|exact H1|exact H2]. Qed.
Lemma ct_unspecified T P : ct T P (unspecified : Prog nat) (fun _ => P).
Proof. intros X D w HX [-> Hw] n. exists ∅. by split_and!. Qed.
(** The arguments of a call, each known to be fine. *)
Lemma ct_arguments T P {A B C} (a : Prog A) (b : Prog B) (c : Prog C) (Fa : A -> Prop) (Fb : B -> Prop) (Fc : C -> Prop) :
  ct T P a (fun x w => Fa x /\ P w) -> ct T P b (fun x w => Fb x /\ P w) -> ct T P c (fun x w => Fc x /\ P w) ->
  ct T P (arguments a b c) (fun v w => (Fa v.1.1 /\ Fb v.1.2 /\ Fc v.2) /\ P w).
Proof.
  intros Ha Hb Hc. eapply ct_bind; [apply ct_unspecified|]. intros n.
  destruct (n `mod` 6)%nat as [|[|[|[|[|k]]]]];
    do 3 (eapply ct_bind; [eassumption|]; intros ?; apply ct_pull; intros ?); by apply ct_ret.
Qed.

Lemma quiet_unspecified T : quiet T (unspecified : Prog nat).
Proof. apply ct_unspecified. Qed.
Lemma quiet_arguments T {A B C} (a : Prog A) (b : Prog B) (c : Prog C) :
  quiet T a -> quiet T b -> quiet T c -> quiet T (arguments a b c).
Proof.
  intros Ha Hb Hc. apply quiet_bind; [apply quiet_unspecified|]. intros n.
  destruct (n `mod` 6)%nat as [|[|[|[|[|k]]]]]; repeat (apply quiet_bind; [done|]; intros ?); apply quiet_ret.
Qed.

(** A handler that is fine from the start. *)
Lemma quiet_handler (m : Prog unit) w : quiet True m -> wp m (fun _ X _ => X = ∅) (fun _ _ => True) ∅ w.
Proof.
  intros H. specialize (H ∅ ∅ w ltac:(set_solver) (conj eq_refl I)). rewrite (right_id_L ∅ (∪)) in H.
  eapply wp_mono; [| |exact H]; [|done]. intros _ X w' (D & -> & _ & _ & -> & _). by rewrite (right_id_L ∅ (∪)).
Qed.

(** ** The running process *)
Definition finished : unit -> assertion := fun _ X _ => X = ∅.
Definition anything : assertion := fun _ _ => True.

(** The running handlers own [Y] between them, each its own part, and each of them
    is fine with what it has. *)
Record threads_ok (Y : gset Tok) (p : Process Srv Rds) (own : gmap Thread (gset Tok)) : Prop := {
  to_owned tok : tok ∈ Y <-> exists t X, own !! t = Some X /\ tok ∈ X;
  to_apart t t' X X' : own !! t = Some X -> own !! t' = Some X' -> t <> t' -> X ## X';
  to_dom t : is_Some (own !! t) <-> is_Some (c_threads p !! t);
  to_wp t m X : c_threads p !! t = Some m -> own !! t = Some X -> wp m finished anything X (c_world p)
}.

Definition process_ok (p : Process Srv Rds) : Prop :=
  exists Y own, Inv Y (c_world p) /\ threads_ok Y p own.

Lemma handler_stable (m : Prog unit) : stable (wp m finished anything).
Proof. by apply wp_stable; unfold stable, finished, anything. Qed.

(** The tokens of the other handlers. *)
Lemma threads_frame Y p own t X :
  threads_ok Y p own -> own !! t = Some X -> exists F, Y = X ∪ F /\ X ## F
    /\ forall t' X', t' <> t -> own !! t' = Some X' -> X' ⊆ F.
Proof.
  intros [Ho Ha _ _] Ht. exists (Y ∖ X). split_and!; [|set_solver|].
  - apply set_eq. intros tok. rewrite elem_of_union, elem_of_difference.
    destruct (decide (tok ∈ X)); [|tauto]. split; [tauto|]. intros _. rewrite Ho. eauto.
  - intros t' X' Hne Ht' tok Hin. apply elem_of_difference. split; [apply Ho; eauto|].
    pose proof (Ha _ _ _ _ Ht' Ht Hne). set_solver.
Qed.

(** The world moves on, no handler does. *)
Lemma threads_world Y p own w :
  threads_ok Y p own -> R (c_world p) w -> threads_ok Y (mkProcess w (c_threads p)) own.
Proof.
  intros [Ho Ha Hd Hw] HRw. split; [done|done|done|]. intros t m X Hm HX. cbn in *.
  eapply handler_stable; [done|by eapply Hw].
Qed.

(** The handler of [t] does a section. *)
Lemma threads_step Y p own t X X' F m' w' :
  threads_ok Y p own -> own !! t = Some X -> Y = X ∪ F ->
  (forall t' X', t' <> t -> own !! t' = Some X' -> X' ⊆ F) ->
  X' ## F -> X ## F -> R (c_world p) w' -> wp m' finished anything X' w' ->
  threads_ok (X' ∪ F) (mkProcess w' (<[t := m']> (c_threads p))) (<[t := X']> own).
Proof.
  intros [Ho Ha Hd Hw] Ht HY HF HX' HX HRw Hm'. split; cbn.
  - intros tok. rewrite elem_of_union. split.
    + intros [Hin|Hin]; [exists t, X'; by rewrite lookup_insert_eq|].
      destruct (proj1 (Ho tok)) as (t1 & X1 & H1 & Hin1); [set_solver|].
      destruct (decide (t1 = t)) as [->|Hne]; [set_solver|].
      exists t1, X1. by rewrite lookup_insert_ne.
    + intros (t1 & X1 & [[<- <-]|[Hne H1]]%lookup_insert_Some & Hin); [by left|right].
      by eapply HF; [|exact H1|].
  - intros t1 t2 X1 X2 [[<- <-]|[H1n H1]]%lookup_insert_Some [[<- <-]|[H2n H2]]%lookup_insert_Some Hne; [done|..].
    + pose proof (HF _ _ ltac:(done) H2). set_solver.
    + pose proof (HF _ _ ltac:(done) H1). set_solver.
    + by eapply Ha.
  - intros t1. destruct (decide (t = t1)) as [->|Hne]; [by rewrite !lookup_insert_eq|].
    by rewrite !lookup_insert_ne.
  - intros t1 m1 X1. destruct (decide (t = t1)) as [->|Hne].
    + rewrite !lookup_insert_eq. by intros [= <-] [= <-].
    + rewrite !lookup_insert_ne by done. intros H1 H2. eapply handler_stable; [done|by eapply Hw].
Qed.

Lemma threads_return Y p own t :
  threads_ok Y p own -> own !! t = Some ∅ ->
  threads_ok Y (mkProcess (c_world p) (delete t (c_threads p))) (delete t own).
Proof.
  intros [Ho Ha Hd Hw] Ht. split; cbn.
  - intros tok. rewrite Ho. split; intros (t1 & X1 & H1 & Hin).
    + exists t1, X1. rewrite lookup_delete_ne; [done|]. intros ->. set_solver.
    + apply lookup_delete_Some in H1 as [_ H1]. eauto.
  - intros t1 t2 X1 X2 [_ H1]%lookup_delete_Some [_ H2]%lookup_delete_Some. by eapply Ha.
  - intros t1. destruct (decide (t = t1)) as [->|Hne]; [by rewrite !lookup_delete_eq|].
    by rewrite !lookup_delete_ne.
  - intros t1 m1 X1 [_ H1]%lookup_delete_Some [_ H2]%lookup_delete_Some. by eapply Hw.
Qed.

Lemma threads_start Y p own t m :
  threads_ok Y p own -> c_threads p !! t = None -> wp m finished anything ∅ (c_world p) ->
  threads_ok Y (mkProcess (c_world p) (<[t := m]> (c_threads p))) (<[t := ∅]> own).
Proof.
  intros [Ho Ha Hd Hw] Ht Hm.
  assert (Hown : own !! t = None) by (apply eq_None_not_Some; rewrite Hd, Ht; by intros []).
  split; cbn.
  - intros tok. rewrite Ho. split; intros (t1 & X1 & H1 & Hin).
    + exists t1, X1. rewrite lookup_insert_ne; [done|]. congruence.
    + apply lookup_insert_Some in H1 as [[<- <-]|[_ H1]]; [set_solver|eauto].
  - intros t1 t2 X1 X2 [[<- <-]|[_ H1]]%lookup_insert_Some [[<- <-]|[_ H2]]%lookup_insert_Some Hne.
    all: first [done | set_solver | by eapply Ha].
  - intros t1. destruct (decide (t = t1)) as [->|Hne]; [by rewrite !lookup_insert_eq|].
    by rewrite !lookup_insert_ne.
  - intros t1 m1 X1. destruct (decide (t = t1)) as [->|Hne].
    + rewrite !lookup_insert_eq. by intros [= <-] [= <-].
    + rewrite !lookup_insert_ne by done. by apply Hw.
Qed.
Lemma process_start w : Inv ∅ w -> process_ok (mkProcess w ∅).
Proof.
  intros Hw. exists ∅, ∅. split; [done|]. split; cbn.
  - intros tok. split; [set_solver|]. intros (t & X & H & _). by rewrite lookup_empty in H.
  - intros t t' X X' H. by rewrite lookup_empty in H.
  - intros t. by rewrite !lookup_empty.
  - intros t m X H. by rewrite lookup_empty in H.
Qed.

Lemma process_ok_inv p : process_ok p -> exists Y, Inv Y (c_world p).
Proof. intros (Y & own & HI & _). by exists Y. Qed.

(** Nothing is owned when nothing runs. *)
Lemma quiescent_inv p : process_ok p -> quiescent p -> Inv ∅ (c_world p).
Proof.
  intros (Y & own & HI & Hth) Hq. assert (Y = ∅) as <-; [|done]. apply set_eq. intros tok.
  rewrite (to_owned _ _ _ Hth). split; [|set_solver]. intros (t & X & Ht & _).
  destruct (to_dom _ _ _ Hth t) as [H _]. destruct H as [m Hm]; [by rewrite Ht|].
  by rewrite Hq, lookup_empty in Hm.
Qed.
End logic.

Section adequacy.
Context {Srv Rds : Type} {MA : MysqlApi Srv} {RA : RedisApi Rds} {PB : Protobuf}.
Context {Tok : Type} `{!EqDecision Tok, !Countable Tok}.
Notation World := (World Srv Rds).
Context (good : World -> Prop) (Inv : gset Tok -> World -> Prop) (R : World -> World -> Prop).
Context {HR : PreOrder R}.

(** Every handler is fine alone, and so are the clock and the end of a connection. *)
Context (Hhandlers : forall w e m Y, Inv Y w -> event_handler w e = Some m ->
  wp good Inv R m finished anything ∅ w).
Context (Hclock : forall Y w now steady, Inv Y w ->
  let w' := upd_steady (Z.max steady) (upd_now (fun _ => now) w) in Inv Y w' /\ R w w').
Context (Hexpire : forall Y w conn, Inv Y w ->
  let w' := upd_conns (delete conn) w in Inv Y w' /\ R w w').
#[local] Set Default Proof Using "All".
#[local] Notation process_ok := (process_ok good Inv R).

Lemma begin_event_ok p e :
  process_ok p -> process_ok (begin_event p e) /\ R (c_world p) (c_world (begin_event p e)).
Proof.
  intros (Y & own & HI & Hth).
  assert (Hstay : process_ok p /\ R (c_world p) (c_world p)) by (split; [by exists Y, own|done]).
  assert (Hstart : forall t, let p' := match c_threads p !! t, event_handler (c_world p) e with
      | None, Some m => mkProcess (c_world p) (<[t := m]> (c_threads p)) | _, _ => p end in
      process_ok p' /\ R (c_world p) (c_world p')).
  { intros t. cbv zeta. destruct (c_threads p !! t) eqn:Ht; [done|].
    destruct (event_handler _ e) as [m|] eqn:Hm; [|done]. split; [|done].
    exists Y, (<[t := ∅]> own). split; [done|]. apply threads_start; try done. by eapply Hhandlers. }
  destruct e as [now steady| | | | | | |conn| |]; cbn [begin_event thread_of]; try apply Hstart.
  - destruct (Hclock Y _ now steady HI). split; [|done]. exists Y, own. split; [done|]. by eapply threads_world.
  - clear Hstart. destruct (c_threads p !! _); [done|]. destruct (conn_is _ _ _); [|done].
    destruct (Hexpire Y _ conn HI). split; [|done]. exists Y, own. split; [done|]. by eapply threads_world.
Qed.

Lemma cstep_ok p a p' :
  process_ok p -> cstep p a = Some p' -> good (c_world p') -> process_ok p' /\ R (c_world p) (c_world p').
Proof.
  intros Hp. destruct a as [e|t n]; cbn [cstep]; [intros [= <-] _; by apply begin_event_ok|].
  destruct (c_threads p !! t) as [m|] eqn:Ht; [|by intros [= <-]].
  destruct (raised m) eqn:Hr; [done|]. destruct Hp as (Y & own & HI & Hth).
  destruct (to_dom _ _ _ _ _ _ Hth t) as [_ [X HX]]; [by rewrite Ht|].
  pose proof (to_wp _ _ _ _ _ _ Hth _ _ _ Ht HX) as Hm.
  destruct (threads_frame _ _ _ _ _ _ _ _ Hth HX) as (F & -> & HXF & HF).
  destruct (pstep m n (c_world p)) as [[m' w']|] eqn:Hs; intros [= <-] Hg.
  - destruct (wp_pstep _ _ _ _ _ _ _ _ _ _ _ _ Hm HXF HI Hg Hs) as (X' & HX' & HI' & HRw & Hm').
    split; [|done]. exists (X' ∪ F), (<[t := X']> own). split; [done|]. by eapply threads_step.
  - split; [|done]. exists (X ∪ F), (delete t own). split; [done|]. apply threads_return; [done..|].
    destruct (pstep_None _ _ _ Hs) as [[[] ->]|[e ->]]; [|done]. by rewrite HX, Hm.
Qed.

(** A world that is good was good before. *)
Context (before : Process Srv Rds -> Prop).
Context (Hback : forall p a p', before p -> cstep p a = Some p' ->
  before p' /\ (good (c_world p') -> good (c_world p))).

Lemma good_before p p' acts :
  before p -> csteps p acts = Some p' -> good (c_world p') -> good (c_world p).
Proof.
  revert p. induction acts as [|a acts IH]; intros p Hp; cbn; [by intros [= ->]|].
  destruct (cstep p a) as [p1|] eqn:Ha; [|done]. destruct (Hback _ _ _ Hp Ha) as [Hp1 Hg1].
  intros Hs Hg. by apply Hg1, (IH p1).
Qed.

(** Soundness: what holds at the start holds in every process, with the tokens the
    running handlers own, and the world has moved along [R]. *)
Lemma wp_schedule p p' acts :
  before p -> process_ok p -> csteps p acts = Some p' -> good (c_world p') ->
  before p' /\ process_ok p' /\ R (c_world p) (c_world p').
Proof.
  revert p. induction acts as [|a acts IH]; intros p Hp Hok; cbn; [by intros [= ->]|].
  destruct (cstep p a) as [p1|] eqn:Ha; [|done]. destruct (Hback _ _ _ Hp Ha) as [Hp1 _].
  intros Hs Hg. destruct (cstep_ok _ _ _ Hok Ha) as [Hok1 HR1]; [by eapply good_before|].
  destruct (IH p1 Hp1 Hok1 Hs Hg) as (? & ? & ?). split_and!; [done|done|by etrans].
Qed.

End adequacy.

Create HintDb quiet.

(** The sections of a primitive operation are its sections in [M]. *)
Tactic Notation "as_section" uconstr(s) :=
  lazymatch goal with |- quiet ?g ?I ?R ?T _ => change (quiet g I R T (critical s)) end;
  apply quiet_critical; [exact _|intros ? ?].
Tactic Notation "quiet_leaf" uconstr(s) := as_section s; solve [keeps_tac].

Ltac quiet_rule m :=
  lazymatch m with
  | mret _ => apply quiet_ret; try exact _
  | mbind _ _ => apply quiet_bind; try exact _; [|intros]
  | reads _ => apply quiet_reads; try exact _
  | when_ _ _ => apply quiet_when; try exact _
  | for_each _ _ => apply quiet_for_each; try exact _; intros
  | while_ _ _ => apply quiet_while; try exact _
  | unspecified => apply quiet_unspecified; try exact _
  | arguments _ _ _ => apply quiet_arguments; try exact _
  | catch_ _ _ => apply quiet_catch; try exact _
  | critical ?s => quiet_leaf s
  | writes ?f => quiet_leaf (writes f)
  | on_conn ?s ?f => quiet_leaf (on_conn s f)
  | with_redis ?f => quiet_leaf (with_redis f)
  | next_id ?f => quiet_leaf (next_id f)
  | GetOrCreatePlayer ?p ?n => quiet_leaf (GetOrCreatePlayer p n)
  | new_game ?g => quiet_leaf (new_game g)
  | TryPopN ?n => quiet_leaf (TryPopN n)
  | queue_Push ?p => quiet_leaf (queue_Push p)
  | queue_Remove ?p => quiet_leaf (queue_Remove p)
  | match _ with _ => _ end => case_match
  | _ => unfold_head m
  end.

Ltac quiet_step :=
  lazymatch goal with
  | |- quiet _ _ _ _ ?m => first [ solve [auto 2 with quiet nocore] | quiet_rule m ]
  end.
Ltac as_quiet :=
  lazymatch goal with
  | |- ct ?g ?I ?R ?T _ ?m _ => change (quiet g I R T m)
  | |- tct ?g ?I ?R ?T _ ?m _ => change (quiet g I R T m)
  | |- _ => idtac
  end.
Ltac quiet_tac := as_quiet; repeat quiet_step.
