(* ===== verification/Steps.v ===== *)
(** * Steps: invariants of the server

    What it takes for a predicate to hold in every reachable world: each of the
    handlers keeps it ([Handlers_keep]).  A handler is given the session of a
    live connection, so it may rely on [J session], which the invariant gives
    for such a session. *)
From S2P Require Import Prelude Wire Net StdString Messages GameRoom MatchQueue Config Registry Room Mysql Repositories Redis Settlement Timer World Reason Lobby Login GameServer.
Local Open Scope Z_scope.

Section steps.
Context {Srv Rds : Type} {MA : MysqlApi Srv} {RA : RedisApi Rds} {PB : Protobuf}.
Notation World := (World Srv Rds).
Notation M := (M Srv Rds).

Class Handlers_keep (I : World -> Prop) (J : Z -> World -> Prop) : Prop := {
  hk_J conn w f : I w -> conn_is w conn f = true -> J conn w;
  hk_I s w : J s w -> I w;
  hk_HandleLogin s p : keeps (J s) (HandleLogin (Some s) p);
  hk_HandleHeartbeat s p : keeps (J s) (HandleHeartbeat (Some s) p);
  hk_HandleReconnect s p : keeps (J s) (HandleReconnect (Some s) p);
  hk_HandleMatch s p : keeps (J s) (HandleMatch (Some s) p);
  hk_HandleCancelMatch s p : keeps (J s) (HandleCancelMatch (Some s) p);
  hk_HandleReady s p : keeps (J s) (HandleReady (Some s) p);
  hk_HandleInput s p : keeps (J s) (HandleInput (Some s) p);
  hk_HandleLeaveRoom s p : keeps (J s) (HandleLeaveRoom (Some s) p);
  hk_Rank_Handle s p : keeps (J s) (Rank_Handle (Some s) p);
  hk_on_tcp s conn f : keeps (J s) (on_tcp conn f);
  hk_close_callback s : keeps (J s) (close_callback s s);
  hk_on_accept ok : keeps I (on_accept ok);
  hk_Loop_room g : keeps I (Loop_room g);
  hk_timers w : I w -> I (upd_timers (fun ts => (collect_due (w_steady w) ts).2) w);
  hk_heartbeat_scan : keeps I heartbeat_scan;
  hk_clock w now steady : I w -> I (upd_steady (Z.max steady) (upd_now (fun _ => now) w));
  hk_expire w conn : I w -> I (upd_conns (delete conn) w)
}.

Section induction.
Context (I : World -> Prop) (J : Z -> World -> Prop) {HK : Handlers_keep I J}.
#[local] Set Default Proof Using "All".

Lemma Dispatch_keeps s p : keeps (J s) (Dispatch dispatcher (Some s) p).
Proof.
  unfold Dispatch. destruct (dispatcher !! msg_id p) as [h|] eqn:Hh; [|apply inv_ret].
  unfold dispatcher, Rank_RegisterHandlers, Room_RegisterHandlers, Match_RegisterHandlers,
    Login_RegisterHandlers, RegisterHandler, handlers in Hh.
  repeat (rewrite (lookup_insert (M := gmap Z)) in Hh; case_decide; [simplify_eq; apply HK|]).
  by rewrite (lookup_empty (M := gmap Z)) in Hh.
Qed.

Lemma read_handler_keeps s data : keeps (J s) (read_handler s data).
Proof.
  unfold read_handler. apply inv_bind.
  - apply inv_critical. unfold receive. apply inv_bind; [apply inv_reads|]. intros c.
    destruct (on_read data c) as [[decoded c']|]; [|apply inv_ret].
    apply inv_bind; [apply (hk_on_tcp s s (fun _ => c'))|]. intros _. apply inv_ret.
  - intros [[packets|e]|]; [|apply HK|apply inv_ret].
    apply triple_catch with (T' := J s); [|apply HK].
    apply inv_bind; [|intros; apply HK]. apply inv_for_each. intros p. apply Dispatch_keeps.
Qed.

Lemma run_posted_keeps s : keeps (J s) (run_posted s).
Proof.
  unfold run_posted. apply inv_bind.
  - apply inv_critical. unfold take_posted. apply inv_bind; [apply inv_reads|]. intros c.
    destruct (tc_posted c) as [|[p|] ts]; [apply inv_ret| |].
    + apply inv_bind; [intros w Hw; by destruct (run_send _ _)|]. intros c'.
      apply inv_bind; [apply (hk_on_tcp s s (fun _ => c'))|]. intros _. apply inv_ret.
    + apply inv_bind; [apply (hk_on_tcp s s (fun _ => run_close (set_posted c ts)))|]. intros _. apply inv_ret.
  - intros []; [apply HK|apply inv_ret].
Qed.

Lemma keeps_I_step (m : M unit) w w' conn f :
  keeps (J conn) m -> I w -> conn_is w conn f = true -> run m w = Some w' -> I w'.
Proof.
  intros Hm Hw Hc Hr. apply (hk_I conn). unfold run in Hr.
  specialize (Hm w (hk_J conn w f Hw Hc)). destruct (m w) as [[?|?] ?]; by simplify_eq.
Qed.

Lemma keeps_run_step (m : M unit) w w' : keeps I m -> I w -> run m w = Some w' -> I w'.
Proof.
  intros Hm Hw Hr. unfold run in Hr. specialize (Hm w Hw). destruct (m w) as [[?|?] ?]; by simplify_eq.
Qed.

Lemma step_keeps w w' e : I w -> step w e = Some w' -> I w'.
Proof.
  intros Hw. destruct e; cbn [step event_handler].
  - intros [= <-]. by apply hk_clock.
  - apply keeps_run_step; [apply HK|done].
  - destruct (_ && _) eqn:Hc; [|by intros [= <-]]. bools.
    eapply keeps_I_step; [apply read_handler_keeps|done|eassumption].
  - destruct (conn_is _ _ _) eqn:Hc; [|by intros [= <-]].
    eapply keeps_I_step; [|done|eassumption].
    apply inv_bind; [apply HK|intros; apply HK].
  - destruct (conn_is _ _ _) eqn:Hc; [|by intros [= <-]].
    eapply keeps_I_step; [apply run_posted_keeps|done|eassumption].
  - destruct (conn_is _ _ _) eqn:Hc; [|by intros [= <-]]. eapply keeps_I_step; [apply HK|done|eassumption].
  - destruct (conn_is _ _ _) eqn:Hc; [|by intros [= <-]].
    eapply keeps_I_step; [|done|eassumption].
    apply inv_bind; [apply HK|intros; apply HK].
  - intros [= <-]. case_match; [by apply hk_expire|done].
  - apply keeps_run_step; [|done]. unfold Loop_round.
    apply inv_bind; [apply inv_reads|]. intros rooms. apply inv_for_each. apply HK.
  - apply keeps_run_step; [|done]. unfold Timer_round. apply inv_bind.
    + intros w1 Hw1. apply hk_timers in Hw1. unfold upd_timers in *. cbn. by destruct (collect_due _ _).
    + intros cbs. apply inv_for_each. intros []. apply HK.
Qed.

Lemma steps_keep w w' es : I w -> steps w es = Some w' -> I w'.
Proof.
  revert w. induction es as [|e es IH]; intros w Hw; cbn [steps]; [by intros [= <-]|].
  destruct (step w e) as [w1|] eqn:He; [|done]. apply IH. by eapply step_keeps.
Qed.
End induction.

(** An invariant of every reachable world holds in a server that has come up. *)
Lemma reachable_keeps (I : World -> Prop) (J : Z -> World -> Prop) {HK : Handlers_keep I J} config srv rds w :
  (forall w0, started config srv rds w0 -> I w0) -> reachable config srv rds w -> I w.
Proof. intros H0 (w0 & es & Hs & He). eapply (steps_keep I J); [by apply H0|done]. Qed.

Lemma steps_app (w : World) es1 es2 :
  steps w (es1 ++ es2) = match steps w es1 with Some w => steps w es2 | None => None end.
Proof. revert w. induction es1 as [|e es1 IH]; intros w; cbn; [done|]. by destruct (step w e). Qed.

(** ** The services that only touch the clients *)
Lemma inv_mysql_call (T I : World -> Prop) {A} (f : MysqlConfig -> MysqlClient Srv -> result A * MysqlClient Srv) :
  (forall w, I w -> T w) -> (forall w c, I w -> I (upd_mysql (fun _ => c) w)) -> inv T I (mysql_call f).
Proof.
  intros HT H. unfold mysql_call. apply inv_critical, inv_bind; [apply inv_reads|]. intros config.
  by apply inv_with_mysql.
Qed.

Lemma inv_settle_battle (T I : World -> Prop) b r win losers :
  (forall w, I w -> T w) -> (forall w c, I w -> I (upd_mysql (fun _ => c) w)) ->
  (forall w c, I w -> I (upd_redis (fun _ => c) w)) -> inv T I (settle_battle b r win losers).
Proof.
  intros HT Hm Hr. unfold settle_battle. apply inv_bind; [apply inv_reads|]. intros ctx.
  destruct (settlement_request _ _ _ _ _) as [ps|]; [|apply inv_ret].
  apply inv_bind; [by apply inv_mysql_call|]. intros []; cbn [negb]; [|apply inv_ret].
  destruct (ss_rank_service _); [|apply inv_ret].
  induction ps as [|p ps IH]; cbn [sync_ranks_sections]; [apply inv_ret|].
  apply inv_bind; [by apply inv_mysql_call|]. intros [data|]; [|apply inv_ret].
  apply inv_bind; [apply inv_reads|]. intros cf. apply inv_bind; [by apply inv_with_redis|].
  intros []; [exact IH|apply inv_ret].
Qed.

Lemma inv_Rank_Handle (T I : World -> Prop) s p :
  (forall w c, I w -> I (upd_redis (fun _ => c) w)) -> (forall w c, I w -> I (upd_conns c w)) ->
  inv T I (Rank_Handle s p : M unit).
Proof.
  intros Hr Hc. unfold Rank_Handle. apply inv_bind; [apply inv_reads|]. intros ctx.
  apply inv_bind; [apply inv_reads|]. intros cf. apply inv_bind.
  - by apply inv_with_redis.
  - intros [m|]; [|apply inv_ret]. destruct s as [s|]; [|apply inv_ret]. by apply inv_on_conn.
Qed.

Lemma inv_TryPopN (T I : World -> Prop) n :
  (forall w q, I w -> I (upd_queue (fun _ => q) w)) -> inv T I (TryPopN n : M (list Z)).
Proof. intros H w Hw. unfold TryPopN. cbn. destruct (MatchQueue_TryPopN _ _). by apply H. Qed.

Lemma inv_queue_Push (T I : World -> Prop) p :
  (forall w q, I w -> I (upd_queue (fun _ => q) w)) -> inv T I (queue_Push p : M bool).
Proof. intros H w Hw. unfold queue_Push. cbn. destruct (MatchQueue_Push _ _). by apply H. Qed.

Lemma inv_queue_Remove (T I : World -> Prop) p :
  (forall w q, I w -> I (upd_queue (fun _ => q) w)) -> inv T I (queue_Remove p : M bool).
Proof. intros H w Hw. unfold queue_Remove. cbn. destruct (MatchQueue_Remove _ _). by apply H. Qed.

(** ** A round of the loop that nobody disturbs *)
Lemma tick_game_alone g (w : World) : (tick_game g : M unit) w = (Ok tt, upd_games (alter Tick g) w).
Proof.
  unfold tick_game, on_game, writes, Tick, mbind, sections_bind, M_sections, M_bind, critical.
  destruct (Tick_inputs (default _ _)) as [inputs gr'] eqn:Ht. f_equal.
  destruct w; unfold upd_games; cbn in *; f_equal. apply map_eq. intros j.
  destruct (decide (g = j)) as [->|]; [rewrite !lookup_alter_eq|by rewrite !lookup_alter_ne].
  destruct (_ !! j) as [gr|]; [|done]. cbn in *. by simplify_eq.
Qed.

Lemma Loop_room_alone g (w : World) :
  (Loop_room g : M unit) w =
    let w1 := upd_games (alter Tick g) w in
    let gr := default (GameRoom_new 0) (w_games w1 !! g) in
    (tick_callback (gr_room_id gr) (gr_state gr) (gr_game_over gr) (gr_winner_id gr) : M unit) w1.
Proof.
  unfold Loop_room. unfold mbind at 1. cbn [sections_bind M_sections]. unfold M_bind at 1.
  by rewrite tick_game_alone.
Qed.

(** ** A settlement that nobody disturbs is [SettleBattle] of [Settlement] *)
Definition with_clients (w : World) {A} (r : result A * MysqlClient Srv * RedisClient Rds) : result A * World :=
  (r.1.1, upd_redis (fun _ => r.2) (upd_mysql (fun _ => r.1.2) w)).

Lemma sync_ranks_alone ss ps (w : World) :
  (sync_ranks_sections ss ps : M bool) w
  = with_clients w (sync_ranks (mysql_ (w_config w)) (redis_ (w_config w)) ss ps (w_mysql w) (w_redis w)).
Proof.
  revert w. induction ps as [|p ps IH]; intros w; [by destruct w|].
  cbn -[FindPlayer UpdateScore].
  unfold mysql_call, with_mysql, with_redis, reads, mbind, sections_bind, M_sections, critical, M_bind.
  destruct (FindPlayer _ _ _ _) as [[[data|]|e] m]; [|by destruct w..]. cbn -[UpdateScore].
  destruct (UpdateScore _ _ _ _ _) as [ok r]. destruct ok; cbn; [|by destruct w].
  rewrite IH. by destruct w.
Qed.

Lemma settle_battle_alone b room winner losers (w : World) :
  (settle_battle b room winner losers : M bool) w
  = with_clients w (SettleBattle (mysql_ (w_config w)) (redis_ (w_config w)) (settlement_pointers (w_ctx w))
                      (w_mysql w) (w_redis w) b room winner losers).
Proof.
  unfold settle_battle, SettleBattle. unfold reads at 1, mbind at 1. cbn [sections_bind M_sections critical].
  unfold M_bind at 1. cbv beta zeta iota. destruct (settlement_request _ _ _ _ _) as [ps|]; [|by destruct w].
  unfold mysql_call, with_mysql, reads, mbind, sections_bind, M_sections, critical, M_bind.
  destruct (ApplySettlement _ _ _ _ _) as [[[]|e] m]; cbn -[sync_ranks_sections]; [|by destruct w..].
  destruct (rank_service _); [|by destruct w]. rewrite sync_ranks_alone. by destruct w.
Qed.

(** ** A server that has come up *)
Definition full_ctx : ServiceContext :=
  mkServiceContext true true true true true true true true true true true true.

(** The fields [Init] and [Start] do not touch are as in [new_world]. *)
Lemma started_world config (srv : Srv) (rds : Rds) w :
  started config srv rds w ->
  exists my rd, w = mkWorld config full_ctx (mkIds 100000 1000 1000000 2) 0 0 ∅ ∅ ConnectionManager_new
    PlayerManager_new ∅ ∅ ∅ ∅ 0 ∅ MatchQueue_new ∅ ∅ my rd ∅ (AddTimer 0 5000 HeartbeatScan []) true (Some 1)
  /\ exists ok, (ok, my) = Mysql.Connect (mysql_ config) (mkMysqlClient false false srv).
Proof.
  intros (w1 & Hi & Hs). unfold Init, mysql_call, with_mysql, reads, writes, mbind, M_bind, mret, M_ret in Hi.
  cbn -[Mysql.Connect Redis_Connect Rank_Init AddTimer] in Hi.
  destruct (Mysql.Connect _ _) as [ok my] eqn:Hc. destruct ok; cbn -[Redis_Connect Rank_Init AddTimer] in Hi; [|done].
  destruct (Redis_Connect _ _) as [ok rd] eqn:Hr. destruct ok; cbn -[Rank_Init AddTimer] in Hi; [|done].
  destruct (Rank_Init _ _ _) as [ok rd'] eqn:Hn. cbn -[AddTimer] in Hi. simplify_eq.
  unfold Server_Start, DoAccept, next_id, writes, mbind, M_bind, mret, M_ret in Hs. cbn -[AddTimer] in Hs. simplify_eq.
  exists my, rd'. split; [done|eauto].
Qed.
End steps.

Ltac keeps_rule m ::=
  lazymatch m with
  | mret _ => apply inv_ret
  | mbind _ _ => apply inv_bind; [|intros]
  | reads _ => apply inv_reads
  | writes _ => apply inv_writes; solve [keeps_frame]
  | when_ _ _ => apply inv_when
  | critical _ => apply inv_critical
  | while_ _ _ => apply inv_while
  | unspecified => apply inv_unspecified
  | arguments _ _ _ => apply inv_arguments
  | with_redis _ => apply inv_with_redis; solve [keeps_frame]
  | mysql_call _ => apply inv_mysql_call; solve [keeps_frame]
  | for_each _ _ => apply inv_for_each; intros
  | with_mysql _ => apply inv_with_mysql; solve [keeps_frame]
  | next_id _ => apply inv_next_id; solve [keeps_frame]
  | GetOrCreatePlayer _ _ => apply inv_GetOrCreatePlayer; solve [keeps_frame]
  | on_conn _ _ => apply inv_on_conn; solve [keeps_frame]
  | new_game _ => apply inv_new_game; solve [keeps_frame]
  | settle_battle _ _ _ _ => apply inv_settle_battle; solve [keeps_frame]
  | Rank_Handle _ _ => apply inv_Rank_Handle; solve [keeps_frame]
  | TryPopN _ => apply inv_TryPopN; solve [keeps_frame]
  | queue_Push _ => apply inv_queue_Push; solve [keeps_frame]
  | queue_Remove _ => apply inv_queue_Remove; solve [keeps_frame]
  | match _ with _ => _ end => case_match
  | (fun _ => _) => keeps_section
  | _ => unfold_head m
  end.

(** One field of an instance [HK] of [Handlers_keep]. *)
Tactic Notation "handler_of" constr(HK) :=
  lazymatch goal with
  | |- keeps _ (HandleLogin _ _) => apply (hk_HandleLogin (Handlers_keep := HK))
  | |- keeps _ (HandleHeartbeat _ _) => apply (hk_HandleHeartbeat (Handlers_keep := HK))
  | |- keeps _ (HandleReconnect _ _) => apply (hk_HandleReconnect (Handlers_keep := HK))
  | |- keeps _ (HandleMatch _ _) => apply (hk_HandleMatch (Handlers_keep := HK))
  | |- keeps _ (HandleCancelMatch _ _) => apply (hk_HandleCancelMatch (Handlers_keep := HK))
  | |- keeps _ (HandleReady _ _) => apply (hk_HandleReady (Handlers_keep := HK))
  | |- keeps _ (HandleInput _ _) => apply (hk_HandleInput (Handlers_keep := HK))
  | |- keeps _ (HandleLeaveRoom _ _) => apply (hk_HandleLeaveRoom (Handlers_keep := HK))
  | |- keeps _ (Rank_Handle _ _) => apply (hk_Rank_Handle (Handlers_keep := HK))
  | |- keeps _ (on_tcp _ _) => apply (hk_on_tcp (Handlers_keep := HK))
  | |- keeps _ (close_callback _ _) => apply (hk_close_callback (Handlers_keep := HK))
  | |- keeps _ (on_accept _) => apply (hk_on_accept (Handlers_keep := HK))
  | |- keeps _ (Loop_room _) => apply (hk_Loop_room (Handlers_keep := HK))
  | |- keeps _ heartbeat_scan => apply (hk_heartbeat_scan (Handlers_keep := HK))
  end.
