(* ===== verification/Counters.v ===== *)
(** * Counters: the id counters only go up, however the threads interleave

    The first use of [ThreadLogic], with no invariant: along every schedule the
    counters of rooms and players do not go back and nobody exchanges the
    configuration or the services.  A bound on a counter in the last world of a run
    is therefore a bound on it in all of them. *)
From S2P Require Import Prelude Wire Net StdString Messages GameRoom MatchQueue Config Registry Room Mysql Repositories Redis Settlement Timer World Reason Lobby Login GameServer Threads ThreadLogic Steps.
Local Open Scope Z_scope.

Section counters.
Context {Srv Rds : Type} {MA : MysqlApi Srv} {RA : RedisApi Rds} {PB : Protobuf}.
Notation World := (World Srv Rds).

Definition counts_up (w w' : World) : Prop :=
  next_room_id (w_ids w) <= next_room_id (w_ids w') /\ next_player_id (w_ids w) <= next_player_id (w_ids w').

#[export] Instance counts_up_order : PreOrder counts_up.
Proof. split; [by intros w|intros w1 w2 w3 [] []; split; by etrans]. Qed.

Definition no_inv (Y : gset Z) (w : World) : Prop := True.
Notation quiet := (quiet (fun _ => True) no_inv counts_up True).

Lemma quiet_next_id f :
  (forall g, next_room_id g <= next_room_id (f g).2 /\ next_player_id g <= next_player_id (f g).2) ->
  quiet (next_id f).
Proof.
  intros Hf. as_section (next_id f : M Srv Rds Z). apply inv_next_id. intros w [_ [H1 H2]].
  destruct (Hf (w_ids w)). split; [done|]. unfold counts_up. cbn. lia.
Qed.
Lemma counts_NextRoomId : quiet (next_id NextRoomId).
Proof. apply quiet_next_id. intros g. cbn. lia. Qed.
Lemma counts_NextPlayerId : quiet (next_id NextPlayerId).
Proof. apply quiet_next_id. intros g. cbn. lia. Qed.
Lemma counts_NextSessionId : quiet (next_id NextSessionId).
Proof. apply quiet_next_id. intros g. cbn. lia. Qed.
Lemma counts_mysql_call {A} (f : MysqlConfig -> MysqlClient Srv -> result A * MysqlClient Srv) : quiet (mysql_call f).
Proof.
  as_section (mysql_call f : M Srv Rds A). apply inv_mysql_call; [by intros w|]. intros w c H. exact H.
Qed.
#[local] Hint Resolve counts_NextRoomId counts_NextPlayerId counts_NextSessionId counts_mysql_call : quiet.

Lemma counts_Dispatch s p : quiet (Dispatch dispatcher (Some s) p).
Proof.
  unfold Dispatch. destruct (dispatcher !! msg_id p) as [h|] eqn:Hh; [|quiet_tac].
  apply dispatcher_handlers in Hh. rewrite !elem_of_cons, elem_of_nil in Hh.
  destruct_or! Hh; try done; subst h; quiet_tac.
Qed.
#[local] Hint Resolve counts_Dispatch : quiet.

Lemma counts_sync_ranks ss ps : quiet (sync_ranks_sections ss ps).
Proof. induction ps as [|p ps IH]; cbn [sync_ranks_sections]; quiet_tac; exact IH. Qed.
#[local] Hint Resolve counts_sync_ranks : quiet.

Lemma counts_handler w e m : event_handler w e = Some m -> quiet m.
Proof.
  assert (H : match event_handler w e with Some m => quiet m | None => True end).
  { destruct e; cbn [event_handler]; 
    repeat match goal with |- context [if ?b then _ else _] => destruct b end; try exact I; quiet_tac. }
  intros Hm. by rewrite Hm in H.
Qed.

(** Every step of every process counts up. *)
Definition counting (p : Process Srv Rds) : Prop := process_ok (fun _ => True) no_inv counts_up p.

Lemma counting_step p a p' : counting p -> cstep p a = Some p' -> counting p' /\ counts_up (c_world p) (c_world p').
Proof.
  intros Hp Hs. eapply (cstep_ok (fun _ => True) no_inv counts_up); [..|done].
  - intros w e m Y _ He. apply quiet_handler; [exact _|]. by eapply counts_handler.
  - intros Y w now steady _. by split.
  - intros Y w conn _. by split.
  - done.
  - done.
Qed.

Lemma counting_start (w : World) : counting (mkProcess w ∅).
Proof. by apply process_start; [exact _|..]. Qed.
End counters.
