(* ===== verification/Conform.v ===== *)
(** * Conform: what the server writes, in every schedule

    The other half of [BotProtocol.bots_speak_the_protocol]: whatever the clients
    send and however the handlers interleave, the bytes the server has written on
    a connection are whole frames of packets of the protocol, each with the
    message its id stands for ([response_type], after message_id.h and the .proto
    files), and the client's decoder reads exactly those.  The invariant is about
    one connection at a time; [ThreadLogic] is used with no tokens. *)
From S2P Require Import Prelude Wire Net StdString Messages GameRoom MatchQueue Config Registry Room Mysql Repositories Redis Settlement Timer World Reason Lobby Login GameServer Threads ThreadLogic Steps.
Local Open Scope Z_scope.

(** The message of a response or notification. *)
Definition response_type (id : Z) : option MessageType :=
  if id =? MSG_LOGIN_RESP then Some TLoginResponse
  else if id =? MSG_HEARTBEAT_RESP then Some THeartbeatResponse
  else if id =? MSG_RECONNECT_RESP then Some TReconnectResponse
  else if id =? MSG_MATCH_RESP then Some TMatchResponse
  else if id =? MSG_MATCH_SUCCESS_NOTIFY then Some TMatchSuccessNotify
  else if id =? MSG_MATCH_CANCEL_RESP then Some TMatchCancelResponse
  else if id =? MSG_READY_NOTIFY then Some TReadyNotify
  else if id =? MSG_ROOM_STATE_NOTIFY then Some TRoomStateNotify
  else if id =? MSG_LEAVE_ROOM_RESP then Some TLeaveRoomResponse
  else if id =? MSG_PLAYER_LEAVE_ROOM_NOTIFY then Some TPlayerLeaveRoomNotify
  else if id =? MSG_GAME_STATE_NOTIFY then Some TGameStateNotify
  else if id =? MSG_GAME_OVER_NOTIFY then Some TGameOverNotify
  else if id =? MSG_RANK_RESP then Some TRankResponse
  else None.

Section conform.
Context {Srv Rds : Type} {MA : MysqlApi Srv} {RA : RedisApi Rds} {PB : Protobuf}.
Notation World := (World Srv Rds).
Notation M := (M Srv Rds).

(** A packet as the services build them. *)
Definition conforming (p : Packet) : Prop :=
  packet_wf p /\ exists m, body p = SerializeToString m /\ response_type (msg_id p) = Some (type_of m).

(** The packets given to a connection are conforming, and on their way in order. *)
Definition conn_conforms (c : TcpConnection) : Prop := exists ps, in_order c ps /\ Forall conforming ps.

Lemma conforming_wf ps : Forall conforming ps -> Forall packet_wf ps.
Proof. intros H. eapply Forall_impl; [exact H|]. by intros p []. Qed.

Lemma send_step_conforms c e c' :
  conn_conforms c -> (forall p, e = EvSend p -> conforming p) -> send_step c e = Some c' -> conn_conforms c'.
Proof.
  intros (ps & Ho & Hps) He Hs. exists (ps ++ sends [e]).
  assert (Hwf : forall p, e = EvSend p -> packet_wf p) by (intros p Hp; by apply (He p Hp)).
  destruct (send_step_order _ _ _ _ Ho (conforming_wf _ Hps) Hwf Hs) as [Ho' _].
  split; [done|]. apply Forall_app. split; [done|]. destruct e; cbn; try done. constructor; [by apply He|done].
Qed.

(** The fields of the reading side do not matter. *)
Lemma conforms_set_read c reading buf : conn_conforms c -> conn_conforms (set_read c reading buf).
Proof. intros (ps & [(ran & ?) ?] & ?). exists ps. split; [split; [by exists ran|done]|done]. Qed.

Definition conns_conform (Y : gset Z) (w : World) : Prop := map_Forall (fun _ => conn_conforms) (w_conns w).
#[local] Notation anywhere := (fun _ _ : World => True).
#[local] Instance anywhere_order : PreOrder anywhere.
Proof. done. Qed.
#[local] Notation quiet := (quiet (fun _ : World => True) conns_conform anywhere True).

Lemma conform_section {A} (s : M A) :
  (forall w, map_Forall (fun _ => conn_conforms) (w_conns w) ->
     map_Forall (fun _ => conn_conforms) (w_conns (s w).2)) -> quiet (critical s).
Proof.
  intros H. apply quiet_section; [exact _|]. intros Y w HI _. split_and!; [by apply H|done|]. by destruct (s w).1.
Qed.

Lemma conforms_alter (conns : gmap Z TcpConnection) conn f :
  (forall c, conns !! conn = Some c -> conn_conforms c -> conn_conforms (f c)) ->
  map_Forall (fun _ => conn_conforms) conns -> map_Forall (fun _ => conn_conforms) (alter f conn conns).
Proof.
  intros Hf Hw j c [(<- & c0 & Hc & ->)|[_ Hc]]%lookup_alter_Some; [|by apply (Hw j)].
  apply Hf; [done|by apply (Hw conn)].
Qed.

Lemma conform_alter conn (f : TcpConnection -> TcpConnection) :
  (forall c, conn_conforms c -> conn_conforms (f c)) -> quiet (writes (upd_conns (alter f conn))).
Proof. intros Hf. apply conform_section. intros w Hw. by apply conforms_alter; [intros c _; apply Hf|]. Qed.

Lemma conform_on_conn s f : (forall c, conn_conforms c -> conn_conforms (f c)) -> quiet (on_conn s f).
Proof.
  intros Hf. apply conform_section. intros w Hw. cbn [snd]. destruct (_ ≫= _) as [conn|]; [|exact Hw].
  by apply conforms_alter; [intros c _; apply Hf|].
Qed.

Lemma conform_Send s id m :
  is_u32 id -> response_type id = Some (type_of m) -> quiet (Session_Send s id m).
Proof.
  intros Hid Ht. apply conform_on_conn. intros c Hc. apply (send_step_conforms c (EvSend (ProtoHelper_Build id m 0))); [done| |done].
  intros p [= <-]. split; [by split|]. by exists m.
Qed.
Lemma conform_Close s : quiet (Session_Close s).
Proof. apply conform_on_conn. intros c Hc. by apply (send_step_conforms c EvClose). Qed.

(** The completion handlers of a connection. *)
Lemma conform_DoRead conn : quiet (on_tcp conn DoRead).
Proof. apply conform_alter. intros c. apply conforms_set_read. Qed.
Lemma conform_Start conn : quiet (writes (upd_conns (alter TcpConnection_Start conn))).
Proof. apply conform_alter. intros c. apply conforms_set_read. Qed.
Lemma conform_read_failed conn : quiet (on_tcp conn (fun c => set_read c false (tc_read_buffer c))).
Proof. apply conform_alter. intros c. apply conforms_set_read. Qed.
Lemma conform_tcp_Close conn : quiet (on_tcp conn TcpConnection_Close).
Proof. apply conform_alter. intros c Hc. by apply (send_step_conforms c EvClose). Qed.
Lemma conform_written conn : quiet (on_tcp conn on_written).
Proof.
  apply conform_alter. intros c (ps & [(ran & Hps & Henc & Hq) Hfl] & Hf).
  destruct (on_written_order c Hfl) as [H1 H2]. exists ps. split; [|done]. split; [|by apply on_written_flight].
  exists ran. by rewrite H1, H2.
Qed.
Lemma conform_write_error conn : quiet (on_tcp conn on_write_error).
Proof.
  apply conform_alter. intros c (ps & [(ran & ?) Hfl] & ?). exists ps. split; [|done]. split; [by exists ran|].
  left. destruct Hfl as [Hw|(? & ? & _ & Hw)]; cbn; by rewrite Hw.
Qed.
Lemma conform_new conn : quiet (writes (upd_conns (insert conn (TcpConnection_new conn)))).
Proof.
  apply conform_section. intros w Hw. cbn. apply map_Forall_insert_2; [|exact Hw].
  exists []. split; [split; [by exists []|by left]|done].
Qed.

Lemma conform_receive conn data : quiet (critical (receive conn data)).
Proof.
  apply conform_section. intros w Hw. unfold receive, reads, writes, mbind, mret, sections_bind, M_sections, critical, M_bind.
  unfold on_read. destruct (Decode _) as [[r rest]|]; [|exact Hw].
  apply conforms_alter; [|exact Hw]. intros c Hc Hcc. rewrite Hc. by apply conforms_set_read.
Qed.
Lemma conform_take_posted conn : quiet (critical (take_posted conn)).
Proof.
  apply conform_section. intros w Hw. unfold take_posted, reads, writes, mbind, mret, sections_bind, M_sections, critical, M_bind.
  destruct (w_conns w !! conn) as [c|] eqn:Hc; [|exact Hw]. cbn [default].
  assert (Hset : forall c', send_step c EvRun = Some c' -> map_Forall (fun _ => conn_conforms) (alter (fun _ => c') conn (w_conns w))).
  { intros c' Hs. apply conforms_alter; [|exact Hw]. intros c0 Hc0 Hcc. rewrite Hc in Hc0. injection Hc0 as <-.
    by apply (send_step_conforms c EvRun c'). }
  cbn [send_step] in Hset. cbn. destruct (tc_posted c) as [|[p|] ts]; [exact Hw| |by apply Hset].
  destruct (run_send p (set_posted c ts)) as [c'|e]; cbn; [by apply Hset|exact Hw].
Qed.
End conform.

#[local] Hint Resolve conform_Close conform_DoRead conform_Start conform_read_failed conform_tcp_Close conform_written
  conform_write_error conform_new conform_receive conform_take_posted : quiet.
#[local] Hint Extern 1 (quiet _ _ _ _ (Session_Send _ _ _)) => apply conform_Send; [done|reflexivity] : quiet.

Section schedules.
Context {Srv Rds : Type} {MA : MysqlApi Srv} {RA : RedisApi Rds} {PB : Protobuf}.
Notation World := (World Srv Rds).
#[local] Existing Instance anywhere_order.
#[local] Notation quiet := (quiet (fun _ : World => True) conns_conform (fun _ _ => True) True).

Lemma conform_mysql_call {A} (f : MysqlConfig -> MysqlClient Srv -> result A * MysqlClient Srv) : quiet (mysql_call f).
Proof. apply conform_section. intros w Hw. sections. unfold mbind, M_bind. cbn. by destruct (f _ _). Qed.
#[local] Hint Resolve conform_mysql_call : quiet.

(** The message of the ranking comes out of the section on the Redis client. *)
Lemma conform_Rank_Handle s p : quiet (Rank_Handle (Some s) p).
Proof.
  unfold Rank_Handle. apply quiet_bind; [exact _|quiet_tac|]. intros ctx.
  apply quiet_bind; [exact _|quiet_tac|]. intros config.
  eapply (ct_bind _ _ _ True _ _ _ (fun response _ => (forall m, response = Some m -> type_of m = TRankResponse) /\ True)).
  - apply ct_section; [exact _|exact _|]. intros Y w HI _ _. sections. unfold HandleRankRequest.
    destruct (parse_rank p) as [[offset limit]|]; [|by split_and!].
    destruct (GetTopN _ _ _ _ _) as [entries c]. cbn. split_and!; [exact HI|done| |done]. by intros m [= <-].
  - intros response. apply ct_pull; [exact _|]. intros Hm. destruct response as [m|]; [|by apply quiet_ret].
    apply conform_Send; [done|]. rewrite (Hm m) by done. reflexivity.
Qed.
#[local] Hint Resolve conform_Rank_Handle : quiet.

Lemma conform_Dispatch s p : quiet (Dispatch dispatcher (Some s) p).
Proof.
  unfold Dispatch. destruct (dispatcher !! msg_id p) as [h|] eqn:Hh; [|quiet_tac].
  apply dispatcher_handlers in Hh. rewrite !elem_of_cons, elem_of_nil in Hh.
  destruct_or! Hh; try done; subst h; quiet_tac.
Qed.
#[local] Hint Resolve conform_Dispatch : quiet.

Lemma conform_sync_ranks ss ps : quiet (sync_ranks_sections ss ps).
Proof. induction ps as [|p ps IH]; cbn [sync_ranks_sections]; quiet_tac; exact IH. Qed.
#[local] Hint Resolve conform_sync_ranks : quiet.

Lemma conform_handler w e m : event_handler w e = Some m -> quiet m.
Proof.
  assert (H : match event_handler w e with Some m => quiet m | None => True end).
  { destruct e; cbn [event_handler];
    repeat match goal with |- context [if ?b then _ else _] => destruct b end; try exact I; quiet_tac. }
  intros Hm. by rewrite Hm in H.
Qed.

Lemma conform_process config (srv : Srv) (rds : Rds) p :
  creachable config srv rds p -> map_Forall (fun _ => conn_conforms) (w_conns (c_world p)).
Proof.
  intros (w0 & acts & Hw0 & Hacts).
  destruct (wp_schedule (fun _ : World => True) conns_conform (fun _ _ => True)) with
    (before := fun _ : Process Srv Rds => True) (p := mkProcess w0 ∅) (p' := p) (acts := acts) as (_ & Hok & _); try done.
  - intros w e m Y _ He. apply quiet_handler; [exact _|]. by eapply conform_handler.
  - intros Y w conn HI. split; [|done]. by apply map_Forall_delete.
  - apply process_start; [exact _|]. destruct (started_world _ _ _ _ Hw0) as (my & rd & -> & _). apply map_Forall_empty.
  - by destruct (process_ok_inv _ _ _ _ Hok) as [Y HY].
Qed.

(** What a client reads of a packet. *)
Definition readable (p : Packet) : Prop :=
  exists m, response_type (msg_id p) = Some (type_of m) /\ body p = SerializeToString m
    /\ (representable m -> Z.of_nat (length (SerializeToString m)) <= int32_max ->
        ProtoHelper_Parse (type_of m) p = Some m).

Lemma conforming_readable p : conforming p -> readable (with_length p).
Proof.
  intros [_ (m & Hb & Ht)]. exists m. split_and!; [done|done|]. intros Hr Hl. unfold ProtoHelper_Parse.
  change (body (with_length p)) with (body p). rewrite Hb. by apply parse_serialize.
Qed.

(** C13: Whatever the clients send and however the handlers interleave, at any moment
    the bytes the server has written on a connection decode on the client to the
    end, without an error, and each packet is a response or notification of the
    protocol whose body is a message of the type its id stands for. *)
Theorem server_speaks_the_protocol config (srv : Srv) (rds : Rds) p conn c
    (Hp : creachable config srv rds p) (Hc : w_conns (c_world p) !! conn = Some c) :
  exists ps, Decode (concat (tc_sent c)) = Some (Ok ps, []) /\ Forall readable ps.
Proof.
  destruct (conform_process _ _ _ _ Hp conn c Hc) as (ps & Ho & Hps).
  destruct (in_order_split _ _ Ho) as (sent & waiting & -> & Hsent & _ & Henc).
  exists (with_length <$> sent). split.
  - rewrite Hsent, <- (app_nil_r (concat _)). apply Decode_decodes.
    pose proof (decodes_frames sent [] (Ok []) []) as Hd. cbn in Hd. rewrite (app_nil_r (with_length <$> _)) in Hd.
    apply Hd; [done|]. by constructor.
  - apply Forall_app in Hps as [Hsent' _]. apply Forall_fmap. by eapply Forall_impl, conforming_readable.
Qed.
End schedules.
