(* ===== verification/Reading.v ===== *)
(** * Reading: who touches the read buffer of a connection

    Only two sections of the server change what a connection has read: the decoding
    at the start of its own read handler, and the insertion of a connection that was
    accepted.  [each G m] says that every section of [m], started in any world at
    all, moves it along [G]; nothing is assumed of the other threads, so the
    predicate composes without invariants and rely conditions. *)
From S2P Require Import Prelude Wire Net StdString Messages GameRoom MatchQueue Config Registry Room Mysql Repositories Redis Settlement Timer World Reason Lobby Login GameServer Threads ThreadLogic.
Local Open Scope Z_scope.

Section each.
Context {Srv Rds : Type}.
Notation World := (World Srv Rds).
Notation Prog := (Prog Srv Rds).
Context (G : World -> World -> Prop) {HG : Reflexive G}.

Fixpoint each {A : Type} (m : Prog A) : Prop :=
  match m with
  | Ret _ | Raise _ => True
  | Step next rest => forall w, G w (next w) /\ each (rest w)
  | Choose k => forall n, each (k n)
  | While body k => each body /\ each k
  | Try m h k => each m /\ each h /\ each k
  end.

Lemma each_bind {A B} (m : Prog A) (f : A -> Prog B) : each m -> (forall a, each (f a)) -> each (m ≫= f).
Proof.
  unfold mbind, Prog_bind'. intros Hm Hf.
  induction m as [A a|A e|A next rest IH|A k IH|A body _ k IHk|A m _ h _ k IHk] in f, Hf, Hm |- *; cbn in *;
    [apply Hf|done|..].
  - intros w. destruct (Hm w). split; [done|by apply IH].
  - intros n. by apply IH.
  - destruct Hm. split; [done|by apply IHk].
  - destruct Hm as (? & ? & ?). split_and!; [done..|by apply IHk].
Qed.

(** One section of a running handler. *)
Lemma each_pstep {A} (m m' : Prog A) n w w' : each m -> pstep m n w = Some (m', w') -> G w w' /\ each m'.
Proof using HG.
  induction m as [A a|A e|A next rest IH|A k IH|A body _ k IHk|A m IHm h _ k IHk] in m' |- *; cbn [pstep each]; [done|done|..].
  - intros Hm [= <- <-]. apply Hm.
  - intros Hm [= <- <-]. by split.
  - intros Hm [= <- <-]. split; [done|]. apply (each_bind body (fun again : bool => if again then While body k else k)); [apply Hm|].
    intros []; [exact Hm|apply Hm].
  - intros (Hm & Hh & Hk).
    assert (Hgo : forall o, o = pstep m n w -> match o with Some (m, w) => Some (Try m h k, w) | None => None end = Some (m', w') ->
              G w w' /\ each m').
    { intros [[m1 w1]|] Ho; [|done]. intros [= <- <-]. destruct (IHm m1 Hm) as [? ?]; [done|]. by split_and!. }
    destruct m as [a|e|next rest|k1|b k1|m1 h1 k1]; [..|by eapply Hgo|by eapply Hgo|by eapply Hgo|by eapply Hgo].
    + by intros [= <- <-].
    + intros [= <- <-]. split; [done|]. by apply (each_bind h (fun _ => k)).
Qed.

Lemma each_section {A} (s : M Srv Rds A) : (forall w, G w (s w).2) -> each (critical s).
Proof. intros H. cbn. intros w. split; [apply H|]. unfold section_rest. by destruct (s w).1. Qed.

(** A section that is a computation of [Reason]. *)
Lemma each_critical {A} (s : M Srv Rds A) : (forall w0, inv (G w0) (G w0) s) -> each (critical s).
Proof using HG.
  intros H. apply each_section. intros w. specialize (H w w (reflexivity w)). by destruct (s w) as [[a|e] w'].
Qed.

Lemma each_ret {A} (a : A) : each (mret a).
Proof. done. Qed.
Lemma each_reads {A} (f : World -> A) : each (reads f).
Proof using HG. by apply each_section. Qed.
Lemma each_when b (m : Prog unit) : each m -> each (when_ b m).
Proof. intros Hm. by destruct b. Qed.
Lemma each_for_each {A} (l : list A) (f : A -> Prog unit) : (forall x, each (f x)) -> each (for_each l f).
Proof. intros H. induction l as [|x l IH]; cbn; [done|]. by apply (each_bind (f x)). Qed.
Lemma each_while fuel (body : Prog bool) : each body -> each (while_ fuel body).
Proof. by split. Qed.
Lemma each_catch (m h : Prog unit) : each m -> each h -> each (catch_ m h).
Proof. intros Hm Hh. by split; [|split]. Qed.
Lemma each_unspecified : each (unspecified : Prog nat).
Proof. by intros n. Qed.
Lemma each_arguments {A B C} (a : Prog A) (b : Prog B) (c : Prog C) : each a -> each b -> each c -> each (arguments a b c).
Proof.
  intros Ha Hb Hc. apply each_bind; [apply each_unspecified|]. intros n.
  destruct (n `mod` 6)%nat as [|[|[|[|[|k]]]]]; repeat (apply each_bind; [done|]; intros ?); apply each_ret.
Qed.
End each.

Create HintDb each.
Ltac each_leaf s :=
  lazymatch goal with |- each ?G _ => change (each G (critical s)) end;
  apply each_critical; [exact _|intros ?]; solve [keeps_tac].
Ltac each_rule m :=
  lazymatch m with
  | mret _ => apply each_ret
  | mbind _ _ => apply each_bind; [|intros]
  | reads _ => apply each_reads; exact _
  | when_ _ _ => apply each_when
  | for_each _ _ => apply each_for_each; intros
  | while_ _ _ => apply each_while
  | unspecified => apply each_unspecified
  | arguments _ _ _ => apply each_arguments
  | catch_ _ _ => apply each_catch
  | critical ?s => each_leaf s
  | writes ?f => each_leaf uconstr:(writes f)
  | with_redis ?f => each_leaf uconstr:(with_redis f)
  | next_id ?f => each_leaf uconstr:(next_id f)
  | GetOrCreatePlayer ?p ?n => each_leaf uconstr:(GetOrCreatePlayer p n)
  | new_game ?g => each_leaf uconstr:(new_game g)
  | TryPopN ?n => each_leaf uconstr:(TryPopN n)
  | queue_Push ?p => each_leaf uconstr:(queue_Push p)
  | queue_Remove ?p => each_leaf uconstr:(queue_Remove p)
  | match _ with _ => _ end => case_match
  | _ => unfold_head m
  end.
Ltac each_step := lazymatch goal with |- each _ ?m => first [ solve [auto 2 with each nocore] | each_rule m ] end.
Ltac each_tac := repeat each_step.

(** ** The server's handlers *)
Section server.
Context {Srv Rds : Type} {MA : MysqlApi Srv} {RA : RedisApi Rds} {PB : Protobuf}.
Notation World := (World Srv Rds).
Notation M := (M Srv Rds).

(** No connection appears and none changes its read buffer; with [acc], the id that
    is waited for stays too. *)
Definition reads_kept (acc : bool) (w w' : World) : Prop :=
  (acc = true -> w_accepting w' = w_accepting w)
  /\ forall conn c', w_conns w' !! conn = Some c' ->
       exists c, w_conns w !! conn = Some c /\ tc_read_buffer c' = tc_read_buffer c.

#[export] Instance reads_kept_refl acc : Reflexive (reads_kept acc).
Proof. intros w. split; [done|]. eauto. Qed.
#[export] Instance reads_kept_trans acc : Transitive (reads_kept acc).
Proof.
  intros w1 w2 w3 [Ha H] [Ha' H']. split; [intros; by rewrite Ha', Ha|].
  intros conn c3 (c2 & (c1 & ? & ?)%H & ?)%H'. exists c1. split; [done|by etrans].
Qed.

Lemma reads_kept_alter acc (w : World) conn f :
  (forall c, w_conns w !! conn = Some c -> tc_read_buffer (f c) = tc_read_buffer c) ->
  reads_kept acc w (upd_conns (alter f conn) w).
Proof.
  intros Hf. split; [done|]. intros j c'. cbn. intros [(-> & c & Hc & ->)|[_ Hc]]%lookup_alter_Some; [|by exists c'].
  exists c. split; [done|by apply Hf].
Qed.

Lemma reads_kept_delete acc (w : World) conn : reads_kept acc w (upd_conns (delete conn) w).
Proof. split; [done|]. cbn. intros j c' [_ Hc]%lookup_delete_Some. by exists c'. Qed.

#[local] Notation each acc := (each (reads_kept acc)).

Lemma each_alter acc conn (f : TcpConnection -> TcpConnection) :
  (forall c, tc_read_buffer (f c) = tc_read_buffer c) -> each acc (writes (upd_conns (alter f conn))).
Proof. intros Hf. apply each_section. intros w. by apply reads_kept_alter. Qed.
Lemma each_on_conn acc s f : (forall c, tc_read_buffer (f c) = tc_read_buffer c) -> each acc (on_conn s f).
Proof.
  intros Hf. apply each_section. intros w. cbn [snd]. destruct (_ ≫= _) as [conn|]; [|reflexivity].
  by apply reads_kept_alter.
Qed.
Lemma each_mysql_call acc {A} (f : MysqlConfig -> MysqlClient Srv -> result A * MysqlClient Srv) : each acc (mysql_call f).
Proof. apply each_section. intros w. sections. unfold mbind, M_bind. cbn. destruct (f _ _). apply (reads_kept_refl acc w). Qed.

Lemma each_Send acc s id m : each acc (Session_Send s id m).
Proof. by apply each_on_conn. Qed.
Lemma each_Close acc s : each acc (Session_Close s).
Proof. by apply each_on_conn. Qed.
Lemma each_DoRead acc conn : each acc (on_tcp conn DoRead).
Proof. by apply each_alter. Qed.
Lemma each_Start acc conn : each acc (writes (upd_conns (alter TcpConnection_Start conn))).
Proof. by apply each_alter. Qed.
Lemma each_read_failed acc conn : each acc (on_tcp conn (fun c => set_read c false (tc_read_buffer c))).
Proof. by apply each_alter. Qed.
Lemma each_tcp_Close acc conn : each acc (on_tcp conn TcpConnection_Close).
Proof. by apply each_alter. Qed.
Lemma DoWrite_buffer c : tc_read_buffer (Net.DoWrite c) = tc_read_buffer c.
Proof. unfold Net.DoWrite. by destruct (tc_write_queue c). Qed.
Lemma on_written_buffer c : tc_read_buffer (on_written c) = tc_read_buffer c.
Proof.
  unfold on_written. destruct (tc_writes c); [done|]. destruct (tc_write_queue c); [done|].
  destruct (negb _); [by rewrite DoWrite_buffer|done].
Qed.
Lemma each_written acc conn : each acc (on_tcp conn on_written).
Proof. apply each_alter, on_written_buffer. Qed.
Lemma each_write_error acc conn : each acc (on_tcp conn on_write_error).
Proof. by apply each_alter. Qed.

Lemma run_send_buffer p c c' : run_send p c = Ok c' -> tc_read_buffer c' = tc_read_buffer c.
Proof.
  unfold run_send. destruct (Encode p) as [data|e]; [|done]. cbn. intros [= <-].
  destruct (negb _); [by rewrite DoWrite_buffer|done].
Qed.
Lemma each_take_posted acc conn : each acc (critical (take_posted conn)).
Proof.
  apply each_section. intros w. unfold take_posted, reads, writes, mbind, mret, sections_bind, M_sections, critical, M_bind.
  destruct (w_conns w !! conn) as [c|] eqn:Hc; [|reflexivity]. cbn.
  destruct (tc_posted c) as [|[p|] ts]; [reflexivity| |].
  - destruct (run_send p (set_posted c ts)) as [c'|e] eqn:Hs; cbn; [|reflexivity].
    apply reads_kept_alter. intros c0 Hc0. rewrite Hc in Hc0. injection Hc0 as <-. by apply run_send_buffer in Hs.
  - apply reads_kept_alter. intros c0 Hc0. rewrite Hc in Hc0. by injection Hc0 as <-.
Qed.
End server.
#[export] Hint Resolve each_mysql_call each_Send each_Close each_DoRead each_Start each_read_failed each_tcp_Close
  each_written each_write_error each_take_posted : each.

Section handlers.
Context {Srv Rds : Type} {MA : MysqlApi Srv} {RA : RedisApi Rds} {PB : Protobuf}.
Notation World := (World Srv Rds).
Notation Prog := (Prog Srv Rds).
#[local] Notation each acc := (each (reads_kept acc)).

Lemma each_Dispatch acc s p : each acc (Dispatch dispatcher (Some s) p : Prog unit).
Proof.
  unfold Dispatch. destruct (dispatcher !! msg_id p) as [h|] eqn:Hh; [|each_tac].
  apply dispatcher_handlers in Hh. rewrite !elem_of_cons, elem_of_nil in Hh.
  destruct_or! Hh; try done; subst h; each_tac.
Qed.
#[local] Hint Resolve each_Dispatch : each.

Lemma each_sync_ranks acc ss ps : each acc (sync_ranks_sections ss ps : Prog bool).
Proof. induction ps as [|p ps IH]; cbn [sync_ranks_sections]; each_tac; exact IH. Qed.
#[local] Hint Resolve each_sync_ranks : each.

(** The handlers that neither read nor accept. *)
Lemma each_handler w e (m : Prog unit) :
  event_handler w e = Some m -> (forall conn data, e <> ERead conn data) -> (forall ok, e <> EAccept ok) -> each true m.
Proof.
  intros Hm Hr Ha.
  assert (H : match event_handler w e with Some m => each true m | None => True end).
  { destruct e; [done|by destruct (Ha ok)|by destruct (Hr conn data)|..]; cbn [event_handler];
      repeat match goal with |- context [if ?b then _ else _] => destruct b end; try exact I; each_tac. }
  by rewrite Hm in H.
Qed.

Lemma pstep_section {A} (s : M Srv Rds A) (f : A -> Prog unit) n w w' (m' : Prog unit) :
  pstep (critical s ≫= f) n w = Some (m', w') -> w' = (s w).2 /\ m' = section_rest s w ≫= f.
Proof. by intros [= <- <-]. Qed.

(** A read handler decodes, and then leaves the buffers alone. *)
Lemma read_handler_step conn data (m' : Prog unit) n w w' :
  pstep (read_handler conn data) n w = Some (m', w') -> w' = (receive conn data w).2 /\ each true m'.
Proof.
  intros [-> ->]%pstep_section. split; [done|]. apply each_bind.
  - unfold section_rest. by destruct (receive conn data w).1.
  - intros [[packets|e]|]; each_tac.
Qed.

Lemma receive_conn conn data (w : World) c ps rest :
  w_conns w !! conn = Some c -> Decode (tc_read_buffer c ++ data) = Some (Ok ps, rest) ->
  (receive conn data w).2 = upd_conns (alter (fun _ => set_read c false rest) conn) w.
Proof.
  intros Hc Hd. unfold receive, reads, writes, mbind, mret, sections_bind, M_sections, critical, M_bind. cbn.
  rewrite Hc. cbn. unfold on_read. by rewrite Hd.
Qed.

Lemma each_accepting f : each false (writes (upd_accepting f) : Prog unit).
Proof. apply each_section. intros w. split; [done|]. intros ? c' ?. by exists c'. Qed.
#[local] Hint Resolve each_accepting : each.

(** Accepting failed. *)
Lemma each_on_accept_failed : each false (on_accept false : Prog unit).
Proof. unfold on_accept. cbn [when_]. each_tac. Qed.

(** Accepting: what is left of the handler puts the connection [id] in its table once. *)
Fixpoint inserting (id : Z) {A : Type} (m : Prog A) : Prop :=
  match m with
  | Step next rest =>
    (forall w, reads_kept false w (next w) /\ inserting id (rest w))
    \/ (forall w, (exists c, tc_read_buffer c = [] /\ next w = upd_conns (insert id c) w) /\ each false (rest w))
  | _ => False
  end.

Lemma inserting_kept id {A B} (s : M Srv Rds A) (f : A -> Prog B) :
  (forall w, reads_kept false w (s w).2) -> (forall w, exists a, (s w).1 = Ok a) -> (forall a, inserting id (f a)) ->
  inserting id (critical s ≫= f).
Proof.
  intros Hs Ha Hf. left. intros w. split; [apply Hs|]. unfold section_rest. destruct (Ha w) as [a ->]. apply Hf.
Qed.

Lemma inserting_bind id {A B} (m : Prog A) (f : A -> Prog B) :
  inserting id m -> (forall a, each false (f a)) -> inserting id (m ≫= f).
Proof.
  unfold mbind, Prog_bind'. intros Hm Hf. induction m as [A a|A e|A next rest IH|A k IH|A body _ k IHk|A m _ h _ k IHk]; try done.
  destruct Hm as [Hm|Hm]; [left|right]; intros w; destruct (Hm w) as [? Hr]; (split; [done|]).
  - by apply IH.
  - by apply each_bind.
Qed.

#[local] Ltac kept := let w := fresh in intros w; split; [done|]; intros ? c' ?; by exists c'.
Lemma on_accept_step ok n (w w' : World) (m' : Prog unit) :
  pstep (on_accept ok) n w = Some (m', w') ->
  w' = w /\ match w_accepting w with Some id => if ok then inserting id m' else each false m' | None => each false m' end.
Proof.
  intros [-> ->]%pstep_section. split; [done|]. change (section_rest ?s w ≫= ?f) with (f (w_accepting w)). cbv beta.
  destruct (w_accepting w) as [id|]; [|done]. destruct ok; cbn [when_]; [|each_tac].
  apply inserting_kept; [kept|by eexists|]. intros _. apply inserting_bind; [|intros _; each_tac].
  apply inserting_kept; [kept|by eexists|]. intros now. apply inserting_kept; [kept|by eexists|]. intros _.
  right. intros w1. split; [by eexists (TcpConnection_new id)|].
  unfold section_rest. cbn [fst]. each_tac.
Qed.
End handlers.
