(* ===== verification/LoginInv.v ===== *)
(** * LoginInv: accounts, tokens and who a session is

    With handlers run one at a time: an id belongs to one account, and a session
    speaks for a player only after a login of that player's account issued a
    token; and what each packet and each other event does to who the sessions
    speak for. *)
From S2P Require Import Prelude Wire Net StdString Messages GameRoom MatchQueue Config Registry Room Mysql Repositories Redis Settlement Timer World Reason Lobby Login GameServer Steps.
Local Open Scope Z_scope.

Record login_ok (next : Z) (accounts : gmap string Z) (tokens : gmap Z string) (sessions : SessionHeap) : Prop := {
  lg_typed k p : accounts !! k = Some p -> is_i64 p;
  lg_next : 100000 <= next;
  lg_issued k p : next <= 2 ^ 63 -> accounts !! k = Some p -> 100000 <= p < next;
  lg_unique k k' p : next <= 2 ^ 63 -> accounts !! k = Some p -> accounts !! k' = Some p -> k = k';
  lg_tokens p t : tokens !! p = Some t -> exists k, accounts !! k = Some p;
  lg_sessions a s : sessions !! a = Some s -> player_id_ s = 0 \/ is_Some (tokens !! player_id_ s)
}.

(** ** The updates *)
Section updates.
Context (next : Z) (accounts : gmap string Z) (tokens : gmap Z string) (sessions : SessionHeap).
Context (Hok : login_ok next accounts tokens sessions).
#[local] Set Default Proof Using "Type*".

Lemma login_next : login_ok (next + 1) accounts tokens sessions.
Proof.
  destruct Hok as [H1 H2 H3 H4 H5 H6]. split; [done|lia|..|done|done].
  - intros k p Hn Hk. pose proof (H3 k p ltac:(lia) Hk). lia.
  - intros k k' p Hn. apply H4. lia.
Qed.

(** A fresh id for a new account. *)
Lemma login_new_account key :
  accounts !! key = None ->
  login_ok (next + 1) (<[key := wrap_i64 next]> accounts) tokens sessions.
Proof.
  intros Hkey. destruct login_next as [H1 H2 H3 H4 H5 H6]. pose proof (lg_issued _ _ _ _ Hok) as Hold.
  pose proof (lg_next _ _ _ _ Hok).
  assert (Hw : next + 1 <= 2 ^ 63 -> wrap_i64 next = next).
  { intros. apply wrap_i64_id. unfold is_i64, int64_min, int64_max. lia. }
  split; [|done|..|done].
  - intros k p [[<- <-]|[_ Hk]]%lookup_insert_Some; [apply wrap_i64_range|by eapply H1].
  - intros k p Hn [[<- <-]|[_ Hk]]%lookup_insert_Some; [rewrite Hw by done; lia|by eapply H3].
  - intros k k' p Hn [[<- <-]|[Hne Hk]]%lookup_insert_Some [[<- E]|[Hne' Hk']]%lookup_insert_Some; [done|..].
    + rewrite Hw in Hk' by done. pose proof (Hold k' next ltac:(lia) Hk'). lia.
    + subst p. rewrite Hw in Hk by done. pose proof (Hold k next ltac:(lia) Hk). lia.
    + by eapply H4.
  - intros p t Ht. destruct (H5 p t Ht) as [k Hk]. exists k.
    rewrite lookup_insert_ne; [done|]. congruence.
Qed.

Lemma login_token p t :
  (exists k, accounts !! k = Some p) -> login_ok next accounts (<[p := t]> tokens) sessions.
Proof.
  intros Hp. destruct Hok as [H1 H2 H3 H4 H5 H6]. split; [done..| |].
  - intros q u [[<- _]|[_ Hq]]%lookup_insert_Some; [done|by eapply H5].
  - intros a s Hs. destruct (H6 a s Hs) as [?|Hq]; [by left|right]. rewrite lookup_insert. by case_decide.
Qed.

Lemma login_new_session a s :
  player_id_ s = 0 \/ is_Some (tokens !! player_id_ s) -> login_ok next accounts tokens (<[a := s]> sessions).
Proof.
  intros Hs. destruct Hok as [H1 H2 H3 H4 H5 H6]. split; [done..|].
  intros b s' [[<- <-]|[_ Hb]]%lookup_insert_Some; [done|by eapply H6].
Qed.

Lemma login_alter_session a f :
  (forall s, sessions !! a = Some s -> player_id_ (f s) = 0 \/ is_Some (tokens !! player_id_ (f s))) ->
  login_ok next accounts tokens (alter f a sessions).
Proof.
  intros Hf. destruct Hok as [H1 H2 H3 H4 H5 H6]. split; [done..|].
  intros b s' [(<- & s & Hs & ->)|[_ Hb]]%lookup_alter_Some; [by apply Hf|by eapply H6].
Qed.
End updates.

Section login_inv.
Context {Srv Rds : Type} {MA : MysqlApi Srv} {RA : RedisApi Rds} {PB : Protobuf}.
Notation World := (World Srv Rds).
Notation M := (M Srv Rds).

Definition login_inv (w : World) : Prop :=
  login_ok (next_player_id (w_ids w)) (w_account_players w) (w_session_tokens w) (w_sessions w).

Lemma login_on_session T s f :
  (forall ss, player_id_ (f ss) = player_id_ ss) -> inv T login_inv (on_session s f).
Proof.
  intros Hf. apply inv_writes. intros w Hw. apply login_alter_session; [done|].
  intros ss Hss. rewrite Hf. by eapply lg_sessions.
Qed.

Lemma login_SetRoomId T s r : inv T login_inv (on_session s (Session_SetRoomId r)).
Proof. by apply login_on_session. Qed.
Lemma login_SetHeartbeat T s t : inv T login_inv (on_session s (Session_UpdateHeartbeatTime t)).
Proof. by apply login_on_session. Qed.
#[local] Hint Resolve login_SetRoomId login_SetHeartbeat : keeps.

Definition issued (p : Z) (w : World) : Prop := exists k, w_account_players w !! k = Some p.
Definition has_token (p : Z) (w : World) : Prop := is_Some (w_session_tokens w !! p).

Lemma GetOrCreatePlayerId_issued account :
  triple login_inv login_inv (GetOrCreatePlayerId account) (fun p w => login_inv w /\ issued p w).
Proof.
  unfold GetOrCreatePlayerId. apply triple_bind with (R := fun _ => login_inv).
  { case_bool_decide; [|by apply triple_ret]. apply inv_bind; [|intros; apply inv_ret].
    apply inv_next_id. intros w. apply login_next. }
  intros key. apply triple_reads_bind. intros [p|].
  { apply triple_ret. intros w [Hw Hk]. split; [done|by exists key]. }
  apply triple_bind with (R := fun p w => w_account_players w !! key = None /\
    exists n, next_player_id (w_ids w) = n + 1 /\ p = wrap_i64 n
      /\ login_ok n (w_account_players w) (w_session_tokens w) (w_sessions w)).
  { intros w [Hw Hk]. cbn. split; [done|]. by exists (next_player_id (w_ids w)). }
  intros p. apply triple_bind with (R := fun _ w => login_inv w /\ issued p w).
  { apply triple_writes. intros w (Hk & n & Hn & -> & Hok). split.
    - unfold login_inv. cbn. rewrite Hn. by apply login_new_account.
    - exists key. cbn. by rewrite lookup_insert_eq. }
  intros ?. apply triple_bind with (R := fun _ w => login_inv w /\ issued p w); [keeps_tac|]. intros ctx.
  apply triple_bind with (R := fun _ w => login_inv w /\ issued p w); [|intros ?; by apply triple_ret].
  keeps_tac; (apply inv_mysql_call; [by intros w [? _]|done]).
Qed.

(** What the rest of [HandleLogin] runs under. *)
Definition known (p : Z) (w : World) : Prop := login_inv w /\ issued p w /\ has_token p w.

Lemma known_on_session T p s f :
  (forall ss, player_id_ (f ss) = player_id_ ss \/ player_id_ (f ss) = p) ->
  inv T (known p) (on_session s f).
Proof.
  intros Hf. apply inv_writes. intros w (Hw & Hi & Ht). split_and!; [|done|done].
  apply login_alter_session; [done|].
  intros ss Hss. destruct (Hf ss) as [-> | ->]; [by eapply lg_sessions|by right].
Qed.
Lemma known_SetRoomId T p s r : inv T (known p) (on_session s (Session_SetRoomId r)).
Proof. apply known_on_session. by left. Qed.
Lemma known_SetHeartbeat T p s t : inv T (known p) (on_session s (Session_UpdateHeartbeatTime t)).
Proof. apply known_on_session. by left. Qed.
Lemma known_Bind T p s : inv T (known p) (on_session s (Session_BindPlayerId p)).
Proof. apply known_on_session. by right. Qed.
#[local] Hint Resolve known_SetRoomId known_SetHeartbeat known_Bind : keeps.

Lemma HandleLogin_login s p : keeps login_inv (HandleLogin (Some s) p).
Proof.
  unfold HandleLogin. destruct (parse_login p) as [[account token]|]; [|keeps_tac].
  eapply triple_bind; [apply GetOrCreatePlayerId_issued|]. intros player_id.
  apply triple_bind with (R := fun _ w => login_inv w /\ issued player_id w); [keeps_tac|]. intros tok.
  apply triple_bind with (R := fun _ => known player_id).
  { apply triple_writes. intros w [Hw Hi]. split_and!; [by apply login_token|done|].
    unfold has_token. cbn. by rewrite lookup_insert_eq. }
  intros ?. apply triple_weaken with (T := known player_id) (P := known player_id) (Q := fun _ => known player_id);
    [|done|by intros ? w [? _]|by intros w [? _]].
  keeps_tac; by intros w (? & _).
Qed.

Lemma HandleReconnect_login s p : keeps login_inv (HandleReconnect (Some s) p).
Proof.
  unfold HandleReconnect. destruct (parse_reconnect p) as [[player_id token]|]; [|keeps_tac].
  apply triple_reads_bind. intros saved. case_bool_decide as Hs; cbn [negb].
  - apply triple_weaken with (T := known player_id) (P := known player_id) (Q := fun _ => known player_id);
      [keeps_tac| |by intros ? w [? _]|by intros w [? _]].
    intros w [Hw Hsv]. rewrite Hs in Hsv. split_and!; [done| |by exists token].
    by apply (lg_tokens _ _ _ _ Hw player_id token).
  - apply triple_pre with (P := login_inv); [keeps_tac|by intros w [? _]].
Qed.

#[export] Instance login_inv_keeps : Handlers_keep login_inv (fun _ => login_inv).
Proof.
  split; [done|done|apply HandleLogin_login| |apply HandleReconnect_login|..];
    intros; [keeps_tac..|done|keeps_tac|done|done].
  apply inv_writes. intros w Hw. apply login_new_session; [done|by left].
Qed.
End login_inv.

(** ** Who a session speaks for *)

(** The key of an account; a login without a name is a guest's, with a fresh one. *)
Definition login_key {Srv Rds} (w : World Srv Rds) (account : string) : string :=
  if bool_decide (account = ""%string) then ("guest_" +:+ to_string (wrap_i64 (next_player_id (w_ids w))))%string
  else account.

Section speaking.
Context {Srv Rds : Type} {MA : MysqlApi Srv} {RA : RedisApi Rds} {PB : Protobuf}.
Notation World := (World Srv Rds).
Notation M := (M Srv Rds).
Implicit Types (g : Z -> Z) (w : World).

(** The packet names an account whose id is [p], or [p] and its current token. *)
Definition entitled w (packet : Packet) w' (p : Z) : Prop :=
  (msg_id packet = MSG_LOGIN_REQ /\ exists account token, parse_login packet = Some (account, token)
     /\ w_account_players w' !! login_key w account = Some p)
  \/ (msg_id packet = MSG_RECONNECT_REQ /\ exists token, parse_reconnect packet = Some (p, token)
       /\ w_session_tokens w !! p = Some token).

(** What a packet of session [s] does to the players of the sessions. *)
Record spoken w (s : Z) (packet : Packet) (r : result unit) w' : Prop := {
  sp_others s' : s' <> s -> PlayerId (w_sessions w') s' = PlayerId (w_sessions w) s';
  sp_accounts k p : w_account_players w !! k = Some p -> w_account_players w' !! k = Some p;
  sp_self : PlayerId (w_sessions w') s = PlayerId (w_sessions w) s
            \/ entitled w packet w' (PlayerId (w_sessions w') s);
  sp_login account token : r = Ok tt -> msg_id packet = MSG_LOGIN_REQ -> parse_login packet = Some (account, token) ->
    w_account_players w' !! login_key w account = Some (PlayerId (w_sessions w') s);
  sp_reconnect p token : r = Ok tt -> msg_id packet = MSG_RECONNECT_REQ -> parse_reconnect packet = Some (p, token) ->
    w_session_tokens w !! p = Some token -> PlayerId (w_sessions w') s = p
}.

(** The players of the sessions, among them [s], and the accounts. *)
Definition speaks_as (s : Z) g (accounts : gmap string Z) w : Prop :=
  (forall s', PlayerId (w_sessions w) s' = g s') /\ is_Some (w_sessions w !! s) /\ w_account_players w = accounts.

Definition rebound (s p : Z) g (s' : Z) : Z := if decide (s' = s) then p else g s'.

Lemma PlayerId_alter f s (h : SessionHeap) s' :
  PlayerId (alter f s h) s' = if decide (s' = s) then default 0 (player_id_ ∘ f <$> h !! s) else PlayerId h s'.
Proof.
  unfold PlayerId. destruct (decide (s' = s)) as [->|Hne].
  - rewrite lookup_alter_eq. by destruct (h !! s).
  - by rewrite lookup_alter_ne.
Qed.

Lemma speaks_on_session T s g acc s' f :
  (forall ss, player_id_ (f ss) = player_id_ ss) -> inv T (speaks_as s g acc) (on_session s' f : M unit).
Proof.
  intros Hf. apply inv_writes. intros w (Hg & Hs & Ha). split_and!; [|by apply lookup_alter_is_Some|done].
  intros a. cbn. rewrite PlayerId_alter. case_decide; [|done]. subst a. rewrite <- Hg. unfold PlayerId.
  destruct (w_sessions w !! s'); cbn; [by rewrite Hf|done].
Qed.
Lemma speaks_SetRoomId T s g acc s' r : inv T (speaks_as s g acc) (on_session s' (Session_SetRoomId r) : M unit).
Proof. by apply speaks_on_session. Qed.
Lemma speaks_SetHeartbeat T s g acc s' t :
  inv T (speaks_as s g acc) (on_session s' (Session_UpdateHeartbeatTime t) : M unit).
Proof. by apply speaks_on_session. Qed.
Lemma speaks_Bind T s g acc p :
  triple T (speaks_as s g acc) (on_session s (Session_BindPlayerId p) : M unit) (fun _ => speaks_as s (rebound s p g) acc).
Proof.
  apply triple_writes. intros w (Hg & [ss Hs] & Ha). split_and!; [|cbn; by rewrite lookup_alter_is_Some, Hs|done].
  intros a. cbn. rewrite PlayerId_alter. unfold rebound. case_decide; [|apply Hg]. by rewrite Hs.
Qed.
Lemma speaks_mysql_call s g acc {A} (f : MysqlConfig -> MysqlClient Srv -> result A * MysqlClient Srv) :
  keeps (speaks_as s g acc) (mysql_call f : M A).
Proof. by apply inv_mysql_call. Qed.
#[local] Hint Resolve speaks_SetRoomId speaks_SetHeartbeat : keeps.

(** What [GetOrCreatePlayerId] answers, and the accounts it leaves. *)
Lemma GetOrCreatePlayerId_speaks (w0 : World) s g account :
  let acc0 := w_account_players w0 in
  triple (fun w => exists acc, acc0 ⊆ acc /\ speaks_as s g acc w)
    (fun w => w = w0 /\ speaks_as s g acc0 w) (GetOrCreatePlayerId account : M Z)
    (fun p w => exists acc, (acc0 ⊆ acc /\ acc !! login_key w0 account = Some p) /\ speaks_as s g acc w).
Proof.
  cbn zeta. set (acc0 := w_account_players w0). unfold GetOrCreatePlayerId.
  apply triple_bind with (R := fun key w => key = login_key w0 account /\ speaks_as s g acc0 w).
  { unfold login_key. case_bool_decide; [|apply triple_ret; by intros w [_ Hw]].
    intros w [-> Hw]. by split. }
  intros key. apply triple_pull. intros ->. apply triple_reads_bind. intros [p|].
  { apply triple_ret. intros w [Hw Hk]. exists acc0. split; [|done]. split; [done|].
    destruct Hw as (_ & _ & Ha). unfold acc0 in *. by rewrite Ha in Hk. }
  apply triple_bind with (R := fun _ w => acc0 !! login_key w0 account = None /\ speaks_as s g acc0 w).
  { intros w [Hw Hk]. cbn. destruct Hw as (? & ? & Ha). rewrite Ha in Hk. by split. }
  intros p. apply triple_pull. intros Hnone. set (acc := <[login_key w0 account := p]> acc0).
  assert (Hsub : acc0 ⊆ acc) by by apply insert_subseteq.
  apply triple_weaken with (T := speaks_as s g acc) (P := speaks_as s g acc0) (Q := fun p' w => p' = p /\ speaks_as s g acc w);
    [|done| |by intros w; exists acc].
  2: { intros ? w [-> Hw]. exists acc. split; [|done]. split; [done|]. unfold acc. apply lookup_insert_eq. }
  apply triple_bind with (R := fun _ => speaks_as s g acc).
  { apply triple_writes. intros w (Hg & Hs & Ha). split_and!; [done|done|]. cbn. by rewrite Ha. }
  intros ?. apply triple_bind with (R := fun _ => speaks_as s g acc); [keeps_tac|]. intros ctx.
  apply triple_bind with (R := fun _ => speaks_as s g acc); [keeps_tac|]. intros ?. by apply triple_ret.
Qed.

(** Afterwards a session speaks for who it did, or for a player the packet names. *)
Definition outcome_of (w0 : World) (s : Z) (packet : Packet) g (r : result unit) (w' : World) : Prop :=
  exists acc, w_account_players w0 ⊆ acc
    /\ (speaks_as s g acc w' \/ exists p, entitled w0 packet w' p /\ speaks_as s (rebound s p g) acc w')
    /\ (r = Ok tt -> forall p, entitled w0 packet w' p -> speaks_as s (rebound s p g) acc w')
    /\ (r = Ok tt -> msg_id packet = MSG_LOGIN_REQ -> is_Some (parse_login packet) ->
        exists p, entitled w0 packet w' p).

Definition outcomes (w0 : World) (s : Z) (packet : Packet) (m : M unit) : Prop :=
  forall g, speaks_as s g (w_account_players w0) w0 -> outcome_of w0 s packet g (m w0).1 (m w0).2.

(** A handler that keeps the players, for a packet that entitles to none. *)
Lemma outcomes_keeps (w0 : World) s packet (m : M unit) :
  (forall w' p, ~ entitled w0 packet w' p) -> ~ (msg_id packet = MSG_LOGIN_REQ /\ is_Some (parse_login packet)) ->
  (forall g acc, keeps (speaks_as s g acc) m) -> outcomes w0 s packet m.
Proof.
  intros Hn Hl Hm g Hg. exists (w_account_players w0). split_and!; [done|left| |tauto].
  - by apply (keeps_run _ m w0 (Hm _ _)).
  - intros _ p Hp. by destruct (Hn _ _ Hp).
Qed.

Lemma HandleLogin_outcomes (w0 : World) s packet :
  msg_id packet = MSG_LOGIN_REQ -> outcomes w0 s packet (HandleLogin (Some s) packet : M unit).
Proof.
  intros Hid. destruct (parse_login packet) as [[account token]|] eqn:Hp.
  2: { apply outcomes_keeps.
       - intros w' p [[_ (? & ? & Hc & _)]|[Hc _]]; [by rewrite Hp in Hc|by rewrite Hid in Hc].
       - rewrite Hp. by intros [_ []].
       - intros g acc. unfold HandleLogin. rewrite Hp. keeps_tac. }
  intros g Hg. set (acc0 := w_account_players w0) in *. set (key := login_key w0 account).
  assert (Hent : forall w' p, entitled w0 packet w' p <-> w_account_players w' !! key = Some p).
  { intros w' p. unfold entitled. rewrite Hid, Hp. split.
    - intros [(_ & ? & ? & [= <- <-] & ?)|[Hc _]]; [done|discriminate].
    - intros Hk. left. split; [done|]. by exists account, token. }
  assert (H : triple (fun w => exists acc, acc0 ⊆ acc /\ (speaks_as s g acc w
                        \/ exists p, acc !! key = Some p /\ speaks_as s (rebound s p g) acc w))
                (fun w => w = w0 /\ speaks_as s g acc0 w) (HandleLogin (Some s) packet : M unit)
                (fun _ w => exists acc p, (acc0 ⊆ acc /\ acc !! key = Some p) /\ speaks_as s (rebound s p g) acc w)).
  { unfold HandleLogin. rewrite Hp. eapply triple_bind.
    { eapply triple_weaken; [apply (GetOrCreatePlayerId_speaks w0 s g account)|done|by intros ? w H; exact H|].
      intros w (acc & ? & ?). exists acc. auto. }
    intros p w (acc & [Hsub Hk] & Hw). revert w Hw.
    apply (triple_weaken (fun w => speaks_as s g acc w \/ speaks_as s (rebound s p g) acc w) _
             (speaks_as s g acc) _ _ (fun _ => speaks_as s (rebound s p g) acc)); [|done| |].
    2: { intros _ w Hw. by exists acc, p. }
    2: { intros w [Hw|Hw]; exists acc; (split; [done|]); [by left|right; by exists p]. }
    assert (Hold : forall A (m : M A), keeps (speaks_as s g acc) m ->
      triple (fun w => speaks_as s g acc w \/ speaks_as s (rebound s p g) acc w) (speaks_as s g acc) m (fun _ => speaks_as s g acc)).
    { intros A m Hm. eapply triple_weaken; [exact Hm|done|done|by left]. }
    assert (Hnew : forall (m : M unit), keeps (speaks_as s (rebound s p g) acc) m ->
      triple (fun w => speaks_as s g acc w \/ speaks_as s (rebound s p g) acc w)
        (speaks_as s (rebound s p g) acc) m (fun _ => speaks_as s (rebound s p g) acc)).
    { intros m Hm. eapply triple_weaken; [exact Hm|done|done|by right]. }
    eapply triple_bind; [apply Hold; keeps_tac|]. intros tok.
    eapply triple_bind; [apply Hold; keeps_tac|]. intros ?.
    eapply triple_bind; [apply Hold; keeps_tac|]. intros ctx.
    eapply triple_bind; [apply Hold; keeps_tac|]. intros ?.
    eapply triple_bind; [apply speaks_Bind|]. intros ?. apply Hnew. keeps_tac. }
  specialize (H w0 (conj eq_refl Hg)).
  destruct ((HandleLogin (Some s) packet : M unit) w0) as [[[]|e] w']; cbn [fst snd].
  - destruct H as (acc & p & [Hsub Hk] & Hw). exists acc. pose proof Hw as (_ & _ & Ha).
    assert (Hep : entitled w0 packet w' p) by (apply Hent; by rewrite Ha).
    split_and!; [done|right; by exists p| |intros; by exists p].
    intros _ q Hq%Hent. rewrite Ha, Hk in Hq. by injection Hq as <-.
  - destruct H as (acc & Hsub & Hw). exists acc. split_and!; [done| |done|done].
    destruct Hw as [Hw|(p & Hk & Hw)]; [by left|]. right. exists p. split; [|done].
    apply Hent. by destruct Hw as (_ & _ & ->).
Qed.

Lemma HandleReconnect_outcomes (w0 : World) s packet :
  msg_id packet = MSG_RECONNECT_REQ -> outcomes w0 s packet (HandleReconnect (Some s) packet : M unit).
Proof.
  intros Hid. assert (Hlog : ~ (msg_id packet = MSG_LOGIN_REQ /\ is_Some (parse_login packet))).
  { rewrite Hid. by intros [? _]. }
  destruct (parse_reconnect packet) as [[p token]|] eqn:Hp.
  2: { apply outcomes_keeps; [|done|].
       - intros w' q [[Hc _]|[_ (? & Hc & _)]]; [by rewrite Hid in Hc|by rewrite Hp in Hc].
       - intros g acc. unfold HandleReconnect. rewrite Hp. keeps_tac. }
  assert (Hent : forall w' q, entitled w0 packet w' q -> q = p /\ w_session_tokens w0 !! p = Some token).
  { intros w' q [[Hc _]|[_ (tok & Hc & Ht)]]; [by rewrite Hid in Hc|]. rewrite Hp in Hc. by injection Hc as -> ->. }
  intros g Hg. set (acc0 := w_account_players w0) in *.
  assert (H : triple (fun w => speaks_as s g acc0 w
                  \/ w_session_tokens w0 !! p = Some token /\ speaks_as s (rebound s p g) acc0 w)
      (fun w => w = w0 /\ speaks_as s g acc0 w) (HandleReconnect (Some s) packet : M unit)
      (fun _ w => w_session_tokens w0 !! p = Some token /\ speaks_as s (rebound s p g) acc0 w
                  \/ w_session_tokens w0 !! p <> Some token /\ speaks_as s g acc0 w)).
  { unfold HandleReconnect. rewrite Hp. apply triple_reads_bind. intros saved. case_bool_decide as Htok; cbn [negb].
    - apply triple_pre with (P := fun w => w_session_tokens w0 !! p = Some token /\ speaks_as s g acc0 w);
        [|by intros w [[-> Hw] ->]]. apply triple_pull. intros Ht.
      eapply triple_bind; [apply speaks_Bind|]. intros ?.
      eapply triple_weaken with (T := speaks_as s (rebound s p g) acc0) (P := speaks_as s (rebound s p g) acc0)
        (Q := fun _ => speaks_as s (rebound s p g) acc0); [keeps_tac|done|auto..].
    - apply triple_pre with (P := fun w => w_session_tokens w0 !! p <> Some token /\ speaks_as s g acc0 w);
        [|intros w [[-> Hw] Hs]; by rewrite <- Hs in Htok]. apply triple_pull. intros Ht.
      eapply triple_weaken with (T := speaks_as s g acc0) (P := speaks_as s g acc0)
        (Q := fun _ => speaks_as s g acc0); [keeps_tac|done|auto..]. }
  specialize (H w0 (conj eq_refl Hg)).
  destruct ((HandleReconnect (Some s) packet : M unit) w0) as [[[]|e] w']; cbn [fst snd]; exists acc0.
  - destruct H as [[Htok H]|[Htok H]].
    + assert (He : entitled w0 packet w' p) by (right; split; [done|]; by exists token).
      split_and!; [done|right; by exists p| |tauto]. by intros _ q [-> _]%Hent.
    + split_and!; [done|by left| |tauto]. by intros _ q [_ ?]%Hent.
  - split_and!; [done| |done|done]. destruct H as [H|[Htok H]]; [by left|right]. exists p. split; [|done].
    right. split; [done|]. by exists token.
Qed.

Lemma dispatcher_handler id (h : Handler (proc := M)) :
  dispatcher (proc := M) !! id = Some h ->
  (id = MSG_LOGIN_REQ /\ h = HandleLogin) \/ (id = MSG_RECONNECT_REQ /\ h = HandleReconnect)
  \/ (id <> MSG_LOGIN_REQ /\ id <> MSG_RECONNECT_REQ
      /\ forall s p g acc, keeps (speaks_as s g acc) (h (Some s) p)).
Proof.
  unfold dispatcher, Rank_RegisterHandlers, Room_RegisterHandlers, Match_RegisterHandlers,
    Login_RegisterHandlers, RegisterHandler, handlers. intros Hh.
  repeat (rewrite (lookup_insert (M := gmap Z)) in Hh; case_decide; [simplify_eq;
    first [by left | by right; left | right; right; split; [done|]; split; [done|]; intros s p g acc; keeps_tac]|]).
  by rewrite (lookup_empty (M := gmap Z)) in Hh.
Qed.

Lemma Dispatch_spoken (w : World) s packet r w' :
  is_Some (w_sessions w !! s) -> (Dispatch dispatcher (Some s) packet : M unit) w = (r, w') ->
  spoken w s packet r w'.
Proof.
  intros Hs Hrun. set (g := PlayerId (w_sessions w)).
  assert (H : outcome_of w s packet g r w').
  { change r with (r, w').1. change w' with (r, w').2 at 2. rewrite <- Hrun.
    assert (outcomes w s packet (Dispatch dispatcher (Some s) packet : M unit)) as Hd; [|by apply Hd].
    unfold Dispatch. destruct (dispatcher !! msg_id packet) as [h|] eqn:Hh.
    - apply dispatcher_handler in Hh as [[Hid ->]|[[Hid ->]|(Hl & Hr & Hk)]];
        [by apply HandleLogin_outcomes|by apply HandleReconnect_outcomes|].
      apply outcomes_keeps; [by intros ? ? [[? _]|[? _]]|by intros [? _]|]. intros g' acc. apply Hk.
    - apply outcomes_keeps; [| |intros; apply inv_ret].
      + intros ? ? [[Hc _]|[Hc _]]; rewrite Hc in Hh; discriminate Hh.
      + intros [Hc _]. rewrite Hc in Hh. discriminate Hh. }
  destruct H as (acc & Hsub & Hself & Hdone & Hlogin).
  assert (Hat : forall p, speaks_as s (rebound s p g) acc w' -> PlayerId (w_sessions w') s = p).
  { intros p [Hw _]. rewrite Hw. unfold rebound. by rewrite decide_True. }
  split.
  - intros s' Hne. destruct Hself as [[Hw _]|(p & _ & [Hw _])]; rewrite Hw; [done|]. unfold rebound. by rewrite decide_False.
  - intros k p Hk. assert (w_account_players w' = acc) as ->.
    { by destruct Hself as [(_ & _ & ?)|(? & _ & (_ & _ & ?))]. }
    by eapply lookup_weaken.
  - destruct Hself as [[Hw _]|(p & He & Hw)]; [left; apply Hw|right]. by rewrite (Hat p Hw).
  - intros account token Hr Hid Hp. destruct (Hlogin Hr Hid) as [p He]; [by rewrite Hp|].
    rewrite (Hat p (Hdone Hr p He)). destruct He as [(_ & ? & ? & Hp' & Hk)|[Hc _]]; [|by rewrite Hid in Hc].
    rewrite Hp in Hp'. by injection Hp' as <- <-.
  - intros p token Hr Hid Hp Htok. apply Hat, Hdone; [done|]. right. split; [done|]. by exists token.
Qed.

(** *** Events *)
Definition others_as (s : Z) g (w : World) : Prop := forall s', s' <> s -> PlayerId (w_sessions w) s' = g s'.

Lemma others_on_session T s g s' f :
  (forall ss, player_id_ (f ss) = player_id_ ss) \/ s' = s -> inv T (others_as s g) (on_session s' f : M unit).
Proof.
  intros Hf. apply inv_writes. intros w Hg a Ha. cbn. rewrite PlayerId_alter. case_decide; [|by apply Hg]. subst a.
  destruct Hf as [Hf|]; [|done]. rewrite <- Hg by done. unfold PlayerId. destruct (w_sessions w !! s'); cbn; [by rewrite Hf|done].
Qed.
Lemma others_SetRoomId T s g s' r : inv T (others_as s g) (on_session s' (Session_SetRoomId r) : M unit).
Proof. apply others_on_session. by left. Qed.
Lemma others_SetHeartbeat T s g s' t : inv T (others_as s g) (on_session s' (Session_UpdateHeartbeatTime t) : M unit).
Proof. apply others_on_session. by left. Qed.
Lemma others_Bind T s g p : inv T (others_as s g) (on_session s (Session_BindPlayerId p) : M unit).
Proof. apply others_on_session. by right. Qed.
#[local] Hint Resolve others_SetRoomId others_SetHeartbeat others_Bind : keeps.

Lemma Dispatch_others s g p : keeps (others_as s g) (Dispatch dispatcher (Some s) p : M unit).
Proof.
  unfold Dispatch. destruct (dispatcher !! msg_id p) as [h|] eqn:Hh; [|apply inv_ret].
  unfold dispatcher, Rank_RegisterHandlers, Room_RegisterHandlers, Match_RegisterHandlers,
    Login_RegisterHandlers, RegisterHandler, handlers in Hh.
  repeat (rewrite (lookup_insert (M := gmap Z)) in Hh; case_decide; [simplify_eq; keeps_tac|]).
  by rewrite (lookup_empty (M := gmap Z)) in Hh.
Qed.

Lemma read_others s g data : keeps (others_as s g) (read_handler s data : M unit).
Proof.
  unfold read_handler. apply inv_bind.
  - apply inv_critical. unfold receive. keeps_tac.
  - intros [[packets|e]|]; [|keeps_tac..].
    apply triple_catch with (T' := others_as s g); [|keeps_tac].
    apply inv_bind; [|intros; keeps_tac]. apply inv_for_each. intros p. apply Dispatch_others.
Qed.

Lemma posted_others s g c : keeps (others_as s g) (run_posted c : M unit).
Proof.
  unfold run_posted. apply inv_bind; [|intros; keeps_tac]. apply inv_critical. unfold take_posted.
  apply inv_bind; [apply inv_reads|]. intros c0. destruct (tc_posted c0) as [|[p|] ts]; [keeps_tac| |keeps_tac].
  apply inv_bind; [intros w Hw; by destruct (run_send _ _)|]. intros c'. keeps_tac.
Qed.

Lemma accept_speaks ok s g :
  triple (fun _ => False) (fun w => w_accepting w = Some s /\ others_as s g w /\ PlayerId (w_sessions w) s = g s)
    (on_accept ok : M unit) (fun _ w => others_as s g w /\ PlayerId (w_sessions w) s = if ok then 0 else g s).
Proof.
  unfold on_accept. apply triple_reads_bind. intros [conn|]; [|by intros w [[Hc _] Ha]; rewrite Hc in Ha].
  apply triple_pre with (P := fun w => conn = s /\ others_as s g w /\ PlayerId (w_sessions w) s = g s);
    [|intros w [(Hc & Hw) Ha]; split; [congruence|done]].
  apply triple_pull. intros ->. set (I w := others_as s g w /\ PlayerId (w_sessions w) s = g s).
  set (J w := others_as s g w /\ PlayerId (w_sessions w) s = if ok then 0 else g s).
  apply triple_bind with (R := fun _ => I); [keeps_tac|]. intros ?.
  apply triple_bind with (R := fun _ => J); [|intros ?; keeps_tac].
  destruct ok; [|by apply triple_ret]. cbn [when_]. apply triple_bind with (R := fun _ => I); [keeps_tac|]. intros now.
  apply triple_bind with (R := fun _ => J); [|intros ?; keeps_tac].
  apply triple_writes. intros w [Ho _]. unfold J, others_as, PlayerId. cbn. rewrite lookup_insert_eq. split; [|done].
  intros s' Hne. rewrite lookup_insert_ne by done. by apply Ho.
Qed.

Lemma rounds_others s g : keeps (others_as s g) (Loop_round : M unit) /\ keeps (others_as s g) (Timer_round : M unit).
Proof.
  split; [unfold Loop_round; keeps_tac|]. unfold Timer_round. apply inv_bind.
  - intros w Hw. cbn. by destruct (collect_due _ _).
  - intros cbs. apply inv_for_each. intros []. keeps_tac.
Qed.

(** The session of an event that can change who a session speaks for. *)
Lemma step_others (w w' : World) e s :
  step w e = Some w' -> (forall data, e <> ERead s data) -> (forall ok, e = EAccept ok -> w_accepting w <> Some s) ->
  PlayerId (w_sessions w') s = PlayerId (w_sessions w) s.
Proof.
  intros Hstep Hread Hacc. set (g := PlayerId (w_sessions w)).
  assert (Hall : forall (a : Z) (m : M unit), a <> s -> keeps (others_as a g) m -> run m w = Some w' ->
    PlayerId (w_sessions w') s = g s).
  { intros a m Ha Hm Hr. unfold run in Hr. assert (others_as a g w) as Hw by done. specialize (Hm w Hw).
    destruct (m w) as [[?|?] ?]; simplify_eq. by apply Hm. }
  assert (s + 1 <> s) as Hother by lia.
  destruct e; cbn [step event_handler] in Hstep; try (destruct (conn_is _ _ _); [|by simplify_eq]).
  - by simplify_eq.
  - destruct (w_accepting w) as [a|] eqn:Ha.
    + assert (Hne : s <> a) by (intros ->; by apply (Hacc ok)).
      pose proof (accept_speaks ok a g w (conj Ha (conj (fun _ _ => eq_refl) eq_refl))) as H.
      unfold run in Hstep. destruct ((on_accept ok : M unit) w) as [[?|?] ?]; simplify_eq. by apply H.
    + assert (Hnone : (on_accept ok : M unit) w = (Ok tt, w)).
      { unfold on_accept, reads, mbind, sections_bind, M_sections, critical, M_bind. by rewrite Ha. }
      unfold run in Hstep. rewrite Hnone in Hstep. by simplify_eq.
  - assert (conn <> s) by (intros ->; by apply (Hread data)). destruct (_ && _); [|by simplify_eq].
    by eapply (Hall conn), Hstep; [|apply read_others].
  - eapply (Hall (s + 1)), Hstep; [done|]. keeps_tac.
  - eapply (Hall (s + 1)), Hstep; [done|]. apply posted_others.
  - eapply (Hall (s + 1)), Hstep; [done|]. keeps_tac.
  - eapply (Hall (s + 1)), Hstep; [done|]. keeps_tac.
  - by simplify_eq.
  - eapply (Hall (s + 1)), Hstep; [done|]. apply rounds_others.
  - eapply (Hall (s + 1)), Hstep; [done|]. apply rounds_others.
Qed.

Lemma step_speaks (w w' : World) e s :
  step w e = Some w' -> (forall data, e <> ERead s data) ->
  PlayerId (w_sessions w') s = PlayerId (w_sessions w) s
  \/ (e = EAccept true /\ w_accepting w = Some s /\ PlayerId (w_sessions w') s = 0).
Proof.
  intros Hstep Hread.
  assert ((exists ok, e = EAccept ok /\ w_accepting w = Some s) \/ ~ exists ok, e = EAccept ok /\ w_accepting w = Some s)
    as [(ok & -> & Ha)|Hn] by (destruct e; destruct (decide (w_accepting w = Some s)); naive_solver).
  - pose proof (accept_speaks ok s (PlayerId (w_sessions w)) w (conj Ha (conj (fun _ _ => eq_refl) eq_refl))) as H.
    cbn [step event_handler] in Hstep. unfold run in Hstep.
    destruct ((on_accept ok : M unit) w) as [[?|?] ?]; simplify_eq. destruct H as [_ H]. destruct ok; [by right|by left].
  - left. eapply step_others; [done|done|]. intros ok -> Ha. apply Hn. by exists ok.
Qed.
End speaking.

Section theorems.
Context {Srv Rds : Type} {MA : MysqlApi Srv} {RA : RedisApi Rds} {PB : Protobuf}.
Notation World := (World Srv Rds).

Lemma login_ok_new accounts_next : 100000 <= accounts_next -> login_ok accounts_next ∅ ∅ ∅.
Proof. intros. by split. Qed.

Lemma reachable_login config (srv : Srv) (rds : Rds) w : reachable config srv rds w -> login_inv w.
Proof.
  apply (reachable_keeps login_inv (fun _ => login_inv)). intros w0 Hw0.
  destruct (started_world _ _ _ _ Hw0) as (my & rd & -> & _). by apply login_ok_new.
Qed.

(** The player a session speaks for has an [int64_t] id. *)
Lemma session_player_typed (w : World) s : login_inv w -> is_i64 (PlayerId (w_sessions w) s).
Proof.
  intros Hw. unfold PlayerId. destruct (w_sessions w !! s) as [ss|] eqn:Hs; [|done]. cbn.
  destruct (lg_sessions _ _ _ _ Hw s ss Hs) as [-> | [t Ht]]; [done|].
  destruct (lg_tokens _ _ _ _ Hw _ _ Ht) as [k Hk]. by eapply lg_typed.
Qed.

(** C10: With handlers run one at a time, in every reachable world:
    - an id belongs to at most one account (as long as the counter has not run
      through the 64 bits), and a session that speaks for a player does so for the
      id of an account that has logged in and holds a token;
    - a packet changes nobody's player but that of the session it came on, takes no
      account from its player, and changes the session's player only to the id of
      the account the login names (a fresh guest account when it names none) or to
      an id whose current token the packet shows; a login that is understood and a
      reconnection with the current token that return have bound the session
      ([spoken]);
    - no other event changes whom a session speaks for: the accept of a connection
      makes a session that speaks for nobody. *)
Theorem sessions_authenticated config (srv : Srv) (rds : Rds) (w : World)
    (Hw : reachable config srv rds w) :
  (next_player_id (w_ids w) <= 2 ^ 63 ->
     forall account account' p, w_account_players w !! account = Some p ->
       w_account_players w !! account' = Some p -> account = account')
  /\ (forall s session, w_sessions w !! s = Some session -> player_id_ session <> 0 ->
       exists account token, w_account_players w !! account = Some (player_id_ session)
         /\ w_session_tokens w !! player_id_ session = Some token)
  /\ (forall s packet r w', is_Some (w_sessions w !! s) ->
       (Dispatch dispatcher (Some s) packet : M Srv Rds unit) w = (r, w') -> spoken w s packet r w')
  /\ (forall e w' s, step w e = Some w' -> (forall data, e <> ERead s data) ->
       PlayerId (w_sessions w') s = PlayerId (w_sessions w) s
       \/ (e = EAccept true /\ w_accepting w = Some s /\ PlayerId (w_sessions w') s = 0)).
Proof.
  apply reachable_login in Hw. split_and!.
  - intros Hn k k' p. by apply (lg_unique _ _ _ _ Hw).
  - intros s ss Hs Hp. destruct (lg_sessions _ _ _ _ Hw s ss Hs) as [|[t Ht]]; [done|].
    destruct (lg_tokens _ _ _ _ Hw _ _ Ht) as [k Hk]. eauto.
  - intros s packet r w' Hs. by apply Dispatch_spoken.
  - intros e w' s Hstep Hread. by apply step_speaks.
Qed.
End theorems.
