(* ===== verification/QueueInv.v ===== *)
(** * QueueInv: the matchmaking queue in the running server

    In every reachable world the queue is a list without duplicates of valid
    ids and is shorter than a room. *)
From S2P Require Import Prelude Wire Net StdString Messages GameRoom MatchQueue Config Registry Room Mysql Repositories Redis Settlement Timer World Reason Lobby Login GameServer Steps LoginInv.
Local Open Scope Z_scope.

(** The ids the queue lets in. *)
Definition player_ok (p : Z) : Prop := p <> 0 /\ is_i64 p.

Section queue_inv.
Context {Srv Rds : Type} {MA : MysqlApi Srv} {RA : RedisApi Rds} {PB : Protobuf}.
Notation World := (World Srv Rds).
Notation M := (M Srv Rds).
Context (config : ConfigManager).

(** The members of the rooms came out of the queue. *)
Definition rooms_typed (heap : gmap Z Room) : Prop :=
  forall a r k, heap !! a = Some r -> is_Some (r_players r !! k) -> player_ok k.

Definition queue_wf (w : World) : Prop :=
  (w_config w = config /\ w_ctx w = full_ctx) /\ rooms_typed (w_room_heap w)
  /\ repr (w_queue w) (queue_ (w_queue w)) /\ Forall player_ok (queue_ (w_queue w)).

Definition queue_len (w : World) : Z := Z.of_nat (length (queue_ (w_queue w))).

(** [L] is a bound on the length of the queue. *)
Definition queue_upto (L : Z -> Prop) (w : World) : Prop := queue_wf w /\ L (queue_len w).

Definition queue_inv : World -> Prop :=
  queue_upto (fun n => 0 < need_count config -> n < need_count config).

Lemma need_count_range : 0 <= need_count config.
Proof. unfold need_count, wrap_u64. apply Z.mod_pos_bound. lia. Qed.

(** Popping: nothing, or a whole room. *)
Lemma TryPopN_wf T n :
  triple T (fun w => queue_wf w /\ queue_len w <= Z.of_nat n) (TryPopN (need_count config))
    (fun players w => queue_wf w
       /\ (players = [] /\ (0 < need_count config -> queue_len w < need_count config)
           \/ Z.of_nat (length players) = need_count config /\ 0 < need_count config
              /\ NoDup players /\ Forall player_ok players /\ queue_len w < Z.of_nat n)).
Proof.
  intros w [(Hc & Ht & Hr & Hf) Hn]. unfold TryPopN; sections.
  pose proof need_count_range as Hpos.
  destruct (TryPopN_repr _ _ (need_count config) Hpos Hr) as [H1 H2].
  destruct (MatchQueue_TryPopN _ _) as [ps q']. cbn in H1, H2 |- *.
  assert (Hq : queue_ q' = (spec_TryPopN (queue_ (w_queue w)) (need_count config)).2) by apply H2.
  unfold queue_wf, queue_len. cbn. rewrite Hq. unfold queue_len in Hn.
  unfold spec_TryPopN in *. destruct (decide _) as [Hlt|Hge]; cbn in *; subst ps.
  - split; [done|]. left. done.
  - split; [exact (conj Hc (conj Ht (conj H2 (Forall_drop _ _ _ Hf))))|].
    destruct (Z.eq_dec (need_count config) 0) as [->|]; [left; split; [done|lia]|right].
    rewrite length_take, length_drop. split_and!; [lia|lia| |by apply Forall_take|lia].
    destruct Hr as (_ & Hnd & _). by apply (sublist_NoDup _ (queue_ (w_queue w))); [|apply sublist_take].
Qed.

(** The rest of the lobby leaves the queue alone. *)

Lemma rooms_typed_insert heap a r :
  rooms_typed heap -> (forall k, is_Some (r_players r !! k) -> player_ok k) -> rooms_typed (<[a := r]> heap).
Proof. intros Hh Hr b r' k [[<- <-]|[_ Hb]]%lookup_insert_Some; [apply Hr|by eapply Hh]. Qed.

Lemma upto_on_room T L room f :
  (forall r, same_shape r (f r)) -> inv T (queue_upto L) (on_room room f).
Proof.
  intros Hf. apply inv_writes. intros w [(Hc & Ht & Hq) HL]. split; [|done]. refine (conj Hc (conj _ Hq)). cbn.
  intros a r k [(<- & r0 & Hr0 & ->)|[_ Ha]]%lookup_alter_Some Hk; [|by eapply Ht].
  apply (Ht room r0); [done|]. by apply Hf.
Qed.

(** [room_at] reads a typed room. *)
Lemma upto_room_at T L room {A} (k : Room -> M A) Q :
  (forall r, (forall p, is_Some (r_players r !! p) -> player_ok p) -> triple T (queue_upto L) (k r) Q) ->
  triple T (queue_upto L) (room_at room ≫= k) Q.
Proof.
  intros Hk. apply triple_reads_bind. intros r w [Hw Hr]. apply (Hk r); [|done].
  intros p Hp. subst r. unfold room_in in Hp. destruct (w_room_heap w !! room) as [r|] eqn:Hroom; cbn in Hp.
  - destruct Hw as [(_ & Ht & _) _]. by apply (Ht room r).
  - rewrite lookup_empty in Hp. by destruct Hp.
Qed.

Lemma upto_SetReadyAndTryStart T L room p b : inv T (queue_upto L) (SetReadyAndTryStart room p b).
Proof.
  apply inv_bind; [|intros; keeps_tac]. intros w [(Hc & Ht & Hq) HL]. sections.
  pose proof (SetReadyAndTryStart_shape (room_in w room) p b) as [_ Hsh].
  destruct (Room_SetReadyAndTryStart _ p b) as [res r']. cbn in Hsh.
  split; [|done]. refine (conj Hc (conj _ Hq)). cbn.
  intros a r0 k [(<- & r1 & Hr1 & ->)|[_ Ha]]%lookup_alter_Some Hk; [|by eapply Ht].
  apply (Ht room r1); [done|]. unfold room_in in Hsh. rewrite Hr1 in Hsh. by apply Hsh.
Qed.

Lemma add_players_members r ps k :
  is_Some (r_players (add_players r ps) !! k) -> is_Some (r_players r !! k) \/ k ∈ ps.
Proof.
  revert r. induction ps as [|p ps IH]; intros r; [by left|]. cbn [add_players fold_left].
  intros [Hk|Hk]%IH; [|right; set_solver]. unfold Room_AddPlayer in Hk.
  destruct (negb _); cbn in Hk; [by left|]. rewrite lookup_insert in Hk.
  case_decide; [right; set_solver|by left].
Qed.

Lemma upto_CreateRoom T L ps : Forall player_ok ps -> inv T (queue_upto L) (CreateRoom ps).
Proof.
  intros Hps. keeps_tac.
  apply inv_writes. intros w [(Hc & Ht & Hq) HL]. split; [|done]. refine (conj Hc (conj _ Hq)). cbn.
  apply rooms_typed_insert; [done|]. intros k [Hk|Hk]%add_players_members; [by destruct Hk|].
  by eapply Forall_forall.
Qed.

Lemma TryCreateRoom_turns_queue T fuel :
  triple T (fun w => queue_wf w /\ queue_len w < Z.of_nat fuel)
    (M_while fuel (TryCreateRoom_turn (need_count config))) (fun _ => queue_inv).
Proof.
  induction fuel as [|fuel IH]; cbn [M_while].
  { apply triple_ret. unfold queue_len. intros w [_ Hn]. lia. }
  apply triple_bind with (R := fun again w => queue_wf w /\ if again : bool then queue_len w < Z.of_nat fuel else queue_inv w).
  2: { intros []; [exact IH|apply triple_ret; by intros w []]. }
  unfold TryCreateRoom_turn. eapply triple_bind.
  { eapply triple_pre; [apply (TryPopN_wf _ fuel)|]. intros w [Hwf Hn]. split; [exact Hwf|lia]. }
  intros players. cbn beta. apply triple_reads_bind. intros ctx.
  case_bool_decide as He.
  { apply triple_ret. intros w [[Hwf [[_ Hs] | (Hlen & Hpos & _)]] _]; [by split|]. subst players. cbn in Hlen. lia. }
  destruct (_ || _) eqn:Hb.
  { apply triple_ret. intros w [[Hwf [[-> _] | (Hlen & _)]] Hctx]; [done|].
    assert (ctx = full_ctx) as -> by (rewrite <- Hctx; apply Hwf). cbn in Hb. rewrite orb_false_r in Hb. bools. lia. }
  apply triple_pre with (P := fun w => Forall player_ok players /\ queue_upto (fun n => n < Z.of_nat fuel) w).
  2: { intros w [[Hwf [[-> _] | (_ & _ & _ & Hps & Hn)]] _]; [done|]. by split. }
  apply triple_pull. intros Hps.
  eapply triple_bind; [by apply upto_CreateRoom|]. intros room. apply upto_room_at. intros r _.
  apply triple_bind with (R := fun _ => queue_upto (fun n => n < Z.of_nat fuel)); [keeps_tac|]. intros ?.
  apply triple_ret. by intros w [].
Qed.

Lemma TryCreateRoom_queue T : triple T queue_wf TryCreateRoom (fun _ => queue_inv).
Proof.
  unfold TryCreateRoom. apply triple_reads_bind. intros cfg w [Hwf Hcfg]. sections.
  assert (cfg = config) as -> by (rewrite <- Hcfg; apply Hwf).
  apply TryCreateRoom_turns_queue. split; [done|]. unfold queue_len. lia.
Qed.

Lemma queue_Push_wf T p : is_i64 p -> inv T queue_wf (queue_Push p).
Proof.
  intros Hp w (Hc & Ht & Hr & Hf). unfold queue_Push; sections.
  destruct (Push_repr _ _ p Hr) as [_ H2]. destruct (MatchQueue_Push _ _) as [b q']. cbn in *.
  assert (Hq : queue_ q' = (spec_Push (queue_ (w_queue w)) p).2) by apply H2.
  unfold queue_wf. cbn. rewrite Hq. refine (conj Hc (conj Ht (conj H2 _))).
  unfold spec_Push. case_decide as Hd; [done|]. cbn. apply Forall_app. split; [done|].
  constructor; [|done]. split; [tauto|done].
Qed.

(** A refused player leaves the queue as it was. *)
Lemma queue_Push_refused p (w : World) :
  let run := (queue_Push p : M bool) w in run.1 = Ok false -> w_queue run.2 = w_queue w.
Proof. cbn. unfold MatchQueue_Push. by destruct (_ || _). Qed.

Lemma queue_Remove_inv T p : inv T queue_inv (queue_Remove p).
Proof.
  intros w [(Hc & Ht & Hr & Hf) Hs]. unfold queue_Remove; sections.
  destruct (Remove_repr _ _ p Hr) as [_ H2]. destruct (MatchQueue_Remove _ _) as [b q']. cbn in *.
  assert (Hq : queue_ q' = filter (fun x => x <> p) (queue_ (w_queue w))) by apply H2.
  unfold queue_inv, queue_upto, queue_wf, queue_len in *. cbn. rewrite Hq. split; [refine (conj Hc (conj Ht (conj H2 _)))|].
  - rewrite Forall_forall in Hf |- *. intros x [_ Hin]%list_elem_of_filter. by apply Hf.
  - intros Hpos. specialize (Hs Hpos).
    pose proof (length_filter (fun x => x <> p) (queue_ (w_queue w))). lia.
Qed.
#[local] Hint Resolve queue_Remove_inv : keeps.

Lemma queue_SetSettlement T room : inv T queue_inv (on_room room Room_SetSettlement).
Proof. apply upto_on_room, SetSettlement_shape. Qed.
Lemma queue_Close T room : inv T queue_inv (on_room room Room_Close).
Proof. apply upto_on_room, Close_shape. Qed.
Lemma queue_Disconnect T room p : inv T queue_inv (on_room room (fun r => Room_OnPlayerDisconnect r p)).
Proof. apply upto_on_room. intros r. apply OnPlayerDisconnect_shape. Qed.
Lemma queue_Reconnect T room p : inv T queue_inv (on_room room (fun r => Room_OnPlayerReconnect r p)).
Proof. apply upto_on_room. intros r. apply OnPlayerReconnect_shape. Qed.
Lemma queue_TryStart T room p b : inv T queue_inv (SetReadyAndTryStart room p b).
Proof. apply upto_SetReadyAndTryStart. Qed.
#[local] Hint Resolve queue_SetSettlement queue_Close queue_Disconnect queue_Reconnect queue_TryStart : keeps.

Lemma StartMatching_queue T p s message : is_i64 p -> inv T queue_inv (StartMatching p (Some s) message).
Proof.
  intros Hp. unfold StartMatching. case_match; [keeps_tac|].
  apply triple_bind with (R := fun b w => queue_wf w /\ (b = false -> queue_inv w)).
  { intros w [Hwf Hs]. pose proof (queue_Push_wf T p Hp w Hwf) as H1.
    pose proof (queue_Push_refused p w) as H2. unfold queue_Push in *; cbn [critical M_sections] in *.
    destruct (MatchQueue_Push _ _) as [b q']. cbn in *. split; [done|]. intros ->. split; [done|].
    unfold queue_len. cbn. rewrite H2 by done. exact Hs. }
  intros pushed. apply triple_reads_bind. intros ctx. destruct pushed; cbn [negb].
  - apply triple_pre with (P := queue_wf); [|by intros w [[? _] _]].
    apply triple_bind with (R := fun _ => queue_wf); [keeps_tac|]. intros ?.
    apply triple_bind with (R := fun _ => queue_wf); [keeps_tac|]. intros ?.
    apply triple_bind with (R := fun _ => queue_wf); [keeps_tac|]. intros ?.
    apply triple_bind with (R := fun _ => queue_inv); [apply TryCreateRoom_queue|]. intros ?.
    by apply triple_ret.
  - apply triple_pre with (P := queue_inv); [keeps_tac|]. intros w [[_ Hw] _]. by apply Hw.
Qed.

Lemma RequeuePlayer_queue T p : is_i64 p -> inv T queue_inv (RequeuePlayer p).
Proof.
  intros Hp. unfold RequeuePlayer. apply inv_bind; [keeps_tac|]. intros ctx. case_match; [keeps_tac|].
  apply inv_bind; [keeps_tac|]. intros [s|]; [by apply StartMatching_queue|keeps_tac].
Qed.

Lemma HandleLeaveWaiting_queue T s room : inv T queue_inv (HandleLeaveWaiting s room).
Proof.
  unfold HandleLeaveWaiting. apply upto_room_at. intros r Hr. as_inv.
  apply inv_bind; [keeps_tac|]. intros leaver. apply inv_bind; [keeps_tac|]. intros ?.
  apply inv_bind; [keeps_tac|]. intros ?. apply inv_bind; [keeps_tac|]. intros ?.
  apply inv_bind; [keeps_tac|]. intros ctx. case_match; [keeps_tac|]. apply triple_for_each.
  intros p [_ Hp]%list_elem_of_filter. apply inv_bind; [|intros; keeps_tac].
  apply RequeuePlayer_queue. by apply Hr, elem_of_PlayerIds.
Qed.
#[local] Hint Resolve HandleLeaveWaiting_queue : keeps.

Definition sound (w : World) : Prop := login_inv w /\ queue_inv w.

Lemma HandleMatch_queue s p : triple queue_inv sound (HandleMatch (Some s) p) (fun _ => queue_inv).
Proof.
  unfold HandleMatch. destruct (parse_match p) as [requested|] eqn:Hparse; [|by apply triple_ret; intros w []].
  apply triple_reads_bind. intros own.
  apply triple_pre with (P := fun w => is_i64 own /\ queue_inv w);
    [|intros w [[Hl Hq] <-]; split; [by apply session_player_typed|done]].
  apply triple_pull. intros Hown. as_inv. case_match; [keeps_tac|].
  apply inv_bind; [|intros; keeps_tac]. apply StartMatching_queue.
  case_match; [done|]. by eapply parse_match_typed.
Qed.

#[export] Instance sound_keeps : Handlers_keep sound (fun _ => sound).
Proof.
  split; [done|done|..]; intros.
  4: { apply keeps_stack; [handler_of login_inv_keeps|apply HandleMatch_queue]. }
  all: try (apply keeps_and; [handler_of login_inv_keeps|keeps_tac]).
  all: done.
Qed.
End queue_inv.

Section theorems.
Context {Srv Rds : Type} {MA : MysqlApi Srv} {RA : RedisApi Rds} {PB : Protobuf}.

Lemma reachable_sound config (srv : Srv) (rds : Rds) w : reachable config srv rds w -> sound config w.
Proof.
  apply (reachable_keeps (sound config) (fun _ => sound config)). intros w0 Hw0.
  destruct (started_world _ _ _ _ Hw0) as (my & rd & -> & _). split; [by apply login_ok_new|].
  split; [|intros H; exact H]. refine (conj (conj eq_refl eq_refl) (conj _ (conj repr_new (Forall_nil_2 _)))).
  cbn. intros a r k Ha. by apply lookup_empty_Some in Ha.
Qed.

(** In every reachable world the queue holds no id twice and no null id, and
    its deque and its set agree; and as soon as enough players for a room are
    waiting they are taken out: the queue is always shorter than a room. *)
Theorem nobody_waits_for_nothing config (srv : Srv) (rds : Rds) w
    (Hw : reachable config srv rds w) :
  repr (w_queue w) (queue_ (w_queue w))
  /\ (0 < need_count config -> Z.of_nat (length (queue_ (w_queue w))) < need_count config).
Proof. destruct (reachable_sound _ _ _ _ Hw) as [_ [(_ & _ & Hr & _) Hs]]. done. Qed.
End theorems.
