(* ===== verification/LobbyInv.v ===== *)
(** * LobbyInv: rooms, members and battles in the running server

    [lobby_ok] relates the tables of [RoomManager], the rooms, [GameLoop]'s table
    and the pending settlements.  It holds in every reachable world of a server
    configured for at least two players a room, as long as fewer than 2^63 room
    ids were drawn.  Inside a handler one room may be between two states: [x]
    names it. *)
From S2P Require Import Prelude Wire Net StdString Messages GameRoom MatchQueue Config Registry Room Mysql Repositories SqlModel Redis Settlement Store Ledger Timer World Reason Lobby Login GameServer Steps LoginInv QueueInv.
Local Open Scope Z_scope.

Record lobby_ok (count : Z) (x : option Z) (next : Z) (heap : gmap Z Room) (rooms : gmap Z RoomPtr)
    (prm : gmap Z Z) (games : gmap Z GameRoom) (next_game : Z) (loop : gmap Z GameRoomPtr)
    (pending : gmap Z PendingSettlement) (store : Prop) (done : Z -> list Z -> Prop) : Prop := {
  lo_next : 1000 <= next;
  (** A room is at the address its id names, full, with valid members. *)
  lo_heap a r : heap !! a = Some r ->
    r_room_id r = a /\ 1000 <= a < next /\ Z.of_nat (length (Room_PlayerIds r)) = count
    /\ (forall k, k ∈ Room_PlayerIds r -> player_ok k);
  (** A listed room exists, is not closed and, when it has started, has a battle
      on the loop. *)
  lo_rooms i a : rooms !! i = Some a ->
    a = i /\ exists r, heap !! i = Some r
      /\ (Some i <> x -> r_state r <> RoomState.Closed
                         /\ (r_state r <> RoomState.Waiting -> is_Some (loop !! i)));
  (** A player's room is listed and lists the player. *)
  lo_map p i : prm !! p = Some i ->
    rooms !! i = Some i /\ exists r, heap !! i = Some r /\ p ∈ Room_PlayerIds r;
  (** A battle is one of the members of its room, which has started. *)
  lo_games g gr : games !! g = Some gr ->
    g < next_game /\ exists r, heap !! gr_room_id gr = Some r /\ r_state r <> RoomState.Waiting
      /\ battle_ok (Room_PlayerIds r) gr;
  (** The loop runs the battles of listed rooms. *)
  lo_loop i g : loop !! i = Some g -> Some i <> x ->
    rooms !! i = Some i /\ exists gr, games !! g = Some gr /\ gr_room_id gr = i;
  (** A settlement is pending for listed rooms that have ended only. *)
  lo_pending i p : pending !! i = Some p ->
    is_i64 (ps_battle_id p) /\ rooms !! i = Some i
    /\ exists r, heap !! i = Some r /\ r_state r = RoomState.Settlement;
  (** A room that has started is listed until its battle is on record. *)
  lo_done i r : heap !! i = Some r -> r_state r <> RoomState.Waiting -> Some i <> x ->
    rooms !! i = Some i \/ done i (Room_PlayerIds r);
  (** The database is as its contract says. *)
  lo_store : store
}.
Arguments lo_next {count x next heap rooms prm games next_game loop pending store done} _.
Arguments lo_heap {count x next heap rooms prm games next_game loop pending store done} _ _ _ _.
Arguments lo_rooms {count x next heap rooms prm games next_game loop pending store done} _ _ _ _.
Arguments lo_map {count x next heap rooms prm games next_game loop pending store done} _ _ _ _.
Arguments lo_games {count x next heap rooms prm games next_game loop pending store done} _ _ _ _.
Arguments lo_loop {count x next heap rooms prm games next_game loop pending store done} _ _ _ _ _.
Arguments lo_pending {count x next heap rooms prm games next_game loop pending store done} _ _ _ _.
Arguments lo_done {count x next heap rooms prm games next_game loop pending store done} _ _ _ _ _ _.
Arguments lo_store {count x next heap rooms prm games next_game loop pending store done} _.

Lemma PlayerIds_shape r r' :
  same_shape r r' ->
  (forall k, k ∈ Room_PlayerIds r' <-> k ∈ Room_PlayerIds r)
  /\ length (Room_PlayerIds r') = length (Room_PlayerIds r).
Proof.
  intros [_ Hsh]. assert (H : forall k, k ∈ Room_PlayerIds r' <-> k ∈ Room_PlayerIds r).
  { intros k. by rewrite !elem_of_PlayerIds. }
  split; [done|]. apply Permutation_length, NoDup_Permutation; [apply NoDup_PlayerIds..|done].
Qed.

(** What a change of one room may do without leaving a state unexplained. *)
Definition same_phase (r r' : Room) : Prop :=
  (r_state r' = RoomState.Waiting <-> r_state r = RoomState.Waiting)
  /\ (r_state r' = RoomState.Closed <-> r_state r = RoomState.Closed)
  /\ (r_state r = RoomState.Settlement -> r_state r' = RoomState.Settlement).

Lemma same_phase_state r r' : r_state r' = r_state r -> same_phase r r'.
Proof. unfold same_phase. intros ->. by split_and!. Qed.

(** Being on record does not depend on the order of the members. *)
Definition members_only (done : Z -> list Z -> Prop) : Prop :=
  forall i ids ids', (forall k, k ∈ ids' <-> k ∈ ids) -> done i ids -> done i ids'.

(** ** The updates *)
Section updates.
Context (count : Z) (x : option Z) (next : Z) (heap : gmap Z Room) (rooms : gmap Z RoomPtr)
  (prm : gmap Z Z) (games : gmap Z GameRoom) (next_game : Z) (loop : gmap Z GameRoomPtr)
  (pending : gmap Z PendingSettlement) (store : Prop) (done : Z -> list Z -> Prop).
Context (Hok : lobby_ok count x next heap rooms prm games next_game loop pending store done).
#[local] Set Default Proof Using "Type*".

Lemma lobby_fresh : heap !! next = None.
Proof.
  destruct (heap !! next) as [r|] eqn:Hr; [|done].
  destruct (lo_heap Hok _ _ Hr) as (_ & ? & _). lia.
Qed.

(** A new waiting room, not listed yet. *)
Lemma lobby_new_room r :
  r_room_id r = next -> r_state r = RoomState.Waiting -> Z.of_nat (length (Room_PlayerIds r)) = count ->
  (forall k, k ∈ Room_PlayerIds r -> player_ok k) ->
  lobby_ok count x (next + 1) (<[next := r]> heap) rooms prm games next_game loop pending store done.
Proof.
  intros Hid Hwait Hlen Hpl. pose proof lobby_fresh as Hfr.
  assert (Hmono : forall a r', heap !! a = Some r' -> <[next := r]> heap !! a = Some r').
  { intros a r' Ha. rewrite lookup_insert_ne; [done|]. congruence. }
  destruct Hok as [H1 H2 H3 H4 H5 H6 H7 H8 H9]. split.
  - lia.
  - intros a r' [[<- <-]|[_ Ha]]%lookup_insert_Some; [by split_and!; try lia|].
    destruct (H2 _ _ Ha) as (? & ? & ? & ?). split_and!; try done; lia.
  - intros i a Hi. destruct (H3 _ _ Hi) as (? & r' & ? & ?). eauto 6.
  - intros p i Hp. destruct (H4 _ _ Hp) as (? & r' & ? & ?). eauto 6.
  - intros g gr Hg. destruct (H5 _ _ Hg) as (? & r' & ? & ?). eauto 6.
  - done.
  - intros i p Hp. destruct (H7 _ _ Hp) as (? & ? & r' & ? & ?). eauto 6.
  - intros a r' [[<- <-]|[_ Ha]]%lookup_insert_Some; [done|by apply H8].
  - done.
Qed.

Lemma lobby_list_room i r :
  heap !! i = Some r -> r_state r = RoomState.Waiting ->
  lobby_ok count x next heap (<[i := i]> rooms) prm games next_game loop pending store done.
Proof.
  intros Hi Hs.
  assert (Hmono : forall j, rooms !! j = Some j -> <[i := i]> rooms !! j = Some j).
  { intros j Hj. rewrite lookup_insert. by case_decide; subst. }
  destruct Hok as [H1 H2 H3 H4 H5 H6 H7 H8 H9]. split; [done|done|..|done| | | |done].
  - intros j a [[<- <-]|[_ Hj]]%lookup_insert_Some; [|by apply H3].
    split; [done|]. exists r. split; [done|]. intros _. rewrite Hs. done.
  - intros p j Hp. destruct (H4 _ _ Hp) as (? & ?). auto.
  - intros j g Hj Hx. destruct (H6 _ _ Hj Hx) as (? & ?). auto.
  - intros j p Hp. destruct (H7 _ _ Hp) as (? & ? & ?). auto.
  - intros a r' Ha Hw Hx. destruct (H8 _ _ Ha Hw Hx); auto.
Qed.

Lemma lobby_map_insert p i r :
  rooms !! i = Some i -> heap !! i = Some r -> p ∈ Room_PlayerIds r ->
  lobby_ok count x next heap rooms (<[p := i]> prm) games next_game loop pending store done.
Proof.
  intros Hi Hr Hp. destruct Hok as [H1 H2 H3 H4 H5 H6 H7 H8 H9]. split; [done..| |done|done|done|done|done].
  intros q j [[<- <-]|[_ Hq]]%lookup_insert_Some; [by eauto|by apply H4].
Qed.

Lemma lobby_map_sub prm' :
  prm' ⊆ prm -> lobby_ok count x next heap rooms prm' games next_game loop pending store done.
Proof.
  intros Hsub. destruct Hok as [H1 H2 H3 H4 H5 H6 H7 H8 H9]. split; [done..| |done|done|done|done|done].
  intros p i Hp. apply H4. by eapply lookup_weaken.
Qed.

(** Off the list: the battle of the room, if any, is left to be removed. *)
Lemma lobby_unlist i :
  x = None \/ x = Some i -> (forall p, prm !! p <> Some i) -> pending !! i = None ->
  lobby_ok count (Some i) next heap (delete i rooms) prm games next_game loop pending store done.
Proof.
  intros Hx Hprm Hpend. destruct Hok as [H1 H2 H3 H4 H5 H6 H7 H8 H9]. split; [done|done|..|done| | | |done].
  - intros j a [Hne Hj]%lookup_delete_Some. destruct (H3 _ _ Hj) as (Ha & r & Hr & Hst).
    split; [done|]. exists r. split; [done|]. intros Hn. apply Hst. destruct Hx as [-> | ->]; congruence.
  - intros p j Hp. destruct (H4 _ _ Hp) as (Hj & Hr). split; [|done].
    rewrite lookup_delete_ne; [done|]. intros ->. by apply (Hprm p).
  - intros j g Hj Hn. destruct (H6 _ _ Hj) as (Hl & Hg); [destruct Hx as [-> | ->]; congruence|].
    split; [|done]. rewrite lookup_delete_ne; [done|]. congruence.
  - intros j p Hp. destruct (H7 _ _ Hp) as (? & Hj & Hr). split_and!; [done| |done].
    rewrite lookup_delete_ne; [done|]. congruence.
  - intros a r Ha Hw Hn. rewrite lookup_delete_ne by congruence. apply H8; [done|done|].
    destruct Hx as [-> | ->]; congruence.
Qed.

Lemma lobby_alter_room i f :
  members_only done ->
  (forall r, heap !! i = Some r -> same_shape r (f r) /\ same_phase r (f r)) ->
  lobby_ok count x next (alter f i heap) rooms prm games next_game loop pending store done.
Proof.
  intros Hdone Hf.
  assert (Hmono : forall a r, heap !! a = Some r -> exists r', alter f i heap !! a = Some r'
            /\ same_shape r r' /\ same_phase r r').
  { intros a r Ha. rewrite lookup_alter. case_decide as E; [subst a|exists r; exact (conj Ha (conj (same_shape_refl r) (same_phase_state r r eq_refl)))].
    rewrite Ha. cbn. eauto. }
  destruct Hok as [H1 H2 H3 H4 H5 H6 H7 H8 H9]. split; [done| |..|done| | |done].
  - intros a r' [(<- & r & Hr & ->)|[_ Ha]]%lookup_alter_Some; [|by apply H2].
    destruct (Hf _ Hr) as [Hsh _]. pose proof (PlayerIds_shape _ _ Hsh) as [Hin Hlen].
    destruct (H2 _ _ Hr) as (Hid & Ha & Hc & Hpl). rewrite Hlen. split_and!; [|lia..|].
    + rewrite <- Hid. apply Hsh.
    + intros k Hk. by apply Hpl, Hin.
  - intros j a Hj. destruct (H3 _ _ Hj) as (Ha & r & Hr & Hst). split; [done|].
    destruct (Hmono _ _ Hr) as (r' & Hr' & _ & Hp1 & Hp2 & _). exists r'. split; [done|].
    intros Hn. destruct (Hst Hn) as [Hc Hw]. split; [by rewrite Hp2|]. by rewrite Hp1.
  - intros p j Hp. destruct (H4 _ _ Hp) as (Hj & r & Hr & Hin). split; [done|].
    destruct (Hmono _ _ Hr) as (r' & Hr' & Hsh & _). exists r'. split; [done|]. by apply (PlayerIds_shape _ _ Hsh).
  - intros g gr Hg. destruct (H5 _ _ Hg) as (Hn & r & Hr & Hw & Hb). split; [done|].
    destruct (Hmono _ _ Hr) as (r' & Hr' & Hsh & Hp1 & _). exists r'. split_and!; [done|by rewrite Hp1|].
    eapply battle_ok_ext; [|done]. apply (PlayerIds_shape _ _ Hsh).
  - intros j p Hp. destruct (H7 _ _ Hp) as (? & Hj & r & Hr & Hs). split_and!; [done|done|].
    destruct (Hmono _ _ Hr) as (r' & Hr' & _ & _ & _ & Hp3). eauto.
  - intros a r' [(<- & r & Hr & ->)|[_ Ha]]%lookup_alter_Some Hw Hn; [|by apply H8].
    destruct (Hf _ Hr) as [Hsh [Hp1 _]]. destruct (H8 _ _ Hr) as [?|Hd]; [by rewrite <- Hp1|done|by left|right].
    eapply Hdone; [|exact Hd]. apply (PlayerIds_shape _ _ Hsh).
Qed.

(** A room between two states: its phase changes, never back to Waiting. *)
Lemma lobby_open i f :
  x = None \/ x = Some i -> pending !! i = None ->
  (forall r, heap !! i = Some r -> same_shape r (f r) /\ (r_state r <> RoomState.Waiting -> r_state (f r) <> RoomState.Waiting)) ->
  lobby_ok count (Some i) next (alter f i heap) rooms prm games next_game loop pending store done.
Proof.
  intros Hx Hpend Hf.
  assert (Hmono : forall a r, heap !! a = Some r -> exists r', alter f i heap !! a = Some r'
            /\ same_shape r r' /\ (r_state r <> RoomState.Waiting -> r_state r' <> RoomState.Waiting)
            /\ (a <> i -> r' = r)).
  { intros a r Ha. rewrite lookup_alter. case_decide as E; [subst a|exists r; exact (conj Ha (conj (same_shape_refl r) (conj (fun H => H) (fun _ => eq_refl))))].
    rewrite Ha. cbn. exists (f r). destruct (Hf r Ha) as [Hsh Hw]. refine (conj eq_refl (conj Hsh (conj Hw _))); congruence. }
  destruct Hok as [H1 H2 H3 H4 H5 H6 H7 H8 H9]. split; [done| |..].
  - intros a r' [(<- & r & Hr & ->)|[_ Ha]]%lookup_alter_Some; [|by apply H2].
    destruct (Hf _ Hr) as [Hsh _]. pose proof (PlayerIds_shape _ _ Hsh) as [Hin Hlen].
    destruct (H2 _ _ Hr) as (Hid & Ha & Hc & Hpl). rewrite Hlen. split_and!; [|lia..|].
    + rewrite <- Hid. apply Hsh.
    + intros k Hk. by apply Hpl, Hin.
  - intros j a Hj. destruct (H3 _ _ Hj) as (Ha & r & Hr & Hst). split; [done|].
    destruct (Hmono _ _ Hr) as (r' & Hr' & _ & _ & Heq). exists r'. split; [done|].
    intros Hn. rewrite Heq by congruence. apply Hst. destruct Hx as [-> | ->]; congruence.
  - intros p j Hp. destruct (H4 _ _ Hp) as (Hj & r & Hr & Hin). split; [done|].
    destruct (Hmono _ _ Hr) as (r' & Hr' & Hsh & _). exists r'. split; [done|]. by apply (PlayerIds_shape _ _ Hsh).
  - intros g gr Hg. destruct (H5 _ _ Hg) as (Hn & r & Hr & Hw & Hb). split; [done|].
    destruct (Hmono _ _ Hr) as (r' & Hr' & Hsh & Hp1 & _). exists r'. split_and!; [done|by apply Hp1|].
    eapply battle_ok_ext; [|done]. apply (PlayerIds_shape _ _ Hsh).
  - intros j g Hj Hn. apply H6; [done|]. destruct Hx as [-> | ->]; congruence.
  - intros j p Hp. destruct (H7 _ _ Hp) as (? & Hj & r & Hr & Hs). split_and!; [done|done|].
    destruct (Hmono _ _ Hr) as (r' & Hr' & _ & _ & Heq). exists r'. rewrite Heq by congruence.
    rewrite Heq in Hr' by congruence. done.
  - intros a r' [(<- & r & Hr & ->)|[_ Ha]]%lookup_alter_Some Hw Hn; [done|].
    apply H8; [done|done|]. destruct Hx as [-> | ->]; congruence.
  - done.
Qed.

(** Closing the gap: the battle of a started room is put on the loop. *)
Lemma lobby_loop_insert i g gr r :
  x = None \/ x = Some i -> rooms !! i = Some i -> heap !! i = Some r -> r_state r <> RoomState.Closed ->
  games !! g = Some gr -> gr_room_id gr = i ->
  lobby_ok count None next heap rooms prm games next_game (<[i := g]> loop) pending store done.
Proof.
  intros Hx Hi Hr Hs Hg Hgr. destruct Hok as [H1 H2 H3 H4 H5 H6 H7 H8 H9]. split; [done|done|..|done|done| |done| |done].
  - intros j a Hj. destruct (H3 _ _ Hj) as (Ha & r' & Hr' & Hst). split; [done|]. exists r'. split; [done|].
    intros _. destruct (decide (i = j)) as [->|Hne].
    + rewrite lookup_insert_eq. split; [congruence|eauto].
    + rewrite lookup_insert_ne by done. apply Hst. destruct Hx as [-> | ->]; congruence.
  - intros j g' [[<- <-]|[Hne Hj]]%lookup_insert_Some _; [eauto|].
    apply H6; [done|]. destruct Hx as [-> | ->]; congruence.
  - intros a r' Ha Hw _. destruct (decide (i = a)) as [->|]; [by left|]. apply H8; [done|done|].
    destruct Hx as [-> | ->]; congruence.
Qed.

(** The battle of a room that is not listed any more is taken off. *)
Lemma lobby_loop_delete i :
  x = None \/ x = Some i -> rooms !! i = None ->
  (forall r, heap !! i = Some r -> r_state r <> RoomState.Waiting -> done i (Room_PlayerIds r)) ->
  lobby_ok count None next heap rooms prm games next_game (delete i loop) pending store done.
Proof.
  intros Hx Hi Hrec. destruct Hok as [H1 H2 H3 H4 H5 H6 H7 H8 H9]. split; [done|done|..|done|done| |done| |done].
  - intros j a Hj. destruct (H3 _ _ Hj) as (Ha & r' & Hr' & Hst). split; [done|]. exists r'. split; [done|].
    intros _. rewrite lookup_delete_ne by congruence. apply Hst. destruct Hx as [-> | ->]; congruence.
  - intros j g' [Hne Hj]%lookup_delete_Some _. apply H6; [done|]. destruct Hx as [-> | ->]; congruence.
  - intros a r' Ha Hw _. destruct (decide (i = a)) as [->|]; [right; by apply Hrec|]. apply H8; [done|done|].
    destruct Hx as [-> | ->]; congruence.
Qed.

Lemma lobby_new_game g r :
  heap !! gr_room_id g = Some r -> r_state r <> RoomState.Waiting -> battle_ok (Room_PlayerIds r) g ->
  lobby_ok count x next heap rooms prm (<[next_game := g]> games) (1 + next_game) loop pending store done.
Proof.
  intros Hr Hs Hb. destruct Hok as [H1 H2 H3 H4 H5 H6 H7 H8 H9]. split; [done|done|done|done|..|done|done|done].
  - intros a gr [[<- <-]|[_ Ha]]%lookup_insert_Some; [split; [lia|eauto]|].
    destruct (H5 _ _ Ha). split; [lia|done].
  - intros i a Hi Hn. destruct (H6 _ _ Hi Hn) as (Hl & gr & Ha & Hgr). split; [done|]. exists gr. split; [|done].
    rewrite lookup_insert_ne; [done|]. destruct (H5 _ _ Ha). lia.
Qed.

Lemma lobby_alter_game a f :
  (forall ids g, battle_ok ids g -> battle_ok ids (f g)) -> (forall g, gr_room_id (f g) = gr_room_id g) ->
  lobby_ok count x next heap rooms prm (alter f a games) next_game loop pending store done.
Proof.
  intros Hf Hid. destruct Hok as [H1 H2 H3 H4 H5 H6 H7 H8 H9]. split; [done|done|done|done|..|done|done|done].
  - intros b gr [(<- & g & Hg & ->)|[_ Hb]]%lookup_alter_Some; [|by apply H5].
    destruct (H5 _ _ Hg) as (? & r & ? & ? & ?). rewrite Hid. eauto 6.
  - intros i b Hi Hn. destruct (H6 _ _ Hi Hn) as (Hl & gr & Hb & Hgr). split; [done|].
    rewrite lookup_alter. case_decide; [subst a|by eauto]. rewrite Hb. cbn. exists (f gr). by rewrite Hid.
Qed.

Lemma lobby_pending_insert i p r :
  is_i64 (ps_battle_id p) -> rooms !! i = Some i -> heap !! i = Some r -> r_state r = RoomState.Settlement ->
  lobby_ok count x next heap rooms prm games next_game loop (<[i := p]> pending) store done.
Proof.
  intros Hp Hi Hr Hs. destruct Hok as [H1 H2 H3 H4 H5 H6 H7 H8 H9]. split; [done..| |done|done].
  intros j q [[<- <-]|[_ Hj]]%lookup_insert_Some; [by eauto 6|by apply H7].
Qed.

Lemma lobby_pending_delete i :
  lobby_ok count x next heap rooms prm games next_game loop (delete i pending) store done.
Proof.
  destruct Hok as [H1 H2 H3 H4 H5 H6 H7 H8 H9]. split; [done..| |done|done].
  intros j q [_ Hj]%lookup_delete_Some. by apply H7.
Qed.

(** The database moves on; what is on record stays. *)
Lemma lobby_store (store' : Prop) (done' : Z -> list Z -> Prop) :
  store' -> (forall i ids, done i ids -> done' i ids) ->
  lobby_ok count x next heap rooms prm games next_game loop pending store' done'.
Proof.
  intros Hs Hd. destruct Hok as [H1 H2 H3 H4 H5 H6 H7 H8 H9]. split; [done..| |done].
  intros i r Hi Hw Hn. destruct (H8 _ _ Hi Hw Hn); auto.
Qed.
End updates.

Lemma lobby_ok_new count (store : Prop) done : store -> lobby_ok count None 1000 ∅ ∅ ∅ ∅ 0 ∅ ∅ store done.
Proof. intros. by split. Qed.

(** ** The handlers *)
Lemma add_players_spec r ps :
  r_state r = RoomState.Waiting ->
  r_room_id (add_players r ps) = r_room_id r /\ r_state (add_players r ps) = RoomState.Waiting
  /\ (forall k, is_Some (r_players (add_players r ps) !! k) <-> is_Some (r_players r !! k) \/ k ∈ ps).
Proof.
  revert r. induction ps as [|p ps IH]; intros r Hs.
  { cbn. split_and!; [done|done|]. intros k. rewrite elem_of_nil. tauto. }
  set (r' := set_room_players r (<[p := RoomPlayer_new p]> (r_players r))).
  assert (Heq : add_players r (p :: ps) = add_players r' ps).
  { unfold add_players. cbn [fold_left]. f_equal. unfold Room_AddPlayer. by rewrite bool_decide_eq_true_2. }
  rewrite Heq. destruct (IH r' Hs) as (H1 & H2 & H3). split_and!; [done|done|].
  intros k. rewrite H3. cbn. rewrite lookup_insert, elem_of_cons. case_decide as E; [subst|]; naive_solver.
Qed.

(** The room [CreateRoom] makes. *)
Lemma new_room_members id ps :
  NoDup ps ->
  let r := add_players (Room_new id) ps in
  r_room_id r = id /\ r_state r = RoomState.Waiting
  /\ (forall k, k ∈ Room_PlayerIds r <-> k ∈ ps) /\ length (Room_PlayerIds r) = length ps.
Proof.
  intros Hnd. destruct (add_players_spec (Room_new id) ps) as (H1 & H2 & H3); [done|].
  assert (Hin : forall k, k ∈ Room_PlayerIds (add_players (Room_new id) ps) <-> k ∈ ps).
  { intros k. rewrite elem_of_PlayerIds, H3. cbn. rewrite lookup_empty. split; [intros [[? ?]|]|]; naive_solver. }
  cbn zeta. refine (conj H1 (conj H2 (conj Hin _))).
  apply Permutation_length, NoDup_Permutation; [apply NoDup_PlayerIds|done|done].
Qed.

Lemma two_members (l : list Z) : NoDup l -> 2 <= Z.of_nat (length l) -> exists j k, j <> k /\ j ∈ l /\ k ∈ l.
Proof.
  intros Hnd Hlen. destruct l as [|j [|k l]]; cbn in Hlen; [lia..|].
  exists j, k. apply NoDup_cons in Hnd as [Hj _]. set_solver.
Qed.

(** The loop of [RemoveRoom] over the members. *)
Lemma delete_loop {Srv Rds} l (w : World Srv Rds) :
  (for_each l (fun p => writes (upd_player_room_map (delete p))) : M Srv Rds unit) w
  = (Ok tt, upd_player_room_map (fun m => fold_left (fun m p => delete p m) l m) w).
Proof.
  revert w. induction l as [|p l IH]; intros w; [by destruct w|].
  cbn [for_each]. unfold mbind, writes at 1. cbn -[for_each]. rewrite IH. by destruct w.
Qed.

Lemma lookup_delete_fold (l : list Z) (m : gmap Z Z) p i :
  fold_left (fun m p => delete p m) l m !! p = Some i -> m !! p = Some i /\ p ∉ l.
Proof.
  revert m. induction l as [|q l IH]; intros m; cbn; [split; [done|apply not_elem_of_nil]|].
  intros [[Hne Hp]%lookup_delete_Some Hl]%IH. split; [done|]. set_solver.
Qed.

Section handlers.
Context {Srv Rds : Type} {MA : MysqlApi Srv} {RA : RedisApi Rds} {PB : Protobuf} {SC : StoreContract Srv Rds}.
Notation World := (World Srv Rds).
Notation M := (M Srv Rds).
Context (config : ConfigManager) (Hcount : 2 <= need_count config).
#[local] Set Default Proof Using "Type*".
Implicit Types (P : World -> Prop) (T : World -> Prop).

Definition lobby (x : option Z) (w : World) : Prop :=
  lobby_ok (need_count config) x (next_room_id (w_ids w)) (w_room_heap w) (w_rooms w) (w_player_room_map w)
    (w_games w) (w_next_game w) (w_loop_rooms w) (w_pending w) (store_ok (w_mysql w)) (recorded (w_mysql w)).

(** [P], as long as the room ids have not run through the 64 bits. *)
Definition G (P : World -> Prop) (w : World) : Prop :=
  (w_config w = config /\ w_ctx w = full_ctx) /\ (next_room_id (w_ids w) <= 2 ^ 63 -> P w).

Definition lobby_inv : World -> Prop := G (lobby None).

Lemma G_mono P P' w : (forall w, P w -> P' w) -> G P w -> G P' w.
Proof. intros H [Hb Hw]. split; auto. Qed.

Lemma G_pre T P P' {A} (m : M A) Q : (forall w, P' w -> P w) -> triple T (G P) m Q -> triple T (G P') m Q.
Proof. intros H Ht. eapply triple_pre; [exact Ht|]. intros w. by apply G_mono. Qed.

Lemma G_reads T P {A B} (f : World -> A) (k : A -> M B) Q :
  (forall v, triple T (G (fun w => P w /\ f w = v)) (k v) Q) -> triple T (G P) (reads f ≫= k) Q.
Proof.
  intros H. apply triple_reads_bind. intros v. eapply triple_pre; [apply H|].
  intros w [[Hb Hw] Hv]. split; auto.
Qed.

Lemma G_ctx T P {B} (k : ServiceContext -> M B) Q :
  triple T (G P) (k full_ctx) Q -> triple T (G P) (reads w_ctx ≫= k) Q.
Proof.
  intros H. apply triple_reads_bind. intros v w [Hw <-]. pose proof Hw as [[_ Hx] _]. rewrite Hx. by apply H.
Qed.

Lemma G_seq T P P' {A} (m : M unit) (k : M A) Q :
  triple T (G P) m (fun _ => G P') -> triple T (G P') k Q -> triple T (G P) (m ;; k) Q.
Proof. intros H1 H2. eapply triple_bind; [exact H1|]. by intros ?. Qed.

(** Code that does not touch what [P] reads. *)
Lemma G_skip T P {A B} (m : M A) (k : A -> M B) Q :
  inv T (G P) m -> (forall a, triple T (G P) (k a) Q) -> triple T (G P) (m ≫= k) Q.
Proof. intros H1 H2. eapply triple_bind; [exact H1|]. exact H2. Qed.

Lemma G_writes T P P' (f : World -> World) :
  (forall w, w_config (f w) = w_config w /\ w_ctx (f w) = w_ctx w /\ next_room_id (w_ids (f w)) = next_room_id (w_ids w)) ->
  (forall w, P w -> P' (f w)) -> triple T (G P) (writes f) (fun _ => G P').
Proof.
  intros Hf HP. apply triple_writes. intros w [Hb Hw]. destruct (Hf w) as (H1 & H2 & H3).
  split; [by rewrite H1, H2|]. rewrite H3. auto.
Qed.

Lemma recorded_only (c : MysqlClient Srv) : members_only (recorded c).
Proof. intros i ids ids'. apply recorded_members. Qed.

(** *** CreateRoom and RemoveRoom *)
Lemma CreateRoom_lobby T ps :
  NoDup ps -> Forall player_ok ps -> Z.of_nat (length ps) = need_count config ->
  inv T lobby_inv (CreateRoom ps).
Proof.
  intros Hnd Hps Hlen. unfold CreateRoom.
  apply triple_bind with (R := fun id => G (fun w => next_room_id (w_ids w) = id + 1
    /\ lobby_ok (need_count config) None id (w_room_heap w) (w_rooms w) (w_player_room_map w)
         (w_games w) (w_next_game w) (w_loop_rooms w) (w_pending w) (store_ok (w_mysql w)) (recorded (w_mysql w)))).
  { intros w [Hb Hw]. cbn. split; [done|]. cbn. intros Hg. specialize (Hw ltac:(lia)).
    pose proof (lo_next Hw) as Hpos.
    rewrite wrap_i64_id by (unfold is_i64, int64_min, int64_max; lia). done. }
  intros id. destruct (new_room_members id ps Hnd) as (Hid & Hst & Hin & Hl).
  set (room := add_players (Room_new id) ps) in *.
  apply G_seq with (P' := fun w => lobby None w /\ w_room_heap w !! id = Some room).
  { apply G_writes; [done|]. intros w [Hn Hok]. unfold lobby. cbn. rewrite Hn. split; [|apply lookup_insert_eq].
    apply lobby_new_room; [done|done|done|lia|]. intros k Hk%Hin. by eapply Forall_forall. }
  apply G_seq with (P' := lobby None).
  2: { apply G_seq with (P' := lobby None); [|by apply triple_ret].
       apply inv_for_each. intros p. unfold CreateRoom_player. keeps_tac. }
  change (triple T (G (fun w => lobby None w /\ w_room_heap w !! id = Some room))
            (CreateRoom_tables id id ps) (fun _ => lobby_inv)).
  unfold CreateRoom_tables.
  set (P' := fun w : World => lobby None w /\ w_room_heap w !! id = Some room /\ w_rooms w !! id = Some id).
  apply G_seq with (P' := P').
  { apply G_writes; [done|]. intros w [Hok Hr]. split_and!; [|done|apply lookup_insert_eq].
    by eapply lobby_list_room. }
  apply triple_post with (Q := fun _ => G P'); [|intros ? w; apply G_mono; by intros ? []].
  apply triple_for_each. intros p Hp.
  apply G_writes; [done|]. intros w (Hok & Hr & Hro). split_and!; [|done|done].
  eapply lobby_map_insert; [done..|]. by apply Hin.
Qed.

(** A room can go when nothing is pending and its battle, if it had one, is on
    record. *)
Definition removable (i : Z) (w : World) : Prop :=
  w_pending w !! i = None
  /\ forall r, w_room_heap w !! i = Some r -> r_state r <> RoomState.Waiting ->
       recorded (w_mysql w) i (Room_PlayerIds r).

(** What is known in the middle of [RemoveRoom]. *)
Definition off_list (i : Z) (w : World) : Prop :=
  lobby (Some i) w /\ w_rooms w !! i = None /\ removable i w.

Lemma RemoveRoom_tables_lobby T x i :
  x = None \/ x = Some i ->
  triple T (G (fun w => lobby x w /\ removable i w)) (RemoveRoom_tables i) (fun _ => G (off_list i)).
Proof.
  intros Hx. unfold RemoveRoom_tables, GetRoom. apply G_reads. intros it.
  apply triple_bind with (R := fun _ => G (fun w => lobby x w /\ removable i w
      /\ forall p, w_player_room_map w !! p <> Some i)).
  - destruct it as [room|].
    + unfold room_at. apply G_reads. intros r.
      apply triple_bind with (R := fun _ => G (fun w => lobby x w /\ removable i w
        /\ forall p, w_player_room_map w !! p <> Some i)); [|intros ?; by apply triple_ret].
      intros w [Hb Hw]. rewrite delete_loop. split; [exact Hb|]. intros Hg. specialize (Hw Hg).
      destruct Hw as (((Hok & Hp) & Hi) & Hr). cbn in Hr. unfold room_in in Hr. split_and!; [|exact Hp|].
      * eapply lobby_map_sub; [exact Hok|]. apply map_subseteq_spec. cbn. intros p j Hj.
        by apply lookup_delete_fold in Hj as [? _].
      * cbn. intros p [Hj Hn]%lookup_delete_fold. apply Hn. clear Hn.
        destruct (lo_rooms Hok _ _ Hi) as (-> & _).
        destruct (lo_map Hok _ _ Hj) as (_ & r' & Hr' & Hin).
        rewrite Hr' in Hr. cbn in Hr. by subst r'.
    + apply triple_ret. intros w. apply G_mono. clear w. intros w ((Hok & Hp) & Hi). split_and!; [done|done|].
      intros p Hj. destruct (lo_map Hok _ _ Hj) as (Hl & _). congruence.
  - intros ps. apply G_seq with (P' := off_list i); [|by apply triple_ret].
    apply G_writes; [done|]. intros w (Hok & Hp & Hm). split; [|split; [apply lookup_delete_eq|exact Hp]].
    eapply lobby_unlist; [exact Hok|done|done|apply Hp].
Qed.

Lemma RemoveRoom_lobby T x i :
  x = None \/ x = Some i ->
  triple T (G (fun w => lobby x w /\ removable i w)) (RemoveRoom i) (fun _ => lobby_inv).
Proof.
  intros Hx. unfold RemoveRoom.
  eapply triple_bind; [by apply RemoveRoom_tables_lobby|]. intros ps. cbn beta.
  apply G_skip; [keeps_tac|]. intros ?. apply G_ctx. cbn [when_ game_loop full_ctx].
  apply G_writes; [done|]. intros w (Hok & Hi & _ & Hrec). eapply lobby_loop_delete; [exact Hok|by right|done|exact Hrec].
Qed.

(** *** Starting a game *)
Definition starting (i : Z) (w : World) : Prop :=
  lobby (Some i) w /\ w_rooms w !! i = Some i
  /\ exists r, w_room_heap w !! i = Some r /\ r_state r = RoomState.Playing.

(** A room found in a table of the room manager. *)
Definition listed (i : Z) (w : World) : Prop := lobby None w /\ w_rooms w !! i = Some i.

Lemma listed_room i w : listed i w -> exists r, w_room_heap w !! i = Some r /\ r_room_id r = i
  /\ r_state r <> RoomState.Closed.
Proof.
  intros [Hok Hi]. destruct (lo_rooms Hok _ _ Hi) as (_ & r & Hr & Hs).
  exists r. split_and!; [done| |by apply Hs]. by apply (lo_heap Hok).
Qed.

(** A room that is not over has nothing pending. *)
Lemma no_pending x w i r :
  lobby x w -> w_room_heap w !! i = Some r -> r_state r <> RoomState.Settlement -> w_pending w !! i = None.
Proof.
  intros Hok Hr Hs. destruct (w_pending w !! i) as [p|] eqn:Hp; [|done].
  destruct (lo_pending Hok _ _ Hp) as (_ & _ & r' & ? & ?). congruence.
Qed.

Lemma SetReadyAndTryStart_cases r p b :
  (Room_SetReadyAndTryStart r p b).1 = Some true
    /\ r_state r = RoomState.Waiting /\ r_state (Room_SetReadyAndTryStart r p b).2 = RoomState.Playing
  \/ (Room_SetReadyAndTryStart r p b).1 <> Some true
    /\ r_state (Room_SetReadyAndTryStart r p b).2 = r_state r.
Proof.
  unfold Room_SetReadyAndTryStart. destruct (r_players r !! p); [|by right].
  case_bool_decide as Hw; cbn [negb]; [|by right]. by destruct (all_ready_loop _); [left|right].
Qed.

Lemma SetReadyAndTryStart_lobby T i p b :
  triple T (G (listed i)) (SetReadyAndTryStart i p b)
    (fun started => if (started : bool) then G (starting i) else lobby_inv).
Proof.
  unfold SetReadyAndTryStart.
  apply triple_bind with (R := fun res => if bool_decide (res = Some true) then G (starting i) else lobby_inv).
  2: { intros [[]|]; [| |by apply triple_ret]; cbn [bool_decide].
       - rewrite bool_decide_eq_true_2 by done. apply G_skip; [keeps_tac|]. intros ?. by apply triple_ret.
       - rewrite bool_decide_eq_false_2 by done.
         apply triple_bind with (R := fun _ => lobby_inv); [keeps_tac|]. intros ?. by apply triple_ret. }
  intros w [Hb Hw]. sections.
  pose proof (SetReadyAndTryStart_shape (room_in w i) p b) as Hsh.
  pose proof (SetReadyAndTryStart_cases (room_in w i) p b) as Hc.
  destruct (Room_SetReadyAndTryStart (room_in w i) p b) as [res r']. cbn [fst snd] in Hsh, Hc.
  case_bool_decide as Hres; (split; [exact Hb|]); intros Hg; destruct (Hw Hg) as [Hok Hi];
    destruct (listed_room _ _ (conj Hok Hi)) as (r & Hr & _ & _); unfold room_in in *; rewrite Hr in Hsh, Hc; cbn in Hsh, Hc.
  - destruct Hc as [(_ & Hwt & Hs)|[? _]]; [|done]. split_and!; [|exact Hi|].
    + eapply lobby_open; [exact Hok|by left|apply (no_pending None w i r Hok Hr); congruence|].
      intros r0 Hr0. rewrite Hr in Hr0. injection Hr0 as <-. split; [done|congruence].
    + cbn. rewrite lookup_alter_eq, Hr. cbn. eauto.
  - destruct Hc as [[? _]|[_ Hs]]; [done|]. eapply lobby_alter_room; [exact Hok|apply recorded_only|].
    intros r0 Hr0. rewrite Hr in Hr0. injection Hr0 as <-. split; [done|by apply same_phase_state].
Qed.

Lemma StartGameRoom_lobby T i : triple T (G (starting i)) (StartGameRoom i) (fun _ => lobby_inv).
Proof.
  unfold StartGameRoom. apply G_ctx. cbn [negb game_loop full_ctx]. unfold room_at. apply G_reads. intros r.
  apply G_pre with (P := fun w => starting i w /\ w_room_heap w !! i = Some r).
  { intros w [Hl Hr]. split; [done|]. destruct Hl as (_ & _ & r0 & Hr0 & _). unfold room_in in Hr.
    rewrite Hr0 in Hr |- *. cbn in Hr. by subst. }
  set (g := GameRoom_Start (GameRoom_new (r_room_id r)) (Room_PlayerIds r)).
  apply triple_bind with (R := fun a => G (fun w => (starting i w /\ w_room_heap w !! i = Some r)
                                        /\ w_games w !! a = Some g /\ gr_room_id g = i)).
  { intros w [Hb Hw]. split; [exact Hb|]. intros Hg. specialize (Hw Hg).
    destruct Hw as [(Hok & Hi & r0 & Hr0 & Hs) Hr]. rewrite Hr in Hr0. injection Hr0 as <-.
    destruct (lo_heap Hok _ _ Hr) as (Hid & _ & Hlen & _).
    split_and!; [split; [|by eauto]|exact Hr|apply lookup_insert_eq|done].
    eapply lobby_new_game; [exact Hok|by rewrite <- Hid in Hr|congruence|].
    apply Start_ok, two_members; [apply NoDup_PlayerIds|lia]. }
  intros a. apply G_seq with (P' := lobby None); [|keeps_tac].
  unfold GameLoop_AddRoom. apply G_reads. intros j. apply G_writes; [done|].
  intros w ((((Hok & Hi & r0 & Hr0 & Hs) & Hr) & Hg & Hid) & Hj).
  assert (j = i) as -> by (rewrite <- Hj, Hg; exact Hid).
  rewrite Hr in Hr0. injection Hr0 as <-.
  eapply lobby_loop_insert; [exact Hok|by right|exact Hi|exact Hr|congruence|exact Hg|done].
Qed.

Definition found (room : option Z) (w : World) : Prop :=
  lobby None w /\ (forall i, room = Some i -> w_rooms w !! i = Some i).

Lemma GetPlayerRoom_lobby T p : triple T lobby_inv (GetPlayerRoom p) (fun room => G (found room)).
Proof.
  intros w [Hb Hw]. cbn. split; [done|]. intros Hg. specialize (Hw Hg). split; [done|]. intros i Hi.
  destruct (w_player_room_map w !! p) as [j|]; [|done].
  by destruct (lo_rooms Hw _ _ Hi) as (-> & _).
Qed.

Lemma HandleReady_lobby s p : keeps lobby_inv (HandleReady (Some s) p).
Proof.
  unfold HandleReady. case_match; [|keeps_tac]. apply inv_bind; [keeps_tac|]. intros pid.
  eapply triple_bind; [apply GetPlayerRoom_lobby|]. intros [i|].
  2: { apply triple_ret. intros w. apply G_mono. by intros ? []. }
  apply G_pre with (P := listed i); [intros w [Hok Hi]; split; auto|].
  eapply triple_bind; [apply SetReadyAndTryStart_lobby|]. intros []; cbn [when_]; [apply StartGameRoom_lobby|by apply triple_ret].
Qed.

(** *** Updates that keep the phase of a room, and the battles *)
Lemma lobby_on_room T i f :
  (forall r, same_shape r (f r) /\ same_phase r (f r)) -> inv T lobby_inv (on_room i f).
Proof. intros Hf. apply G_writes; [done|]. intros w Hok. by eapply lobby_alter_room; [|apply recorded_only|]. Qed.

Lemma lobby_Disconnect T i p : inv T lobby_inv (on_room i (fun r => Room_OnPlayerDisconnect r p)).
Proof.
  apply lobby_on_room. intros r. split; [apply OnPlayerDisconnect_shape|apply same_phase_state].
  unfold Room_OnPlayerDisconnect. by case_match.
Qed.
Lemma lobby_Reconnect T i p : inv T lobby_inv (on_room i (fun r => Room_OnPlayerReconnect r p)).
Proof.
  apply lobby_on_room. intros r. split; [apply OnPlayerReconnect_shape|apply same_phase_state].
  unfold Room_OnPlayerReconnect. by case_match.
Qed.

Lemma lobby_on_game T a f :
  (forall ids g, battle_ok ids g -> battle_ok ids (f g)) -> (forall g, gr_room_id (f g) = gr_room_id g) ->
  inv T lobby_inv (on_game a f).
Proof. intros Hf Hid. apply G_writes; [done|]. intros w Hok. by apply lobby_alter_game. Qed.

Lemma lobby_game_op T a op : inv T lobby_inv (on_game a (fun g => battle_step g op)).
Proof.
  apply lobby_on_game; [intros ids g; apply battle_step_ok|intros g; apply battle_step_room].
Qed.
Lemma lobby_HandleInput T a i : inv T lobby_inv (on_game a (fun g => GameRoom_HandleInput g i)).
Proof. apply (lobby_game_op T a (OpInput i)). Qed.
Lemma lobby_Eliminate T a p : inv T lobby_inv (on_game a (fun g => EliminatePlayer g p)).
Proof. apply (lobby_game_op T a (OpEliminate p)). Qed.
#[local] Hint Resolve lobby_Disconnect lobby_Reconnect lobby_HandleInput lobby_Eliminate : keeps.

(** *** Matching *)
Lemma TryCreateRoom_turns_lobby T fuel :
  triple T (fun w => (queue_wf config w /\ queue_len w < Z.of_nat fuel) /\ lobby_inv w)
    (M_while fuel (TryCreateRoom_turn (need_count config))) (fun _ => lobby_inv).
Proof.
  induction fuel as [|fuel IH]; cbn [M_while]; [by apply triple_ret; intros w [_ ?]|].
  apply triple_bind with (R := fun again w => (if again : bool
      then queue_wf config w /\ queue_len w < Z.of_nat fuel else True) /\ lobby_inv w).
  2: { intros []; [exact IH|by apply triple_ret; intros w [_ ?]]. }
  unfold TryCreateRoom_turn. eapply triple_bind.
  { eapply triple_pre; [eapply triple_and; [apply (TryPopN_wf config T fuel)|]|].
    - apply (inv_TryPopN T lobby_inv). intros w q Hw. exact Hw.
    - intros w [[Hwf Hn] Hl]. split; [split; [exact Hwf|lia]|exact Hl]. }
  intros players. cbn beta. apply triple_reads_bind. intros ctx.
  case_bool_decide as He; [by apply triple_ret; intros w [[_ ?] _]|].
  case_match eqn:Hb; [by apply triple_ret; intros w [[_ ?] _]|].
  apply triple_pre with (P := fun w => (Forall player_ok players /\ NoDup players
      /\ Z.of_nat (length players) = need_count config)
      /\ queue_upto config (fun n => n < Z.of_nat fuel) w /\ lobby_inv w).
  2: { intros w [[[Hwf [[-> _] | (Hl & _ & Hnd & Hps & Hn)]] Hlo] _]; [done|].
       exact (conj (conj Hps (conj Hnd Hl)) (conj (conj Hwf Hn) Hlo)). }
  apply triple_pull. intros (Hps & Hnd & Hl).
  eapply triple_bind; [apply triple_and; [by apply upto_CreateRoom|by apply CreateRoom_lobby]|]. intros room.
  cbn beta.
  apply triple_bind with (R := fun _ w => queue_upto config (fun n => n < Z.of_nat fuel) w /\ lobby_inv w); [keeps_tac|].
  intros r.
  apply triple_bind with (R := fun _ w => queue_upto config (fun n => n < Z.of_nat fuel) w /\ lobby_inv w); [keeps_tac|].
  intros ?. apply triple_ret. by intros w [[] ].
Qed.

Lemma TryCreateRoom_lobby T :
  triple T (fun w => queue_wf config w /\ lobby_inv w) TryCreateRoom (fun _ => lobby_inv).
Proof.
  unfold TryCreateRoom. apply triple_reads_bind. intros cfg w [[Hwf Hl] Hcfg]. sections.
  assert (cfg = config) as -> by (rewrite <- Hcfg; apply Hwf).
  apply TryCreateRoom_turns_lobby. split; [split; [done|]|done]. unfold queue_len. lia.
Qed.

Definition both (w : World) : Prop := queue_inv config w /\ lobby_inv w.

Lemma StartMatching_lobby T p s message :
  is_i64 p -> inv T both (StartMatching p (Some s) message).
Proof.
  intros Hp. apply inv_stack; [by apply StartMatching_queue|].
  unfold StartMatching. case_match; [eapply triple_pre with (P := lobby_inv); [keeps_tac|by intros w []]|].
  set (Q := fun w => queue_wf config w /\ lobby_inv w).
  apply triple_bind with (R := fun _ => Q).
  { intros w [[Hwf _] Hl]. pose proof (queue_Push_wf config T p Hp w Hwf) as H1. unfold queue_Push in *; cbn [critical M_sections] in *.
    destruct (MatchQueue_Push _ _) as [b q']. by split. }
  intros pushed. apply triple_bind with (R := fun _ => Q); [keeps_tac|]. intros ctx.
  destruct pushed; cbn [negb].
  - apply triple_bind with (R := fun _ => Q); [keeps_tac|]. intros ?.
    apply triple_bind with (R := fun _ => Q); [keeps_tac|]. intros ?.
    apply triple_bind with (R := fun _ => Q); [keeps_tac|]. intros ?.
    apply triple_bind with (R := fun _ => lobby_inv); [apply TryCreateRoom_lobby|]. intros ?. by apply triple_ret.
  - eapply triple_pre with (P := lobby_inv); [keeps_tac|by intros w []].
Qed.

Lemma RequeuePlayer_lobby T p : is_i64 p -> inv T both (RequeuePlayer p).
Proof.
  intros Hp. unfold RequeuePlayer. apply inv_bind; [keeps_tac|]. intros ctx. case_match; [keeps_tac|].
  apply inv_bind; [keeps_tac|]. intros [s|]; [by apply StartMatching_lobby|keeps_tac].
Qed.

Lemma HandleMatch_lobby s p :
  triple lobby_inv (fun w => sound config w /\ lobby_inv w) (HandleMatch (Some s) p) (fun _ => lobby_inv).
Proof.
  unfold HandleMatch. destruct (parse_match p) as [requested|] eqn:Hparse; [|by apply triple_ret; intros w []].
  apply triple_reads_bind. intros own.
  apply triple_pre with (P := fun w => is_i64 own /\ both w);
    [|intros w [[[Hl Hq] Hlo] <-]; split; [by apply session_player_typed|done]].
  apply triple_pull. intros Hown. case_match; [eapply triple_pre with (P := lobby_inv); [keeps_tac|by intros w []]|].
  apply triple_bind with (R := fun _ => both); [|intros ?; apply triple_ret; by intros w []].
  apply StartMatching_lobby. case_match; [done|]. by eapply parse_match_typed.
Qed.

(** *** Leaving *)
Definition waiting (i : Z) (r : Room) (w : World) : Prop :=
  listed i w /\ w_room_heap w !! i = Some r /\ r_state r = RoomState.Waiting.

Lemma HandleLeaveWaiting_lobby T s i :
  triple T (fun w => queue_inv config w /\ G (fun w => exists r, waiting i r w) w) (HandleLeaveWaiting s i)
    (fun _ => lobby_inv).
Proof.
  unfold HandleLeaveWaiting. apply triple_reads_bind. intros r.
  apply triple_pre with (P := fun w => (forall k, k ∈ Room_PlayerIds r -> player_ok k)
     /\ queue_inv config w /\ G (waiting i r) w).
  2: { intros w [[Hq Hw] Hr]. unfold room_in in Hr. split_and!; [|exact Hq|].
    - intros k [q Hk]%elem_of_PlayerIds. destruct (w_room_heap w !! i) as [r0|] eqn:Hr0; cbn in Hr; subst r.
      + destruct Hq as [(_ & Ht & _) _]. apply (Ht i r0 k Hr0). eauto.
      + cbn in Hk. by rewrite lookup_empty in Hk.
    - split; [apply Hw|]. intros Hg. destruct (proj2 Hw Hg) as (r' & Hl & Hr' & Hs).
      rewrite Hr' in Hr. cbn in Hr. by subst r'. }
  apply triple_pull. intros Hps.
  set (R := fun w => queue_inv config w /\ G (waiting i r) w).
  set (B := fun w => queue_inv config w /\ lobby_inv w).
  apply triple_bind with (R := fun _ => R); [unfold R; keeps_tac|]. intros leaver.
  apply triple_bind with (R := fun _ => R); [unfold R; keeps_tac|]. intros ?.
  apply triple_bind with (R := fun _ => R); [unfold R; keeps_tac|]. intros ?.
  apply triple_bind with (R := fun _ => B).
  { apply triple_and; [keeps_tac|].
    eapply triple_pre; [apply (RemoveRoom_lobby T None); by left|].
    intros w. apply G_mono. clear w. intros w ([Hok Hi] & Hr & Hs). split; [done|].
    destruct (lo_heap Hok _ _ Hr) as (-> & _).
    split; [eapply no_pending; [exact Hok|exact Hr|congruence]|]. intros r' Hr'. congruence. }
  intros ?. apply triple_bind with (R := fun _ => B); [unfold B; keeps_tac|]. intros ctx.
  case_match; [apply triple_ret; by intros w []|].
  apply triple_post with (Q := fun _ => B); [|by intros _ w []].
  apply triple_for_each. intros p [_ Hp]%list_elem_of_filter.
  apply inv_bind; [apply RequeuePlayer_lobby; by apply Hps|]. intros b. by apply triple_ret.
Qed.

Lemma HandleLeaveRoom_lobby s p :
  triple lobby_inv (fun w => sound config w /\ lobby_inv w) (HandleLeaveRoom (Some s) p) (fun _ => lobby_inv).
Proof.
  set (T := lobby_inv) at 1.
  apply triple_pre with (P := both); [|by intros w [[] ]].
  unfold HandleLeaveRoom. destruct (parse_leave p) as [requested|];
    [|eapply triple_pre with (P := lobby_inv); [keeps_tac|by intros w []]].
  apply triple_bind with (R := fun _ => both); [keeps_tac|]. intros pid.
  eapply triple_bind.
  { apply triple_and with (Q1 := fun _ => queue_inv config); [keeps_tac|apply GetPlayerRoom_lobby]. }
  intros [i|]; cbn beta.
  2: { eapply triple_pre with (P := lobby_inv); [keeps_tac|]. intros w [_ Hw]. revert Hw. apply G_mono. by intros ? []. }
  set (R := fun w => queue_inv config w /\ G (listed i) w).
  assert (Hpre : forall (m : M unit) (F : World -> Prop), inv T lobby_inv m ->
    triple T (fun w => R w /\ F w) m (fun _ => lobby_inv)).
  { intros m F Hm. eapply triple_pre; [exact Hm|]. intros w [[_ Hw] _]. revert Hw. apply G_mono. by intros ? []. }
  apply triple_pre with (P := R).
  2: { intros w [Hq Hw]. split; [exact Hq|]. revert Hw. apply G_mono. intros ? [Hok Hi]. by split; [|apply Hi]. }
  apply triple_reads_bind. intros r. case_match; [apply Hpre; keeps_tac|].
  apply triple_pre with (P := R); [|by intros w []]. apply triple_reads_bind. intros r1.
  case_bool_decide as Hs.
  - eapply triple_pre; [apply HandleLeaveWaiting_lobby|]. intros w [[Hq Hw] Hr]. split; [exact Hq|].
    split; [apply Hw|]. intros Hg. pose proof (proj2 Hw Hg) as Hl. exists r1. split; [exact Hl|].
    destruct (listed_room _ _ Hl) as (r0 & Hr0 & _). unfold room_in in Hr. rewrite Hr0 in Hr |- *.
    cbn in Hr. by subst.
  - apply triple_pre with (P := R); [|by intros w []]. apply triple_reads_bind. intros r2. apply Hpre.
    case_match; keeps_tac.
Qed.

(** *** The database *)
Definition extends (c c' : MysqlClient Srv) : Prop :=
  store_ok c' /\ forall room ids, recorded c room ids -> recorded c' room ids.

Lemma lobby_extends x w c : lobby x w -> extends (w_mysql w) c -> lobby x (upd_mysql (fun _ => c) w).
Proof. intros Hok [Hs Hd]. by eapply lobby_store. Qed.

(** A call of the database from a world with [P]. *)
Lemma mysql_call_triple P {A} (f : MysqlConfig -> MysqlClient Srv -> result A * MysqlClient Srv)
    (Q : A -> MysqlClient Srv -> Prop) :
  (forall w c, P w -> extends (w_mysql w) c -> P (upd_mysql (fun _ => c) w)) -> (forall w, P w -> lobby None w) ->
  (forall cfg w r c', next_room_id (w_ids w) <= 2 ^ 63 -> P w -> store_ok (w_mysql w) -> f cfg (w_mysql w) = (r, c') ->
     extends (w_mysql w) c' /\ forall a, r = Ok a -> Q a c') ->
  triple lobby_inv (G P) (mysql_call f) (fun a => G (fun w => P w /\ Q a (w_mysql w))).
Proof.
  intros HP Hl Hf. unfold mysql_call. sections. apply triple_reads_bind. intros cfg w [[Hb Hw] _].
  unfold with_mysql. sections. destruct (f cfg (w_mysql w)) as [r c'] eqn:Hr.
  assert (H : next_room_id (w_ids w) <= 2 ^ 63 ->
    lobby None (upd_mysql (fun _ => c') w) /\ forall a, r = Ok a -> P (upd_mysql (fun _ => c') w) /\ Q a c').
  { intros Hg. specialize (Hw Hg). pose proof (Hl w Hw) as Hlo.
    destruct (Hf cfg w r c' Hg Hw (lo_store Hlo) Hr) as [He HQ].
    split; [by apply lobby_extends|]. intros a Ha. split; [by apply HP|by apply HQ]. }
  destruct r as [a|e]; (split; [exact Hb|]); intros Hg; destruct (H Hg) as [H1 H2]; [by apply H2|exact H1].
Qed.

Lemma mysql_call_lobby {A} (f : MysqlConfig -> MysqlClient Srv -> result A * MysqlClient Srv) :
  (forall cfg c, store_ok c -> extends c (f cfg c).2) -> keeps lobby_inv (mysql_call f).
Proof.
  intros Hf. eapply triple_post; [apply (mysql_call_triple (lobby None) f (fun _ _ => True))|].
  - apply lobby_extends.
  - done.
  - intros cfg w r c' _ _ Hs Hr. specialize (Hf cfg _ Hs). by rewrite Hr in Hf.
  - intros a w. apply G_mono. by intros ? [].
Qed.

Lemma repository_CreatePlayer_lobby p :
  is_i64 p -> keeps lobby_inv (repository_CreatePlayer true (named_player p)).
Proof.
  intros Hp. unfold repository_CreatePlayer. cbn [when_].
  eapply triple_bind; [apply (mysql_call_triple (lobby None) _ (fun name _ => quoted p name))|].
  - apply lobby_extends.
  - done.
  - intros cfg w r c' _ _ Hs. pose proof (store_EscapeString cfg (w_mysql w) p Hs) as H.
    cbn [named_player pd_name]. destruct (EscapeString _ _ _) as [name c]. intros [= <- <-].
    split; [apply H|]. intros a [= <-]. apply H.
  - intros name. cbn beta.
    eapply triple_post; [apply (mysql_call_triple (fun w => lobby None w /\ quoted p name) _ (fun _ _ => True))|].
    + intros w c [Hl Hq] He. split; [by apply lobby_extends|done].
    + by intros w [].
    + intros cfg w r c' _ [_ Hq] Hs. pose proof (store_insert_player cfg (w_mysql w) p name Hs Hp Hq) as H.
      cbn -[Execute] in H |- *. destruct (Execute _ _ _). by intros [= <- <-].
    + intros a w. apply G_mono. by intros ? [[] _].
Qed.

Lemma repository_LoadPlayer_lobby p : is_i64 p -> keeps lobby_inv (repository_LoadPlayer true p).
Proof.
  intros Hp. unfold repository_LoadPlayer. apply inv_bind.
  - apply mysql_call_lobby. intros cfg c Hc. apply (store_FindPlayer cfg c p Hc).
  - intros [d|]; [keeps_tac|]. apply inv_bind; [by apply repository_CreatePlayer_lobby|]. intros ?. keeps_tac.
Qed.

Lemma GetOrCreatePlayerId_lobby account : keeps lobby_inv (GetOrCreatePlayerId account).
Proof.
  unfold GetOrCreatePlayerId. apply inv_bind; [keeps_tac|]. intros key. apply inv_bind; [keeps_tac|].
  intros [p|]; [keeps_tac|].
  apply triple_bind with (R := fun p w => is_i64 p /\ lobby_inv w).
  { intros w Hw. split; [apply wrap_i64_range|exact Hw]. }
  intros p. apply triple_pull. intros Hp. as_inv. apply inv_bind; [keeps_tac|]. intros ?.
  apply G_ctx. cbn [when_ player_repository mysql_client full_ctx].
  apply inv_bind; [|intros; keeps_tac]. by apply repository_CreatePlayer_lobby.
Qed.

Lemma HandleLogin_lobby s p :
  triple lobby_inv (fun w => sound config w /\ lobby_inv w) (HandleLogin (Some s) p) (fun _ => lobby_inv).
Proof.
  unfold HandleLogin. destruct (parse_login p) as [[account token]|];
    [|eapply triple_pre with (P := lobby_inv); [keeps_tac|by intros w []]].
  eapply triple_bind.
  { eapply triple_weaken; [apply triple_and2;
      [apply GetOrCreatePlayerId_issued|apply GetOrCreatePlayerId_lobby]| |intros a w Hw; exact Hw|by intros w []].
    by intros w [[? _] ?]. }
  intros pid. cbn beta.
  apply triple_pre with (P := fun w => is_i64 pid /\ lobby_inv w).
  2: { intros w [[Hl [k Hk]] Hw]. split; [by eapply lg_typed|done]. }
  apply triple_pull. intros Hpid. as_inv.
  do 2 (apply inv_bind; [keeps_tac|]; intros ?). apply G_ctx.
  cbn [when_ player_repository mysql_client full_ctx].
  do 4 (apply inv_bind; [keeps_tac|]; intros ?).
  apply inv_bind; [by apply repository_LoadPlayer_lobby|]. intros; keeps_tac.
Qed.

(** *** The tick callback *)

(** A room whose battle is over, among the players [L]. *)
Definition ended (i : Z) (L : list Z) (w : World) : Prop :=
  listed i w /\ exists r, w_room_heap w !! i = Some r /\ r_state r = RoomState.Settlement
    /\ forall k, k ∈ Room_PlayerIds r <-> k ∈ L.

(** What the battle says of its room, if the room is still listed. *)
Definition battle_of (i : Z) (state : GameState) (over : bool) (winner : Z) (w : World) : Prop :=
  lobby None w
  /\ (w_rooms w !! i = Some i -> exists r, w_room_heap w !! i = Some r /\ r_state r <> RoomState.Waiting
       /\ (over = true -> forall k, k ∈ Room_PlayerIds r <-> k ∈ winner :: losers_of state winner)).

Lemma SetSettlement_lobby T i state winner :
  triple T (G (fun w => battle_of i state true winner w /\ w_rooms w !! i = Some i)) (on_room i Room_SetSettlement)
    (fun _ => G (ended i (winner :: losers_of state winner))).
Proof.
  apply G_writes; [done|]. intros w ([Hok Hs] & Hi). destruct (Hs Hi) as (r & Hr & Hw & HL).
  destruct (lo_rooms Hok _ _ Hi) as (_ & r' & Hr' & Hc).
  rewrite Hr in Hr'. injection Hr' as <-. destruct (Hc ltac:(done)) as [Hnc _].
  split; [split; [|exact Hi]|].
  - eapply lobby_alter_room; [exact Hok|apply recorded_only|]. intros r0 Hr0. rewrite Hr in Hr0. injection Hr0 as <-.
    split; [apply SetSettlement_shape|]. unfold same_phase, Room_SetSettlement.
    case_bool_decide as Hp; cbn; [rewrite Hp|]; done.
  - exists (Room_SetSettlement r). cbn. rewrite lookup_alter_eq, Hr. split_and!; [done|..].
    + unfold Room_SetSettlement. case_bool_decide; [done|]. by destruct (r_state r).
    + intros k. rewrite <- HL by done. apply (PlayerIds_shape _ _ (SetSettlement_shape r)).
Qed.

Lemma set_pending_lobby T i L p : is_i64 (ps_battle_id p) -> inv T (G (ended i L)) (set_pending i p).
Proof.
  intros Hp. apply G_writes; [done|]. intros w ([Hok Hi] & r & Hr & Hs & HL). split; [split; [|done]|by eauto].
  by eapply lobby_pending_insert.
Qed.

Lemma pending_of_lobby T i L :
  triple T (G (ended i L)) (pending_of i) (fun p => G (fun w => ended i L w /\ is_i64 (ps_battle_id p))).
Proof.
  unfold pending_of. apply G_reads. intros p.
  apply G_pre with (P := fun w => ended i L w /\ is_i64 (ps_battle_id p)).
  { intros w [Hw Hp]. split; [done|]. destruct (w_pending w !! i) as [q|] eqn:Hq; cbn in Hp; subst p; [|done].
    by apply (lo_pending (proj1 (proj1 Hw)) i). }
  apply G_seq with (P' := fun w => ended i L w /\ is_i64 (ps_battle_id p)); [|by apply triple_ret].
  apply G_writes; [done|]. intros w [([Hok Hi] & r & Hr & Hs & HL) Hp]. split; [|done].
  split; [split; [|done]|by eauto]. by eapply lobby_pending_insert.
Qed.

Lemma CreateBattle_typed cfg (c : MysqlClient Srv) room : is_i64 (CreateBattle cfg true c room).1.
Proof.
  unfold CreateBattle. case_match; [done|]. unfold ExecuteInsert.
  destruct (ExecuteAffected _ _ _) as [n c']. case_match; [done|apply wrap_i64_range].
Qed.

(** The ids the database is given are [int64_t]. *)
Lemma ended_typed i L w :
  next_room_id (w_ids w) <= 2 ^ 63 -> ended i L w -> is_i64 i /\ forall k, k ∈ L -> is_i64 k.
Proof.
  intros Hg ([Hok Hi] & r & Hr & _ & HL). destruct (lo_heap Hok _ _ Hr) as (_ & Hrange & _ & Hp). split.
  - unfold is_i64, int64_min, int64_max. lia.
  - intros k Hk%HL. by apply Hp.
Qed.

Lemma ended_extends i L w c :
  ended i L w -> extends (w_mysql w) c -> ended i L (upd_mysql (fun _ => c) w).
Proof. intros ([Hok Hi] & Hr) He. split; [split; [by apply lobby_extends|exact Hi]|exact Hr]. Qed.

Lemma battle_id_of_lobby i L p :
  is_i64 (ps_battle_id p) ->
  triple lobby_inv (G (ended i L)) (battle_id_of i p) (fun _ => G (ended i L)).
Proof.
  intros Hp. unfold battle_id_of. case_match; [|keeps_tac].
  eapply triple_bind; [apply (mysql_call_triple (ended i L) _ (fun b _ => is_i64 b))|].
  - apply ended_extends.
  - by intros w [[] _].
  - intros cfg w r c' Hg He Hs. pose proof (ended_typed _ _ _ Hg He) as [Hi64 _].
    pose proof (store_CreateBattle cfg (w_mysql w) i Hs Hi64) as Hst. pose proof (CreateBattle_typed cfg (w_mysql w) i) as Hty.
    destruct (CreateBattle _ _ _ _) as [b c]. intros [= <- <-]. split; [exact Hst|]. by intros a [= <-].
  - intros b. cbn beta. destruct (decide (int64_min <= b <= int64_max)) as [Hb|Hb].
    + apply G_pre with (P := ended i L); [by intros w []|]. as_inv.
      apply inv_bind; [by apply set_pending_lobby|]. intros ?. keeps_tac.
    + eapply triple_weaken with (P := G (fun _ => False)) (T := G (fun _ => False)) (Q := fun _ => G (fun _ => False));
        [keeps_tac|intros w; apply G_mono; by intros w' [_ ?]|intros ? w; by apply G_mono|intros w; by apply G_mono].
Qed.

Lemma sync_ranks_lobby (P : World -> Prop) ss ps :
  ss_mysql ss = true -> (forall w, P w -> lobby None w) ->
  (forall w c, P w -> extends (w_mysql w) c -> P (upd_mysql (fun _ => c) w)) ->
  (forall w c, P w -> P (upd_redis (fun _ => c) w)) ->
  triple lobby_inv (G P) (sync_ranks_sections ss ps) (fun _ => G P).
Proof.
  intros Hss Hl He Hr. induction ps as [|p ps IH]; cbn [sync_ranks_sections]; [by apply triple_ret|].
  eapply triple_bind; [apply (mysql_call_triple P _ (fun _ _ => True)); [done|done|]|].
  { intros cfg w r c' _ _ Hs Hf. rewrite Hss in Hf. pose proof (store_FindPlayer cfg (w_mysql w) p Hs) as H.
    by rewrite Hf in H. }
  intros found. cbn beta. apply G_pre with (P := P); [by intros w []|].
  destruct found as [data|]; [|by apply triple_ret].
  apply G_skip; [keeps_tac|]. intros cf. apply triple_bind with (R := fun _ => G P).
  - apply inv_with_redis. intros w c [Hb Hw]. split; [exact Hb|]. intros Hg. apply Hr, Hw, Hg.
  - intros []; [exact IH|by apply triple_ret].
Qed.

(** The settlement: [true] means the battle is on record. *)
Lemma settle_battle_lobby i b winner losers :
  triple lobby_inv (G (ended i (winner :: losers))) (settle_battle b i winner losers)
    (fun settled => G (fun w => ended i (winner :: losers) w
       /\ (settled = true -> recorded (w_mysql w) i (winner :: losers)))).
Proof.
  unfold settle_battle. apply G_ctx. unfold settlement_pointers.
  cbn [battle_repository player_repository rank_service mysql_client redis_client full_ctx ss_mysql ss_rank_service].
  destruct (settlement_request _ _ _ _ _) as [ps|] eqn:Hrq;
    [|apply triple_ret; intros w; apply G_mono; by intros ? ?].
  destruct (settlement_request_spec _ _ _ _ _ _ Hrq) as (_ & _ & _ & _ & _ & Hps).
  assert (HL : forall k, k ∈ winner :: losers <-> k ∈ ps) by (intros k; by rewrite Hps, elem_of_cons).
  eapply triple_bind; [apply (mysql_call_triple (ended i (winner :: losers)) _
    (fun applied c => applied = true -> recorded c i (winner :: losers)))|].
  - apply ended_extends.
  - by intros w [[] _].
  - intros cfg w r c' Hg He Hs Hap. pose proof (ended_typed _ _ _ Hg He) as [Hi64 HL64].
    destruct (store_ApplySettlement _ _ _ _ _ _ _ _ Hs Hi64 (HL64 _ (list_elem_of_here _ _))
      (fun p Hp => HL64 p (proj2 (HL p) Hp)) (proj1 (HL _) (list_elem_of_here _ _)) Hap) as (Hso & Hrec & Htrue).
    split; [by split|]. intros applied -> ->. by apply Htrue.
  - intros []; cbn beta iota; cbn [negb]; [|by apply triple_ret; intros w; apply G_mono; intros ? [? _]].
    set (P := fun w : World => ended i (winner :: losers) w /\ recorded (w_mysql w) i (winner :: losers)).
    apply G_pre with (P := P); [intros w [He Hr]; split; [exact He|by apply Hr]|].
    eapply triple_post; [apply (sync_ranks_lobby P); [done| | |]|].
    + by intros w [[[] _] _].
    + intros w c [He Hr] Hx. split; [by apply ended_extends|by apply Hx].
    + done.
    + intros b' w. apply G_mono. intros w' [He Hr]. by split.
Qed.

Lemma finish_room_lobby T i winner losers :
  triple T (G (fun w => ended i (winner :: losers) w /\ recorded (w_mysql w) i (winner :: losers)))
    (finish_room i i winner losers) (fun _ => lobby_inv).
Proof.
  unfold finish_room.
  apply G_seq with (P' := fun w => listed i w /\ w_pending w !! i = None
    /\ exists r, w_room_heap w !! i = Some r /\ recorded (w_mysql w) i (Room_PlayerIds r)).
  { apply G_writes; [done|]. intros w [([Hok Hi] & r & Hr & _ & HL) Hrec].
    split; [split; [|done]|split; [apply lookup_delete_eq|]].
    - by apply lobby_pending_delete.
    - exists r. split; [done|]. by eapply recorded_only. }
  apply G_skip; [keeps_tac|]. intros ?.
  apply G_seq with (P' := fun w => lobby (Some i) w /\ removable i w).
  { apply G_writes; [done|]. intros w ([Hok Hi] & Hp & r0 & Hr0 & Hrec). split; [|split; [done|]].
    - eapply lobby_open; [exact Hok|by left|done|]. intros r _. split; [apply Close_shape|done].
    - cbn. intros r'. rewrite lookup_alter_eq, Hr0. intros [= <-] _. exact Hrec. }
  apply RemoveRoom_lobby. by right.
Qed.

(** Under a false guard everything that leaves the room ids alone is fine. *)
Lemma G_false (P : World -> Prop) {A} (m : M A) :
  (forall w, P w -> False) -> keeps (G (fun _ => False)) m -> triple lobby_inv (G P) m (fun _ => lobby_inv).
Proof.
  intros HP Hm. eapply triple_weaken; [exact Hm|..].
  - intros w. by apply G_mono.
  - intros ? w. by apply G_mono.
  - intros w. by apply G_mono.
Qed.

Lemma tick_callback_lobby i state over winner :
  triple lobby_inv (G (battle_of i state over winner)) (tick_callback i state over winner) (fun _ => lobby_inv).
Proof.
  unfold tick_callback, GetRoom. apply G_reads. intros [room|];
    [|apply triple_ret; intros w; apply G_mono; by intros ? [[] _]].
  destruct (decide (room = i)) as [->|Hne].
  2: { apply G_false; [|keeps_tac]. intros w [[Hok _] Hi]. by destruct (lo_rooms Hok _ _ Hi) as [-> _]. }
  apply G_skip; [keeps_tac|]. intros ?.
  destruct over; cbn [negb]; [|apply triple_ret; intros w; apply G_mono; by intros ? [[] _]].
  eapply triple_bind; [apply SetSettlement_lobby|]. intros ?. cbn beta.
  set (L := winner :: losers_of state winner).
  eapply triple_bind; [apply pending_of_lobby|]. intros p. cbn beta.
  apply G_reads. intros now. case_match; [apply triple_ret; intros w; apply G_mono; by intros ? [[[[] _] _] _]|].
  destruct (decide (int64_min <= ps_battle_id p <= int64_max)) as [Hp|Hp].
  2: { apply G_false; [by intros w [[_ ?] _]|keeps_tac]. }
  apply G_pre with (P := ended i L); [by intros ? [[] _]|].
  eapply triple_bind; [by apply (set_pending_lobby _ i L)|]. intros ?. cbn beta.
  eapply triple_bind; [by apply (battle_id_of_lobby i L)|]. intros b. cbn beta.
  apply triple_bind with (R := fun settled => G (fun w => ended i L w /\ (settled = true -> recorded (w_mysql w) i L))).
  { case_match; [|apply settle_battle_lobby]. apply triple_ret. intros w. apply G_mono. by split. }
  intros []; cbn [negb]; [|apply triple_ret; intros w; apply G_mono; by intros ? [[[] _] _]].
  eapply G_pre; [|apply finish_room_lobby]. intros w [He Hr]. split; [exact He|by apply Hr].
Qed.

(** The members of a battle that is over are the winner and the others. *)
Lemma over_members ids g k :
  battle_ok ids g -> gr_game_over g = true ->
  k ∈ ids <-> k ∈ gr_winner_id g :: losers_of (gr_state g) (gr_winner_id g).
Proof.
  intros [_ Hm _ Ho] Hg. destruct (Ho Hg) as [(e & He & _) _].
  unfold losers_of. rewrite elem_of_cons, list_elem_of_filter.
  change (map_to_list (gs_players (gr_state g))).*1 with (map_to_list (GameRoom.players g)).*1.
  rewrite elem_of_keys, <- Hm. split; [destruct (decide (k = gr_winner_id g)); tauto|].
  intros [->|[_ ?]]; [by eexists|done].
Qed.

Lemma Loop_room_lobby g : keeps lobby_inv (Loop_room g).
Proof.
  intros w Hw. rewrite Loop_room_alone. cbv zeta.
  assert (Hw1 : lobby_inv (upd_games (alter Tick g) w)) by exact (lobby_game_op (fun _ => False) g OpTick w Hw).
  revert Hw1.
  generalize (upd_games (alter Tick g) w). clear w Hw. intros w Hw.
  apply tick_callback_lobby. revert Hw. intros [Hb Hw]. split; [exact Hb|]. intros Hid.
  specialize (Hw Hid). split; [done|]. intros Hi. destruct (w_games w !! g) as [gr|] eqn:Hgr; cbn in Hi |- *.
  - destruct (lo_games Hw _ _ Hgr) as (_ & r & ? & ? & Hbt). exists r. split_and!; [done|done|].
    intros Ho k. by apply over_members.
  - destruct (lo_rooms Hw _ _ Hi) as (_ & r & Hr & _).
    destruct (lo_heap Hw _ _ Hr) as (_ & ? & _). cbn in *. lia.
Qed.

(** *** All of them *)
Definition server_inv (w : World) : Prop := sound config w /\ lobby_inv w.

#[export] Instance server_inv_keeps : Handlers_keep server_inv (fun _ => server_inv).
Proof.
  split; [done|done|..]; intros.
  all: lazymatch goal with
    | |- keeps _ (HandleLogin _ _) => apply keeps_stack; [handler_of (sound_keeps config)|apply HandleLogin_lobby]
    | |- keeps _ (HandleMatch _ _) => apply keeps_stack; [handler_of (sound_keeps config)|apply HandleMatch_lobby]
    | |- keeps _ (HandleLeaveRoom _ _) => apply keeps_stack; [handler_of (sound_keeps config)|apply HandleLeaveRoom_lobby]
    | |- keeps _ _ => apply keeps_and; [handler_of (sound_keeps config)|]
    | |- _ => done
    end.
  all: lazymatch goal with
    | |- keeps _ (HandleReady _ _) => apply HandleReady_lobby
    | |- keeps _ (Loop_room _) => apply Loop_room_lobby
    | |- keeps _ _ => keeps_tac
    | |- Z => exact 0
    end.
Qed.

Lemma started_server (srv : Srv) (rds : Rds) w :
  store_ok (w_mysql w) -> started config srv rds w -> server_inv w.
Proof using All.
  intros Hs Hw. split.
  - apply (reachable_sound config srv rds). by exists w, [].
  - destruct (started_world _ _ _ _ Hw) as (my & rd & -> & _). split; [done|]. intros _. by apply lobby_ok_new.
Qed.

Lemma reachable_server (srv : Srv) (rds : Rds) w :
  (forall w0, started config srv rds w0 -> store_ok (w_mysql w0)) -> reachable config srv rds w -> server_inv w.
Proof using All.
  intros Hs. apply (reachable_keeps server_inv (fun _ => server_inv)). intros w0 Hw0.
  eapply started_server; eauto.
Qed.
End handlers.
