(* ===== verification/Interleave.v ===== *)
(** * Interleave: what holds however the threads of the server interleave

    [conc] is an invariant of the shared objects at every moment of every schedule,
    also in the middle of a handler; [moves] is what all threads agree to do to
    them: rooms keep their members and only go forward through their states, a
    battle that is over is over for good, what is on record stays.  A handler owns
    a token between a section that creates an obligation or reserves a value and
    the one that discharges it:

    - [TNew i]: room id [i] was drawn, the room is not in the heap yet;
    - [TRoom i]: room [i] was just started, its battle is not made yet;
    - [TPid p]: player id [p] was drawn for an account, the table does not have it yet;
    - [TMatch n]: a player was put in the queue, which is to be looked at again.

    This is weaker than what [LobbyInv] shows for handlers that are not disturbed;
    [Races] shows by schedules that the difference is real. *)
From S2P Require Import Prelude Wire Net StdString Messages GameRoom MatchQueue Config Registry Room Mysql Repositories SqlModel Redis Settlement Store Ledger Timer World Reason Lobby Login GameServer Threads ThreadLogic Steps Counters LoginInv QueueInv LobbyInv.
Local Open Scope Z_scope.

Inductive Tok := TNew (i : Z) | TRoom (i : Z) | TPid (p : Z) | TMatch (n : Z).
#[export] Instance Tok_eq_dec : EqDecision Tok.
Proof. solve_decision. Defined.
#[export] Instance Tok_countable : Countable Tok.
Proof.
  refine (inj_countable' (fun t => match t with TNew i => (0%nat, i) | TRoom i => (1%nat, i) | TPid p => (2%nat, p) | TMatch n => (3%nat, n) end)
    (fun '(k, z) => match k with 0%nat => TNew z | 1%nat => TRoom z | 2%nat => TPid z | _ => TMatch z end) _).
  by intros [].
Defined.

(** ** What the threads do to a room and to a battle *)
Definition phase (s : RoomState.t) : Z :=
  match s with RoomState.Waiting => 0 | RoomState.Playing => 1 | RoomState.Settlement => 2 | RoomState.Closed => 3 end.

Lemma phase_inj s s' : phase s = phase s' -> s = s'.
Proof. by destruct s, s'. Qed.

Definition room_le (r r' : Room) : Prop := same_shape r r' /\ phase (r_state r) <= phase (r_state r').

Definition game_le (g g' : GameRoom) : Prop :=
  gr_room_id g' = gr_room_id g
  /\ (forall k, is_Some (GameRoom.players g' !! k) <-> is_Some (GameRoom.players g !! k))
  /\ (gr_game_over g = true -> gr_game_over g' = true /\ gr_winner_id g' = gr_winner_id g).

#[export] Instance room_le_order : PreOrder room_le.
Proof.
  split; [intros r; split; [done|lia]|]. intros r1 r2 r3 [[H1 H2] H3] [[H4 H5] H6].
  split; [split; [congruence|]|lia]. intros k. by rewrite H5, H2.
Qed.
#[export] Instance game_le_order : PreOrder game_le.
Proof.
  split; [by intros g|]. intros g1 g2 g3 (H1 & H2 & H3) (H4 & H5 & H6). split_and!.
  - congruence.
  - intros k. by rewrite H5, H2.
  - intros [H H']%H3. destruct (H6 H) as [-> ->]. done.
Qed.

Lemma room_le_ids r r' k : room_le r r' -> k ∈ Room_PlayerIds r' <-> k ∈ Room_PlayerIds r.
Proof. intros [[_ H] _]. by rewrite !elem_of_PlayerIds. Qed.

Lemma room_le_started r r' : room_le r r' -> r_state r <> RoomState.Waiting -> r_state r' <> RoomState.Waiting.
Proof. intros [_ Hp] Hs Hs'. rewrite Hs' in Hp. destruct (r_state r); cbn in *; try lia. done. Qed.

(** The sections of a battle. *)
Inductive game_section := GsInput (i : InputCommand) | GsEliminate (p : Z) | GsTake | GsTick (inputs : list InputCommand).
Definition game_section_run (s : game_section) (g : GameRoom) : GameRoom :=
  match s with
  | GsInput i => GameRoom_HandleInput g i
  | GsEliminate p => EliminatePlayer g p
  | GsTake => (Tick_inputs g).2
  | GsTick inputs => Tick_locked inputs g
  end.

Lemma game_section_ok s ids g : battle_ok ids g -> battle_ok ids (game_section_run s g).
Proof.
  intros Hg. destruct s; cbn.
  - by apply (battle_step_ok ids g (OpInput i)).
  - by apply EliminatePlayer_ok.
  - by apply Tick_inputs_ok.
  - by apply Tick_locked_ok.
Qed.

Lemma game_section_le s ids g : battle_ok ids g -> game_le g (game_section_run s g).
Proof.
  intros Hg. split_and!.
  - destruct s; cbn [game_section_run]; [done|apply (battle_step_room g (OpEliminate p))|done|].
    unfold Tick_locked. destruct (gr_game_over g); [done|]. by rewrite CheckGameOver_room.
  - intros k. rewrite (bo_members _ _ (game_section_ok s ids g Hg)). by rewrite (bo_members _ _ Hg).
  - intros Ho. destruct s; cbn; [done|..|done|].
    + by destruct (battle_step_over g (OpEliminate p) Ho) as (_ & ? & ?).
    + unfold Tick_locked. by rewrite Ho.
Qed.

(** Its battle is on. *)
Definition in_battle (r : Room) : Prop := r_state r <> RoomState.Waiting /\ r_state r <> RoomState.Closed.

(** ** The invariant, part by part; [Y] is what the running handlers own *)
Record rooms_ok (count : Z) (Y : gset Tok) (next : Z) (heap : gmap Z Room) (rooms : gmap Z RoomPtr)
    (prm : gmap Z Z) (done : Z -> list Z -> Prop) : Prop := {
  ro_next : 1000 <= next;
  ro_heap a r : heap !! a = Some r ->
    r_room_id r = a /\ 1000 <= a < next /\ Z.of_nat (length (Room_PlayerIds r)) = count
    /\ (forall k, k ∈ Room_PlayerIds r -> player_ok k);
  ro_rooms i a : rooms !! i = Some a -> a = i /\ is_Some (heap !! i);
  ro_map p i : prm !! p = Some i -> rooms !! i = Some i /\ exists r, heap !! i = Some r /\ p ∈ Room_PlayerIds r;
  ro_new i : TNew i ∈ Y -> i < next /\ heap !! i = None;
  (** A room is closed when its battle is on record, no sooner. *)
  ro_closed i r : heap !! i = Some r -> r_state r = RoomState.Closed -> done i (Room_PlayerIds r)
}.

Record battles_ok (Y : gset Tok) (heap : gmap Z Room) (games : gmap Z GameRoom) (next_game : Z)
    (loop : gmap Z GameRoomPtr) : Prop := {
  bt_games g gr : games !! g = Some gr ->
    g < next_game /\ (TRoom (gr_room_id gr) ∉ Y)
    /\ exists r, heap !! gr_room_id gr = Some r /\ r_state r <> RoomState.Waiting /\ battle_ok (Room_PlayerIds r) gr;
  (** A room has one battle. *)
  bt_one g g' gr gr' : games !! g = Some gr -> games !! g' = Some gr' -> gr_room_id gr = gr_room_id gr' -> g = g';
  bt_loop i g : loop !! i = Some g -> exists gr, games !! g = Some gr /\ gr_room_id gr = i;
  bt_right i : TRoom i ∈ Y -> exists r, heap !! i = Some r /\ r_state r <> RoomState.Waiting;
  (** A started room has its battle, or somebody is about to make it. *)
  bt_made i r : heap !! i = Some r -> in_battle r ->
    TRoom i ∈ Y \/ exists g gr, games !! g = Some gr /\ gr_room_id gr = i
}.

Record queue_ok (count : Z) (Y : gset Tok) (q : MatchQueue) : Prop := {
  qo_repr : repr q (queue_ q);
  qo_typed : Forall player_ok (queue_ q);
  (** Enough players for a room are waiting only while somebody is on the way to
      take them out. *)
  qo_duty : count <= Z.of_nat (length (queue_ q)) -> exists n, TMatch n ∈ Y
}.

Record accounts_ok (Y : gset Tok) (next : Z) (accounts : gmap string Z) (tokens : gmap Z string)
    (sessions : SessionHeap) : Prop := {
  ac_next : 100000 <= next;
  ac_issued k p : accounts !! k = Some p -> 100000 <= p < next;
  ac_unique k k' p : accounts !! k = Some p -> accounts !! k' = Some p -> k = k';
  ac_new p : TPid p ∈ Y -> 100000 <= p < next /\ forall k, accounts !! k <> Some p;
  ac_tokens p t : tokens !! p = Some t -> 100000 <= p < next;
  ac_sessions a s : sessions !! a = Some s -> player_id_ s = 0 \/ is_Some (tokens !! player_id_ s)
}.

(** Tokens of another kind do not matter to a part. *)
Lemma rooms_tokens count Y Y' next heap rooms prm done :
  (forall i, TNew i ∈ Y' -> TNew i ∈ Y) ->
  rooms_ok count Y next heap rooms prm done -> rooms_ok count Y' next heap rooms prm done.
Proof. intros H []. split; eauto. Qed.
Lemma battles_tokens Y Y' heap games next_game loop :
  (forall i, TRoom i ∈ Y' <-> TRoom i ∈ Y) ->
  battles_ok Y heap games next_game loop -> battles_ok Y' heap games next_game loop.
Proof.
  intros H [H1 H2 H3 H4 H5]. split; [|done|done|..].
  - intros g gr Hg. destruct (H1 _ _ Hg) as (? & Hn & ?). split_and!; [done|by rewrite H|done].
  - intros i Hi%H. by apply H4.
  - intros i r Hi Hr. rewrite H. by eapply H5.
Qed.
Lemma queue_tokens count Y Y' q :
  (forall n, TMatch n ∈ Y -> TMatch n ∈ Y') -> queue_ok count Y q -> queue_ok count Y' q.
Proof. intros H [H1 H2 H3]. split; [done|done|]. intros [n Hn]%H3. exists n. by apply H. Qed.
Lemma accounts_tokens Y Y' next accounts tokens sessions :
  (forall p, TPid p ∈ Y' -> TPid p ∈ Y) ->
  accounts_ok Y next accounts tokens sessions -> accounts_ok Y' next accounts tokens sessions.
Proof. intros H []. split; eauto. Qed.

(** *** Rooms *)
Lemma rooms_alter count Y next heap rooms prm done i f :
  members_only done ->
  (forall r, heap !! i = Some r -> room_le r (f r)
     /\ (r_state (f r) = RoomState.Closed -> r_state r = RoomState.Closed \/ done i (Room_PlayerIds r))) ->
  rooms_ok count Y next heap rooms prm done -> rooms_ok count Y next (alter f i heap) rooms prm done.
Proof.
  intros Hdone Hf [H1 H2 H3 H4 H5 H6].
  assert (Hmono : forall a r, heap !! a = Some r -> exists r', alter f i heap !! a = Some r' /\ room_le r r').
  { intros a r Ha. destruct (decide (i = a)) as [->|Hne]; [|exists r; by rewrite lookup_alter_ne].
    rewrite lookup_alter_eq, Ha. exists (f r). split; [done|]. by apply Hf. }
  split; [done|..].
  - intros a r' [(<- & r & Hr & ->)|[_ Ha]]%lookup_alter_Some; [|by apply H2].
    destruct (Hf _ Hr) as [Hle _]. pose proof (PlayerIds_shape _ _ (proj1 Hle)) as [Hin Hlen].
    destruct (H2 _ _ Hr) as (Hid & Ha & Hc & Hpl). rewrite Hlen. split_and!; [|lia..|].
    + rewrite <- Hid. apply Hle.
    + intros k Hk. by apply Hpl, Hin.
  - intros j a Hj. destruct (H3 _ _ Hj) as [-> [r Hr]]. destruct (Hmono _ _ Hr) as (r' & ? & _). eauto.
  - intros p j Hp. destruct (H4 _ _ Hp) as (Hj & r & Hr & Hin). split; [done|].
    destruct (Hmono _ _ Hr) as (r' & Hr' & Hle). exists r'. split; [done|]. by apply (room_le_ids _ _ _ Hle).
  - intros j Hj. destruct (H5 _ Hj) as [? Hn]. split; [done|]. by rewrite lookup_alter_None.
  - intros a r' [(<- & r & Hr & ->)|[_ Ha]]%lookup_alter_Some Hs; [|by apply H6].
    destruct (Hf _ Hr) as [Hle Hc]. apply (Hdone i (Room_PlayerIds r)); [intros k; by apply room_le_ids|].
    destruct (Hc Hs); [by apply H6|done].
Qed.

Lemma battles_alter Y heap games next_game loop i f :
  (forall r, heap !! i = Some r -> room_le r (f r) /\ (in_battle (f r) -> in_battle r)) ->
  battles_ok Y heap games next_game loop -> battles_ok Y (alter f i heap) games next_game loop.
Proof.
  intros Hf [H1 H2 H3 H4 H5].
  assert (Hmono : forall a r, heap !! a = Some r -> exists r', alter f i heap !! a = Some r' /\ room_le r r').
  { intros a r Ha. destruct (decide (i = a)) as [->|Hne]; [|exists r; by rewrite lookup_alter_ne].
    rewrite lookup_alter_eq, Ha. exists (f r). split; [done|]. by apply Hf. }
  split; [|done|done|..].
  - intros g gr Hg. destruct (H1 _ _ Hg) as (? & ? & r & Hr & Hs & Hb). destruct (Hmono _ _ Hr) as (r' & Hr' & Hle).
    split_and!; [done|done|]. exists r'. split_and!; [done|by eapply room_le_started|].
    eapply battle_ok_ext; [|exact Hb]. intros k. by apply room_le_ids.
  - intros j Hj. destruct (H4 _ Hj) as (r & Hr & Hs). destruct (Hmono _ _ Hr) as (r' & Hr' & Hle).
    exists r'. split; [done|]. by eapply room_le_started.
  - intros j r' [(<- & r & Hr & ->)|[_ Hj]]%lookup_alter_Some Hb; [|by eapply H5].
    eapply H5; [done|]. by apply Hf.
Qed.

(** A room that starts: whoever started it is to make the battle. *)
Lemma battles_start Y heap games next_game loop i f r :
  heap !! i = Some r -> r_state r = RoomState.Waiting -> r_state (f r) <> RoomState.Waiting -> room_le r (f r) ->
  battles_ok Y heap games next_game loop ->
  (TRoom i ∉ Y) /\ battles_ok ({[TRoom i]} ∪ Y) (alter f i heap) games next_game loop.
Proof.
  intros Hr Hw Hs Hle [H1 H2 H3 H4 H5].
  assert (Hi : TRoom i ∉ Y) by (intros Hi; destruct (H4 _ Hi) as (r0 & Hr0 & Hs0); congruence).
  assert (Hne : forall j r', heap !! j = Some r' -> r_state r' <> RoomState.Waiting -> alter f i heap !! j = Some r').
  { intros j r' Hj Hs'. rewrite lookup_alter_ne; [done|]. congruence. }
  split; [done|]. split; [|done|done|..].
  - intros g gr Hg. destruct (H1 _ _ Hg) as (? & ? & r' & Hr' & Hs' & Hb). split_and!; [done| |by eauto].
    rewrite not_elem_of_union, not_elem_of_singleton. split; [|done]. intros [= Heq]. congruence.
  - intros j [[= ->]%elem_of_singleton_1|Hj]%elem_of_union.
    + exists (f r). by rewrite lookup_alter_eq, Hr.
    + destruct (H4 _ Hj) as (r' & ? & ?). eauto.
  - intros j r' [(<- & _)|[_ Hj]]%lookup_alter_Some Hb; [left; set_solver|].
    destruct (H5 _ _ Hj Hb); [left; set_solver|by right].
Qed.

(** A new room. *)
Lemma rooms_insert count Y next heap rooms prm done r :
  rooms_ok count ({[TNew (r_room_id r)]} ∪ Y) next heap rooms prm done ->
  (TNew (r_room_id r) ∉ Y) -> 1000 <= r_room_id r -> r_state r = RoomState.Waiting ->
  Z.of_nat (length (Room_PlayerIds r)) = count -> (forall k, k ∈ Room_PlayerIds r -> player_ok k) ->
  rooms_ok count Y next (<[r_room_id r := r]> heap) rooms prm done.
Proof.
  intros [H1 H2 H3 H4 H5 H6] Hn Hpos Hw Hlen Hpl. destruct (H5 (r_room_id r)) as [Hlt Hno]; [set_solver|].
  assert (Hmono : forall a r', heap !! a = Some r' -> <[r_room_id r := r]> heap !! a = Some r').
  { intros a r' Ha. rewrite lookup_insert_ne; [done|]. congruence. }
  split; [done|..].
  - intros a r' [[<- <-]|[_ Ha]]%lookup_insert_Some; [done|by apply H2].
  - intros j a Hj. destruct (H3 _ _ Hj) as [-> [r' Hr]]. eauto.
  - intros p j Hp. destruct (H4 _ _ Hp) as (Hj & r' & Hr & Hin). eauto.
  - intros j Hj. destruct (H5 j) as [? ?]; [set_solver|]. split; [done|].
    rewrite lookup_insert_ne; [done|]. intros Heq. apply Hn. by rewrite Heq.
  - intros a r' [[<- <-]|[_ Ha]]%lookup_insert_Some Hs; [congruence|by apply H6].
Qed.

Lemma battles_insert_room Y heap games next_game loop i r :
  heap !! i = None -> r_state r = RoomState.Waiting ->
  battles_ok Y heap games next_game loop -> battles_ok Y (<[i := r]> heap) games next_game loop.
Proof.
  intros Hi Hw [H1 H2 H3 H4 H5].
  assert (Hmono : forall a r', heap !! a = Some r' -> <[i := r]> heap !! a = Some r').
  { intros a r' Ha. rewrite lookup_insert_ne; [done|]. congruence. }
  split; [|done|done|..].
  - intros g gr Hg. destruct (H1 _ _ Hg) as (? & ? & r' & ? & ?). eauto 6.
  - intros j Hj. destruct (H4 _ Hj) as (r' & ? & ?). eauto.
  - intros j r' [[_ <-]|[_ Hj]]%lookup_insert_Some Hb; [by destruct Hb|by eapply H5].
Qed.

(** *** Battles *)
Lemma battles_new Y heap games next_game loop g r :
  battles_ok ({[TRoom (gr_room_id g)]} ∪ Y) heap games next_game loop -> (TRoom (gr_room_id g) ∉ Y) ->
  heap !! gr_room_id g = Some r -> battle_ok (Room_PlayerIds r) g ->
  battles_ok Y heap (<[next_game := g]> games) (1 + next_game) loop.
Proof.
  intros [H1 H2 H3 H4 H5] Hn Hr Hb.
  assert (Hnew : forall j gr, games !! j = Some gr -> next_game <> j /\ gr_room_id gr <> gr_room_id g).
  { intros j gr Hj. destruct (H1 _ _ Hj) as (? & Ht & _). split; [lia|]. intros Heq. apply Ht. rewrite Heq. set_solver. }
  split.
  - intros j gr [[<- <-]|[_ Hj]]%lookup_insert_Some.
    + destruct (H4 (gr_room_id g)) as (r' & Hr' & Hs); [set_solver|]. rewrite Hr in Hr'. injection Hr' as <-.
      split_and!; [lia|done|by eauto].
    + destruct (H1 _ _ Hj) as (? & Ht & ?). split_and!; [lia|set_solver|done].
  - intros j k gr gr' [[<- <-]|[_ Hj]]%lookup_insert_Some [[<- <-]|[_ Hk]]%lookup_insert_Some He; [done|..].
    + by destruct (proj2 (Hnew _ _ Hk)).
    + by destruct (proj2 (Hnew _ _ Hj)).
    + by eapply H2.
  - intros i j Hj. destruct (H3 _ _ Hj) as (gr & Hgr & ?). exists gr. split; [|done].
    rewrite lookup_insert_ne; [done|]. by apply (Hnew _ _ Hgr).
  - intros i Hi. apply H4. set_solver.
  - intros i r' Hi Hbt. destruct (H5 _ _ Hi Hbt) as [[[= ->]%elem_of_singleton_1|Ht]%elem_of_union|(j & gr & Hj & Hid)].
    + right. exists next_game, g. by rewrite lookup_insert_eq.
    + by left.
    + right. exists j, gr. rewrite lookup_insert_ne; [done|]. by apply (Hnew _ _ Hj).
Qed.

Lemma battles_section Y heap games next_game loop j f :
  (forall gr ids, games !! j = Some gr -> battle_ok ids gr -> battle_ok ids (f gr) /\ gr_room_id (f gr) = gr_room_id gr) ->
  battles_ok Y heap games next_game loop -> battles_ok Y heap (alter f j games) next_game loop.
Proof.
  intros Hf [H1 H2 H3 H4 H5].
  assert (Hforth : forall k gr, games !! k = Some gr -> exists gr', alter f j games !! k = Some gr' /\ gr_room_id gr' = gr_room_id gr).
  { intros k gr Hg. destruct (decide (j = k)) as [->|Hne]; [|exists gr; by rewrite lookup_alter_ne].
    exists (f gr). rewrite lookup_alter_eq, Hg. split; [done|]. destruct (H1 _ _ Hg) as (_ & _ & r & _ & _ & Hb).
    by apply (Hf gr (Room_PlayerIds r)). }
  assert (Hback : forall k gr', alter f j games !! k = Some gr' -> exists gr, games !! k = Some gr
            /\ gr_room_id gr' = gr_room_id gr /\ forall ids, battle_ok ids gr -> battle_ok ids gr').
  { intros k gr' [(<- & gr & Hg & ->)|[_ Hk]]%lookup_alter_Some; [|by exists gr'].
    destruct (H1 _ _ Hg) as (_ & _ & r & _ & _ & Hb). exists gr. split_and!; [done|by apply (Hf gr (Room_PlayerIds r))|].
    intros ids Hids. by apply (Hf gr ids). }
  split; [..|done|].
  - intros k gr' Hk. destruct (Hback _ _ Hk) as (gr & Hg & Hid & Hb). destruct (H1 _ _ Hg) as (? & ? & r & ? & ? & ?).
    rewrite Hid. eauto 8.
  - intros k k' gr gr' Hk Hk' He. destruct (Hback _ _ Hk) as (g1 & Hg1 & Hi1 & _).
    destruct (Hback _ _ Hk') as (g2 & Hg2 & Hi2 & _). eapply H2; [done|done|congruence].
  - intros i k Hk. destruct (H3 _ _ Hk) as (gr & Hg & Hid). destruct (Hforth _ _ Hg) as (gr' & ? & ?).
    exists gr'. split; [done|congruence].
  - intros i r Hi Hb. destruct (H5 _ _ Hi Hb) as [?|(k & gr & Hg & Hid)]; [by left|right].
    destruct (Hforth _ _ Hg) as (gr' & ? & ?). exists k, gr'. split; [done|congruence].
Qed.

Section interleave.
Context {Srv Rds : Type} {MA : MysqlApi Srv} {RA : RedisApi Rds} {PB : Protobuf} {SC : StoreContract Srv Rds}.
Notation World := (World Srv Rds).
Notation M := (M Srv Rds).
Context (config : ConfigManager).
#[local] Set Default Proof Using "Type".

(** No counter has run through the 64 bits. *)
Definition fresh_ids (w : World) : Prop :=
  next_room_id (w_ids w) <= 2 ^ 63 /\ next_player_id (w_ids w) <= 2 ^ 63.

Definition conc (Y : gset Tok) (w : World) : Prop :=
  (w_config w = config /\ w_ctx w = full_ctx)
  /\ fresh_ids w
  /\ rooms_ok (need_count config) Y (next_room_id (w_ids w)) (w_room_heap w) (w_rooms w)
       (w_player_room_map w) (recorded (w_mysql w))
  /\ battles_ok Y (w_room_heap w) (w_games w) (w_next_game w) (w_loop_rooms w)
  /\ queue_ok (need_count config) Y (w_queue w)
  /\ accounts_ok Y (next_player_id (w_ids w)) (w_account_players w) (w_session_tokens w) (w_sessions w)
  /\ store_ok (w_mysql w)
  /\ map_Forall (fun _ p => is_i64 (ps_battle_id p)) (w_pending w).

Definition rooms_move (heap heap' : gmap Z Room) : Prop :=
  forall a r, heap !! a = Some r -> exists r', heap' !! a = Some r' /\ room_le r r'.
Definition games_move (games games' : gmap Z GameRoom) : Prop :=
  forall g gr, games !! g = Some gr -> exists gr', games' !! g = Some gr' /\ game_le gr gr'.
Definition moves (w w' : World) : Prop :=
  counts_up w w' /\ rooms_move (w_room_heap w) (w_room_heap w') /\ games_move (w_games w) (w_games w')
  /\ (forall i ids, recorded (w_mysql w) i ids -> recorded (w_mysql w') i ids)
  /\ (forall p, is_Some (w_session_tokens w !! p) -> is_Some (w_session_tokens w' !! p)).

#[export] Instance rooms_move_order : PreOrder rooms_move.
Proof.
  split; [intros h a r Ha; exists r; by split|]. intros h1 h2 h3 H1 H2 a r Ha.
  destruct (H1 _ _ Ha) as (r' & Ha' & ?). destruct (H2 _ _ Ha') as (r'' & ? & ?). exists r''.
  split; [done|by transitivity r'].
Qed.
#[export] Instance games_move_order : PreOrder games_move.
Proof.
  split; [intros h a r Ha; exists r; by split|]. intros h1 h2 h3 H1 H2 a r Ha.
  destruct (H1 _ _ Ha) as (r' & Ha' & ?). destruct (H2 _ _ Ha') as (r'' & ? & ?). exists r''.
  split; [done|by transitivity r'].
Qed.
#[export] Instance moves_order : PreOrder moves.
Proof.
  split; [by intros w; split_and!|].
  intros w1 w2 w3 (H1 & H2 & H3 & H4 & H5) (H6 & H7 & H8 & H9 & H10). split_and!; [..|by auto|by auto].
  - by transitivity w2.
  - by transitivity (w_room_heap w2).
  - by transitivity (w_games w2).
Qed.

Lemma moves_refl w : moves w w.
Proof. reflexivity. Qed.

#[local] Notation stable := (Stable moves).
#[local] Notation tct := (tct fresh_ids conc moves).
#[local] Notation ct := (ct fresh_ids conc moves).
#[local] Notation quiet := (quiet fresh_ids conc moves).

(** The rules of [ThreadLogic], for this invariant. *)
#[local] Notation ct_pull := (ct_pull fresh_ids conc moves).
#[local] Notation ct_bind := (ct_bind fresh_ids conc moves).
#[local] Notation ct_skip := (ct_skip fresh_ids conc moves).
#[local] Notation ct_pre := (ct_pre fresh_ids conc moves).
#[local] Notation ct_post := (ct_post fresh_ids conc moves).
#[local] Notation ct_weaken := (ct_weaken fresh_ids conc moves).
#[local] Notation ct_and := (ct_and fresh_ids conc moves).
#[local] Notation ct_ret := (ct_ret fresh_ids conc moves).
#[local] Notation ct_section := (ct_section fresh_ids conc moves).
#[local] Notation ct_reads := (ct_reads fresh_ids conc moves).
#[local] Notation ct_for_each := (ct_for_each fresh_ids conc moves).
#[local] Notation ct_while := (ct_while fresh_ids conc moves).
#[local] Notation ct_catch := (ct_catch fresh_ids conc moves).
#[local] Notation ct_unspecified := (ct_unspecified fresh_ids conc moves).
#[local] Notation quiet_ct := (quiet_ct fresh_ids conc moves).
#[local] Notation quiet_bind := (quiet_bind fresh_ids conc moves).
#[local] Notation quiet_section := (quiet_section fresh_ids conc moves).
#[local] Notation tct_pure := (fun T => tct_pure fresh_ids conc moves T).
#[local] Notation tct_weaken := (tct_weaken fresh_ids conc moves).
#[local] Notation tct_ret := (tct_ret fresh_ids conc moves).
#[local] Notation tct_bind := (tct_bind fresh_ids conc moves).
#[local] Notation tct_section := (tct_section fresh_ids conc moves).
#[local] Notation tct_frame := (tct_frame fresh_ids conc moves).
#[local] Notation tct_reads := (tct_reads fresh_ids conc moves).
#[local] Notation tct_while := (tct_while fresh_ids conc moves).
#[local] Notation tct_exists := (fun T => tct_exists fresh_ids conc moves T).
#[local] Notation ct_exists := (fun T => ct_exists fresh_ids conc moves T).
#[local] Notation ct_arguments := (ct_arguments fresh_ids conc moves).
#[local] Notation tct_skip := (tct_skip fresh_ids conc moves).

(** ** Facts that stay true *)
(** Room [i] is there, with these members. *)
Definition members (i : Z) (ids : list Z) (w : World) : Prop :=
  exists r, w_room_heap w !! i = Some r /\ forall k, k ∈ Room_PlayerIds r <-> k ∈ ids.
(** Room [i] has started. *)
Definition started_room (i : Z) (w : World) : Prop :=
  exists r, w_room_heap w !! i = Some r /\ r_state r <> RoomState.Waiting.
(** The battle at [g] is the one of room [i]. *)
Definition battle_at (g i : Z) (w : World) : Prop := exists gr, w_games w !! g = Some gr /\ gr_room_id gr = i.
(** It is over, with this winner. *)
Definition battle_won (g winner : Z) (w : World) : Prop :=
  exists gr, w_games w !! g = Some gr /\ gr_game_over gr = true /\ gr_winner_id gr = winner.
(** The entities of the battle at [g] are these. *)
Definition fighters (g : Z) (ids : list Z) (w : World) : Prop :=
  exists gr, w_games w !! g = Some gr /\ forall k, is_Some (GameRoom.players gr !! k) <-> k ∈ ids.
Definition on_record (i : Z) (ids : list Z) (w : World) : Prop := recorded (w_mysql w) i ids.
Definition token_of (p : Z) (w : World) : Prop := is_Some (w_session_tokens w !! p).
Definition drawn_id (p : Z) (w : World) : Prop := 100000 <= p < next_player_id (w_ids w).

#[export] Instance members_stable i ids : stable (members i ids).
Proof.
  intros w w' (_ & Hm & _) (r & Hr & Hk). destruct (Hm _ _ Hr) as (r' & Hr' & Hle). exists r'. split; [done|].
  intros k. by rewrite (room_le_ids r r' k Hle).
Qed.
#[export] Instance started_room_stable i : stable (started_room i).
Proof.
  intros w w' (_ & Hm & _) (r & Hr & Hs). destruct (Hm _ _ Hr) as (r' & Hr' & Hle). exists r'. split; [done|].
  by eapply room_le_started.
Qed.
#[export] Instance battle_at_stable g i : stable (battle_at g i).
Proof.
  intros w w' (_ & _ & Hm & _) (gr & Hg & Hi). destruct (Hm _ _ Hg) as (gr' & Hg' & Hle & _). exists gr'.
  split; [done|congruence].
Qed.
#[export] Instance battle_won_stable g winner : stable (battle_won g winner).
Proof.
  intros w w' (_ & _ & Hm & _) (gr & Hg & Ho & <-). destruct (Hm _ _ Hg) as (gr' & Hg' & _ & _ & H). exists gr'.
  destruct (H Ho) as [-> ->]. done.
Qed.
#[export] Instance fighters_stable g ids : stable (fighters g ids).
Proof.
  intros w w' (_ & _ & Hm & _) (gr & Hg & Hi). destruct (Hm _ _ Hg) as (gr' & Hg' & _ & H & _). exists gr'.
  split; [done|]. intros k. by rewrite H.
Qed.
#[export] Instance on_record_stable i ids : stable (on_record i ids).
Proof. intros w w' (_ & _ & _ & Hm & _). apply Hm. Qed.
#[export] Instance token_of_stable p : stable (token_of p).
Proof. intros w w' (_ & _ & _ & _ & Hm). apply Hm. Qed.
#[export] Instance drawn_id_stable p : stable (drawn_id p).
Proof. intros w w' ([_ Hm] & _) [H1 H2]. split; [done|lia]. Qed.

(** ** The sections *)
#[local] Hint Resolve recorded_only : core.

(** A section that writes, with what has to be known. *)
Lemma ct_writes T P f (Q : unit -> World -> Prop) :
  stable P ->
  (forall Y w, conc Y w -> fresh_ids (f w) -> P w -> conc Y (f w) /\ moves w (f w) /\ Q tt (f w)) ->
  ct T P (writes f) Q.
Proof. intros HP H. by apply ct_section; [..]. Qed.

Lemma quiet_writes T f :
  (forall Y w, conc Y w -> fresh_ids (f w) -> conc Y (f w) /\ moves w (f w)) -> quiet T (writes f).
Proof.
  intros H. apply ct_writes; [exact _|]. intros Y w HI Hg _. destruct (H Y w HI Hg). done.
Qed.

Lemma alter_moves (heap : gmap Z Room) i f :
  (forall r, heap !! i = Some r -> room_le r (f r)) -> rooms_move heap (alter f i heap).
Proof.
  intros Hf a r Ha. destruct (decide (i = a)) as [->|Hne]; [|exists r; by rewrite lookup_alter_ne].
  rewrite lookup_alter_eq, Ha. exists (f r). split; [done|]. by apply Hf.
Qed.

Lemma conc_on_room Y w i f :
  (forall r, w_room_heap w !! i = Some r -> room_le r (f r) /\ (in_battle (f r) -> in_battle r)
     /\ (r_state (f r) = RoomState.Closed -> r_state r = RoomState.Closed \/ recorded (w_mysql w) i (Room_PlayerIds r))) ->
  conc Y w -> conc Y (upd_room_heap (alter f i) w) /\ moves w (upd_room_heap (alter f i) w).
Proof.
  intros Hf (Hcf & Hfr & Hro & Hbt & Hqu & Hac & Hst & Hpe).
  assert (Hle : forall r, w_room_heap w !! i = Some r -> room_le r (f r)) by (intros r Hr; by apply Hf).
  split.
  - refine (conj Hcf (conj Hfr (conj _ (conj _ (conj Hqu (conj Hac (conj Hst Hpe))))))).
    + apply rooms_alter; [done| |done]. intros r Hr. destruct (Hf r Hr) as (? & _ & ?). done.
    + apply battles_alter; [|done]. intros r Hr. destruct (Hf r Hr) as (? & ? & _). done.
  - split_and!; [done|by apply alter_moves|done|done|done].
Qed.

Lemma quiet_on_room T i f :
  (forall r, room_le r (f r) /\ (in_battle (f r) -> in_battle r)
     /\ (r_state (f r) = RoomState.Closed -> r_state r = RoomState.Closed)) ->
  quiet T (on_room i f).
Proof.
  intros Hf. apply quiet_writes. intros Y w HI _. apply conc_on_room; [|done].
  intros r _. destruct (Hf r) as (? & ? & ?). split_and!; auto.
Qed.

Lemma quiet_SetSettlement T i : quiet T (on_room i Room_SetSettlement).
Proof.
  apply quiet_on_room. intros r. split_and!; [split; [apply SetSettlement_shape|]|..];
    unfold Room_SetSettlement, in_battle; case_bool_decide as Hs; cbn; rewrite ?Hs; cbn; [lia|lia|done..].
Qed.
Lemma quiet_room_Disconnect T i p : quiet T (on_room i (fun r => Room_OnPlayerDisconnect r p)).
Proof.
  apply quiet_on_room. intros r. split_and!; [split; [apply OnPlayerDisconnect_shape|]|..];
    unfold Room_OnPlayerDisconnect, in_battle; case_match; cbn; [lia|lia|done..].
Qed.
Lemma quiet_room_Reconnect T i p : quiet T (on_room i (fun r => Room_OnPlayerReconnect r p)).
Proof.
  apply quiet_on_room. intros r. split_and!; [split; [apply OnPlayerReconnect_shape|]|..];
    unfold Room_OnPlayerReconnect, in_battle; case_match; cbn; [lia|lia|done..].
Qed.

(** A room is closed when its battle is on record. *)
Lemma ct_Close T i ids :
  ct T (fun w => members i ids w /\ on_record i ids w) (on_room i Room_Close) (fun _ _ => True).
Proof.
  apply ct_writes; [exact _|]. intros Y w HI _ [(r & Hr & Hids) Hrec].
  assert (H : conc Y (upd_room_heap (alter Room_Close i) w) /\ moves w (upd_room_heap (alter Room_Close i) w));
    [|by destruct H].
  apply conc_on_room; [|done]. intros r' Hr'. rewrite Hr in Hr'. injection Hr' as <-. split_and!.
  - split; [apply Close_shape|]. by destruct (r_state r).
  - by intros [].
  - intros _. right. by eapply recorded_only.
Qed.

(** *** Battles *)
Lemma conc_games Y w g f :
  (forall gr ids, w_games w !! g = Some gr -> battle_ok ids gr -> battle_ok ids (f gr) /\ game_le gr (f gr)) ->
  conc Y w -> conc Y (upd_games (alter f g) w) /\ moves w (upd_games (alter f g) w).
Proof.
  intros Hf (Hcf & Hfr & Hro & Hbt & Hqu & Hac & Hst & Hpe). split.
  - refine (conj Hcf (conj Hfr (conj Hro (conj _ (conj Hqu (conj Hac (conj Hst Hpe))))))).
    apply battles_section; [|done]. intros gr ids Hg Hb. destruct (Hf gr ids Hg Hb) as [? [? _]]. done.
  - split_and!; [done|done| |done|done]. intros j gr Hj.
    destruct (decide (g = j)) as [->|Hne]; [|exists gr; cbn; by rewrite lookup_alter_ne].
    exists (f gr). cbn. rewrite lookup_alter_eq, Hj. split; [done|].
    destruct (bt_games _ _ _ _ _ Hbt _ _ Hj) as (_ & _ & r & _ & _ & Hb). by apply (Hf gr (Room_PlayerIds r)).
Qed.

Lemma quiet_on_game T g s : quiet T (on_game g (game_section_run s)).
Proof.
  apply quiet_writes. intros Y w HI _. apply conc_games; [|done]. intros gr ids _ Hb.
  split; [by apply game_section_ok|by eapply game_section_le].
Qed.
Lemma quiet_HandleInput_game T g i : quiet T (on_game g (fun gr => GameRoom_HandleInput gr i)).
Proof. apply (quiet_on_game T g (GsInput i)). Qed.
Lemma quiet_Eliminate T g p : quiet T (on_game g (fun gr => EliminatePlayer gr p)).
Proof. apply (quiet_on_game T g (GsEliminate p)). Qed.

Lemma quiet_tick_game T g : quiet T (tick_game g).
Proof.
  unfold tick_game. apply quiet_bind; [ |intros inputs; apply (quiet_on_game T g (GsTick inputs))].
  apply quiet_section; []. intros Y w HI _. destruct (Tick_inputs _) as [inputs gr'] eqn:Ht. cbn [fst snd].
  assert (H : conc Y (upd_games (alter (fun _ => gr') g) w) /\ moves w (upd_games (alter (fun _ => gr') g) w));
    [|by destruct H].
  apply conc_games; [|done]. intros gr ids Hg Hb. rewrite Hg in Ht. change (Tick_inputs gr = (inputs, gr')) in Ht.
  replace gr' with (game_section_run GsTake gr) by (cbn [game_section_run]; by rewrite Ht).
  split; [by apply game_section_ok|by eapply game_section_le].
Qed.

(** *** Starting a room: the right to make its battle *)
Lemma SetReadyAndTryStart_le r p b : room_le r (Room_SetReadyAndTryStart r p b).2.
Proof.
  split; [apply SetReadyAndTryStart_shape|].
  destruct (SetReadyAndTryStart_cases r p b) as [(_ & -> & ->)|[_ ->]]; cbn; lia.
Qed.

(** The section that may start the room. *)
Definition try_start_section (i p : Z) (ready : bool) : M (option bool) := fun w =>
  let '(res, r) := Room_SetReadyAndTryStart (room_in w i) p ready in
  (Ok res, upd_room_heap (alter (fun _ => r) i) w).

Lemma tct_try_start T i p b :
  tct T (fun D w => D = ∅ /\ (exists ids, members i ids w)) (critical (try_start_section i p b))
    (fun res D w => if bool_decide (res = Some true)
                    then D = {[TRoom i]} /\ started_room i w
                    else D = ∅).
Proof.
  apply tct_section; [|].
  { intros D. exact _. }
  intros D F w HF HI _ [-> (ids & r & Hr & _)]. rewrite (left_id_L ∅ (∪)) in HI. unfold try_start_section.
  unfold room_in. rewrite Hr. change (default _ (Some r)) with r.
  pose proof (SetReadyAndTryStart_le r p b) as Hle. pose proof (SetReadyAndTryStart_cases r p b) as Hc.
  destruct (Room_SetReadyAndTryStart r p b) as [res r']. cbn [fst snd] in *.
  destruct Hc as [(-> & Hw & Hs)|[Hres Hs]].
  - rewrite bool_decide_eq_true_2 by done. destruct HI as (Hcf & Hfr & Hro & Hbt & Hqu & Hac & Hst & Hpe).
    destruct (battles_start F _ _ _ _ i (fun _ => r') r Hr Hw ltac:(cbv beta; congruence) Hle Hbt) as [Hi Hbt'].
    exists {[TRoom i]}. split_and!; [by apply disjoint_singleton_l| | |done|].
    + refine (conj Hcf (conj Hfr (conj _ (conj Hbt' (conj _ (conj _ (conj Hst Hpe))))))).
      * eapply rooms_tokens; [|apply rooms_alter; [done| |exact Hro]]; [set_solver|].
        intros r0 Hr0. rewrite Hr in Hr0. injection Hr0 as <-. split; [done|congruence].
      * eapply queue_tokens; [|exact Hqu]. set_solver.
      * eapply accounts_tokens; [|exact Hac]. set_solver.
    + split_and!; [done| |done|done|done]. apply alter_moves. intros r0 Hr0. rewrite Hr in Hr0. by injection Hr0 as <-.
    + exists r'. cbn. rewrite lookup_alter_eq, Hr. split; [done|congruence].
  - exists ∅. rewrite (left_id_L ∅ (∪)), bool_decide_eq_false_2 by done.
    assert (H : conc F (upd_room_heap (alter (fun _ => r') i) w) /\ moves w (upd_room_heap (alter (fun _ => r') i) w));
      [|destruct H; split_and!; [set_solver|done..]].
    apply conc_on_room; [|done]. intros r0 Hr0. rewrite Hr in Hr0. injection Hr0 as <-.
    unfold in_battle. rewrite Hs. auto.
Qed.

(** The battle of a started room, made with the right to it. *)
Lemma tct_new_game T i g :
  gr_room_id g = i ->
  tct T (fun D w => D = {[TRoom i]} /\ exists ids, members i ids w /\ battle_ok ids g) (new_game g)
    (fun a D w => D = ∅ /\ battle_at a i w).
Proof.
  intros <-. apply tct_section; [|].
  { intros D. exact _. }
  intros D F w HF HI _ [-> (ids & (r & Hr & Hids) & Hb)]. exists ∅. rewrite (left_id_L ∅ (∪)).
  destruct HI as (Hcf & Hfr & Hro & Hbt & Hqu & Hac & Hst & Hpe).
  split_and!; [set_solver| | |split; [done|]].
  - refine (conj Hcf (conj Hfr (conj _ (conj _ (conj _ (conj _ (conj Hst Hpe))))))).
    + eapply rooms_tokens; [|exact Hro]. set_solver.
    + cbn. eapply battles_new; [exact Hbt|set_solver|done|]. eapply battle_ok_ext; [|exact Hb]. done.
    + eapply queue_tokens; [|exact Hqu]. set_solver.
    + eapply accounts_tokens; [|exact Hac]. set_solver.
  - split_and!; [done|done| |done|done]. intros j gr Hj. exists gr. split; [|done]. cbn.
    rewrite lookup_insert_ne; [done|]. destruct (bt_games _ _ _ _ _ Hbt _ _ Hj). lia.
  - exists g. cbn. by rewrite lookup_insert_eq.
Qed.

Lemma ct_AddRoom T g i : ct T (battle_at g i) (GameLoop_AddRoom (Some g)) (fun _ _ => True).
Proof.
  unfold GameLoop_AddRoom. eapply ct_reads with (R' := fun j w => j = i /\ battle_at g i w); [exact _| |].
  { intros Y w _ (gr & Hg & Hi). rewrite Hg. cbn. split; [done|by exists gr]. }
  intros j. apply ct_pull. intros ->. apply ct_writes; [exact _|].
  intros Y w (Hcf & Hfr & Hro & [B1 B2 B3 B4 B5] & Hqu & Hac & Hst & Hpe) _ (gr & Hg & Hi).
  split; [|split; [exact (moves_refl w)|done]].
  refine (conj Hcf (conj Hfr (conj Hro (conj _ (conj Hqu (conj Hac (conj Hst Hpe))))))).
  split; [done|done| |done|done]. cbn. intros j k [[<- <-]|[_ Hj]]%lookup_insert_Some; [by exists gr|by apply B3].
Qed.

Lemma quiet_RemoveRoom_loop T i : quiet T (GameLoop_RemoveRoom i).
Proof.
  apply quiet_writes. intros Y w (Hcf & Hfr & Hro & [B1 B2 B3 B4 B5] & Hqu & Hac & Hst & Hpe) _.
  split; [|exact (moves_refl w)].
  refine (conj Hcf (conj Hfr (conj Hro (conj _ (conj Hqu (conj Hac (conj Hst Hpe))))))).
  split; [done|done| |done|done]. cbn. intros j k [_ Hj]%lookup_delete_Some. by apply B3.
Qed.

(** A section that is a computation of [Reason]. *)
Lemma ct_critical T P {A} (s : M A) (Q : A -> World -> Prop) :
  stable P ->
  (forall Y w0, conc Y w0 -> P w0 ->
     triple (fun w => T /\ conc Y w /\ moves w0 w) (fun w => w = w0) s (fun a w => conc Y w /\ moves w0 w /\ Q a w)) ->
  ct T P (critical s) Q.
Proof.
  intros HP H. apply ct_section; [done|]. intros Y w HI _ Hw. specialize (H Y w HI Hw w eq_refl).
  destruct (s w) as [[a|e] w']; cbn; tauto.
Qed.

(** *** Sessions: only the player a session speaks for matters *)
Lemma conc_sessions Y w f s :
  (forall ss, w_sessions w !! s = Some ss -> player_id_ (f ss) = player_id_ ss \/ token_of (player_id_ (f ss)) w) ->
  conc Y w -> conc Y (upd_sessions (alter f s) w) /\ moves w (upd_sessions (alter f s) w).
Proof.
  intros Hf (Hcf & Hfr & Hro & Hbt & Hqu & [A1 A2 A3 A4 A5 A6] & Hst & Hpe). split; [|exact (moves_refl w)].
  refine (conj Hcf (conj Hfr (conj Hro (conj Hbt (conj Hqu (conj _ (conj Hst Hpe))))))).
  split; [done..|]. cbn. intros a s' [(<- & ss & Hs & ->)|[_ Ha]]%lookup_alter_Some; [|by eapply A6].
  destruct (Hf _ Hs) as [-> | ?]; [by eapply A6|by right].
Qed.

Lemma quiet_on_session T s f :
  (forall ss, player_id_ (f ss) = player_id_ ss) -> quiet T (on_session s f).
Proof. intros Hf. apply quiet_writes. intros Y w HI _. apply conc_sessions; [|done]. auto. Qed.
Lemma quiet_SetRoomId T s r : quiet T (on_session s (Session_SetRoomId r)).
Proof. by apply quiet_on_session. Qed.
Lemma quiet_SetHeartbeat T s t : quiet T (on_session s (Session_UpdateHeartbeatTime t)).
Proof. by apply quiet_on_session. Qed.
Lemma ct_BindPlayerId T s p : ct T (token_of p) (on_session s (Session_BindPlayerId p)) (fun _ => token_of p).
Proof.
  apply ct_writes; [exact _|]. intros Y w HI _ Hp.
  destruct (conc_sessions Y w (Session_BindPlayerId p) s) as [H1 H2]; [by right|done|].
  split_and!; [done|done|exact Hp].
Qed.

(** *** The tables of the room manager *)
Lemma conc_rooms_parts Y w rooms' prm' :
  conc Y w ->
  rooms_ok (need_count config) Y (next_room_id (w_ids w)) (w_room_heap w) rooms' prm' (recorded (w_mysql w)) ->
  let w' := upd_player_room_map (fun _ => prm') (upd_rooms (fun _ => rooms') w) in conc Y w' /\ moves w w'.
Proof.
  intros (Hcf & Hfr & Hro & Hbt & Hqu & Hac & Hst & Hpe) Hr. split; [|exact (moves_refl w)].
  by refine (conj Hcf (conj Hfr (conj _ (conj Hbt (conj Hqu (conj Hac (conj Hst Hpe))))))).
Qed.

Lemma rooms_list count Y next heap rooms prm done i :
  is_Some (heap !! i) -> rooms_ok count Y next heap rooms prm done ->
  rooms_ok count Y next heap (<[i := i]> rooms) prm done.
Proof.
  intros Hi [H1 H2 H3 H4 H5 H6]. split; [done|done| | |done|done].
  - intros j a [[<- <-]|[_ Hj]]%lookup_insert_Some; [done|by apply H3].
  - intros p j Hp. destruct (H4 _ _ Hp) as (Hj & ?). split; [|done]. rewrite lookup_insert. by case_decide; subst.
Qed.

Lemma rooms_map_insert count Y next heap rooms prm done p i r :
  rooms !! i = Some i -> heap !! i = Some r -> p ∈ Room_PlayerIds r ->
  rooms_ok count Y next heap rooms prm done -> rooms_ok count Y next heap rooms (<[p := i]> prm) done.
Proof.
  intros Hi Hr Hp [H1 H2 H3 H4 H5 H6]. split; [done..| |done|done].
  intros q j [[<- <-]|[_ Hq]]%lookup_insert_Some; [by eauto|by apply H4].
Qed.

Lemma ct_CreateRoom_tables T i ps ids :
  (forall p, p ∈ ps -> p ∈ ids) ->
  ct T (members i ids) (critical (CreateRoom_tables i i ps)) (fun _ _ => True).
Proof.
  intros Hps. apply ct_critical; [exact _|]. intros Y w0 HI0 Hm0. unfold CreateRoom_tables.
  set (L w := ((conc Y w /\ moves w0 w) /\ members i ids w) /\ w_rooms w !! i = Some i).
  apply triple_bind with (R := fun _ => L).
  { apply triple_writes. intros w ->. split; [|apply lookup_insert_eq].
    destruct (conc_rooms_parts Y w0 (<[i := i]> (w_rooms w0)) (w_player_room_map w0)) as [H1 H2]; [done| |by split].
    apply rooms_list; [|apply HI0]. destruct Hm0 as (r & Hr & _). by exists r. }
  intros ?. apply triple_post with (Q := fun _ => L); [|by intros ? w [[[? ?] _] _]].
  apply triple_for_each. intros p Hp. apply inv_writes. intros w [[[HI Hmv] Hm] Hl]. split; [|exact Hl].
  destruct (conc_rooms_parts Y w (w_rooms w) (<[p := i]> (w_player_room_map w))) as [H1 H2]; [done| |].
  - destruct Hm as (r & Hr & Hids). eapply rooms_map_insert; [done|done|by apply Hids, Hps|apply HI].
  - split; [split; [exact H1|by transitivity w]|exact Hm].
Qed.

Lemma quiet_RemoveRoom_tables T i : quiet T (critical (RemoveRoom_tables i)).
Proof.
  apply ct_critical; [exact _|]. intros Y w0 HI0 _. unfold RemoveRoom_tables.
  set (K w := conc Y w /\ moves w0 w).
  apply triple_bind with (R := fun it w => K w /\ w_rooms w !! i = it).
  { intros w ->. split; [split; [done|apply moves_refl]|done]. }
  intros it. apply triple_bind with (R := fun _ w => K w /\ forall p, w_player_room_map w !! p <> Some i).
  - destruct it as [a|].
    + apply triple_reads_bind. intros r.
      apply triple_bind with (R := fun _ w => K w /\ forall p, w_player_room_map w !! p <> Some i);
        [|intros ?; by apply triple_ret].
      intros w [[[HI Hmv] Hi] Hr]. rewrite delete_loop.
      set (prm' := fold_left (fun m p => delete p m) (Room_PlayerIds r) (w_player_room_map w)).
      pose proof HI as (_ & _ & [R1 R2 R3 R4 R5 R6] & _).
      assert (Hsub : prm' ⊆ w_player_room_map w).
      { apply map_subseteq_spec. intros p j Hj. by apply lookup_delete_fold in Hj as [? _]. }
      destruct (conc_rooms_parts Y w (w_rooms w) prm') as [H1 H2]; [done| |].
      { split; [done..| |done|done]. intros p j Hp. apply R4. by eapply lookup_weaken. }
      split; [split; [exact H1|by transitivity w]|]. intros p Hp. apply lookup_delete_fold in Hp as [Hp Hn].
      apply Hn. destruct (R4 _ _ Hp) as (_ & r' & Hr' & Hin). destruct (R3 _ _ Hi) as [-> _].
      unfold room_in in Hr. rewrite Hr' in Hr. change (r' = r) in Hr. by subst r'.
    + apply triple_ret. intros w [[HI Hmv] Hi]. split; [done|]. intros p Hp.
      destruct HI as (_ & _ & Hro & _). destruct (ro_map _ _ _ _ _ _ _ Hro _ _ Hp) as [Hl _]. congruence.
  - intros ps. apply triple_bind with (R := fun _ => K).
    + apply triple_writes. intros w [[HI Hmv] Hp].
      destruct (conc_rooms_parts Y w (delete i (w_rooms w)) (w_player_room_map w)) as [H1 H2]; [done| |].
      * destruct HI as (_ & _ & [R1 R2 R3 R4 R5 R6] & _). split; [done|done| | |done|done].
        -- intros j a [_ Hj]%lookup_delete_Some. by apply R3.
        -- intros p j Hj. destruct (R4 _ _ Hj) as [Hl ?]. split; [|done].
           rewrite lookup_delete_ne; [done|]. intros ->. by apply (Hp p).
      * split; [exact H1|by transitivity w].
    + intros ?. apply triple_ret. by intros w [].
Qed.

(** *** Making a room *)
Lemma wrap_drawn n : 0 <= n -> n + 1 <= 2 ^ 63 -> wrap_i64 n = n.
Proof. intros. apply wrap_i64_id. unfold is_i64, int64_min, int64_max. lia. Qed.

Lemma tct_NextRoomId T :
  tct T (fun D w => D = ∅ /\ True) (next_id NextRoomId) (fun i D w => D = {[TNew i]} /\ 1000 <= i).
Proof.
  apply tct_section; [intros D; exact _|]. intros D F w HF HI [Hg1 Hg2] [-> _].
  rewrite (left_id_L ∅ (∪)) in HI. destruct HI as (Hcf & Hfr & Hro & Hbt & Hqu & Hac & Hst & Hpe).
  pose proof Hro as [R1 R2 R3 R4 R5 R6]. cbn in Hg1, Hg2 |- *. rewrite wrap_drawn by lia.
  set (n := next_room_id (w_ids w)) in *. exists {[TNew n]}. split_and!; [| | |done|lia].
  - apply disjoint_singleton_l. intros Hn%R5. lia.
  - refine (conj Hcf (conj (conj Hg1 Hg2) (conj _ (conj _ (conj _ (conj _ (conj Hst Hpe))))))); cbn.
    + split; [lia| |done|done| |done].
      * intros a r Ha. destruct (R2 _ _ Ha) as (? & ? & ? & ?). split_and!; [done|lia..|done|done].
      * intros i [[= ->]%elem_of_singleton_1|Hi%R5]%elem_of_union; [|split; [lia|apply Hi]].
        split; [unfold n; lia|]. destruct (w_room_heap w !! n) as [r|] eqn:Hr; [|done].
        destruct (R2 _ _ Hr) as (_ & ? & _). unfold n in *. lia.
    + eapply battles_tokens; [|exact Hbt]. set_solver.
    + eapply queue_tokens; [|exact Hqu]. set_solver.
    + eapply accounts_tokens; [|exact Hac]. set_solver.
  - split_and!; [split; cbn; lia|done|done|done|done].
Qed.

Lemma tct_insert_room T i r ids :
  r_room_id r = i -> 1000 <= i -> r_state r = RoomState.Waiting ->
  Z.of_nat (length (Room_PlayerIds r)) = need_count config -> (forall k, k ∈ Room_PlayerIds r -> player_ok k) ->
  (forall k, k ∈ Room_PlayerIds r <-> k ∈ ids) ->
  tct T (fun D w => D = {[TNew i]} /\ True) (writes (upd_room_heap (insert i r)))
    (fun _ D w => D = ∅ /\ members i ids w).
Proof.
  intros <- Hpos Hw Hlen Hpl Hids. apply tct_section; [intros D; exact _|].
  intros D F w HF (Hcf & Hfr & Hro & Hbt & Hqu & Hac & Hst & Hpe) _ [-> _]. exists ∅. rewrite (left_id_L ∅ (∪)).
  destruct (ro_new _ _ _ _ _ _ _ Hro (r_room_id r)) as [_ Hno]; [set_solver|].
  split_and!; [set_solver| | |split; [done|]].
  - refine (conj Hcf (conj Hfr (conj _ (conj _ (conj _ (conj _ (conj Hst Hpe))))))); cbn.
    + apply rooms_insert; [exact Hro|set_solver|done..].
    + apply battles_insert_room; [done|done|]. eapply battles_tokens; [|exact Hbt]. set_solver.
    + eapply queue_tokens; [|exact Hqu]. set_solver.
    + eapply accounts_tokens; [|exact Hac]. set_solver.
  - split_and!; [done| |done|done|done]. cbn. intros a r' Ha. exists r'. split; [|done].
    rewrite lookup_insert_ne; [done|]. congruence.
  - exists r. cbn. rewrite lookup_insert_eq. done.
Qed.

Lemma quiet_CreateRoom_player T i p : quiet T (CreateRoom_player i p).
Proof. unfold CreateRoom_player. quiet_tac. apply quiet_SetRoomId. Qed.

Lemma quiet_CreateRoom T ps :
  NoDup ps -> Forall player_ok ps -> Z.of_nat (length ps) = need_count config -> quiet T (CreateRoom ps).
Proof.
  intros Hnd Hps Hlen. unfold CreateRoom. eapply tct_bind; [apply tct_NextRoomId|]. intros i.
  apply (tct_pure T (1000 <= i)); [by intros D w []|]. intros Hpos.
  destruct (new_room_members i ps Hnd) as (Hid & Hst & Hin & Hl).
  assert (Hroom : forall k, k ∈ Room_PlayerIds (add_players (Room_new i) ps) -> player_ok k).
  { intros k Hk%Hin. by eapply Forall_forall. }
  eapply tct_bind.
  - eapply tct_weaken; [eapply (tct_insert_room T i (add_players (Room_new i) ps) ps)|..]; try done; [lia|].
    by intros D w [-> _].
  - intros ?. eapply (ct_bind T (members i ps)); [by apply ct_CreateRoom_tables|]. intros ?.
    apply quiet_bind; [|intros ?; by apply ct_ret].
    apply quiet_for_each; try exact _. intros p. apply quiet_CreateRoom_player.
Qed.

(** *** Accounts and tokens *)
Lemma accounts_next Y next accounts tokens sessions :
  accounts_ok Y next accounts tokens sessions -> accounts_ok Y (next + 1) accounts tokens sessions.
Proof.
  intros [A1 A2 A3 A4 A5 A6]. split; [lia| |done| | |done].
  - intros k p Hk. pose proof (A2 _ _ Hk). lia.
  - intros p Hp. destruct (A4 _ Hp) as [? ?]. split; [lia|done].
  - intros p t Ht. pose proof (A5 _ _ Ht). lia.
Qed.

Lemma quiet_NextPlayerId T : quiet T (next_id NextPlayerId).
Proof.
  apply quiet_section. intros Y w (Hcf & Hfr & Hro & Hbt & Hqu & Hac & Hst & Hpe) Hg. split_and!; [| |done].
  - refine (conj Hcf (conj Hg (conj Hro (conj Hbt (conj Hqu (conj _ (conj Hst Hpe))))))).
    by apply accounts_next.
  - split_and!; [split; cbn; lia|done|done|done|done].
Qed.

Lemma tct_NextPlayerId T :
  tct T (fun D w => D = ∅ /\ True) (next_id NextPlayerId) (fun p D w => D = {[TPid p]} /\ drawn_id p w).
Proof.
  apply tct_section; [intros D; exact _|]. intros D F w HF HI [Hg1 Hg2] [-> _].
  rewrite (left_id_L ∅ (∪)) in HI. destruct HI as (Hcf & Hfr & Hro & Hbt & Hqu & Hac & Hst & Hpe).
  pose proof (accounts_next _ _ _ _ _ Hac) as [A1 A2 A3 A4 A5 A6]. destruct Hac as [B1 B2 B3 B4 _ _].
  cbn in Hg1, Hg2 |- *. rewrite wrap_drawn by lia.
  set (n := next_player_id (w_ids w)) in *. exists {[TPid n]}. split_and!; [| | |done|].
  - apply disjoint_singleton_l. intros Hn%B4. lia.
  - refine (conj Hcf (conj (conj Hg1 Hg2) (conj _ (conj _ (conj _ (conj _ (conj Hst Hpe))))))); cbn.
    + eapply rooms_tokens; [|exact Hro]. set_solver.
    + eapply battles_tokens; [|exact Hbt]. set_solver.
    + eapply queue_tokens; [|exact Hqu]. set_solver.
    + split; [done..| |done|done].
      intros p [[= ->]%elem_of_singleton_1|Hp]%elem_of_union; [|by apply A4].
      split; [fold n; lia|]. intros k Hk%B2. unfold n in *. lia.
  - split_and!; [split; cbn; lia|done|done|done|done].
  - unfold drawn_id. cbn. fold n. lia.
Qed.

Lemma tct_new_account T key p :
  tct T (fun D w => D = {[TPid p]} /\ drawn_id p w) (writes (upd_account_players (insert key p)))
    (fun _ D w => D = ∅ /\ drawn_id p w).
Proof.
  apply tct_section; [intros D; exact _|].
  intros D F w HF (Hcf & Hfr & Hro & Hbt & Hqu & [A1 A2 A3 A4 A5 A6] & Hst & Hpe) _ [-> Hd]. exists ∅.
  rewrite (left_id_L ∅ (∪)). destruct (A4 p) as [Hp Hnew]; [set_solver|].
  split_and!; [set_solver| |exact (moves_refl w)|split; [done|exact Hd]].
  refine (conj Hcf (conj Hfr (conj _ (conj _ (conj _ (conj _ (conj Hst Hpe))))))); cbn.
  - eapply rooms_tokens; [|exact Hro]. set_solver.
  - eapply battles_tokens; [|exact Hbt]. set_solver.
  - eapply queue_tokens; [|exact Hqu]. set_solver.
  - split; [done| | | |done|done].
    + intros k q [[<- <-]|[_ Hk]]%lookup_insert_Some; [done|by eapply A2].
    + intros k k' q [[<- <-]|[_ Hk]]%lookup_insert_Some [[<- Hq]|[_ Hk']]%lookup_insert_Some; [done|..].
      * by destruct (Hnew k').
      * subst q. by destruct (Hnew k).
      * by eapply A3.
    + intros q Hq. destruct (A4 q) as [? Hnq]; [set_solver|]. split; [done|].
      intros k [[<- <-]|[_ Hk]]%lookup_insert_Some; [|by apply (Hnq k)].
      assert (TPid p ∉ F) by set_solver. done.
Qed.

Lemma ct_new_token T p t : ct T (drawn_id p) (writes (upd_session_tokens (insert p t))) (fun _ => token_of p).
Proof.
  apply ct_writes; [exact _|].
  intros Y w (Hcf & Hfr & Hro & Hbt & Hqu & [A1 A2 A3 A4 A5 A6] & Hst & Hpe) _ Hd.
  assert (Hmono : forall q, is_Some (w_session_tokens w !! q) -> is_Some (<[p := t]> (w_session_tokens w) !! q)).
  { intros q Hq. rewrite lookup_insert. by case_decide. }
  split_and!.
  - refine (conj Hcf (conj Hfr (conj Hro (conj Hbt (conj Hqu (conj _ (conj Hst Hpe))))))).
    split; [done..| |]; cbn.
    + intros q u [[<- _]|[_ Hq]]%lookup_insert_Some; [exact Hd|by eapply A5].
    + intros a s Hs. destruct (A6 a s Hs); auto.
  - by split_and!.
  - unfold token_of. cbn. by rewrite lookup_insert_eq.
Qed.

Lemma quiet_new_session T a s :
  player_id_ s = 0 -> quiet T (writes (upd_sessions (insert a s))).
Proof.
  intros Hs. apply quiet_writes.
  intros Y w (Hcf & Hfr & Hro & Hbt & Hqu & [A1 A2 A3 A4 A5 A6] & Hst & Hpe) _. split; [|exact (moves_refl w)].
  refine (conj Hcf (conj Hfr (conj Hro (conj Hbt (conj Hqu (conj _ (conj Hst Hpe))))))).
  split; [done..|]. cbn. intros b s' [[<- <-]|[_ Hb]]%lookup_insert_Some; [by left|by eapply A6].
Qed.

(** What is drawn fits its type, and so does what a session says. *)
Lemma drawn_typed Y w p : conc Y w -> drawn_id p w -> player_ok p.
Proof.
  intros (_ & [_ Hg] & _) [H1 H2]. unfold player_ok, is_i64, int64_min, int64_max. lia.
Qed.
Lemma session_typed Y w s : conc Y w -> is_i64 (PlayerId (w_sessions w) s).
Proof.
  intros HI. unfold PlayerId. destruct (w_sessions w !! s) as [ss|] eqn:Hs; [|done]. cbn.
  pose proof HI as (_ & _ & _ & _ & _ & Hac & _). destruct (ac_sessions _ _ _ _ _ Hac _ _ Hs) as [-> | [t Ht]]; [done|].
  by apply (drawn_typed Y w), (ac_tokens _ _ _ _ _ Hac _ t).
Qed.

(** *** The database *)
Lemma ct_mysql_call P {A} (f : MysqlConfig -> MysqlClient Srv -> result A * MysqlClient Srv) (Q : A -> World -> Prop) :
  stable P ->
  (forall Y cfg w r c', conc Y w -> P w -> store_ok (w_mysql w) -> f cfg (w_mysql w) = (r, c') ->
     extends (w_mysql w) c' /\ forall a, r = Ok a -> Q a (upd_mysql (fun _ => c') w)) ->
  ct True P (mysql_call f) Q.
Proof.
  intros HP Hf. apply ct_critical; [done|]. intros Y w0 HI0 HP0. apply triple_reads_bind. intros cfg w [-> Hcfg].
  unfold with_mysql. sections. destruct (f cfg (w_mysql w0)) as [r c'] eqn:Hr.
  pose proof HI0 as (Hcf & Hfr & Hro & Hbt & Hqu & Hac & Hst & Hpe).
  destruct (Hf Y cfg w0 r c' HI0 HP0 Hst Hr) as [[Hst' Hrec] HQ].
  assert (H : conc Y (upd_mysql (fun _ => c') w0) /\ moves w0 (upd_mysql (fun _ => c') w0)).
  { split.
    - refine (conj Hcf (conj Hfr (conj _ (conj Hbt (conj Hqu (conj Hac (conj Hst' Hpe))))))).
      destruct Hro as [R1 R2 R3 R4 R5 R6]. split; [done..|]. intros i ro Hi Hs. by apply Hrec, R6.
    - by split_and!. }
  destruct H as [H1 H2]. destruct r as [a|e]; [split_and!; [done|done|by apply HQ]|done].
Qed.

Lemma quiet_mysql_call {A} (f : MysqlConfig -> MysqlClient Srv -> result A * MysqlClient Srv) :
  (forall cfg c, store_ok c -> extends c (f cfg c).2) -> quiet True (mysql_call f).
Proof.
  intros Hf. apply ct_mysql_call; [exact _|]. intros Y cfg w r c' _ _ Hs Hr. specialize (Hf cfg _ Hs). rewrite Hr in Hf.
  done.
Qed.

Lemma quiet_repository_CreatePlayer p : is_i64 p -> quiet True (repository_CreatePlayer true (named_player p)).
Proof.
  intros Hp. unfold repository_CreatePlayer. cbn [when_].
  eapply ct_bind; [apply (ct_mysql_call (fun _ => True) _ (fun name _ => quoted p name)); [exact _|]|].
  - intros Y cfg w r c' _ _ Hs. pose proof (store_EscapeString cfg (w_mysql w) p Hs) as H.
    cbn [named_player pd_name]. destruct (EscapeString _ _ _) as [name c]. intros [= <- <-].
    split; [apply H|]. intros a [= <-]. apply H.
  - intros name. cbn beta. apply ct_mysql_call; [exact _|]. intros Y cfg w r c' _ Hq Hs.
    pose proof (store_insert_player cfg (w_mysql w) p name Hs Hp Hq) as H.
    cbn -[Execute] in H |- *. destruct (Execute _ _ _). by intros [= <- <-].
Qed.

Lemma quiet_FindPlayer p : quiet True (mysql_call (fun cfg c => FindPlayer cfg true c p)).
Proof. apply quiet_mysql_call. intros cfg c Hc. exact (store_FindPlayer cfg c p Hc). Qed.

Lemma quiet_repository_LoadPlayer p : is_i64 p -> quiet True (repository_LoadPlayer true p).
Proof.
  intros Hp. unfold repository_LoadPlayer. apply quiet_bind; [apply quiet_FindPlayer|].
  intros [d|]; [by apply ct_ret|]. apply quiet_bind; [by apply quiet_repository_CreatePlayer|].
  intros ?. by apply ct_ret.
Qed.

(** *** Pending settlements *)
Lemma quiet_pending_insert T i p : is_i64 (ps_battle_id p) -> quiet T (writes (upd_pending (insert i p))).
Proof.
  intros Hp. apply quiet_writes. intros Y w (Hcf & Hfr & Hro & Hbt & Hqu & Hac & Hst & Hpe) _.
  split; [|exact (moves_refl w)].
  refine (conj Hcf (conj Hfr (conj Hro (conj Hbt (conj Hqu (conj Hac (conj Hst _))))))). by apply map_Forall_insert_2.
Qed.
Lemma quiet_pending_delete T i : quiet T (writes (upd_pending (delete i))).
Proof.
  apply quiet_writes. intros Y w (Hcf & Hfr & Hro & Hbt & Hqu & Hac & Hst & Hpe) _. split; [|exact (moves_refl w)].
  refine (conj Hcf (conj Hfr (conj Hro (conj Hbt (conj Hqu (conj Hac (conj Hst _))))))). by apply map_Forall_delete.
Qed.

(** *** The queue: the duty to look at it again *)
Lemma spare_match (F : gset Tok) : exists n, TMatch n ∉ F.
Proof.
  set (N := set_map (fun t => match t with TMatch n => n | _ => 0 end) F : gset Z).
  exists (fresh N). intros Hn. apply (is_fresh N). apply elem_of_map. by eexists; split; [|exact Hn].
Qed.

Lemma tct_queue_Push T p :
  is_i64 p ->
  tct T (fun D w => D = ∅ /\ True) (queue_Push p)
    (fun (pushed : bool) D w => if pushed then exists n, D = {[TMatch n]} else D = ∅).
Proof.
  intros Hp. apply tct_section; [intros D; exact _|].
  intros D F w HF HI _ [-> _]. rewrite (left_id_L ∅ (∪)) in HI. unfold queue_Push; sections.
  destruct HI as (Hcf & Hfr & Hro & Hbt & [Q1 Q2 Q3] & Hac & Hst & Hpe).
  destruct (Push_repr _ _ p Q1) as [H1 H2]. pose proof (queue_Push_refused p w) as Href. cbn in Href.
  destruct (MatchQueue_Push _ _) as [b q']. cbn in H1, H2, Href |- *.
  assert (Hq : queue_ q' = (spec_Push (queue_ (w_queue w)) p).2) by apply H2.
  destruct b.
  - destruct (spare_match F) as [n Hn]. exists {[TMatch n]}. split_and!; [set_solver| |exact (moves_refl w)|by eexists].
    refine (conj Hcf (conj Hfr (conj _ (conj _ (conj _ (conj _ (conj Hst Hpe))))))); cbn.
    + eapply rooms_tokens; [|exact Hro]. set_solver.
    + eapply battles_tokens; [|exact Hbt]. set_solver.
    + split; [by rewrite Hq| |exists n; set_solver]. rewrite Hq. unfold spec_Push in *. case_decide as Hd; [done|].
      cbn. apply Forall_app. split; [done|]. constructor; [|done]. split; [tauto|done].
    + eapply accounts_tokens; [|exact Hac]. set_solver.
  - exists ∅. rewrite (left_id_L ∅ (∪)). rewrite Href by done.
    split_and!; [set_solver| |exact (moves_refl w)|done].
    by refine (conj Hcf (conj Hfr (conj Hro (conj Hbt (conj _ (conj Hac (conj Hst Hpe))))))).
Qed.

(** Looking at the queue: a room's worth of players, or the duty is done. *)
Lemma tct_TryPopN T n :
  2 <= need_count config ->
  tct T (fun D w => D = {[TMatch n]} /\ True) (TryPopN (need_count config))
    (fun players D w => (players = [] /\ D = ∅)
       \/ (D = {[TMatch n]} /\ NoDup players /\ Forall player_ok players
           /\ Z.of_nat (length players) = need_count config)).
Proof.
  intros Hcount. apply tct_section; [intros D; exact _|].
  intros D F w HF HI _ [-> _]. unfold TryPopN; sections.
  destruct HI as (Hcf & Hfr & Hro & Hbt & [Q1 Q2 Q3] & Hac & Hst & Hpe).
  destruct (TryPopN_repr _ _ (need_count config) ltac:(lia) Q1) as [H1 H2].
  destruct (MatchQueue_TryPopN _ _) as [ps q']. cbn in H1, H2 |- *.
  assert (Hq : queue_ q' = (spec_TryPopN (queue_ (w_queue w)) (need_count config)).2) by apply H2.
  unfold spec_TryPopN in *. destruct (decide _) as [Hlt|Hge]; cbn in H1, H2, Hq; subst ps.
  - exists ∅. rewrite (left_id_L ∅ (∪)). split_and!; [set_solver| |exact (moves_refl w)|by left].
    refine (conj Hcf (conj Hfr (conj _ (conj _ (conj _ (conj _ (conj Hst Hpe))))))); cbn.
    + eapply rooms_tokens; [|exact Hro]. set_solver.
    + eapply battles_tokens; [|exact Hbt]. set_solver.
    + split; rewrite ?Hq; [done|done|lia].
    + eapply accounts_tokens; [|exact Hac]. set_solver.
  - exists {[TMatch n]}. split_and!; [done| |exact (moves_refl w)|right].
    + refine (conj Hcf (conj Hfr (conj Hro (conj Hbt (conj _ (conj Hac (conj Hst Hpe))))))). cbn.
      split; [by rewrite Hq| |exists n; set_solver]. rewrite Hq. by apply Forall_drop.
    + split_and!; [done| |by apply Forall_take|rewrite length_take; lia].
      destruct Q1 as (_ & Hnd & _). by apply (sublist_NoDup _ (queue_ (w_queue w))); [|apply sublist_take].
Qed.

Lemma quiet_queue_Remove T p : quiet T (queue_Remove p).
Proof.
  apply quiet_section. intros Y w (Hcf & Hfr & Hro & Hbt & [Q1 Q2 Q3] & Hac & Hst & Hpe) _.
  unfold queue_Remove; sections. destruct (Remove_repr _ _ p Q1) as [_ H2].
  destruct (MatchQueue_Remove _ _) as [b q']. cbn in *.
  assert (Hq : queue_ q' = filter (fun x => x <> p) (queue_ (w_queue w))) by apply H2.
  split_and!; [|exact (moves_refl w)|done].
  refine (conj Hcf (conj Hfr (conj Hro (conj Hbt (conj _ (conj Hac (conj Hst Hpe))))))). cbn.
  split; [by rewrite Hq|..]; rewrite Hq.
  - rewrite Forall_forall in Q2 |- *. intros x [_ Hin]%list_elem_of_filter. by apply Q2.
  - intros Hlen. apply Q3. pose proof (length_filter (fun x => x <> p) (queue_ (w_queue w))). lia.
Qed.
End interleave.

#[export] Hint Resolve quiet_SetSettlement quiet_room_Disconnect quiet_room_Reconnect quiet_HandleInput_game quiet_Eliminate
  quiet_tick_game quiet_RemoveRoom_loop quiet_SetRoomId quiet_SetHeartbeat quiet_RemoveRoom_tables
  quiet_NextPlayerId quiet_pending_delete quiet_queue_Remove quiet_FindPlayer : quiet.
