(* ===== verification/InterleaveHandlers.v ===== *)
(** * InterleaveHandlers: every handler keeps [Interleave.conc] in all schedules

    The handlers of [Lobby], [Login] and [GameServer], put together from the
    sections of [Interleave].  Most are [quiet]: they need nothing and own nothing
    between their sections.  The others pass a token on: the start of a room to
    [StartGameRoom], a drawn id to the table of accounts, the duty to look at the
    queue to [TryCreateRoom]; or a fact that stays true: who was in the room, how
    the battle ended, what is on record. *)
From S2P Require Import Prelude Wire Net StdString Messages GameRoom MatchQueue Config Registry Room Mysql Repositories SqlModel Redis Settlement Store Ledger Timer World Reason Lobby Login GameServer Threads ThreadLogic Steps Counters LoginInv QueueInv LobbyInv Interleave.
Local Open Scope Z_scope.

Section handlers.
Context {Srv Rds : Type} {MA : MysqlApi Srv} {RA : RedisApi Rds} {PB : Protobuf} {SC : StoreContract Srv Rds}.
Notation World := (World Srv Rds).
Notation M := (M Srv Rds).
Context (config : ConfigManager) (Hcount : 2 <= need_count config).
#[local] Set Default Proof Using "Hcount".
#[local] Notation stable := (Stable moves).
#[local] Notation conc := (conc config).
#[local] Notation tct := (tct fresh_ids conc moves).
#[local] Notation ct := (ct fresh_ids conc moves).
#[local] Notation quiet := (quiet fresh_ids conc moves).
#[local] Notation ct_pull := (ct_pull fresh_ids conc moves).
#[local] Notation ct_bind := (ct_bind fresh_ids conc moves).
#[local] Notation ct_skip := (ct_skip fresh_ids conc moves).
#[local] Notation ct_pre := (ct_pre fresh_ids conc moves).
#[local] Notation ct_post := (ct_post fresh_ids conc moves).
#[local] Notation ct_weaken := (ct_weaken fresh_ids conc moves).
#[local] Notation ct_and := (ct_and fresh_ids conc moves).
#[local] Notation ct_ret := (ct_ret fresh_ids conc moves).
#[local] Notation ct_section := (ct_section fresh_ids conc moves).
#[local] Notation ct_reads := (ct_reads fresh_ids conc moves).
#[local] Notation ct_for_each := (ct_for_each fresh_ids conc moves).
#[local] Notation ct_while := (ct_while fresh_ids conc moves).
#[local] Notation ct_catch := (ct_catch fresh_ids conc moves).
#[local] Notation ct_unspecified := (ct_unspecified fresh_ids conc moves).
#[local] Notation quiet_ct := (quiet_ct fresh_ids conc moves).
#[local] Notation quiet_bind := (quiet_bind fresh_ids conc moves).
#[local] Notation quiet_section := (quiet_section fresh_ids conc moves).
#[local] Notation tct_weaken := (tct_weaken fresh_ids conc moves).
#[local] Notation tct_ret := (tct_ret fresh_ids conc moves).
#[local] Notation tct_bind := (tct_bind fresh_ids conc moves).
#[local] Notation tct_section := (tct_section fresh_ids conc moves).
#[local] Notation tct_frame := (tct_frame fresh_ids conc moves).
#[local] Notation tct_reads := (tct_reads fresh_ids conc moves).
#[local] Notation tct_while := (tct_while fresh_ids conc moves).
#[local] Notation tct_exists := (fun T => tct_exists fresh_ids conc moves T).
#[local] Notation ct_exists := (fun T => ct_exists fresh_ids conc moves T).
#[local] Notation ct_arguments := (ct_arguments fresh_ids conc moves).
#[local] Notation tct_skip := (tct_skip fresh_ids conc moves).

(** Reading the services: they are all there. *)
Lemma ct_ctx T P {B} (k : ServiceContext -> Prog Srv Rds B) Q :
  stable P -> ct T P (k full_ctx) Q -> ct T P (reads w_ctx ≫= k) Q.
Proof.
  intros HP H. eapply ct_reads with (R' := fun ctx w => ctx = full_ctx /\ P w); [done| |].
  - intros Y w ((_ & Hx) & _) Hw. done.
  - intros ctx. apply ct_pull. by intros ->.
Qed.

(** *** The lobby *)
Lemma tct_StartGameRoom T i :
  tct T (fun D w => D = {[TRoom i]} /\ started_room i w) (StartGameRoom i) (fun _ D w => D = ∅ /\ True).
Proof.
  unfold StartGameRoom.
  eapply tct_reads with (R' := fun ctx D w => ctx = full_ctx /\ D = {[TRoom i]} /\ started_room i w).
  { intros D. exact _. }
  { intros D F w ((_ & Hx) & _) Hw. by split. }
  intros ctx. apply (tct_pure _ _ _ _ (ctx = full_ctx)); [by intros D w []|]. intros ->. cbn [game_loop negb full_ctx].
  eapply tct_reads with (R' := fun r D w => (r_room_id r = i /\ Z.of_nat (length (Room_PlayerIds r)) = need_count config)
    /\ D = {[TRoom i]} /\ members i (Room_PlayerIds r) w).
  { intros D. exact _. }
  { intros D F w (_ & _ & Hro & _) (_ & HD & r & Hr & _). unfold room_in. rewrite Hr.
    change (default _ (Some r)) with r. destruct (ro_heap _ _ _ _ _ _ _ Hro _ _ Hr) as (? & _ & ? & _).
    split; [done|]. split; [done|]. by exists r. }
  intros r. apply (tct_pure _ _ _ _ (r_room_id r = i /\ Z.of_nat (length (Room_PlayerIds r)) = need_count config));
    [by intros D w []|]. intros [Hid Hlen].
  eapply tct_bind.
  - eapply tct_weaken; [apply (tct_new_game config T i)|..].
    + exact Hid.
    + intros D w (_ & -> & Hm). split; [done|]. exists (Room_PlayerIds r). split; [exact Hm|].
      apply Start_ok, two_members; [apply NoDup_PlayerIds|lia].
    + intros a D w H. exact H.
  - intros a. eapply (ct_bind T (battle_at a i)); [apply ct_AddRoom|]. intros ?.
    quiet_tac.
Qed.

Definition known_room (i : Z) (w : World) : Prop := exists ids, members i ids w.
#[local] Instance known_room_stable i : stable (known_room i).
Proof. unfold known_room. exact _. Qed.

Lemma tct_SetReadyAndTryStart T i p b :
  tct T (fun D w => D = ∅ /\ known_room i w) (SetReadyAndTryStart i p b)
    (fun started D w => if (started : bool) then D = {[TRoom i]} /\ started_room i w else D = ∅).
Proof.
  unfold SetReadyAndTryStart. eapply tct_bind; [apply (tct_try_start config T i p b)|].
  intros [[]|]; [| |by apply tct_ret].
  - rewrite bool_decide_eq_true_2 by done. apply tct_skip; [quiet_tac|exact _|]. intros ?. by apply tct_ret.
  - rewrite bool_decide_eq_false_2 by done.
    apply (tct_weaken T (fun D _ => D = ∅ /\ True) _ _ (fun started D _ => started = false /\ D = ∅));
      [|by intros D w ->|by intros a D w [-> ->]].
    apply tct_skip; [quiet_tac|exact _|]. intros ?. apply tct_ret. by intros D w [-> _].
Qed.

Lemma ct_GetPlayerRoom T P {B} p (k : option Z -> Prog Srv Rds B) Q :
  stable P ->
  (forall room, ct T (fun w => P w /\ match room with Some i => known_room i w | None => True end) (k room) Q) ->
  ct T P (GetPlayerRoom p ≫= k) Q.
Proof.
  intros HP Hk. eapply ct_reads; [done| |exact Hk]. intros Y w (_ & _ & Hro & _) Hw. split; [done|].
  destruct (w_player_room_map w !! p) as [i|] eqn:Hi; [|done].
  destruct (ro_map _ _ _ _ _ _ _ Hro _ _ Hi) as (-> & r & Hr & _). by exists (Room_PlayerIds r), r.
Qed.

Lemma quiet_HandleReady T s p : quiet T (HandleReady (Some s) p).
Proof.
  unfold HandleReady. destruct (parse_ready p) as [ready|]; [|quiet_tac].
  apply quiet_bind; [quiet_tac|]. intros pid. apply ct_GetPlayerRoom; [exact _|]. intros [i|]; [|by apply ct_ret].
  eapply tct_bind; [eapply tct_weaken; [apply (tct_SetReadyAndTryStart T i pid ready)|..]|].
  - by intros D w (-> & _ & ?).
  - intros a D w H. exact H.
  - intros []; cbn [when_]; [apply tct_StartGameRoom|]. by apply tct_ret.
Qed.

(** *** Matching *)
Lemma quiet_notify_matched T i ps p : quiet T (notify_matched i ps p).
Proof. quiet_tac. Qed.

(** Somebody has to look at the queue again: this handler. *)
Definition on_duty (D : gset Tok) (w : World) : Prop := exists n, D = {[TMatch n]} /\ True.

Lemma tct_TryCreateRoom_turn T :
  tct T on_duty (TryCreateRoom_turn (need_count config))
    (fun again D w => if (again : bool) then on_duty D w else D = ∅).
Proof.
  apply tct_exists. intros n.
  unfold TryCreateRoom_turn. eapply tct_bind; [by apply (tct_TryPopN config T n)|]. intros players. cbn beta.
  eapply tct_reads with (R' := fun ctx D w => ctx = full_ctx /\ ((players = [] /\ D = ∅)
       \/ (D = {[TMatch n]} /\ NoDup players /\ Forall player_ok players
           /\ Z.of_nat (length players) = need_count config))).
  { intros D. exact _. }
  { intros D F w ((_ & Hx) & _) Hw. by split. }
  intros ctx. apply (tct_pure _ _ _ _ (ctx = full_ctx)); [by intros D w []|]. intros ->.
  case_bool_decide as He.
  { apply tct_ret. intros D w [_ [[_ ->]|(_ & _ & _ & Hlen)]]; [done|]. subst players. cbn in Hlen. lia. }
  apply (tct_pure _ _ _ _ (NoDup players /\ Forall player_ok players /\ Z.of_nat (length players) = need_count config)).
  { intros D w [_ [[? _]|(_ & ?)]]; [done|done]. }
  intros (Hnd & Hps & Hlen). rewrite (proj2 (Z.eqb_eq _ _)) by done. cbn [negb orb room_manager full_ctx].
  eapply tct_weaken with (P := fun D w => D = {[TMatch n]} /\ True); [| |intros a D w H; exact H].
  2: { intros D w [_ [[? _]|(-> & _)]]; done. }
  apply tct_skip; [by apply quiet_CreateRoom|exact _|]. intros room.
  apply tct_skip; [quiet_tac|exact _|]. intros r.
  apply tct_skip; [quiet_tac|exact _|]. intros ?. apply tct_ret. intros D w H. by exists n.
Qed.

Lemma tct_TryCreateRoom T :
  tct T on_duty TryCreateRoom (fun _ D w => D = ∅ /\ True).
Proof.
  unfold TryCreateRoom. eapply tct_reads with (R' := fun cfg D w => cfg = config /\ on_duty D w).
  { intros D. exact _. }
  { intros D F w ((Hc & _) & _) Hw. by split. }
  intros cfg. apply (tct_pure _ _ _ _ (cfg = config)); [by intros D w []|]. intros ->.
  apply (tct_weaken T on_duty _ _ (fun _ D w => D = ∅ /\ True));
    [|by intros D w [_ H]|done].
  apply tct_while; [intros D; unfold on_duty; exact _|].
  eapply tct_weaken; [apply tct_TryCreateRoom_turn|done|]. intros [] D w H; [exact H|done].
Qed.

Lemma quiet_StartMatching T p s message : is_i64 p -> quiet T (StartMatching p (Some s) message).
Proof.
  intros Hp. unfold StartMatching. case_match; [quiet_tac|].
  eapply tct_bind; [by apply (tct_queue_Push config T p)|]. intros [].
  - eapply tct_weaken with (P := on_duty); [|intros D w [n ->]; by exists n|intros ? D w HD; exact HD].
    eapply (tct_bind T on_duty (reads w_ctx) _ (fun _ => on_duty)).
    { apply tct_exists. intros n. eapply tct_weaken; [apply tct_frame, (quiet_ct False (fun _ => True)); [quiet_tac|exact _]|..].
      - intros D w HD. exact HD.
      - intros ? D w HD. by exists n. }
    intros ctx. cbn [negb]. apply tct_exists. intros n.
    apply tct_skip; [quiet_tac|exact _|]. intros ?.
    apply tct_skip; [quiet_tac|exact _|]. intros ?.
    apply tct_skip; [quiet_tac|exact _|]. intros ?.
    eapply tct_bind; [eapply tct_weaken; [apply tct_TryCreateRoom| |intros ? D w HD; exact HD]|].
    + intros D w HD. by exists n.
    + intros ?. by apply tct_ret.
  - eapply tct_weaken with (P := fun D w => D = ∅ /\ True); [|by intros D w ->|intros ? D w HD; exact HD].
    cbn [negb]. quiet_tac.
Qed.

Lemma quiet_RequeuePlayer T p : is_i64 p -> quiet T (RequeuePlayer p).
Proof.
  intros Hp. unfold RequeuePlayer. apply quiet_bind; [quiet_tac|]. intros ctx. case_match; [quiet_tac|].
  apply quiet_bind; [quiet_tac|]. intros [s|]; [by apply quiet_StartMatching|quiet_tac].
Qed.

(** The player a session speaks for. *)
Lemma ct_session_player T {B} s (k : Z -> Prog Srv Rds B) :
  (forall p, is_i64 p -> quiet T (k p)) -> quiet T (session_player s ≫= k).
Proof.
  intros Hk. eapply ct_reads with (R' := fun p w => is_i64 p /\ True); [exact _| |].
  - intros Y w HI _. split; [by eapply session_typed|done].
  - intros p. apply ct_pull. apply Hk.
Qed.

Lemma quiet_HandleMatch T s p : quiet T (HandleMatch (Some s) p).
Proof.
  unfold HandleMatch. destruct (parse_match p) as [requested|] eqn:Hparse; [|quiet_tac].
  apply ct_session_player. intros own Hown. case_match; [quiet_tac|].
  apply quiet_bind; [|intros; quiet_tac]. apply quiet_StartMatching. case_match; [done|]. by eapply parse_match_typed.
Qed.

(** *** Leaving *)
Lemma quiet_RemoveRoom T i : quiet T (RemoveRoom i).
Proof. quiet_tac. Qed.

Lemma quiet_HandleLeaveWaiting T s i : ct T (known_room i) (HandleLeaveWaiting s i) (fun _ _ => True).
Proof.
  unfold HandleLeaveWaiting.
  eapply ct_reads with (R' := fun r w => (forall k, k ∈ Room_PlayerIds r -> player_ok k) /\ True); [exact _| |].
  { intros Y w (_ & _ & Hro & _) (ids & r & Hr & _). unfold room_in. rewrite Hr. split; [|done].
    by apply (ro_heap _ _ _ _ _ _ _ Hro _ _ Hr). }
  intros r. apply ct_pull. intros Hps. cbv zeta.
  apply quiet_bind; [quiet_tac|]. intros leaver. apply quiet_bind; [quiet_tac|]. intros ?.
  apply quiet_bind; [quiet_tac|]. intros ?. apply quiet_bind; [apply quiet_RemoveRoom|]. intros ?.
  apply quiet_bind; [quiet_tac|]. intros ctx. case_match; [quiet_tac|].
  apply ct_for_each. intros p [_ Hp]%list_elem_of_filter.
  apply quiet_bind; [apply quiet_RequeuePlayer; by apply Hps|]. intros b. by apply ct_ret.
Qed.

Lemma quiet_HandleLeaveRoom T s p : quiet T (HandleLeaveRoom (Some s) p).
Proof.
  unfold HandleLeaveRoom. destruct (parse_leave p) as [requested|]; [|quiet_tac].
  apply quiet_bind; [quiet_tac|]. intros pid. apply ct_GetPlayerRoom; [exact _|]. intros [i|]; [|].
  2: { apply (ct_pre T (fun _ => True)); [|done]. quiet_tac. }
  apply (ct_pre T (known_room i)); [|by intros w []].
  apply ct_skip; [quiet_tac|exact _|]. intros r. case_match.
  { apply (ct_pre T (fun _ => True)); [|done]. quiet_tac. }
  apply ct_skip; [quiet_tac|exact _|]. intros r1. case_bool_decide; [apply quiet_HandleLeaveWaiting|].
  apply (ct_pre T (fun _ => True)); [|done].
  quiet_tac.
Qed.

(** *** Login *)
Lemma ct_drawn_ctx T p {B} (k : ServiceContext -> Prog Srv Rds B) (P : World -> Prop) Q :
  stable P -> (is_i64 p -> ct T (fun w => drawn_id p w /\ P w) (k full_ctx) Q) ->
  ct T (fun w => drawn_id p w /\ P w) (reads w_ctx ≫= k) Q.
Proof.
  intros HP H. eapply ct_reads with (R' := fun ctx w => (ctx = full_ctx /\ is_i64 p) /\ drawn_id p w /\ P w);
    [exact _| |].
  - intros Y w HI [Hd Hw]. split; [|done]. split; [apply HI|]. by apply (drawn_typed config Y w).
  - intros ctx. apply ct_pull. intros [-> Hp]. by apply H.
Qed.

Lemma ct_GetOrCreatePlayerId account : ct True (fun _ => True) (GetOrCreatePlayerId account) drawn_id.
Proof.
  unfold GetOrCreatePlayerId. apply ct_skip; [quiet_tac|exact _|]. intros key.
  eapply ct_reads with (R' := fun it w => match it with Some p => drawn_id p w | None => True end); [exact _| |].
  { intros Y w (_ & _ & _ & _ & _ & Hac & _) _. destruct (w_account_players w !! key) as [p|] eqn:Hp; [|done].
    by apply (ac_issued _ _ _ _ _ Hac key). }
  intros [p|]; [by apply ct_ret|].
  eapply tct_bind; [apply tct_NextPlayerId|]. intros p. eapply tct_bind; [apply tct_new_account|]. intros ?.
  apply (ct_pre True (fun w => drawn_id p w /\ True)); [|done].
  apply ct_drawn_ctx; [exact _|]. intros Hp. cbn [when_ player_repository mysql_client full_ctx].
  apply ct_skip; [by apply quiet_repository_CreatePlayer|exact _|]. intros ?. apply ct_ret. by intros w [].
Qed.

Lemma quiet_HandleLogin s p : quiet True (HandleLogin (Some s) p).
Proof.
  unfold HandleLogin. destruct (parse_login p) as [[account token]|]; [|quiet_tac].
  eapply ct_bind; [apply ct_GetOrCreatePlayerId|]. intros pid.
  apply ct_skip; [quiet_tac|exact _|]. intros tok.
  eapply ct_bind with (R' := fun _ w => drawn_id pid w /\ token_of pid w).
  { eapply ct_weaken; [apply (ct_and True _ (drawn_id pid) _ _ (ct_new_token config True pid tok)); exact _|done| |].
    - by intros w.
    - by intros ? w []. }
  intros ?. apply ct_drawn_ctx; [exact _|]. intros Hpid.
  cbn [when_ connection_manager player_repository player_manager room_manager mysql_client full_ctx].
  apply ct_skip; [quiet_tac|exact _|]. intros ?.
  apply (ct_pre True (token_of pid)); [|by intros w []].
  eapply ct_bind; [apply ct_BindPlayerId|]. intros ?. apply (ct_pre True (fun _ => True)); [|done].
  apply quiet_bind; [quiet_tac|]. intros ?. apply quiet_bind; [quiet_tac|]. intros ?.
  apply quiet_bind; [by apply quiet_repository_LoadPlayer|]. intros data. quiet_tac.
Qed.

Lemma quiet_HandleReconnect T s p : quiet T (HandleReconnect (Some s) p).
Proof.
  unfold HandleReconnect. destruct (parse_reconnect p) as [[pid token]|]; [|quiet_tac].
  eapply ct_reads with (R' := fun saved w => saved = Some token -> token_of pid w); [exact _| |].
  { intros Y w _ _ H. unfold token_of. by rewrite H. }
  intros saved. case_bool_decide as Hs; cbn [negb]; [|apply (ct_pre T (fun _ => True)); [quiet_tac|done]].
  eapply ct_bind; [eapply ct_pre; [apply (ct_BindPlayerId config T s pid)|]; intros w H; by apply H|]. intros ?.
  apply (ct_pre T (fun _ => True)); [quiet_tac|done].
Qed.

(** *** The end of a battle *)
Lemma quiet_sync_ranks ss ps : ss_mysql ss = true -> quiet True (sync_ranks_sections ss ps).
Proof.
  intros Hss. induction ps as [|p ps IH]; cbn [sync_ranks_sections]; [quiet_tac|]. rewrite Hss.
  apply quiet_bind; [apply quiet_FindPlayer|]. intros [data|]; [|quiet_tac].
  apply quiet_bind; [quiet_tac|]. intros cf. apply quiet_bind; [quiet_tac|]. intros []; [exact IH|quiet_tac].
Qed.

(** The settlement of room [i] among its members [ids]: [true] means it is on record. *)
Lemma ct_settle_battle i b winner losers ids :
  is_i64 i -> (forall k, k ∈ ids -> is_i64 k) ->
  (winner <> 0 -> forall k, k ∈ winner :: losers <-> k ∈ ids) ->
  ct True (members i ids) (settle_battle b i winner losers)
    (fun settled w => members i ids w /\ (settled = true -> on_record i ids w)).
Proof.
  intros Hi Hids HL. unfold settle_battle. apply ct_ctx; [exact _|]. unfold settlement_pointers.
  cbn [battle_repository player_repository rank_service mysql_client redis_client full_ctx ss_mysql ss_rank_service].
  destruct (settlement_request _ _ _ _ _) as [ps|] eqn:Hrq; [|by apply ct_ret].
  destruct (settlement_request_spec _ _ _ _ _ _ Hrq) as (_ & _ & Hw & _ & _ & Hps).
  assert (Heq : forall k, k ∈ ids <-> k ∈ ps) by (intros k; rewrite <- HL, Hps, elem_of_cons by lia; tauto).
  eapply ct_bind with (R' := fun applied w => members i ids w /\ (applied = true -> on_record i ids w)).
  { apply ct_mysql_call; [exact _|]. intros Y cfg w r c' _ Hm Hs Hap.
    assert (Hwin : winner ∈ ps) by (apply Hps; by left).
    destruct (store_ApplySettlement _ _ _ _ _ _ _ _ Hs Hi (Hids _ (proj2 (Heq _) Hwin))
      (fun p Hp => Hids p (proj2 (Heq p) Hp)) Hwin Hap) as (Hso & Hrec & Htrue).
    split; [by split|]. intros applied ->. split; [exact Hm|]. intros ->. by apply Htrue. }
  intros []; cbn [negb]; [|by apply ct_ret].
  apply (ct_pre True (fun w => members i ids w /\ on_record i ids w)); [|intros w [? H]; split; auto].
  eapply ct_post; [apply (quiet_ct True (fun w => members i ids w /\ on_record i ids w)); [by apply quiet_sync_ranks|exact _]|].
  by intros settled w [].
Qed.

Lemma ct_finish_room T i winner losers ids :
  ct T (fun w => members i ids w /\ on_record i ids w) (finish_room i i winner losers) (fun _ _ => True).
Proof.
  unfold finish_room. apply ct_skip; [quiet_tac|exact _|]. intros ?. apply ct_skip; [quiet_tac|exact _|]. intros ?.
  eapply ct_bind; [apply ct_Close|]. intros ?. quiet_tac.
Qed.

Lemma ct_battle_id_of i p ids :
  is_i64 i -> is_i64 (ps_battle_id p) -> ct True (members i ids) (battle_id_of i p) (fun _ => members i ids).
Proof.
  intros Hi Hp. unfold battle_id_of. case_match; [|by apply ct_ret].
  eapply ct_bind with (R' := fun b w => is_i64 b /\ members i ids w).
  - apply ct_mysql_call; [exact _|]. intros Y cfg w r c' _ Hm Hs.
    pose proof (store_CreateBattle cfg (w_mysql w) i Hs Hi) as Hst. pose proof (CreateBattle_typed cfg (w_mysql w) i) as Hty.
    destruct (CreateBattle _ _ _ _) as [b c]. intros [= <- <-]. split; [exact Hst|]. by intros a [= <-].
  - intros b. apply ct_pull. intros Hb. apply ct_skip; [by apply quiet_pending_insert|exact _|]. intros ?. by apply ct_ret.
Qed.

Lemma ct_tick_callback i state over winner ids :
  (forall k, is_Some (gs_players state !! k) <-> k ∈ ids) -> (winner <> 0 -> winner ∈ ids) ->
  ct True (members i ids) (tick_callback i state over winner) (fun _ _ => True).
Proof.
  intros Hst Hwin. unfold tick_callback, GetRoom.
  eapply ct_reads with (R' := fun room w => ((forall a, room = Some a -> a = i) /\ is_i64 i /\ forall k, k ∈ ids -> is_i64 k)
    /\ members i ids w); [exact _| |].
  { intros Y w (_ & [Hfr _] & Hro & _) (r & Hr & Hids). destruct (ro_heap _ _ _ _ _ _ _ Hro _ _ Hr) as (_ & Hrange & _ & Hpl).
    split_and!; [|unfold is_i64, int64_min, int64_max; lia| |by exists r].
    - intros a Ha. by apply (ro_rooms _ _ _ _ _ _ _ Hro) in Ha as [-> _].
    - intros k Hk%Hids. by apply Hpl. }
  intros room. apply ct_pull. intros (Hroom & Hi & Hids). destruct room as [a|]; [|by apply ct_ret].
  rewrite (Hroom a) by done. apply ct_skip; [quiet_tac|exact _|]. intros ?.
  destruct over; cbn [negb]; [|by apply ct_ret].
  apply ct_skip; [quiet_tac|exact _|]. intros ?.
  assert (HL : winner <> 0 -> forall k, k ∈ winner :: losers_of state winner <-> k ∈ ids).
  { intros Hw k. rewrite elem_of_cons. unfold losers_of. rewrite list_elem_of_filter, elem_of_keys, Hst.
    specialize (Hwin Hw). split; [by intros [->|[_ ?]]|]. destruct (decide (k = winner)); tauto. }
  eapply ct_bind with (R' := fun p w => is_i64 (ps_battle_id p) /\ members i ids w).
  { unfold pending_of. eapply ct_reads with (R' := fun p w => is_i64 (ps_battle_id p) /\ members i ids w); [exact _| |].
    - intros Y w (_ & _ & _ & _ & _ & _ & _ & Hpe) Hm. split; [|exact Hm].
      destruct (w_pending w !! i) as [q|] eqn:Hq; [|done]. by apply (Hpe i q).
    - intros p. apply ct_pull. intros Hp. apply ct_skip; [by apply quiet_pending_insert|exact _|]. intros ?. by apply ct_ret. }
  intros p. apply ct_pull. intros Hp. apply ct_skip; [quiet_tac|exact _|]. intros now.
  case_match; [by apply ct_ret|]. apply ct_skip; [by apply quiet_pending_insert|exact _|]. intros ?.
  eapply ct_bind; [by apply ct_battle_id_of|]. intros b.
  eapply ct_bind with (R' := fun settled w => members i ids w /\ (settled = true -> on_record i ids w)).
  { case_match; [by apply ct_ret|by apply ct_settle_battle]. }
  intros []; cbn [negb]; [|by apply ct_ret].
  eapply ct_pre; [apply ct_finish_room|]. intros w [Hm H']. split; [exact Hm|by apply H'].
Qed.

(** *** The game loop *)
Definition battle_of (g i : Z) (ids : list Z) (w : World) : Prop :=
  battle_at g i w /\ members i ids w /\ fighters g ids w.
Definition known_battle (g : Z) (w : World) : Prop := exists i ids, battle_of g i ids w.
#[local] Instance battle_of_stable g i ids : stable (battle_of g i ids).
Proof. unfold battle_of. exact _. Qed.
#[local] Instance known_battle_stable g : stable (known_battle g).
Proof. unfold known_battle. exact _. Qed.

(** What one getter of a battle returns. *)
Lemma ct_game_reads T g i ids {A} (f : GameRoom -> A) (F : A -> Prop) :
  (forall gr, battle_ok ids gr -> F (f gr)) ->
  ct T (battle_of g i ids) (game_reads g f) (fun a w => F a /\ battle_of g i ids w).
Proof.
  intros HF. apply ct_section; [exact _|]. intros Y w HI _ Hb. cbn. split_and!; [done|reflexivity| |done].
  destruct Hb as ((gr & Hg & _) & _ & (gr' & Hg' & Hin)). rewrite Hg in Hg'. injection Hg' as <-.
  rewrite Hg. cbn. apply HF. destruct HI as (_ & _ & _ & Hbt & _).
  destruct (bt_games _ _ _ _ _ Hbt _ _ Hg) as (_ & _ & r & _ & _ & Hok).
  eapply battle_ok_ext; [|exact Hok]. intros k. by rewrite <- (bo_members _ _ Hok), Hin.
Qed.

Lemma members_typed Y w i ids k : conc Y w -> members i ids w -> k ∈ ids -> player_ok k.
Proof.
  intros (_ & _ & Hro & _) (r & Hr & Hids) Hk%Hids.
  by apply (ro_heap _ _ _ _ _ _ _ Hro _ _ Hr).
Qed.

Lemma quiet_Loop_room g : ct True (known_battle g) (Loop_room g) (fun _ _ => True).
Proof.
  apply ct_exists. intros i. apply ct_exists. intros ids. unfold Loop_room.
  apply ct_skip; [quiet_tac|exact _|]. intros ?.
  eapply ct_reads with (R' := fun id w => id = i /\ battle_of g i ids w); [exact _| |].
  { intros Y w _ Hb. split; [|done]. destruct Hb as ((gr & Hg & Hi) & _). by rewrite Hg. }
  intros id. apply ct_pull. intros ->.
  eapply ct_bind; [eapply (ct_arguments True (battle_of g i ids) _ _ _
    (fun st => forall k, is_Some (gs_players st !! k) <-> k ∈ ids) (fun _ => True) (fun winner => winner <> 0 -> winner ∈ ids))|].
  - apply ct_game_reads. intros gr Hok. apply Hok.
  - by apply ct_game_reads.
  - apply ct_game_reads. intros gr Hok Hw. destruct (gr_game_over gr) eqn:Ho.
    + apply (bo_members _ _ Hok). destruct (bo_over _ _ Hok Ho) as [(e & He & _) _]. by exists e.
    + by destruct (bo_running _ _ Hok Ho).
  - intros [[st over] winner]. cbn [fst snd]. apply ct_pull. intros (Hst & _ & Hwin).
    eapply ct_pre; [by apply ct_tick_callback|]. by intros w (_ & ? & _).
Qed.

Lemma quiet_Loop_round : quiet True Loop_round.
Proof.
  unfold Loop_round.
  eapply ct_reads with (R' := fun gs w => forall g, g ∈ gs -> known_battle g w); [exact _| |].
  { intros Y w (_ & _ & _ & Hbt & _) _ g [[i g'] [-> Hin]]%list_elem_of_fmap. cbn.
    apply elem_of_map_to_list in Hin. destruct (bt_loop _ _ _ _ _ Hbt _ _ Hin) as (gr & Hg & Hi).
    destruct (bt_games _ _ _ _ _ Hbt _ _ Hg) as (_ & _ & r & Hr & _ & Hok). rewrite Hi in Hr.
    exists i, (Room_PlayerIds r). split_and!; [by exists gr|by exists r|exists gr].
    split; [done|]. intros k. by rewrite (bo_members _ _ Hok). }
  intros gs. set (P w := forall g, g ∈ gs -> known_battle g w).
  assert (HP : stable P).
  { intros w w' Hw H g Hg. eapply (known_battle_stable g); [done|by apply H]. }
  eapply ct_post; [apply (ct_for_each True P gs)|done]. intros g Hg.
  eapply ct_weaken; [apply (ct_and True _ P _ _ (quiet_Loop_room g) HP)|done| |].
  - intros w Hw. split; [by apply Hw|done].
  - by intros ? w [].
Qed.
End handlers.
