(* ===== verification/Server.v ===== *)
(** * Server: what holds in every reachable world, handlers one at a time

    The theorems on the whole server, read off the invariants of [LobbyInv]:
    the first two with [NoContract], whatever the database does, the last two
    with [LedgerContract], over a MySQL server with its documented laws. *)
From S2P Require Import Prelude Wire Net StdString Messages GameRoom MatchQueue Config Registry Room Mysql Repositories SqlModel BattleStore Ledger Redis Settlement Store Timer World Reason Lobby Login GameServer Steps LoginInv QueueInv LobbyInv.
Local Open Scope Z_scope.

Section any_database.
Context {Srv Rds : Type} {MA : MysqlApi Srv} {RA : RedisApi Rds} {PB : Protobuf}.
#[local] Existing Instance NoContract.

(** What the theorems assume of the run: rooms hold at least two players, and
    fewer than 2^63 rooms were made. *)
Definition sane (config : ConfigManager) (w : World Srv Rds) : Prop :=
  2 <= need_count config /\ next_room_id (w_ids w) <= 2 ^ 63.

Lemma reachable_lobby config (srv : Srv) (rds : Rds) w :
  sane config w -> reachable config srv rds w -> lobby config None w.
Proof.
  intros [Hc Hn] Hw. destruct (reachable_server config Hc srv rds w) as [_ [_ Hl]]; [done|done|]. by apply Hl.
Qed.

(** C5: With handlers run one at a time, in every reachable world the two tables of
    the room manager agree: a player's room is listed and has the player as a member; a listed room is the
    one its id names, has exactly as many members as configured, all with valid
    ids, is not closed, and has a battle on the game loop if and only if it has
    started. *)
Theorem rooms_consistent config (srv : Srv) (rds : Rds) w
    (Hsane : sane config w) (Hw : reachable config srv rds w) :
  (forall p i, w_player_room_map w !! p = Some i ->
     w_rooms w !! i = Some i /\ exists r, w_room_heap w !! i = Some r /\ p ∈ Room_PlayerIds r)
  /\ (forall i a, w_rooms w !! i = Some a -> a = i /\ exists r, w_room_heap w !! i = Some r
       /\ r_room_id r = i
       /\ Z.of_nat (length (Room_PlayerIds r)) = need_count config
       /\ (forall p, p ∈ Room_PlayerIds r -> p <> 0 /\ is_i64 p)
       /\ r_state r <> RoomState.Closed
       /\ (is_Some (w_loop_rooms w !! i) <-> r_state r <> RoomState.Waiting)).
Proof.
  pose proof (reachable_lobby _ _ _ _ Hsane Hw) as Hok. split; [apply (lo_map Hok)|].
  intros i a Hi. destruct (lo_rooms Hok _ _ Hi) as (-> & r & Hr & Hst). destruct (Hst ltac:(done)) as [Hc Hl].
  destruct (lo_heap Hok _ _ Hr) as (Hid & _ & Hlen & Hp).
  split; [done|]. exists r. split_and!; [done|done|done|done|done|]. split; [|done].
  intros [g Hg]. destruct (lo_loop Hok _ _ Hg ltac:(done)) as (_ & gr & Hgr & <-).
  destruct (lo_games Hok _ _ Hgr) as (_ & r' & Hr' & Hw' & _). congruence.
Qed.

(** C6: With handlers run one at a time, in every reachable world a battle of the
    game loop is the battle of a listed room: its entities are the room's members; as
    long as it runs at least two of them are alive and there is no winner; once it is over the winner is a
    member and the only one alive, so the callback settles it with that winner
    and all the others as losers. *)
Theorem running_battles config (srv : Srv) (rds : Rds) w i g
    (Hsane : sane config w) (Hw : reachable config srv rds w) (Hg : w_loop_rooms w !! i = Some g) :
  w_rooms w !! i = Some i /\ exists gr r, w_games w !! g = Some gr /\ w_room_heap w !! i = Some r
    /\ gr_room_id gr = i
    /\ (forall p, is_Some (GameRoom.players gr !! p) <-> p ∈ Room_PlayerIds r)
    /\ (gr_game_over gr = false -> gr_winner_id gr = 0 /\ two_alive (GameRoom.players gr))
    /\ (gr_game_over gr = true ->
        (forall p, alive_at (GameRoom.players gr) p <-> p = gr_winner_id gr)
        /\ forall p, p ∈ Room_PlayerIds r <-> p = gr_winner_id gr \/ p ∈ losers_of (gr_state gr) (gr_winner_id gr)).
Proof.
  pose proof (reachable_lobby _ _ _ _ Hsane Hw) as Hok.
  destruct (lo_loop Hok _ _ Hg ltac:(done)) as (Hi & gr & Hgr & Hid). split; [done|].
  destruct (lo_games Hok _ _ Hgr) as (_ & r & Hr & _ & Hb). rewrite Hid in Hr. exists gr, r.
  split_and!; [done|done|done|apply Hb|apply Hb|]. intros Ho. split.
  - intros p. destruct (bo_over _ _ Hb Ho) as [Ha Hu]. split; [apply Hu|by intros ->].
  - intros p. rewrite <- elem_of_cons. by apply over_members.
Qed.
End any_database.

Section lawful_database.
Context {Srv Rds : Type} {MA : MysqlApi Srv} {ML : MysqlLaws Srv} {RA : RedisApi Rds} {PB : Protobuf}.
#[local] Existing Instance LedgerContract.
#[local] Set Default Proof Using "All".

Lemma started_ledger config (srv : Srv) (rds : Rds) w :
  ledger (committed srv) -> started config srv rds w -> ledger_ok (w_mysql w).
Proof.
  intros Hl Hw. destruct (started_world _ _ _ _ Hw) as (my & rd & -> & ok & Hc). cbn.
  pose proof (ensure_connected_spec (mysql_ config) (mkMysqlClient false false srv) ok my) as Hs.
  destruct Hs as (Hi & Hco & _); [split; [done|by intros]|by symmetry|]. split; [done|]. by rewrite Hco.
Qed.

Lemma reachable_lawful config (srv : Srv) (rds : Rds) w :
  ledger (committed srv) -> sane config w -> reachable config srv rds w -> lobby config None w.
Proof.
  intros Hl [Hc Hn] Hw. destruct (reachable_server config Hc srv rds w) as [_ [_ Hlo]]; [|done|by apply Hlo].
  intros w0. by apply started_ledger.
Qed.

(** C1: With handlers run one at a time no battle is lost: in every world reachable by
    complete handlers, loop rounds and timer wakings, whatever requests came, players
    left or disconnected, and calls of the database failed, a room that has
    started is still listed, to be settled at a later tick, or the database
    holds its battle, settled once with one member as the winner and exactly the
    members in the log, +20 for the winner and -10 for the others. *)
Theorem no_battle_lost config (srv : Srv) (rds : Rds) w i r
    (Hsane : sane config w) (Hsrv : ledger (committed srv)) (Hw : reachable config srv rds w)
    (Hr : w_room_heap w !! i = Some r) (Hs : r_state r <> RoomState.Waiting) :
  w_rooms w !! i = Some i
  \/ battle_recorded (committed (Mysql.srv (w_mysql w))) i (Room_PlayerIds r).
Proof.
  pose proof (reachable_lawful _ _ _ _ Hsrv Hsane Hw) as Hok. by apply (lo_done Hok _ _ Hr Hs).
Qed.

(** The running server keeps the books: in every reachable world the tables of
    the database satisfy the ledger, so every score is 1000, plus 20 a win,
    minus 10 a loss, with the wins and losses of the log, and no transaction is
    left open between two steps. *)
Theorem server_keeps_the_books config (srv : Srv) (rds : Rds) w
    (Hsane : sane config w) (Hsrv : ledger (committed srv)) (Hw : reachable config srv rds w) :
  idle (w_mysql w)
  /\ forall p row, SqlModel.players (committed (Mysql.srv (w_mysql w))) !! p = Some row ->
       p_score row = 1000 + 20 * p_win row - 10 * p_lose row
       /\ p_win row = tally is_win (logs (committed (Mysql.srv (w_mysql w)))) p
       /\ p_lose row = tally is_loss (logs (committed (Mysql.srv (w_mysql w)))) p.
Proof.
  pose proof (reachable_lawful _ _ _ _ Hsrv Hsane Hw) as Hok. destruct (lo_store Hok) as [Hi Hl].
  split; [done|]. intros p row Hp. by apply ledger_scores.
Qed.
End lawful_database.
