(* ===== verification/Interleaved.v ===== *)
(** * Interleaved: what holds in every process, at any moment of any schedule

    The handlers of [InterleaveHandlers] make up [event_handler]; [wp_schedule] then gives
    the invariant [conc] in every process a started server can get to
    ([creachable_conc]), and the theorems read it off, with [NoContract] whatever
    the database does, or with [LedgerContract] over a MySQL server with its
    documented laws. *)
From S2P Require Import Prelude Wire Net StdString Messages GameRoom MatchQueue Config Registry Room Mysql Repositories SqlModel BattleStore Ledger Redis Settlement Store Timer World Reason Lobby Login GameServer Threads ThreadLogic Steps Counters LoginInv QueueInv LobbyInv Interleave InterleaveHandlers Server.
Local Open Scope Z_scope.

Section events.
Context {Srv Rds : Type} {MA : MysqlApi Srv} {RA : RedisApi Rds} {PB : Protobuf} {SC : StoreContract Srv Rds}.
Notation World := (World Srv Rds).
Context (config : ConfigManager) (Hcount : 2 <= need_count config).
#[local] Set Default Proof Using "Hcount".
#[local] Notation conc := (conc config).
#[local] Notation quiet := (quiet fresh_ids conc moves True).

#[local] Hint Resolve quiet_HandleReady quiet_HandleMatch quiet_HandleLeaveRoom quiet_HandleLogin
  quiet_HandleReconnect quiet_Loop_round : quiet.

Lemma quiet_Dispatch s p : quiet (Dispatch dispatcher (Some s) p).
Proof.
  unfold Dispatch. destruct (dispatcher !! msg_id p) as [h|] eqn:Hh; [|quiet_tac].
  apply dispatcher_handlers in Hh. rewrite !elem_of_cons, elem_of_nil in Hh.
  destruct_or! Hh; try done; subst h; quiet_tac.
Qed.
#[local] Hint Resolve quiet_Dispatch : quiet.

Lemma quiet_on_accept ok : quiet (on_accept ok).
Proof.
  unfold on_accept. quiet_tac. by apply quiet_new_session.
Qed.
#[local] Hint Resolve quiet_on_accept : quiet.

Lemma quiet_event_handler w e m : event_handler w e = Some m -> quiet m.
Proof.
  assert (H : match event_handler w e with Some m => quiet m | None => True end).
  { destruct e; cbn [event_handler];
    repeat match goal with |- context [if ?b then _ else _] => destruct b end; try exact I; quiet_tac. }
  intros Hm. by rewrite Hm in H.
Qed.

(** ** The start, and every schedule from it *)
Lemma conc_start (srv : Srv) (rds : Rds) w : started config srv rds w -> store_ok (w_mysql w) -> conc ∅ w.
Proof.
  intros Hw. destruct (started_world _ _ _ _ Hw) as (my & rd & -> & _). cbn. intros Hs.
  split_and!; try done; split; cbn; try done; try (intros *; by rewrite ?lookup_empty); try lia.
  apply repr_new.
Qed.

(** One stretch of a schedule. *)
Lemma csteps_conc p p' acts :
  counting p -> process_ok fresh_ids conc moves p -> csteps p acts = Some p' -> fresh_ids (c_world p') ->
  counting p' /\ process_ok fresh_ids conc moves p' /\ moves (c_world p) (c_world p').
Proof.
  intros Hc Hok Hacts Hfresh.
  eapply (wp_schedule fresh_ids conc moves) with (before := counting); [..|exact Hc|exact Hok|exact Hacts|exact Hfresh].
  - intros w e m Y _ He. apply quiet_handler; [exact _|]. by eapply quiet_event_handler.
  - intros Y w now steady HI. split; [exact HI|exact (moves_refl w)].
  - intros Y w conn HI. split; [exact HI|exact (moves_refl w)].
  - intros q a q' Hq Ha. destruct (counting_step q a q' Hq Ha) as [? [? ?]]. split; [done|].
    intros [? ?]. split; lia.
Qed.

Lemma creachable_process (srv : Srv) (rds : Rds) p :
  (forall w, started config srv rds w -> store_ok (w_mysql w)) ->
  creachable config srv rds p -> fresh_ids (c_world p) -> counting p /\ process_ok fresh_ids conc moves p.
Proof.
  intros Hstore (w0 & acts & Hw0 & Hacts) Hfresh.
  destruct (csteps_conc (mkProcess w0 ∅) p acts) as (? & ? & _); [apply counting_start| |done|done|done].
  apply process_start; [exact _|]. apply (conc_start srv rds); [done|by apply Hstore].
Qed.

Lemma creachable_conc (srv : Srv) (rds : Rds) p :
  (forall w, started config srv rds w -> store_ok (w_mysql w)) ->
  creachable config srv rds p -> fresh_ids (c_world p) ->
  exists Y, conc Y (c_world p) /\ (quiescent p -> Y = ∅).
Proof.
  intros Hs Hp Hf. destruct (creachable_process srv rds p Hs Hp Hf) as [_ Hok].
  destruct (decide (c_threads p = ∅)) as [Hq|Hq].
  - exists ∅. split; [by eapply (quiescent_inv _ _ _ _ Hok)|done].
  - destruct (process_ok_inv _ _ _ _ Hok) as [Y HY]. by exists Y.
Qed.

(** What was so in a process and how it moved on from there. *)
Lemma creachable_moves (srv : Srv) (rds : Rds) p p' acts :
  (forall w, started config srv rds w -> store_ok (w_mysql w)) ->
  creachable config srv rds p -> csteps p acts = Some p' -> fresh_ids (c_world p') ->
  fresh_ids (c_world p) /\ moves (c_world p) (c_world p').
Proof.
  intros Hs (w0 & acts0 & Hw0 & Hacts0) Hacts Hf.
  assert (Hcount0 : counting p).
  { eapply (csteps_ind counting); [|apply counting_start|exact Hacts0]. intros c a c' Hc Ha. by eapply counting_step. }
  assert (Hfp : fresh_ids (c_world p)).
  { assert (H : counting p' /\ counts_up (c_world p) (c_world p')).
    { eapply (csteps_ind (fun q => counting q /\ counts_up (c_world p) (c_world q))); [|by split|exact Hacts].
      intros c a c' [Hc Hu] Ha. destruct (counting_step c a c' Hc Ha). split; [done|by etrans]. }
    destruct H as [_ [? ?]], Hf as [? ?]. split; lia. }
  split; [done|]. destruct (creachable_process srv rds p Hs) as [Hc Hok]; [by exists w0, acts0|done|].
  by apply (csteps_conc p p' acts).
Qed.
End events.

(** ** The theorems *)
(** What they assume of a run: rooms hold at least two players, and no counter has
    run through. *)
Definition threads_sane {Srv Rds} (config : ConfigManager) (p : Process Srv Rds) : Prop :=
  2 <= need_count config /\ fresh_ids (c_world p).

Section any_database.
Context {Srv Rds : Type} {MA : MysqlApi Srv} {RA : RedisApi Rds} {PB : Protobuf}.
#[local] Existing Instance NoContract.
#[local] Notation creachable := (creachable (Srv := Srv) (Rds := Rds)).

Lemma any_conc config srv rds p :
  threads_sane config p -> creachable config srv rds p ->
  exists Y, conc config Y (c_world p) /\ (quiescent p -> Y = ∅).
Proof. intros [Hc Hf] Hp. by eapply creachable_conc. Qed.

(** C7: At any moment of any schedule a battle of the game loop is the one
    battle of its room: the room is there and has started, the battle's entities
    are its members, at least two of them are alive and there is no winner while
    it runs, and once it is over the winner is a member and the only one alive. *)
Theorem interleaved_battles config srv rds p i g
    (Hsane : threads_sane config p) (Hp : creachable config srv rds p)
    (Hg : w_loop_rooms (c_world p) !! i = Some g) :
  exists gr r, w_games (c_world p) !! g = Some gr /\ gr_room_id gr = i
    /\ w_room_heap (c_world p) !! i = Some r /\ r_state r <> RoomState.Waiting
    /\ Z.of_nat (length (Room_PlayerIds r)) = need_count config
    /\ (forall k, is_Some (GameRoom.players gr !! k) <-> k ∈ Room_PlayerIds r)
    /\ (gr_game_over gr = false -> gr_winner_id gr = 0 /\ two_alive (GameRoom.players gr))
    /\ (gr_game_over gr = true -> forall k, alive_at (GameRoom.players gr) k <-> k = gr_winner_id gr)
    /\ (forall g' gr', w_games (c_world p) !! g' = Some gr' -> gr_room_id gr' = i -> g' = g).
Proof.
  destruct (any_conc _ _ _ _ Hsane Hp) as (Y & (_ & _ & Hro & Hbt & _) & _).
  destruct (bt_loop _ _ _ _ _ Hbt _ _ Hg) as (gr & Hgr & Hi).
  destruct (bt_games _ _ _ _ _ Hbt _ _ Hgr) as (_ & _ & r & Hr & Hs & Hb). rewrite Hi in Hr.
  exists gr, r. split_and!; [done|done|done|done| |apply Hb|apply Hb|..].
  - by apply (ro_heap _ _ _ _ _ _ _ Hro _ _ Hr).
  - intros Ho k. destruct (bo_over _ _ Hb Ho) as [Ha Hu]. split; [apply Hu|by intros ->].
  - intros g' gr' Hg' Hi'. eapply (bt_one _ _ _ _ _ Hbt); [done|done|congruence].
Qed.

(** C8: However many READY requests are under way at once, a room that
    starts gets exactly one battle: never a second one, and when no handler is
    under way every room that plays or is being settled has it. *)
Theorem interleaved_start_once config srv rds p
    (Hsane : threads_sane config p) (Hp : creachable config srv rds p) :
  (forall g g' gr gr', w_games (c_world p) !! g = Some gr -> w_games (c_world p) !! g' = Some gr' ->
     gr_room_id gr = gr_room_id gr' -> g = g')
  /\ (quiescent p -> forall i r, w_room_heap (c_world p) !! i = Some r ->
        r_state r = RoomState.Playing \/ r_state r = RoomState.Settlement ->
        exists g gr, w_games (c_world p) !! g = Some gr /\ gr_room_id gr = i).
Proof.
  destruct (any_conc _ _ _ _ Hsane Hp) as (Y & (_ & _ & _ & Hbt & _) & Hq).
  split; [apply Hbt|]. intros ->%Hq i r Hr Hs.
  destruct (bt_made _ _ _ _ _ Hbt _ _ Hr) as [?|?]; [|set_solver|done].
  unfold in_battle. destruct Hs as [-> | ->]; done.
Qed.

(** C9: The match queue of any schedule holds each player once, all with valid
    ids, and when no handler is under way fewer than a room needs: no schedule
    leaves a room's worth of players waiting. *)
Theorem interleaved_queue config srv rds p
    (Hsane : threads_sane config p) (Hp : creachable config srv rds p) :
  let q := queue_ (w_queue (c_world p)) in
  NoDup q /\ Forall (fun k => k <> 0 /\ is_i64 k) q
  /\ (quiescent p -> Z.of_nat (length q) < need_count config).
Proof.
  destruct (any_conc _ _ _ _ Hsane Hp) as (Y & (_ & _ & _ & _ & [(_ & Hnd & _) Ht Hduty] & _) & Hq). cbv zeta.
  split_and!; [done|done|]. intros ->%Hq.
  destruct (decide (need_count config <= Z.of_nat (length (queue_ (w_queue (c_world p)))))) as [Hle|]; [|lia].
  apply Hduty in Hle as [n Hn]. set_solver.
Qed.

(** C11: However logins interleave, two accounts never share a player id, and a
    session speaks for nobody or for a player some login gave a token. *)
Theorem interleaved_accounts config srv rds p
    (Hsane : threads_sane config p) (Hp : creachable config srv rds p) :
  (forall k k' id, w_account_players (c_world p) !! k = Some id -> w_account_players (c_world p) !! k' = Some id -> k = k')
  /\ (forall s ss, w_sessions (c_world p) !! s = Some ss -> player_id_ ss <> 0 ->
        100000 <= player_id_ ss < next_player_id (w_ids (c_world p))
        /\ exists token, w_session_tokens (c_world p) !! player_id_ ss = Some token).
Proof.
  destruct (any_conc _ _ _ _ Hsane Hp) as (Y & (_ & _ & _ & _ & _ & Hac & _) & _).
  split; [apply Hac|]. intros s ss Hs Hne.
  destruct (ac_sessions _ _ _ _ _ Hac _ _ Hs) as [?|[token Ht]]; [done|].
  split; [by eapply (ac_tokens _ _ _ _ _ Hac)|by exists token].
Qed.
End any_database.

Section lawful_database.
Context {Srv Rds : Type} {MA : MysqlApi Srv} {ML : MysqlLaws Srv} {RA : RedisApi Rds} {PB : Protobuf}.
#[local] Existing Instance LedgerContract.
#[local] Set Default Proof Using "All".

Lemma lawful_conc config (srv : Srv) (rds : Rds) p :
  ledger (committed srv) -> threads_sane config p -> creachable config srv rds p ->
  exists Y, conc config Y (c_world p) /\ (quiescent p -> Y = ∅).
Proof.
  intros Hl [Hc Hf] Hp. eapply creachable_conc; [done| |done|done].
  intros w Hw. by eapply started_ledger.
Qed.

(** C2: The server keeps the books in every schedule: at any moment, also in
    the middle of handlers, no transaction is open and every score is 1000, plus
    20 a win, minus 10 a loss, with the wins and losses of the log. *)
Theorem interleaved_books config (srv : Srv) (rds : Rds) p
    (Hsane : threads_sane config p) (Hsrv : ledger (committed srv)) (Hp : creachable config srv rds p) :
  idle (w_mysql (c_world p))
  /\ forall k row, SqlModel.players (committed (Mysql.srv (w_mysql (c_world p)))) !! k = Some row ->
       p_score row = 1000 + 20 * p_win row - 10 * p_lose row
       /\ p_win row = tally is_win (logs (committed (Mysql.srv (w_mysql (c_world p))))) k
       /\ p_lose row = tally is_loss (logs (committed (Mysql.srv (w_mysql (c_world p))))) k.
Proof.
  destruct (lawful_conc _ _ _ _ Hsrv Hsane Hp) as (Y & (_ & _ & _ & _ & _ & _ & [Hi Hl] & _) & _).
  split; [done|]. intros k row Hk. by apply ledger_scores.
Qed.

(** C4: In every schedule a room is closed only after its battle went on record,
    settled once with one member as the winner and exactly the members in the
    log; and there it stays: in whatever the server does next the room is closed,
    has these members and is on record. *)
Theorem interleaved_closed_rooms config (srv : Srv) (rds : Rds) p p' acts i r
    (Hsane : threads_sane config p') (Hsrv : ledger (committed srv)) (Hp : creachable config srv rds p)
    (Hr : w_room_heap (c_world p) !! i = Some r) (Hclosed : r_state r = RoomState.Closed)
    (Hacts : csteps p acts = Some p') :
  battle_recorded (committed (Mysql.srv (w_mysql (c_world p)))) i (Room_PlayerIds r)
  /\ exists r', w_room_heap (c_world p') !! i = Some r' /\ r_state r' = RoomState.Closed
       /\ (forall k, k ∈ Room_PlayerIds r' <-> k ∈ Room_PlayerIds r)
       /\ battle_recorded (committed (Mysql.srv (w_mysql (c_world p')))) i (Room_PlayerIds r).
Proof.
  destruct Hsane as [Hc Hf]. assert (Hs : forall w, started config srv rds w -> store_ok (w_mysql w)).
  { intros w Hw. by eapply started_ledger. }
  destruct (creachable_moves config Hc srv rds p p' acts Hs Hp Hacts Hf) as [Hfp (_ & Hrooms & _ & Hrec & _)].
  destruct (creachable_conc config Hc srv rds p Hs Hp Hfp) as (Y & (_ & _ & Hro & _) & _).
  assert (Hb : recorded (w_mysql (c_world p)) i (Room_PlayerIds r)) by by apply (ro_closed _ _ _ _ _ _ _ Hro).
  split; [exact Hb|]. destruct (Hrooms _ _ Hr) as (r' & Hr' & Hle). exists r'. split_and!; [done| | |by apply Hrec].
  - destruct Hle as [_ Hph]. rewrite Hclosed in Hph. cbn in Hph. destruct (r_state r'); cbn in Hph; lia || done.
  - intros k. by apply room_le_ids.
Qed.
End lawful_database.
