(* ===== verification/Liveness.v ===== *)
(** * Liveness: a finished battle gets settled

    On a database and a ranking in good health the loop does not only keep a
    finished battle for later ([Server.no_battle_lost]): the next due visit
    settles it and takes the room down.  [tick_settles] runs the callback, given
    that [SettleBattle] answers [true]; [Healthy] says when it does. *)
From S2P Require Import Prelude Wire Net StdString Messages GameRoom MatchQueue Config Registry Room Mysql Repositories SqlModel BattleStore Ledger Redis Settlement Healthy Store Timer World Reason Lobby Login GameServer Steps LoginInv QueueInv LobbyInv Server.
Local Open Scope Z_scope.

Section tick.
Context {Srv Rds : Type} {MA : MysqlApi Srv} {RA : RedisApi Rds} {PB : Protobuf}.
Context (config : ConfigManager) (i : Z).
Notation World := (World Srv Rds).
Notation never := (fun _ : World => False).

(** The parts of the world the end of a battle reads. *)
Definition serving (c : MysqlClient Srv) (rd : RedisClient Rds) (w : World) : Prop :=
  w_ctx w = full_ctx /\ w_config w = config /\ w_mysql w = c /\ w_redis w = rd.
Definition waiting_for (p : PendingSettlement) (now : Z) (w : World) : Prop :=
  w_rooms w !! i = Some i /\ w_steady w = now /\ default PendingSettlement_default (w_pending w !! i) = p.

(** The room has been taken down. *)
Definition gone (c : MysqlClient Srv) (rd : RedisClient Rds) (w : World) : Prop :=
  w_mysql w = c /\ w_redis w = rd
  /\ w_rooms w !! i = None /\ w_loop_rooms w !! i = None /\ w_pending w !! i = None.

Lemma RemoveRoom_gone c rd :
  triple never (fun w => serving c rd w /\ w_pending w !! i = None) (RemoveRoom i) (fun _ => gone c rd).
Proof.
  set (P := fun w : World => serving c rd w /\ w_pending w !! i = None). unfold RemoveRoom.
  apply triple_bind with (R := fun _ w => P w /\ w_rooms w !! i = None).
  - unfold RemoveRoom_tables. apply triple_bind with (R := fun _ => P); [keeps_tac|]. intros room.
    apply triple_bind with (R := fun _ => P); [keeps_tac|]. intros ids.
    apply triple_bind with (R := fun _ w => P w /\ w_rooms w !! i = None); [|intros; keeps_tac].
    apply triple_writes. intros w Hw. split; [exact Hw|]. apply lookup_delete_eq.
  - intros ids. apply triple_bind with (R := fun _ w => P w /\ w_rooms w !! i = None); [keeps_tac|]. intros _.
    apply triple_reads_bind. intros ctx w [[[Hs Hp] Hr] <-].
    destruct Hs as (Hctx & Hcf & Hc & Hrd). rewrite Hctx. cbn. split_and!; [done|done|done|apply lookup_delete_eq|done].
Qed.

Lemma finish_room_gone c rd winner losers :
  triple never (serving c rd) (finish_room i i winner losers) (fun _ => gone c rd).
Proof.
  unfold finish_room. apply triple_bind with (R := fun _ w => serving c rd w /\ w_pending w !! i = None).
  { apply triple_writes. intros w Hw. split; [exact Hw|]. apply lookup_delete_eq. }
  intros _. apply triple_bind with (R := fun _ w => serving c rd w /\ w_pending w !! i = None); [keeps_tac|].
  intros _. apply triple_bind with (R := fun _ w => serving c rd w /\ w_pending w !! i = None); [keeps_tac|].
  intros _. apply RemoveRoom_gone.
Qed.

(** The id under which the battle is settled, and the client after it is drawn. *)
Definition drawn (p : PendingSettlement) (c : MysqlClient Srv) : Z * MysqlClient Srv :=
  if ps_battle_id p =? 0 then CreateBattle (mysql_ config) true c i else (ps_battle_id p, c).

Lemma battle_id_of_drawn p c rd b c1 :
  drawn p c = (b, c1) ->
  triple never (serving c rd) (battle_id_of i p) (fun b' w => b' = b /\ serving c1 rd w).
Proof.
  unfold drawn, battle_id_of. case_match; [|intros [= <- <-] w Hw; by split].
  intros Hd w (Hctx & Hcf & Hc & Hrd). unfold mysql_call, with_mysql, reads, mbind.
  cbn -[CreateBattle set_pending]. unfold M_bind. rewrite Hcf, Hc, Hd. cbn. by split_and!.
Qed.

Definition all_parts : SettlementService := mkSettlementService true true true true true.

Lemma tick_settles state winner p c rd now b c1 c2 rd2 :
  ps_next_attempt p <= now -> drawn p c = (b, c1) -> b <> 0 ->
  SettleBattle (mysql_ config) (redis_ config) all_parts c1 rd b i winner (losers_of state winner)
    = (Ok true, c2, rd2) ->
  triple never (fun w => serving c rd w /\ waiting_for p now w) (tick_callback i state true winner)
    (fun _ => gone c2 rd2).
Proof.
  intros Hnow Hd Hb Hs. set (P := fun w : World => serving c rd w /\ waiting_for p now w).
  unfold tick_callback, GetRoom. apply triple_reads_bind. intros room.
  apply triple_pre with (P := fun w => room = Some i /\ P w).
  2: { intros w [Hw Hr]. split; [|exact Hw]. rewrite <- Hr. apply Hw. }
  apply triple_pull. intros ->. cbn [negb].
  apply triple_bind with (R := fun _ => P); [keeps_tac|]. intros _.
  apply triple_bind with (R := fun _ => P); [keeps_tac|]. intros _.
  apply triple_bind with (R := fun q w => q = p /\ P w).
  { intros w (Hsv & Hr & Hn & Hp).
    assert (pending_of i w = (Ok p, upd_pending (insert i p) w)) as -> by (rewrite <- Hp; reflexivity).
    split; [done|]. split; [exact Hsv|]. split_and!; [done|done|]. cbn. by rewrite lookup_insert_eq. }
  intros q. apply triple_pull. intros ->. apply triple_reads_bind. intros t.
  apply triple_pre with (P := fun w => t = now /\ P w).
  2: { intros w [Hw Ht]. split; [|exact Hw]. rewrite <- Ht. apply Hw. }
  apply triple_pull. intros ->. rewrite (proj2 (Z.ltb_ge _ _)) by done.
  apply triple_bind with (R := fun _ => serving c rd); [apply triple_writes; intros w [Hw _]; exact Hw|]. intros _.
  eapply triple_bind; [apply (battle_id_of_drawn _ c rd b c1); exact Hd|]. intros b'. cbn beta.
  apply triple_pull. intros ->. rewrite (proj2 (Z.eqb_neq _ _)) by done.
  apply triple_bind with (R := fun settled w => settled = true /\ serving c2 rd2 w).
  { intros w (Hctx & Hcf & Hc & Hrd). rewrite settle_battle_alone, Hctx, Hcf, Hc, Hrd.
    change (settlement_pointers _) with all_parts. rewrite Hs. by split_and!. }
  intros settled. apply triple_pull. intros ->. apply finish_room_gone.
Qed.

(** A battle that is over is left alone by [Tick]. *)
Lemma Loop_room_over (g : GameRoomPtr) (w : World) gr :
  w_games w !! g = Some gr -> gr_game_over gr = true ->
  (Loop_room g : M Srv Rds unit) w
  = (tick_callback (gr_room_id gr) (gr_state gr) true (gr_winner_id gr) : M Srv Rds unit)
      (upd_games (alter Tick g) w).
Proof.
  intros Hg Ho. rewrite Loop_room_alone. cbv zeta. cbn -[Tick tick_callback].
  rewrite lookup_alter_eq, Hg. cbn -[Tick tick_callback].
  change (Tick gr) with (battle_step gr OpTick).
  destruct (battle_step_over gr OpTick Ho) as (-> & -> & ->). by rewrite battle_step_room.
Qed.
End tick.

Section storage.
Context {Srv Rds : Type} {MA : MysqlApi Srv} {ML : MysqlLaws Srv} {MH : MysqlHealthy Srv}.
Context {RA : RedisApi Rds} {RL : RedisLaws Rds} {RH : RedisHealthy Rds} {PB : Protobuf}.
Context (config : ConfigManager).
#[local] Existing Instance LedgerContract.
#[local] Set Default Proof Using "All".
Notation World := (World Srv Rds).

Definition tables (w : World) : Tables := committed (srv (w_mysql w)).

(** The next visit of the room attempts the settlement: the delay since the last
    attempt is over, and the room has its unsettled battle or can be given one. *)
Definition due (w : World) (i : Z) : Prop :=
  let p := default PendingSettlement_default (w_pending w !! i) in
  ps_next_attempt p <= w_steady w
  /\ ((ps_battle_id p = 0 /\ forall b, is_Some (battles (tables w) !! b) -> b < int64_max)
      \/ (0 < ps_battle_id p
          /\ exists row, battles (tables w) !! ps_battle_id p = Some row
               /\ bt_room row = i /\ bt_settled row = false)).

Lemma drawn_can_settle (w : World) i winner losers :
  due w i -> is_i64 (ps_battle_id (default PendingSettlement_default (w_pending w !! i))) -> fit (w_mysql w) -> redis_healthy (rds (w_redis w)) -> ledger (tables w) ->
  0 < i -> is_i64 i -> winner ∉ losers ->
  (forall p, p ∈ winner :: losers -> 0 < p /\ is_i64 p /\ columns_room (tables w) p) ->
  exists b c, drawn config i (default PendingSettlement_default (w_pending w !! i)) (w_mysql w) = (b, c)
    /\ can_settle c (w_redis w) b i winner losers.
Proof.
  intros [_ Hbattle] Hp64 Hf Hr Hl Hi Hi64 Hnl Hps. unfold drawn.
  destruct Hbattle as [[-> Hleft] | (Hpos & row & Hrow & Hroom & Hset)]; cbn [Z.eqb].
  - destruct (fit_CreateBattle (mysql_ config) (w_mysql w) i Hf Hl Hi Hi64 Hleft)
      as (b & c & Hc & Hb & Hb64 & Hf' & _ & Hco).
    exists b, c. split; [done|]. pose proof (steps_CreateBattle (mysql_ config) i (w_mysql w) (proj1 Hf) Hi64) as [_ Hst].
    rewrite Hc in Hst. cbn in Hst.
    split; [done|done|by eapply steps_ledger|by split|done| |done|].
    + rewrite Hco. exact Hps.
    + exists (mkBattleRow i 0 false None). rewrite Hco. cbn. by rewrite lookup_insert_eq.
  - rewrite (proj2 (Z.eqb_neq _ _)) by lia. eexists _, _. split; [done|].
    split; [done|done|done|by split|done|done|done|]. by exists row.
Qed.

(** What the answer [true] leaves behind. *)
Lemma settled_and_ranked c (rd : RedisClient Rds) b i winner losers c2 rd2 :
  can_settle c rd b i winner losers ->
  SettleBattle (mysql_ config) (redis_ config) all_parts c rd b i winner losers = (Ok true, c2, rd2) ->
  (forall ids, (forall k, k ∈ ids <-> k ∈ winner :: losers) -> battle_recorded (committed (Mysql.srv c2)) i ids)
  /\ (forall p, p ∈ winner :: losers -> ranked (committed (Mysql.srv c2)) (zset (Redis.rds rd2)) p).
Proof.
  intros [[Hi _] _ Hl _ [_ Hi64] Hps _ _] Hs.
  assert (Hw64 : is_i64 winner) by apply (Hps winner (list_elem_of_here _ _)).
  assert (Hl64 : forall p, p ∈ losers -> is_i64 p) by (intros p Hp; apply (Hps p); by right).
  destruct (SettleBattle_spec _ _ all_parts _ _ _ _ _ _ _ _ _ eq_refl eq_refl eq_refl Hi Hl Hi64 Hw64 Hl64 Hs)
    as (_ & _ & [|(_ & row & Hrow & Hbr & Hset & Hw & Honly & Hall)]); [done|]. split.
  - intros ids Hids. exists b, row. rewrite Hw. split_and!; [done|done|done|apply Hids; by left|..].
    + intros p. rewrite Hids, elem_of_cons. split; [intros Hp; eexists; by apply Hall|intros [d Hd]; by eapply Honly].
    + intros p Hp%Hids. rewrite elem_of_cons in Hp. by apply Hall.
  - intros p Hp. rewrite elem_of_cons in Hp. by apply Hall.
Qed.

(** C3: A finished battle gets settled: in a reachable world with MySQL and Redis in
    good health, the game loop's next due visit of a room whose battle is over
    does not throw, records the battle with exactly the room's members, puts each
    of them on the ranking with the new score, and takes the room down. *)
Theorem battle_gets_settled (srv : Srv) (rds : Rds) (w : World) i g gr r
    (Hsane : sane config w) (Hsrv : ledger (committed srv)) (Hw : reachable config srv rds w)
    (Hg : w_loop_rooms w !! i = Some g) (Hgr : w_games w !! g = Some gr) (Ho : gr_game_over gr = true)
    (Hr : w_room_heap w !! i = Some r)
    (Hmy : healthy (Mysql.srv (w_mysql w))) (Hre : redis_healthy (Redis.rds (w_redis w)))
    (Hdue : due w i)
    (Hps : forall p, p ∈ Room_PlayerIds r -> 0 < p /\ columns_room (tables w) p) :
  exists w', (Loop_room g : M Srv Rds unit) w = (Ok tt, w')
    /\ w_rooms w' !! i = None /\ w_loop_rooms w' !! i = None /\ w_pending w' !! i = None
    /\ battle_recorded (tables w') i (Room_PlayerIds r)
    /\ forall p, p ∈ Room_PlayerIds r -> ranked (tables w') (zset (Redis.rds (w_redis w'))) p.
Proof.
  destruct (reachable_server config (proj1 Hsane) srv rds w) as [_ [[Hcf Hctx] Hlobby]];
    [intros w0; by apply started_ledger|done|]. specialize (Hlobby (proj2 Hsane)).
  destruct (lo_loop Hlobby _ _ Hg ltac:(done)) as (Hi & gr' & Hgr' & Hid). rewrite Hgr in Hgr'. injection Hgr' as <-.
  destruct (lo_games Hlobby _ _ Hgr) as (_ & r' & Hr' & Hst & Hb). rewrite Hid, Hr in Hr'. injection Hr' as <-.
  destruct (lo_heap Hlobby _ _ Hr) as (_ & Hrange & _ & Hok).
  pose proof (fun k => over_members _ _ k Hb Ho) as Hmem.
  set (winner := gr_winner_id gr) in *. set (losers := losers_of (gr_state gr) winner) in *.
  assert (Hi64 : is_i64 i) by (unfold is_i64, int64_min, int64_max; destruct Hsane; lia).
  destruct (lo_store Hlobby) as [Hidle Hled].
  assert (Hall : forall p, p ∈ winner :: losers -> 0 < p /\ is_i64 p /\ columns_room (tables w) p).
  { intros p Hp%Hmem. split_and!; [by apply Hps|by apply Hok|by apply Hps]. }
  assert (Hp64 : is_i64 (ps_battle_id (default PendingSettlement_default (w_pending w !! i)))).
  { destruct (w_pending w !! i) as [p|] eqn:Hp; [|done]. by destruct (lo_pending Hlobby _ _ Hp). }
  destruct (drawn_can_settle w i winner losers) as (b & c1 & Hd & Hcs); try done; [lia| |].
  { unfold losers, losers_of. rewrite list_elem_of_filter. tauto. }
  destruct (fit_SettleBattle (mysql_ config) (redis_ config) _ _ _ _ _ _ Hcs) as (c2 & rd2 & Hsettle).
  rewrite (Loop_room_over g w gr Hgr Ho), Hid.
  pose proof (tick_settles config i (gr_state gr) winner _ (w_mysql w) (w_redis w) (w_steady w) b c1 c2 rd2
    (proj1 Hdue) Hd ltac:(destruct Hcs; lia) Hsettle (upd_games (alter Tick g) w) ltac:(by split_and!)) as Ht.
  destruct ((tick_callback _ _ _ _ : M Srv Rds unit) _) as [[[]|] w']; [|done]. destruct Ht as (Hm & Hrd & Hgone).
  exists w'. split; [done|]. split; [apply Hgone|]. split; [apply Hgone|]. split; [apply Hgone|].
  unfold tables. rewrite Hm, Hrd.
  destruct (settled_and_ranked _ _ _ _ _ _ _ _ Hcs Hsettle) as [Hrec Hrank].
  split; [by apply Hrec|]. intros p Hp. by apply Hrank, Hmem.
Qed.
End storage.
