(* ===== verification/Heartbeats.v ===== *)
(** * Heartbeats: clients that fall silent are disconnected

    The session table of the connection manager against the sessions and the
    connections, in every reachable world, and what the periodic scan that [Init]
    registers does with the sessions whose last heartbeat is too old. *)
From S2P Require Import Prelude Wire Net StdString Messages GameRoom MatchQueue Config Registry Room Mysql Repositories Redis Settlement Timer World Reason Lobby Login GameServer Threads Steps.
Local Open Scope Z_scope.

(** A session keeps its id and its connection for life. *)
Definition same_conn (f : Session -> Session) : Prop :=
  forall ss, session_id_ (f ss) = session_id_ ss /\ conn_ (f ss) = conn_ ss.

(** The table by session id: a session is at its id, and speaks through the
    connection of that id. *)
Definition cm_ok (sessions : SessionHeap) (listed : gmap Z Z) : Prop :=
  forall id s, listed !! id = Some s ->
    s = id /\ exists ss, sessions !! id = Some ss /\ session_id_ ss = id /\ conn_ ss = Some id.

Lemma cm_ok_alter sessions listed s f : same_conn f -> cm_ok sessions listed -> cm_ok (alter f s sessions) listed.
Proof.
  intros Hf H id a Ha. destruct (H _ _ Ha) as (-> & ss & Hss & Hid & Hc). split; [done|].
  rewrite lookup_alter. case_decide; [subst|by exists ss]. rewrite Hss. eexists. split; [done|].
  by destruct (Hf ss) as [-> ->].
Qed.

Lemma cm_ok_delete sessions listed id : cm_ok sessions listed -> cm_ok sessions (delete id listed).
Proof. intros H i s [_ Hs]%lookup_delete_Some. by apply H. Qed.

Lemma cm_ok_new sessions listed id now :
  cm_ok sessions listed -> cm_ok (<[id := Session_new id (Some id) now]> sessions) listed.
Proof.
  intros H i s Hs. destruct (H _ _ Hs) as (-> & ss & Hss & Hid & Hc). split; [done|].
  rewrite lookup_insert. case_decide; [subst|by exists ss]. by eexists.
Qed.

(** Every session of the table once. *)
Lemma elem_of_all_sessions sessions cm conn :
  cm_ok sessions (cm_sessions cm) -> conn ∈ CM_AllSessions cm <-> cm_sessions cm !! conn = Some conn.
Proof.
  intros H. unfold CM_AllSessions. rewrite list_elem_of_fmap. split.
  - intros [[id s] [-> Hin%elem_of_map_to_list]]. by destruct (H _ _ Hin) as [-> _].
  - intros Hc. exists (conn, conn). split; [done|]. by apply elem_of_map_to_list.
Qed.

Lemma all_sessions_NoDup sessions cm : cm_ok sessions (cm_sessions cm) -> NoDup (CM_AllSessions cm).
Proof.
  intros H. unfold CM_AllSessions. apply NoDup_fmap_2_strong; [|apply NoDup_map_to_list].
  intros [i s] [j t] Hi%elem_of_map_to_list Hj%elem_of_map_to_list E. cbn in E. subst.
  by destruct (H _ _ Hi) as [-> _], (H _ _ Hj) as [-> _].
Qed.

Section heartbeats.
Context {Srv Rds : Type} {MA : MysqlApi Srv} {RA : RedisApi Rds} {PB : Protobuf}.
Notation World := (World Srv Rds).
Notation M := (M Srv Rds).

(** The one timer is the scan, and it is due within five seconds. *)
Definition scan_soon (w : World) : Prop :=
  exists next, w_timers w = [mkTask 5000 HeartbeatScan next] /\ next <= w_steady w + 5000.

Definition heart_inv (w : World) : Prop :=
  cm_ok (w_sessions w) (cm_sessions (w_cm w)) /\ scan_soon w.

Lemma heart_on_session T s f : same_conn f -> inv T heart_inv (on_session s f).
Proof. intros Hf. apply inv_writes. intros w [Hw Ht]. split; [by apply cm_ok_alter|done]. Qed.
Lemma heart_SetRoomId T s r : inv T heart_inv (on_session s (Session_SetRoomId r)).
Proof. by apply heart_on_session. Qed.
Lemma heart_SetHeartbeat T s t : inv T heart_inv (on_session s (Session_UpdateHeartbeatTime t)).
Proof. by apply heart_on_session. Qed.
Lemma heart_Bind T s p : inv T heart_inv (on_session s (Session_BindPlayerId p)).
Proof. by apply heart_on_session. Qed.
Lemma heart_Remove T id :
  inv T heart_inv (writes (fun w => upd_cm (fun cm => CM_Remove (w_sessions w) cm id) w)).
Proof. apply inv_writes. intros w [Hw Ht]. split; [by apply cm_ok_delete|done]. Qed.
#[local] Hint Resolve heart_SetRoomId heart_SetHeartbeat heart_Bind heart_Remove : keeps.

(** An accepted connection: its session, and its place in the table. *)
Lemma heart_on_accept ok : keeps heart_inv (on_accept ok).
Proof.
  unfold on_accept. apply inv_bind; [apply inv_reads|]. intros [conn|]; [|apply inv_ret].
  apply inv_bind; [keeps_tac|]. intros _. apply inv_bind; [|intros _; keeps_tac].
  destruct ok; [|apply inv_ret]. apply inv_bind; [apply inv_reads|]. intros now. cbv zeta.
  set (listed_new w := heart_inv w /\ exists ss, w_sessions w !! conn = Some ss /\ session_id_ ss = conn /\ conn_ ss = Some conn).
  apply triple_bind with (R := fun _ => listed_new).
  { apply triple_writes. intros w [Hw Ht]. split; [split; [by apply cm_ok_new|done]|].
    exists (Session_new conn (Some conn) now). split; [apply lookup_insert_eq|done]. }
  intros _. apply triple_bind with (R := fun _ => listed_new); [by apply triple_writes|].
  intros _. apply triple_bind with (R := fun _ => heart_inv); [|intros _; keeps_tac].
  apply triple_writes. intros w [[Hw Ht] (ss & Hss & Hid & Hc)]. split; [|done].
  assert (Hs : SessionId (w_sessions w) conn = conn) by (unfold SessionId; by rewrite Hss).
  cbn. rewrite Hs. intros i s [[<- <-]|[_ Hi]]%lookup_insert_Some; [by split; [|exists ss]|by apply Hw].
Qed.

#[export] Instance heart_inv_keeps : Handlers_keep heart_inv (fun _ => heart_inv).
Proof.
  split; [done|done|..]; intros; [keeps_tac..|apply heart_on_accept|keeps_tac| |keeps_tac| |done].
  - destruct H as [Hw (next & Ht & Hn)]. split; [exact Hw|]. unfold scan_soon. cbn. rewrite Ht. cbn.
    destruct (Z.leb_spec next (w_steady w)); eexists; (split; [done|lia]).
  - destruct H as [Hw (next & Ht & Hn)]. split; [exact Hw|]. exists next. split; [done|]. cbn. lia.
Qed.

Lemma reachable_heart config (srv : Srv) (rds : Rds) w : reachable config srv rds w -> heart_inv w.
Proof.
  apply (reachable_keeps heart_inv (fun _ => heart_inv)). intros w0 Hw0.
  destruct (started_world _ _ _ _ Hw0) as (my & rd & -> & _).
  split; [intros id s Hs; cbn in Hs; by apply lookup_empty_Some in Hs|]. exists 5000. split; [done|]. cbn. lia.
Qed.

(** ** Which connections are listed

    A connection that may still speak is in the table: it is open, its read is
    pending or in the hands of its read handler, and no write on it has failed. *)
Definition writes_ok (c : TcpConnection) : bool := tc_writing c || bool_decide (tc_write_queue c = []).
Definition may_speak (c : TcpConnection) : bool := tc_open c && tc_reading c && writes_ok c.

Definition listed_when (P : TcpConnection -> Prop) (listed : gmap Z Z) (conn : Z) (c : TcpConnection) : Prop :=
  in_flight_ok c /\ (P c -> listed !! conn = Some conn).

(** Between the handlers; while the read handler of [s] runs; and once a handler
    of [s] has come to the close callback. *)
Definition at_rest (listed : gmap Z Z) (conn : Z) (c : TcpConnection) : Prop :=
  listed_when (fun c => may_speak c = true) listed conn c.
Definition while_reading (s : Z) (listed : gmap Z Z) (conn : Z) (c : TcpConnection) : Prop :=
  listed_when (fun c => may_speak c = true \/ conn = s /\ tc_open c && writes_ok c = true) listed conn c.
Definition while_closing (s : Z) (listed : gmap Z Z) (conn : Z) (c : TcpConnection) : Prop :=
  at_rest listed conn c /\ (conn = s -> may_speak c = false).

Definition conns_with (Q : gmap Z Z -> Z -> TcpConnection -> Prop) (w : World) : Prop :=
  forall conn c, w_conns w !! conn = Some c -> Q (cm_sessions (w_cm w)) conn c.

Lemma conns_with_alter Q w conn f :
  (forall c, w_conns w !! conn = Some c -> Q (cm_sessions (w_cm w)) conn (f c)) -> conns_with Q w ->
  conns_with Q (upd_conns (alter f conn) w).
Proof. intros Hf H i c Hi. cbn in Hi. revert Hi. intros [(<- & c0 & Hc & ->)|[_ Hc]]%lookup_alter_Some; [by apply Hf|by apply H]. Qed.

Section posting.
Context (Q : gmap Z Z -> Z -> TcpConnection -> Prop).
Context (Hq : forall listed conn c ts, Q listed conn c -> Q listed conn (set_posted c ts)).
#[local] Set Default Proof Using "Type*".

Lemma posting_on_tcp T conn f : (forall c, exists ts, f c = set_posted c ts) -> inv T (conns_with Q) (on_tcp conn f).
Proof.
  intros Hf. apply inv_writes. intros w Hw. apply conns_with_alter; [|done].
  intros c Hc. destruct (Hf c) as [ts ->]. by apply Hq, Hw.
Qed.
Lemma posting_on_conn T s f : (forall c, exists ts, f c = set_posted c ts) -> inv T (conns_with Q) (on_conn s f).
Proof.
  intros Hf w Hw. cbn. destruct (_ ≫= _) as [conn|]; [|done]. by apply (posting_on_tcp (fun _ => True) conn f Hf).
Qed.
Lemma posting_Send T s p : inv T (conns_with Q) (on_conn s (TcpConnection_Send p)).
Proof. apply posting_on_conn. by eexists. Qed.
Lemma posting_Close T s : inv T (conns_with Q) (on_conn s TcpConnection_Close).
Proof. apply posting_on_conn. by eexists. Qed.
#[local] Hint Resolve posting_Send posting_Close : keeps.

Lemma posting_Rank_Handle T s p : inv T (conns_with Q) (Rank_Handle (Some s) p : M unit).
Proof.
  unfold Rank_Handle. apply inv_bind; [apply inv_reads|]. intros ctx. apply inv_bind; [apply inv_reads|].
  intros cf. apply inv_bind; [by apply inv_with_redis|]. intros [m|]; [|apply inv_ret]. apply posting_Send.
Qed.
#[local] Hint Resolve posting_Rank_Handle : keeps.

Lemma posting_Dispatch s p : keeps (conns_with Q) (Dispatch dispatcher (Some s) p).
Proof.
  unfold Dispatch. destruct (dispatcher !! msg_id p) as [h|] eqn:Hh; [|apply inv_ret].
  apply dispatcher_handlers in Hh. rewrite !elem_of_cons, elem_of_nil in Hh.
  destruct_or! Hh; try done; subst h; keeps_tac.
Qed.

Lemma posting_Loop_round : keeps (conns_with Q) Loop_round.
Proof. keeps_tac. Qed.
Lemma posting_Timer_round : keeps (conns_with Q) Timer_round.
Proof.
  unfold Timer_round. apply inv_bind; [intros w Hw; cbn; by destruct (collect_due _ _)|].
  intros cbs. apply inv_for_each. intros []. keeps_tac.
Qed.
End posting.

(** ** The handlers of one connection *)
Lemma at_rest_posted listed conn c ts : at_rest listed conn c -> at_rest listed conn (set_posted c ts).
Proof. done. Qed.
Lemma while_reading_posted s listed conn c ts :
  while_reading s listed conn c -> while_reading s listed conn (set_posted c ts).
Proof. done. Qed.

Lemma reading_starts s w :
  conns_with at_rest w -> conn_is w s tc_reading = true -> conns_with (while_reading s) w.
Proof.
  intros H Hr conn c Hc. destruct (H _ _ Hc) as [Hf Hl]. split; [done|]. intros [Hh|[-> Hh]]; [by apply Hl|].
  apply Hl. unfold conn_is in Hr. rewrite Hc in Hr. unfold may_speak. bools. by rewrite H0, H1, Hr.
Qed.
Lemma reading_ends s w : conns_with (while_reading s) w -> conns_with at_rest w.
Proof. intros H conn c Hc. destruct (H _ _ Hc) as [Hf Hl]. split; [done|]. intros Hh. apply Hl. by left. Qed.

Lemma on_read_shape data c r c' : Net.on_read data c = Some (r, c') -> exists rest, c' = set_read c false rest.
Proof. unfold Net.on_read. destruct (Decode _) as [[? rest]|]; [|done]. intros [= <- <-]. by exists rest. Qed.

Lemma read_handler_listed s data : keeps (conns_with (while_reading s)) (read_handler s data).
Proof.
  assert (Hdo : keeps (conns_with (while_reading s)) (on_tcp s DoRead)).
  { apply inv_writes. intros w Hw. apply conns_with_alter; [|done]. intros c Hc. destruct (Hw _ _ Hc) as [Hf Hl].
    split; [done|]. intros Hh. apply Hl. right. split; [done|]. destruct Hh as [Hh|[_ Hh]]; [|done].
    unfold may_speak in Hh. bools. apply andb_true_iff. by split. }
  assert (Hcl : keeps (conns_with (while_reading s)) (on_tcp s TcpConnection_Close)).
  { apply posting_on_tcp; [apply while_reading_posted|by eexists]. }
  unfold read_handler. apply inv_bind.
  - intros w Hw. unfold receive, mbind, M_bind. cbn -[Net.on_read].
    destruct (Net.on_read _ _) as [[r c']|] eqn:Hd; [|done]. cbn. apply conns_with_alter; [|done].
    intros c Hc. rewrite Hc in Hd. destruct (Hw _ _ Hc) as [Hf Hl]. destruct (on_read_shape _ _ _ _ Hd) as [rest ->]. split; [done|]. intros [Hh|[_ Hh]].
    + unfold may_speak in Hh. cbn in Hh. by rewrite andb_false_r in Hh.
    + apply Hl. by right.
  - intros [[packets|e]|]; [|done|apply inv_ret]. apply triple_catch with (T' := conns_with (while_reading s)); [|done].
    apply inv_bind; [|by intros]. apply inv_for_each. intros p. apply posting_Dispatch, while_reading_posted.
Qed.

(** The close callback of a connection that has stopped. *)
Lemma close_callback_listed T s : triple T (conns_with (while_closing s)) (close_callback s s) (fun _ => conns_with at_rest).
Proof.
  unfold close_callback. apply triple_bind with (R := fun _ => conns_with at_rest).
  - apply triple_writes. intros w Hw conn c Hc. destruct (Hw conn c Hc) as [[Hf Hl] Hs]. split; [done|]. intros Hh.
    cbn. rewrite lookup_delete_ne; [by apply Hl|]. intros E. by rewrite Hs in Hh.
  - intros _. keeps_tac.
Qed.

Lemma stop_listed T s ok f :
  (forall c, ok c = true -> in_flight_ok c -> in_flight_ok (f c) /\ may_speak (f c) = false) ->
  triple T (fun w => conns_with at_rest w /\ conn_is w s ok = true) (on_tcp s f ;; close_callback s s)
    (fun _ => conns_with at_rest).
Proof.
  intros Hf. apply triple_bind with (R := fun _ => conns_with (while_closing s)); [|intros _; apply close_callback_listed].
  apply triple_writes. intros w [Hw Hok] conn c Hc. cbn in Hc.
  apply lookup_alter_Some in Hc as [(<- & c0 & Hc & ->)|[Hne Hc]].
  - destruct (Hw _ _ Hc) as [Hfr _]. unfold conn_is in Hok. rewrite Hc in Hok.
    destruct (Hf _ Hok Hfr) as [Hfr' Hh]. split; [|done]. split; [done|]. by rewrite Hh.
  - split; [by apply Hw|]. by intros ->.
Qed.
Lemma read_error_listed T s :
  triple T (fun w => conns_with at_rest w /\ conn_is w s tc_reading = true) (read_error_handler s) (fun _ => conns_with at_rest).
Proof.
  apply stop_listed. intros c _ Hf. split; [exact Hf|]. unfold may_speak. cbn. by rewrite andb_false_r.
Qed.
Lemma write_error_listed T s :
  triple T (fun w => conns_with at_rest w /\ conn_is w s tc_writing = true) (write_error_handler s) (fun _ => conns_with at_rest).
Proof.
  apply stop_listed. intros c Hw [Hn|(f & q & Hq & Hws)]; [unfold tc_writing in Hw; by rewrite Hn in Hw|].
  unfold on_write_error. rewrite Hws. split; [by left|]. unfold may_speak, writes_ok. cbn. by rewrite Hq, andb_false_r.
Qed.

Lemma run_send_listed p c c' listed conn :
  at_rest listed conn c -> run_send p c = Ok c' -> at_rest listed conn c'.
Proof.
  intros [Hf Hl] Hs. split; [exact (proj1 (run_send_flight _ _ _ Hf Hs))|].
  unfold run_send in Hs. destruct (Encode p) as [data|]; [|done]. cbn in Hs. injection Hs as <-.
  case_bool_decide as He; cbn [negb]; intros Hh; apply Hl; revert Hh; unfold may_speak, writes_ok.
  - intros [Hh _]%andb_true_iff. rewrite bool_decide_eq_true_2, orb_true_r, andb_true_r by done.
    unfold DoWrite in Hh. cbn in Hh. by rewrite He in Hh.
  - unfold tc_writing. cbn. rewrite (bool_decide_eq_false_2 (_ ++ _ = [])) by by destruct (tc_write_queue c).
    rewrite orb_false_r. intros [Hh Hw]%andb_true_iff. by rewrite Hh, Hw.
Qed.

Lemma on_written_listed c listed conn : tc_writing c = true -> at_rest listed conn c -> at_rest listed conn (on_written c).
Proof.
  intros Hw [Hf Hl]. split; [by apply on_written_flight|].
  assert (Hok : writes_ok c = true) by (unfold writes_ok; by rewrite Hw).
  intros Hh. apply Hl. revert Hh. unfold may_speak. rewrite Hok, andb_true_r. intros [Hh _]%andb_true_iff.
  revert Hh. unfold on_written. repeat case_match; try done. unfold DoWrite. by case_match.
Qed.

Lemma run_posted_listed s : keeps (conns_with at_rest) (run_posted s).
Proof.
  unfold run_posted.
  apply triple_bind with (R := fun closed => conns_with (if closed : bool then while_closing s else at_rest)).
  - intros w Hw. unfold take_posted, mbind, M_bind. cbn -[run_send].
    destruct (w_conns w !! s) as [c|] eqn:Hc; cbn -[run_send]; [|done].
    destruct (tc_posted c) as [|[p|] ts] eqn:Hp; cbn -[run_send]; [done| |].
    + destruct (run_send p (set_posted c ts)) as [c'|e] eqn:Hr; cbn; [|done]. apply conns_with_alter; [|done].
      intros c0 Hc0. eapply run_send_listed; [|done]. by apply at_rest_posted, Hw.
    + intros conn c1 H1. cbn in H1. apply lookup_alter_Some in H1 as [(<- & c0 & Hc0 & ->)|[Hne Hc1]].
      * split; [|done]. split; [exact (proj1 (Hw _ _ Hc))|intros Hh; discriminate Hh].
      * split; [by apply Hw|]. by intros ->.
  - intros []; [apply close_callback_listed|apply inv_ret].
Qed.

Lemma on_accept_listed ok : keeps (conns_with at_rest) (on_accept ok).
Proof.
  unfold on_accept. apply inv_bind; [apply inv_reads|]. intros [conn|]; [|apply inv_ret].
  apply inv_bind; [keeps_tac|]. intros _. apply inv_bind; [|intros _; keeps_tac].
  destruct ok; [|apply inv_ret]. apply inv_bind; [apply inv_reads|]. intros now. cbv zeta.
  set (fresh w := conns_with at_rest w /\ SessionId (w_sessions w) conn = conn).
  apply triple_bind with (R := fun _ => fresh).
  { apply triple_writes. intros w Hw. split; [done|]. unfold SessionId. cbn. by rewrite lookup_insert_eq. }
  intros _. apply triple_bind with (R := fun _ => fresh).
  { apply triple_writes. intros w [Hw Hs]. split; [|done]. intros i c Hc. cbn in Hc.
    apply lookup_insert_Some in Hc as [[<- <-]|[_ Hc]]; [split; [by left|by intros Hh]|by apply Hw]. }
  intros _. apply triple_bind with (R := fun _ w => conns_with at_rest w /\ cm_sessions (w_cm w) !! conn = Some conn).
  { apply triple_writes. intros w [Hw Hs]. cbn. rewrite Hs. split; [|apply lookup_insert_eq].
    intros i c Hc. destruct (Hw _ _ Hc) as [Hf Hl]. split; [done|]. intros Hh. cbn. rewrite lookup_insert.
    case_decide; [by subst|by apply Hl]. }
  intros _. apply triple_writes. intros w [Hw Hs]. apply conns_with_alter; [|done].
  intros c Hc. destruct (Hw _ _ Hc) as [Hf _]. by split.
Qed.

(** ** Every step *)
Lemma triple_run T P (m : M unit) Q w w' : triple T P m Q -> P w -> run m w = Some w' -> Q tt w'.
Proof. intros Hm Hw Hr. specialize (Hm w Hw). unfold run in Hr. destruct (m w) as [[[]|?] ?]; by simplify_eq. Qed.

Lemma step_listed w w' e : conns_with at_rest w -> step w e = Some w' -> conns_with at_rest w'.
Proof.
  intros Hw. destruct e; cbn [step event_handler].
  - by intros [= <-].
  - by apply (triple_run _ _ _ _ _ _ (on_accept_listed ok)).
  - destruct (_ && _) eqn:Hc; [|by intros [= <-]]. bools. intros Hr. apply (reading_ends conn).
    by apply (triple_run _ _ _ _ _ _ (read_handler_listed conn data)) in Hr; [|by apply reading_starts].
  - destruct (conn_is _ _ _) eqn:Hc; [|by intros [= <-]]. by apply (triple_run _ _ _ _ _ _ (read_error_listed (fun _ => True) conn)).
  - destruct (conn_is _ _ _); [|by intros [= <-]]. by apply (triple_run _ _ _ _ _ _ (run_posted_listed conn)).
  - destruct (conn_is _ _ _) eqn:Hc; [|by intros [= <-]]. intros [= <-]. apply conns_with_alter; [|done].
    intros c Hcc. unfold conn_is in Hc. rewrite Hcc in Hc. apply on_written_listed; [done|by apply Hw].
  - destruct (conn_is _ _ _) eqn:Hc; [|by intros [= <-]]. by apply (triple_run _ _ _ _ _ _ (write_error_listed (fun _ => True) conn)).
  - intros [= <-]. case_match; [|done]. intros i c Hc. cbn in Hc. apply lookup_delete_Some in Hc as [_ Hc]. by apply Hw.
  - by apply (triple_run _ _ _ _ _ _ (posting_Loop_round at_rest at_rest_posted)).
  - apply (triple_run _ _ _ _ _ _ (posting_Timer_round at_rest at_rest_posted) Hw).
Qed.

Lemma steps_listed w w' es : conns_with at_rest w -> steps w es = Some w' -> conns_with at_rest w'.
Proof.
  revert w. induction es as [|e es IH]; intros w Hw; cbn [steps]; [by intros [= <-]|].
  destruct (step w e) as [w1|] eqn:He; [|done]. apply IH. by eapply step_listed.
Qed.

Lemma reachable_listed config (srv : Srv) (rds : Rds) w : reachable config srv rds w -> conns_with at_rest w.
Proof.
  intros (w0 & es & Hs & Hes). eapply steps_listed; [|exact Hes].
  destruct (started_world _ _ _ _ Hs) as (my & rd & -> & _). intros conn c Hc. cbn in Hc. by apply lookup_empty_Some in Hc.
Qed.

(** ** The scan *)
Definition silent (now : Z) (w : World) (s : Z) : bool := 30000 <? now - LastHeartbeatMs (w_sessions w) s.

(** [Session::Close] on the sessions of a list. *)
Lemma close_silent w now l :
  (forall s, s ∈ l -> exists ss, w_sessions w !! s = Some ss /\ conn_ ss = Some s) -> NoDup l ->
  exists conns,
    (for_each l (fun session =>
       h ← reads w_sessions;
       when_ (30000 <? now - LastHeartbeatMs h session) (Session_Close session)) : M unit) w
    = (Ok tt, upd_conns (fun _ => conns) w)
    /\ forall conn, conns !! conn
         = (if bool_decide (conn ∈ l) && silent now w conn then TcpConnection_Close else id) <$> w_conns w !! conn.
Proof.
  revert w. induction l as [|s l IH]; intros w Hl Hnd.
  { exists (w_conns w). split; [by destruct w|]. intros conn. cbn. by destruct (w_conns w !! conn). }
  apply NoDup_cons in Hnd as [Hs Hnd]. destruct (Hl s (list_elem_of_here _ _)) as (ss & Hss & Hc).
  cbn [for_each]. unfold mbind at 1. cbn [sections_bind M_sections]. unfold M_bind at 1.
  set (w1 := if silent now w s then upd_conns (alter TcpConnection_Close s) w else w).
  assert (Hw1 : ((h ← reads w_sessions; when_ (30000 <? now - LastHeartbeatMs h s) (Session_Close s)) : M unit) w = (Ok tt, w1)).
  { unfold w1, silent, reads, mbind, sections_bind, M_sections, M_bind. cbn. destruct (_ <? _); [|done]. cbn. by rewrite Hss; cbn; rewrite Hc. }
  rewrite Hw1. cbv beta iota. destruct (IH w1) as (conns & -> & Hconns); [|done|].
  { intros s' Hs'. unfold w1. destruct (silent _ _ _); apply Hl; by right. }
  exists conns. split; [unfold w1; destruct (silent _ _ _); by destruct w|].
  intros conn. rewrite Hconns. assert (Hsl : silent now w1 conn = silent now w conn) by (unfold w1; by destruct (silent now w s)).
  rewrite Hsl. rewrite (bool_decide_ext (conn ∈ s :: l) (conn = s \/ conn ∈ l)) by apply elem_of_cons.
  unfold w1. destruct (decide (conn = s)) as [->|Hne].
  - rewrite (bool_decide_eq_false_2 (s ∈ l)), (bool_decide_eq_true_2 (s = s \/ s ∈ l)) by naive_solver. cbn.
    destruct (silent now w s); cbn; [rewrite lookup_alter_eq|]; by destruct (w_conns w !! s).
  - rewrite (bool_decide_ext (conn = s \/ conn ∈ l) (conn ∈ l)) by naive_solver.
    destruct (silent now w s); cbn; [rewrite lookup_alter_ne by done|]; done.
Qed.

(** A waking of the timer thread that finds the scan due. *)
Lemma steps_timers w now steady next :
  w_timers w = [mkTask 5000 HeartbeatScan next] -> next <= steady -> w_steady w <= steady ->
  steps w [EClock now steady; ETimers]
  = run heartbeat_scan (upd_timers (fun _ => [mkTask 5000 HeartbeatScan (steady + 5000)])
                         (upd_steady (fun _ => steady) (upd_now (fun _ => now) w))).
Proof.
  intros Ht Hn Hs. cbn [steps step event_handler].
  set (w0 := upd_steady (Z.max steady) (upd_now (fun _ => now) w)).
  assert (E : w0 = upd_steady (fun _ => steady) (upd_now (fun _ => now) w)).
  { unfold w0, upd_steady. cbn -[Z.max]. by rewrite Z.max_l. }
  assert (Hc : collect_due (w_steady w0) (w_timers w0) = ([HeartbeatScan], [mkTask 5000 HeartbeatScan (steady + 5000)])).
  { rewrite E. cbn -[Z.leb]. rewrite Ht. cbn -[Z.leb]. by rewrite (proj2 (Z.leb_le _ _)). }
  rewrite <- E. clearbody w0. unfold run, Timer_round, mbind. cbn -[heartbeat_scan collect_due].
  unfold M_bind. rewrite Hc. cbn -[heartbeat_scan]. unfold mbind, M_bind.
  by destruct ((heartbeat_scan : M unit) _) as [[[]|e] w'].
Qed.

(** C15: Every five seconds the server looks for silent clients: with handlers run one
    at a time, in any reachable world,
    when the timer thread wakes five seconds later or more (of the steady clock) it
    runs the scan to the end and puts the next one five seconds off; every
    connection that may still speak ([may_speak]: open, reading, no write failed) is closed if
    the last heartbeat of its session is over thirty seconds old and left alone
    otherwise; no connection is closed whose session has had a heartbeat since; and
    the scan touches nothing but the connections. *)
Theorem silent_clients_closed config (srv : Srv) (rds : Rds) w now steady
    (Hw : reachable config srv rds w) (Hs : w_steady w + 5000 <= steady) :
  exists conns,
    steps w [EClock now steady; ETimers]
    = Some (upd_conns (fun _ => conns)
             (upd_timers (fun _ => [mkTask 5000 HeartbeatScan (steady + 5000)])
               (upd_steady (fun _ => steady) (upd_now (fun _ => now) w))))
    /\ (forall conn c, w_conns w !! conn = Some c -> may_speak c = true ->
         conns !! conn = Some (if silent now w conn then TcpConnection_Close c else c))
    /\ (forall conn c', conns !! conn = Some c' -> exists c, w_conns w !! conn = Some c
         /\ (c' = c \/ silent now w conn = true /\ c' = TcpConnection_Close c)).
Proof.
  pose proof (reachable_listed _ _ _ _ Hw) as Hl. destruct (reachable_heart _ _ _ _ Hw) as [Hcm (next & Ht & Hn)].
  set (w1 := upd_timers (fun _ => [mkTask 5000 HeartbeatScan (steady + 5000)])
               (upd_steady (fun _ => steady) (upd_now (fun _ => now) w))).
  destruct (close_silent w1 now (CM_AllSessions (w_cm w))) as (conns & Hrun & Hconns).
  { intros s Hin%(elem_of_all_sessions _ _ _ Hcm). destruct (Hcm _ _ Hin) as (_ & ss & Hss & _ & Hc). by exists ss. }
  { by apply (all_sessions_NoDup _ _ Hcm). }
  assert (Hlisted : forall conn, conn ∈ CM_AllSessions (w_cm w) <-> cm_sessions (w_cm w) !! conn = Some conn).
  { intros conn. by apply (elem_of_all_sessions _ _ _ Hcm). }
  exists conns. split_and!.
  - rewrite (steps_timers w now steady next) by (done || lia). fold w1. unfold run.
    assert (Hscan : (heartbeat_scan : M unit) w1 = (Ok tt, upd_conns (fun _ => conns) w1)) by exact Hrun.
    by rewrite Hscan.
  - intros conn c Hc Hh. destruct (Hl _ _ Hc) as [_ Hin]. rewrite Hconns.
    rewrite (bool_decide_eq_true_2 _ (proj2 (Hlisted conn) (Hin Hh))). change (silent now w1 conn) with (silent now w conn).
    change (w_conns w1) with (w_conns w). rewrite Hc. by destruct (silent now w conn).
  - intros conn c' Hc'. rewrite Hconns in Hc'. apply fmap_Some in Hc' as (c & Hc & ->). exists c. split; [done|].
    destruct (bool_decide _ && silent now w1 conn) eqn:He; [right|by left]. by bools.
Qed.
End heartbeats.
