(* ===== verification/ServerMain.v ===== *)
(** * ServerMain: from the process's start to its reachable worlds

    Models [main.cpp], [GameServer::Start] and the opening of the listening
    socket by [TcpServer::Start].  What Boost.Asio answers to each call of
    [TcpServer::Start] is an input, and so are the events of a serving process.
    [GameServer::Stop], which [main] does not call, works on a [Host]: a world with
    the acceptor, the [io_context] and the flags of the two threads. *)
From S2P Require Import Prelude Net Messages Config Registry Mysql Redis World GameServer.
Local Open Scope Z_scope.

(** The calls of [TcpServer::Start], in order: did each leave [ec] clear?  The
    error of [set_option] is not looked at. *)
Record Listen := mkListen { address_ok : bool; open_ok : bool; bind_ok : bool; listen_ok : bool }.

(** [worker_threads_] *)
Definition worker_count (worker_threads : Z) : Z := if 0 <? worker_threads then worker_threads else 1.

(** How the process ends, or the world it serves. *)
Inductive server_exit (W : Type) :=
  | Serving (w : W)
  | Exited (code : Z)
  | Terminated (e : option exn). (* an exception leaves [main], or a worker's [run] *)
Arguments Serving {W}.
Arguments Exited {W}.
Arguments Terminated {W}.

Section main.
Context {Srv Rds : Type} {MA : MysqlApi Srv} {RA : RedisApi Rds} {PB : Protobuf}.
Notation World := (World Srv Rds).
Notation M := (M Srv Rds).

Definition TcpServer_Start (l : Listen) : M bool :=
  if negb (address_ok l) then mret false
  else if negb (open_ok l) then mret false
  else if negb (bind_ok l) then mret false
  else if negb (listen_ok l) then mret false
  else Server_Start true.

(** [main]; the answers of [Load] and of [TcpServer::Start] are not looked at. *)
Definition server_main (file : option string) (srv : Srv) (rds : Rds) (l : Listen) (es : list Event)
    : server_exit World :=
  match Load file default_config with
  | (Throw e, _) => Terminated (Some e)
  | (Ok _, config) =>
    match Init (new_world config srv rds) with
    | (Throw e, _) => Terminated (Some e)
    | (Ok false, _) => Exited 1
    | (Ok true, w) =>
      match TcpServer_Start l w with
      | (Throw e, _) => Terminated (Some e)
      | (Ok false, _) => Exited 0
      | (Ok true, w) => match steps w es with Some w => Serving w | None => Terminated None end
      end
    end
  end.

Lemma load_lines_true section lines c b c' : load_lines section lines c = (Ok b, c') -> b = true.
Proof.
  revert section c. induction lines as [|line lines IH]; intros section c; cbn; [by intros [= <- _]|].
  destruct (load_line section line c) as [[section' c1]|e]; [apply IH|done].
Qed.

(** A process that serves has read its configuration, or could not open the file
    and runs on the defaults; it listens, and is in a reachable world of that
    configuration, so what holds of reachable worlds holds of the program. *)
Theorem main_serves_reachable file (srv : Srv) (rds : Rds) l es w
    (Hserving : server_main file srv rds l es = Serving w) :
  exists config, (file = None /\ config = default_config \/ Load file default_config = (Ok true, config))
    /\ address_ok l && open_ok l && bind_ok l && listen_ok l = true
    /\ reachable config srv rds w.
Proof.
  unfold server_main in Hserving.
  destruct (Load file default_config) as [[b|e] config] eqn:Hload; [|done].
  destruct (Init _) as [[[]|e] w1] eqn:Hinit; [|done..].
  destruct (TcpServer_Start l w1) as [[[]|e] w2] eqn:Hstart; [|done..].
  destruct (steps w2 es) as [w3|] eqn:Hsteps; [|done]. injection Hserving as ->.
  exists config. unfold TcpServer_Start in Hstart.
  destruct (address_ok l), (open_ok l), (bind_ok l), (listen_ok l); try done. split_and!; [|done|].
  - destruct file as [input|]; [right|left; by injection Hload as <- <-].
    by rewrite (load_lines_true _ _ _ _ _ Hload).
  - exists w2, es. split; [|done]. by exists w1.
Qed.

(** ** Stop (game_server.cpp, tcp_server.cpp) *)
Record Host := mkHost {
  h_world : World;             (* [w_running] is [TcpServer::running_] *)
  h_acceptor : bool;           (* the acceptor is open *)
  h_stopped : bool;            (* [io_context_.stop()] was called *)
  h_timers : bool;             (* [TimerManager::running_] *)
  h_loop : bool                (* [GameLoop::running_] *)
}.

Definition TcpServer_Stop (h : Host) : Host :=
  if negb (w_running (h_world h)) then h
  else mkHost (upd_running (fun _ => false) (h_world h)) false true (h_timers h) (h_loop h).

(** Both return when their thread has ended ([Worker.Stop_returns]). *)
Definition TimerManager_Stop (h : Host) : Host :=
  if negb (h_timers h) then h else mkHost (h_world h) (h_acceptor h) (h_stopped h) false (h_loop h).
Definition GameLoop_Stop (h : Host) : Host :=
  if negb (h_loop h) then h else mkHost (h_world h) (h_acceptor h) (h_stopped h) (h_timers h) false.

(** The arguments are the tests of the three pointers. *)
Definition Server_Stop (tcp_server timer_manager game_loop : bool) (h : Host) : Host :=
  let h := if tcp_server then TcpServer_Stop h else h in
  let h := if timer_manager then TimerManager_Stop h else h in
  if game_loop then GameLoop_Stop h else h.

(** The thread that would run the handler of an event is there: a worker of the
    [io_context], the timer thread or the loop thread. *)
Definition served (h : Host) (e : Event) : bool :=
  match e with
  | EClock _ _ | EExpire _ => true
  | ELoop => h_loop h
  | ETimers => h_timers h
  | EAccept _ | ERead _ _ | EReadError _ | ERunPosted _ | EWritten _ | EWriteError _ => negb (h_stopped h)
  end.

Definition host_step (h : Host) (e : Event) : option Host :=
  if served h e
  then (fun w => mkHost w (h_acceptor h) (h_stopped h) (h_timers h) (h_loop h)) <$> step (h_world h) e
  else Some h.

(** After [Stop] of a server that listens the listening socket is closed, no handler
    runs any more, only the clock goes on, and a second [Stop] does nothing. *)
Lemma Server_Stop_ends (h : Host) :
  w_running (h_world h) = true ->
  let h' := Server_Stop true true true h in
  h_acceptor h' = false /\ w_running (h_world h') = false
  /\ Server_Stop true true true h' = h'
  /\ forall e, (forall now steady, e <> EClock now steady) -> (forall conn, e <> EExpire conn) ->
       host_step h' e = Some h'.
Proof.
  intros Hr. unfold Server_Stop, TcpServer_Stop. rewrite Hr.
  destruct h as [w a s [] []]; cbn; split_and!; try done;
    intros [] Hclock Hexpire; try done; [by destruct (Hclock now steady)|by destruct (Hexpire conn)|..];
    try (by destruct (Hclock now steady)); by destruct (Hexpire conn).
Qed.
End main.
