(* ===== verification/Bot.v ===== *)
(** * Bot: the load-test client

    Models [bot/bot_client.h/.cpp] and [util/random_util.h]; the manager and the
    program are in [BotMain].  A bot is one thread that runs the completion handlers of
    its [io_context] one at a time; a handler is a computation on the bot's
    fields.  Boost.Asio's side is what is pending: a [BotEvent] completes one of
    the pending operations, in any order, so a timer may fire as late as it
    likes.  The random engine, the resolver and the clock are inputs of an event.

    [Undefined] marks what C++ leaves undefined: a distribution over an empty
    range, [int] overflow, [pop_front] of an empty deque.  [Uncaught] is an
    exception that leaves the thread's function, which ends the process. *)
From S2P Require Import Prelude Wire StdString Float32 Messages.
Local Open Scope string_scope.
Local Open Scope Z_scope.

(** ** BotOptions (bot_client.h) *)
Record BotOptions := mkOptions {
  cancel_match_percent : Z;
  queue_disconnect_percent : Z;
  room_disconnect_percent : Z;
  playing_disconnect_percent : Z;
  ready_toggle_percent : Z;
  max_reconnects : Z;
  reconnect_delay_ms : Z;
  rematch_delay_ms : Z;
  action_jitter_ms : Z;
  heartbeat_interval_ms : Z;
  input_interval_ms : Z;
  verbose : bool
}.
Definition BotOptions_default : BotOptions := mkOptions 10 5 5 5 10 2 500 500 800 5000 50 false.

(** ** BotStats: the counters the bots share *)
Record BotStats := mkStats {
  st_connect_ok : Z; st_connect_failed : Z; st_disconnects : Z; st_login_ok : Z;
  st_login_failed : Z; st_reconnect_ok : Z; st_reconnect_failed : Z; st_match_ok : Z;
  st_match_failed : Z; st_match_cancel : Z; st_match_success : Z; st_ready : Z; st_unready : Z;
  st_room_playing : Z; st_input_sent : Z; st_game_state : Z; st_game_over : Z
}.
Definition BotStats_zero : BotStats := mkStats 0 0 0 0 0 0 0 0 0 0 0 0 0 0 0 0 0.

(** The counters, for [++stats_->c]. *)
Inductive Counter :=
  | C_connect_ok | C_connect_failed | C_disconnects | C_login_ok | C_login_failed | C_reconnect_ok
  | C_reconnect_failed | C_match_ok | C_match_failed | C_match_cancel | C_match_success | C_ready
  | C_unready | C_room_playing | C_input_sent | C_game_state | C_game_over.

#[export] Instance counter_eq_dec : EqDecision Counter.
Proof. solve_decision. Defined.

Definition count (c : Counter) (s : BotStats) : Z :=
  match c with
  | C_connect_ok => st_connect_ok s | C_connect_failed => st_connect_failed s
  | C_disconnects => st_disconnects s | C_login_ok => st_login_ok s
  | C_login_failed => st_login_failed s | C_reconnect_ok => st_reconnect_ok s
  | C_reconnect_failed => st_reconnect_failed s | C_match_ok => st_match_ok s
  | C_match_failed => st_match_failed s | C_match_cancel => st_match_cancel s
  | C_match_success => st_match_success s | C_ready => st_ready s | C_unready => st_unready s
  | C_room_playing => st_room_playing s | C_input_sent => st_input_sent s
  | C_game_state => st_game_state s | C_game_over => st_game_over s
  end.

Definition increment (c : Counter) (s : BotStats) : BotStats :=
  let one k := if bool_decide (c = k) then 1 else 0 in
  mkStats
    (st_connect_ok s + one C_connect_ok) (st_connect_failed s + one C_connect_failed)
    (st_disconnects s + one C_disconnects) (st_login_ok s + one C_login_ok)
    (st_login_failed s + one C_login_failed) (st_reconnect_ok s + one C_reconnect_ok)
    (st_reconnect_failed s + one C_reconnect_failed) (st_match_ok s + one C_match_ok)
    (st_match_failed s + one C_match_failed) (st_match_cancel s + one C_match_cancel)
    (st_match_success s + one C_match_success) (st_ready s + one C_ready)
    (st_unready s + one C_unready) (st_room_playing s + one C_room_playing)
    (st_input_sent s + one C_input_sent) (st_game_state s + one C_game_state)
    (st_game_over s + one C_game_over).

(** ** BotClient (bot_client.h) *)
Inductive FlowState := Disconnected | Connecting | LoggedIn | Matching | InRoom | Playing.
Inductive DisconnectPoint := Queue | Room | PlayingPoint.
#[export] Instance flowstate_eq_dec : EqDecision FlowState.
Proof. solve_decision. Defined.

(** The callbacks given to [ScheduleTimer]. *)
Inductive BotCallback :=
  | CbConnect (reconnect : bool)
  | CbHeartbeat
  | CbMatch
  | CbRematch                 (* the lambda of [CancelMatch] *)
  | CbCancelMatch
  | CbSimulateDisconnect (point : DisconnectPoint)
  | CbReadyFlow               (* the lambda of [HandleMatchSuccess] *)
  | CbUnreadyThenReady        (* the outer lambda of [ScheduleReadyFlow] *)
  | CbReady
  | CbSendInput.

(** The handlers posted to [io_context_]. *)
Inductive BotTask := BSend (packet : Packet) | BClose.

Record BotClient := mkBot {
  b_host : string;
  b_port : Z;
  b_index : Z;
  b_options : BotOptions;
  b_stats : option BotStats;
  b_running : bool;
  b_socket : option Z;
  b_read_buffer : bytes;
  b_write_queue : list bytes;
  b_state : FlowState;
  b_connected : bool;
  b_heartbeat_started : bool;
  b_input_loop_active : bool;
  b_cancelled_this_round : bool;
  b_queue_disconnect_this_round : bool;
  b_room_disconnect_this_round : bool;
  b_playing_disconnect_this_round : bool;
  b_reconnect_count : Z;
  b_seq : Z;
  b_player_id : Z;
  b_room_id : Z;
  b_input_seq : Z;
  b_session_token : string;
  (* Boost.Asio's side *)
  b_open : gset Z; (* the sockets that are open *)
  b_next_socket : Z; (* the next free socket *)
  b_posted : list BotTask; (* posted to io_context_ *)
  b_timers : list (Z * BotCallback); (* pending timers: delay, callback *)
  b_connecting : list (Z * bool); (* pending async_connect: socket, reconnect *)
  b_reading : list Z; (* pending async_read_some *)
  b_writing : list Z; (* pending async_write *)
  b_sent : list (Z * bytes); (* completed writes, in order *)
  b_stopped : bool (* io_context_.stop() was called *)
}.

(** Assignments to one field. *)
Definition bset_stats (v : option BotStats) (b : BotClient) : BotClient :=
  mkBot
    (b_host b) (b_port b) (b_index b) (b_options b) v (b_running b) (b_socket b) (b_read_buffer b)
    (b_write_queue b) (b_state b) (b_connected b) (b_heartbeat_started b) (b_input_loop_active b)
    (b_cancelled_this_round b) (b_queue_disconnect_this_round b) (b_room_disconnect_this_round b)
    (b_playing_disconnect_this_round b) (b_reconnect_count b) (b_seq b) (b_player_id b)
    (b_room_id b) (b_input_seq b) (b_session_token b) (b_open b) (b_next_socket b) (b_posted b)
    (b_timers b) (b_connecting b) (b_reading b) (b_writing b) (b_sent b) (b_stopped b).
Definition bset_running (v : bool) (b : BotClient) : BotClient :=
  mkBot
    (b_host b) (b_port b) (b_index b) (b_options b) (b_stats b) v (b_socket b) (b_read_buffer b)
    (b_write_queue b) (b_state b) (b_connected b) (b_heartbeat_started b) (b_input_loop_active b)
    (b_cancelled_this_round b) (b_queue_disconnect_this_round b) (b_room_disconnect_this_round b)
    (b_playing_disconnect_this_round b) (b_reconnect_count b) (b_seq b) (b_player_id b)
    (b_room_id b) (b_input_seq b) (b_session_token b) (b_open b) (b_next_socket b) (b_posted b)
    (b_timers b) (b_connecting b) (b_reading b) (b_writing b) (b_sent b) (b_stopped b).
Definition bset_socket (v : option Z) (b : BotClient) : BotClient :=
  mkBot
    (b_host b) (b_port b) (b_index b) (b_options b) (b_stats b) (b_running b) v (b_read_buffer b)
    (b_write_queue b) (b_state b) (b_connected b) (b_heartbeat_started b) (b_input_loop_active b)
    (b_cancelled_this_round b) (b_queue_disconnect_this_round b) (b_room_disconnect_this_round b)
    (b_playing_disconnect_this_round b) (b_reconnect_count b) (b_seq b) (b_player_id b)
    (b_room_id b) (b_input_seq b) (b_session_token b) (b_open b) (b_next_socket b) (b_posted b)
    (b_timers b) (b_connecting b) (b_reading b) (b_writing b) (b_sent b) (b_stopped b).
Definition bset_read_buffer (v : bytes) (b : BotClient) : BotClient :=
  mkBot
    (b_host b) (b_port b) (b_index b) (b_options b) (b_stats b) (b_running b) (b_socket b) v
    (b_write_queue b) (b_state b) (b_connected b) (b_heartbeat_started b) (b_input_loop_active b)
    (b_cancelled_this_round b) (b_queue_disconnect_this_round b) (b_room_disconnect_this_round b)
    (b_playing_disconnect_this_round b) (b_reconnect_count b) (b_seq b) (b_player_id b)
    (b_room_id b) (b_input_seq b) (b_session_token b) (b_open b) (b_next_socket b) (b_posted b)
    (b_timers b) (b_connecting b) (b_reading b) (b_writing b) (b_sent b) (b_stopped b).
Definition bset_write_queue (v : list bytes) (b : BotClient) : BotClient :=
  mkBot
    (b_host b) (b_port b) (b_index b) (b_options b) (b_stats b) (b_running b) (b_socket b)
    (b_read_buffer b) v (b_state b) (b_connected b) (b_heartbeat_started b) (b_input_loop_active b)
    (b_cancelled_this_round b) (b_queue_disconnect_this_round b) (b_room_disconnect_this_round b)
    (b_playing_disconnect_this_round b) (b_reconnect_count b) (b_seq b) (b_player_id b)
    (b_room_id b) (b_input_seq b) (b_session_token b) (b_open b) (b_next_socket b) (b_posted b)
    (b_timers b) (b_connecting b) (b_reading b) (b_writing b) (b_sent b) (b_stopped b).
Definition bset_state (v : FlowState) (b : BotClient) : BotClient :=
  mkBot
    (b_host b) (b_port b) (b_index b) (b_options b) (b_stats b) (b_running b) (b_socket b)
    (b_read_buffer b) (b_write_queue b) v (b_connected b) (b_heartbeat_started b)
    (b_input_loop_active b) (b_cancelled_this_round b) (b_queue_disconnect_this_round b)
    (b_room_disconnect_this_round b) (b_playing_disconnect_this_round b) (b_reconnect_count b)
    (b_seq b) (b_player_id b) (b_room_id b) (b_input_seq b) (b_session_token b) (b_open b)
    (b_next_socket b) (b_posted b) (b_timers b) (b_connecting b) (b_reading b) (b_writing b)
    (b_sent b) (b_stopped b).
Definition bset_connected (v : bool) (b : BotClient) : BotClient :=
  mkBot
    (b_host b) (b_port b) (b_index b) (b_options b) (b_stats b) (b_running b) (b_socket b)
    (b_read_buffer b) (b_write_queue b) (b_state b) v (b_heartbeat_started b)
    (b_input_loop_active b) (b_cancelled_this_round b) (b_queue_disconnect_this_round b)
    (b_room_disconnect_this_round b) (b_playing_disconnect_this_round b) (b_reconnect_count b)
    (b_seq b) (b_player_id b) (b_room_id b) (b_input_seq b) (b_session_token b) (b_open b)
    (b_next_socket b) (b_posted b) (b_timers b) (b_connecting b) (b_reading b) (b_writing b)
    (b_sent b) (b_stopped b).
Definition bset_heartbeat_started (v : bool) (b : BotClient) : BotClient :=
  mkBot
    (b_host b) (b_port b) (b_index b) (b_options b) (b_stats b) (b_running b) (b_socket b)
    (b_read_buffer b) (b_write_queue b) (b_state b) (b_connected b) v (b_input_loop_active b)
    (b_cancelled_this_round b) (b_queue_disconnect_this_round b) (b_room_disconnect_this_round b)
    (b_playing_disconnect_this_round b) (b_reconnect_count b) (b_seq b) (b_player_id b)
    (b_room_id b) (b_input_seq b) (b_session_token b) (b_open b) (b_next_socket b) (b_posted b)
    (b_timers b) (b_connecting b) (b_reading b) (b_writing b) (b_sent b) (b_stopped b).
Definition bset_input_loop_active (v : bool) (b : BotClient) : BotClient :=
  mkBot
    (b_host b) (b_port b) (b_index b) (b_options b) (b_stats b) (b_running b) (b_socket b)
    (b_read_buffer b) (b_write_queue b) (b_state b) (b_connected b) (b_heartbeat_started b) v
    (b_cancelled_this_round b) (b_queue_disconnect_this_round b) (b_room_disconnect_this_round b)
    (b_playing_disconnect_this_round b) (b_reconnect_count b) (b_seq b) (b_player_id b)
    (b_room_id b) (b_input_seq b) (b_session_token b) (b_open b) (b_next_socket b) (b_posted b)
    (b_timers b) (b_connecting b) (b_reading b) (b_writing b) (b_sent b) (b_stopped b).
Definition bset_cancelled_this_round (v : bool) (b : BotClient) : BotClient :=
  mkBot
    (b_host b) (b_port b) (b_index b) (b_options b) (b_stats b) (b_running b) (b_socket b)
    (b_read_buffer b) (b_write_queue b) (b_state b) (b_connected b) (b_heartbeat_started b)
    (b_input_loop_active b) v (b_queue_disconnect_this_round b) (b_room_disconnect_this_round b)
    (b_playing_disconnect_this_round b) (b_reconnect_count b) (b_seq b) (b_player_id b)
    (b_room_id b) (b_input_seq b) (b_session_token b) (b_open b) (b_next_socket b) (b_posted b)
    (b_timers b) (b_connecting b) (b_reading b) (b_writing b) (b_sent b) (b_stopped b).
Definition bset_queue_disconnect_this_round (v : bool) (b : BotClient) : BotClient :=
  mkBot
    (b_host b) (b_port b) (b_index b) (b_options b) (b_stats b) (b_running b) (b_socket b)
    (b_read_buffer b) (b_write_queue b) (b_state b) (b_connected b) (b_heartbeat_started b)
    (b_input_loop_active b) (b_cancelled_this_round b) v (b_room_disconnect_this_round b)
    (b_playing_disconnect_this_round b) (b_reconnect_count b) (b_seq b) (b_player_id b)
    (b_room_id b) (b_input_seq b) (b_session_token b) (b_open b) (b_next_socket b) (b_posted b)
    (b_timers b) (b_connecting b) (b_reading b) (b_writing b) (b_sent b) (b_stopped b).
Definition bset_room_disconnect_this_round (v : bool) (b : BotClient) : BotClient :=
  mkBot
    (b_host b) (b_port b) (b_index b) (b_options b) (b_stats b) (b_running b) (b_socket b)
    (b_read_buffer b) (b_write_queue b) (b_state b) (b_connected b) (b_heartbeat_started b)
    (b_input_loop_active b) (b_cancelled_this_round b) (b_queue_disconnect_this_round b) v
    (b_playing_disconnect_this_round b) (b_reconnect_count b) (b_seq b) (b_player_id b)
    (b_room_id b) (b_input_seq b) (b_session_token b) (b_open b) (b_next_socket b) (b_posted b)
    (b_timers b) (b_connecting b) (b_reading b) (b_writing b) (b_sent b) (b_stopped b).
Definition bset_playing_disconnect_this_round (v : bool) (b : BotClient) : BotClient :=
  mkBot
    (b_host b) (b_port b) (b_index b) (b_options b) (b_stats b) (b_running b) (b_socket b)
    (b_read_buffer b) (b_write_queue b) (b_state b) (b_connected b) (b_heartbeat_started b)
    (b_input_loop_active b) (b_cancelled_this_round b) (b_queue_disconnect_this_round b)
    (b_room_disconnect_this_round b) v (b_reconnect_count b) (b_seq b) (b_player_id b)
    (b_room_id b) (b_input_seq b) (b_session_token b) (b_open b) (b_next_socket b) (b_posted b)
    (b_timers b) (b_connecting b) (b_reading b) (b_writing b) (b_sent b) (b_stopped b).
Definition bset_reconnect_count (v : Z) (b : BotClient) : BotClient :=
  mkBot
    (b_host b) (b_port b) (b_index b) (b_options b) (b_stats b) (b_running b) (b_socket b)
    (b_read_buffer b) (b_write_queue b) (b_state b) (b_connected b) (b_heartbeat_started b)
    (b_input_loop_active b) (b_cancelled_this_round b) (b_queue_disconnect_this_round b)
    (b_room_disconnect_this_round b) (b_playing_disconnect_this_round b) v (b_seq b)
    (b_player_id b) (b_room_id b) (b_input_seq b) (b_session_token b) (b_open b) (b_next_socket b)
    (b_posted b) (b_timers b) (b_connecting b) (b_reading b) (b_writing b) (b_sent b) (b_stopped b).
Definition bset_seq (v : Z) (b : BotClient) : BotClient :=
  mkBot
    (b_host b) (b_port b) (b_index b) (b_options b) (b_stats b) (b_running b) (b_socket b)
    (b_read_buffer b) (b_write_queue b) (b_state b) (b_connected b) (b_heartbeat_started b)
    (b_input_loop_active b) (b_cancelled_this_round b) (b_queue_disconnect_this_round b)
    (b_room_disconnect_this_round b) (b_playing_disconnect_this_round b) (b_reconnect_count b) v
    (b_player_id b) (b_room_id b) (b_input_seq b) (b_session_token b) (b_open b) (b_next_socket b)
    (b_posted b) (b_timers b) (b_connecting b) (b_reading b) (b_writing b) (b_sent b) (b_stopped b).
Definition bset_player_id (v : Z) (b : BotClient) : BotClient :=
  mkBot
    (b_host b) (b_port b) (b_index b) (b_options b) (b_stats b) (b_running b) (b_socket b)
    (b_read_buffer b) (b_write_queue b) (b_state b) (b_connected b) (b_heartbeat_started b)
    (b_input_loop_active b) (b_cancelled_this_round b) (b_queue_disconnect_this_round b)
    (b_room_disconnect_this_round b) (b_playing_disconnect_this_round b) (b_reconnect_count b)
    (b_seq b) v (b_room_id b) (b_input_seq b) (b_session_token b) (b_open b) (b_next_socket b)
    (b_posted b) (b_timers b) (b_connecting b) (b_reading b) (b_writing b) (b_sent b) (b_stopped b).
Definition bset_room_id (v : Z) (b : BotClient) : BotClient :=
  mkBot
    (b_host b) (b_port b) (b_index b) (b_options b) (b_stats b) (b_running b) (b_socket b)
    (b_read_buffer b) (b_write_queue b) (b_state b) (b_connected b) (b_heartbeat_started b)
    (b_input_loop_active b) (b_cancelled_this_round b) (b_queue_disconnect_this_round b)
    (b_room_disconnect_this_round b) (b_playing_disconnect_this_round b) (b_reconnect_count b)
    (b_seq b) (b_player_id b) v (b_input_seq b) (b_session_token b) (b_open b) (b_next_socket b)
    (b_posted b) (b_timers b) (b_connecting b) (b_reading b) (b_writing b) (b_sent b) (b_stopped b).
Definition bset_input_seq (v : Z) (b : BotClient) : BotClient :=
  mkBot
    (b_host b) (b_port b) (b_index b) (b_options b) (b_stats b) (b_running b) (b_socket b)
    (b_read_buffer b) (b_write_queue b) (b_state b) (b_connected b) (b_heartbeat_started b)
    (b_input_loop_active b) (b_cancelled_this_round b) (b_queue_disconnect_this_round b)
    (b_room_disconnect_this_round b) (b_playing_disconnect_this_round b) (b_reconnect_count b)
    (b_seq b) (b_player_id b) (b_room_id b) v (b_session_token b) (b_open b) (b_next_socket b)
    (b_posted b) (b_timers b) (b_connecting b) (b_reading b) (b_writing b) (b_sent b) (b_stopped b).
Definition bset_session_token (v : string) (b : BotClient) : BotClient :=
  mkBot
    (b_host b) (b_port b) (b_index b) (b_options b) (b_stats b) (b_running b) (b_socket b)
    (b_read_buffer b) (b_write_queue b) (b_state b) (b_connected b) (b_heartbeat_started b)
    (b_input_loop_active b) (b_cancelled_this_round b) (b_queue_disconnect_this_round b)
    (b_room_disconnect_this_round b) (b_playing_disconnect_this_round b) (b_reconnect_count b)
    (b_seq b) (b_player_id b) (b_room_id b) (b_input_seq b) v (b_open b) (b_next_socket b)
    (b_posted b) (b_timers b) (b_connecting b) (b_reading b) (b_writing b) (b_sent b) (b_stopped b).
Definition bset_open (v : gset Z) (b : BotClient) : BotClient :=
  mkBot
    (b_host b) (b_port b) (b_index b) (b_options b) (b_stats b) (b_running b) (b_socket b)
    (b_read_buffer b) (b_write_queue b) (b_state b) (b_connected b) (b_heartbeat_started b)
    (b_input_loop_active b) (b_cancelled_this_round b) (b_queue_disconnect_this_round b)
    (b_room_disconnect_this_round b) (b_playing_disconnect_this_round b) (b_reconnect_count b)
    (b_seq b) (b_player_id b) (b_room_id b) (b_input_seq b) (b_session_token b) v (b_next_socket b)
    (b_posted b) (b_timers b) (b_connecting b) (b_reading b) (b_writing b) (b_sent b) (b_stopped b).
Definition bset_next_socket (v : Z) (b : BotClient) : BotClient :=
  mkBot
    (b_host b) (b_port b) (b_index b) (b_options b) (b_stats b) (b_running b) (b_socket b)
    (b_read_buffer b) (b_write_queue b) (b_state b) (b_connected b) (b_heartbeat_started b)
    (b_input_loop_active b) (b_cancelled_this_round b) (b_queue_disconnect_this_round b)
    (b_room_disconnect_this_round b) (b_playing_disconnect_this_round b) (b_reconnect_count b)
    (b_seq b) (b_player_id b) (b_room_id b) (b_input_seq b) (b_session_token b) (b_open b) v
    (b_posted b) (b_timers b) (b_connecting b) (b_reading b) (b_writing b) (b_sent b) (b_stopped b).
Definition bset_posted (v : list BotTask) (b : BotClient) : BotClient :=
  mkBot
    (b_host b) (b_port b) (b_index b) (b_options b) (b_stats b) (b_running b) (b_socket b)
    (b_read_buffer b) (b_write_queue b) (b_state b) (b_connected b) (b_heartbeat_started b)
    (b_input_loop_active b) (b_cancelled_this_round b) (b_queue_disconnect_this_round b)
    (b_room_disconnect_this_round b) (b_playing_disconnect_this_round b) (b_reconnect_count b)
    (b_seq b) (b_player_id b) (b_room_id b) (b_input_seq b) (b_session_token b) (b_open b)
    (b_next_socket b) v (b_timers b) (b_connecting b) (b_reading b) (b_writing b) (b_sent b)
    (b_stopped b).
Definition bset_timers (v : list (Z * BotCallback)) (b : BotClient) : BotClient :=
  mkBot
    (b_host b) (b_port b) (b_index b) (b_options b) (b_stats b) (b_running b) (b_socket b)
    (b_read_buffer b) (b_write_queue b) (b_state b) (b_connected b) (b_heartbeat_started b)
    (b_input_loop_active b) (b_cancelled_this_round b) (b_queue_disconnect_this_round b)
    (b_room_disconnect_this_round b) (b_playing_disconnect_this_round b) (b_reconnect_count b)
    (b_seq b) (b_player_id b) (b_room_id b) (b_input_seq b) (b_session_token b) (b_open b)
    (b_next_socket b) (b_posted b) v (b_connecting b) (b_reading b) (b_writing b) (b_sent b)
    (b_stopped b).
Definition bset_connecting (v : list (Z * bool)) (b : BotClient) : BotClient :=
  mkBot
    (b_host b) (b_port b) (b_index b) (b_options b) (b_stats b) (b_running b) (b_socket b)
    (b_read_buffer b) (b_write_queue b) (b_state b) (b_connected b) (b_heartbeat_started b)
    (b_input_loop_active b) (b_cancelled_this_round b) (b_queue_disconnect_this_round b)
    (b_room_disconnect_this_round b) (b_playing_disconnect_this_round b) (b_reconnect_count b)
    (b_seq b) (b_player_id b) (b_room_id b) (b_input_seq b) (b_session_token b) (b_open b)
    (b_next_socket b) (b_posted b) (b_timers b) v (b_reading b) (b_writing b) (b_sent b)
    (b_stopped b).
Definition bset_reading (v : list Z) (b : BotClient) : BotClient :=
  mkBot
    (b_host b) (b_port b) (b_index b) (b_options b) (b_stats b) (b_running b) (b_socket b)
    (b_read_buffer b) (b_write_queue b) (b_state b) (b_connected b) (b_heartbeat_started b)
    (b_input_loop_active b) (b_cancelled_this_round b) (b_queue_disconnect_this_round b)
    (b_room_disconnect_this_round b) (b_playing_disconnect_this_round b) (b_reconnect_count b)
    (b_seq b) (b_player_id b) (b_room_id b) (b_input_seq b) (b_session_token b) (b_open b)
    (b_next_socket b) (b_posted b) (b_timers b) (b_connecting b) v (b_writing b) (b_sent b)
    (b_stopped b).
Definition bset_writing (v : list Z) (b : BotClient) : BotClient :=
  mkBot
    (b_host b) (b_port b) (b_index b) (b_options b) (b_stats b) (b_running b) (b_socket b)
    (b_read_buffer b) (b_write_queue b) (b_state b) (b_connected b) (b_heartbeat_started b)
    (b_input_loop_active b) (b_cancelled_this_round b) (b_queue_disconnect_this_round b)
    (b_room_disconnect_this_round b) (b_playing_disconnect_this_round b) (b_reconnect_count b)
    (b_seq b) (b_player_id b) (b_room_id b) (b_input_seq b) (b_session_token b) (b_open b)
    (b_next_socket b) (b_posted b) (b_timers b) (b_connecting b) (b_reading b) v (b_sent b)
    (b_stopped b).
Definition bset_sent (v : list (Z * bytes)) (b : BotClient) : BotClient :=
  mkBot
    (b_host b) (b_port b) (b_index b) (b_options b) (b_stats b) (b_running b) (b_socket b)
    (b_read_buffer b) (b_write_queue b) (b_state b) (b_connected b) (b_heartbeat_started b)
    (b_input_loop_active b) (b_cancelled_this_round b) (b_queue_disconnect_this_round b)
    (b_room_disconnect_this_round b) (b_playing_disconnect_this_round b) (b_reconnect_count b)
    (b_seq b) (b_player_id b) (b_room_id b) (b_input_seq b) (b_session_token b) (b_open b)
    (b_next_socket b) (b_posted b) (b_timers b) (b_connecting b) (b_reading b) (b_writing b) v
    (b_stopped b).
Definition bset_stopped (v : bool) (b : BotClient) : BotClient :=
  mkBot
    (b_host b) (b_port b) (b_index b) (b_options b) (b_stats b) (b_running b) (b_socket b)
    (b_read_buffer b) (b_write_queue b) (b_state b) (b_connected b) (b_heartbeat_started b)
    (b_input_loop_active b) (b_cancelled_this_round b) (b_queue_disconnect_this_round b)
    (b_room_disconnect_this_round b) (b_playing_disconnect_this_round b) (b_reconnect_count b)
    (b_seq b) (b_player_id b) (b_room_id b) (b_input_seq b) (b_session_token b) (b_open b)
    (b_next_socket b) (b_posted b) (b_timers b) (b_connecting b) (b_reading b) (b_writing b)
    (b_sent b) v.

Definition BotClient_new (host : string) (port index : Z) (options : BotOptions) (stats : option BotStats) : BotClient :=
  mkBot host port index options stats false None [] [] Disconnected false false false false false false false
    0 0 0 0 0 "" ∅ 0 [] [] [] [] [] [] false.

(** ** Computations *)
Record Inputs := mkInputs {
  in_rand : list Z;              (* the draws of the random engine *)
  in_floats : list float32;      (* the same for floats *)
  in_resolves : list bool;       (* does resolve succeed *)
  in_now : Z                     (* NowMs() *)
}.

(** How a computation on a state [S] ends. *)
Inductive outcome (S A : Type) :=
  | Done (a : A) (s : S) (i : Inputs)
  | Uncaught (e : exn)
  | Undefined.
Arguments Done {S A}.
Arguments Uncaught {S A}.
Arguments Undefined {S A}.

Definition B (A : Type) : Type := BotClient -> Inputs -> outcome BotClient A.
#[export] Instance B_ret : MRet B := fun A a b i => Done a b i.
#[export] Instance B_bind : MBind B :=
  fun A A' f m b i =>
    match m b i with Done a b i => f a b i | Uncaught e => Uncaught e | Undefined => Undefined end.

Definition get {A} (f : BotClient -> A) : B A := fun b i => Done (f b) b i.
Definition modify (f : BotClient -> BotClient) : B unit := fun b i => Done tt (f b) i.
Definition undefined {A} : B A := fun _ _ => Undefined.
Definition uncaught {A} (e : exn) : B A := fun _ _ => Uncaught e.
Definition whenb (c : bool) (m : B unit) : B unit := if c then m else mret tt.
Fixpoint foreach {A} (l : list A) (f : A -> B unit) : B unit :=
  match l with [] => mret tt | x :: l => f x ;; foreach l f end.

(** An [int] result of an addition. *)
Definition int_result (z : Z) : B Z :=
  if (int32_min <=? z) && (z <=? int32_max) then mret z else undefined.

(** ** RandomUtil (random_util.h): any value of the range *)
Definition RandomUtil_Int (min_value max_value : Z) : B Z :=
  if max_value <? min_value then undefined
  else fun b i =>
    let r := hd 0 (in_rand i) in
    Done (min_value + r `mod` (max_value - min_value + 1)) b
      (mkInputs (tl (in_rand i)) (in_floats i) (in_resolves i) (in_now i)).

Definition RandomUtil_Float (min_value max_value : float32) : B float32 :=
  if f32_leb min_value max_value then
    fun b i =>
      let f := hd min_value (in_floats i) in
      Done (if f32_leb min_value f && f32_ltb f max_value then f else min_value) b
        (mkInputs (in_rand i) (tl (in_floats i)) (in_resolves i) (in_now i))
  else undefined.

Definition resolve : B bool :=
  fun b i => Done (hd true (in_resolves i)) b
               (mkInputs (in_rand i) (in_floats i) (tl (in_resolves i)) (in_now i)).
Definition NowMs : B Z := fun b i => Done (in_now i) b i.

(** [if (stats_) { ++stats_->c; }] *)
Definition stat (c : Counter) : B unit := modify (fun b => bset_stats (increment c <$> b_stats b) b).

Section bot.
Context {PB : Protobuf}.

(** ** Timers, sending and sockets (bot_client.cpp) *)
Definition ScheduleTimer (delay_ms : Z) (callback : BotCallback) : B unit :=
  running ← get b_running;
  if negb running then mret tt
  else modify (fun b => bset_timers (b_timers b ++ [(Z.max 0 delay_ms, callback)]) b).

Definition JitterMs (base_ms : Z) : B Z :=
  options ← get b_options;
  let jitter := Z.max 0 (action_jitter_ms options) in
  r ← RandomUtil_Int 0 jitter;
  sum ← int_result (base_ms + r);
  mret (Z.max 0 sum).

Definition PercentHit (percent : Z) : B bool :=
  if percent <=? 0 then mret false
  else if 100 <=? percent then mret true
  else r ← RandomUtil_Int 1 100; mret (r <=? percent).

Definition SendPacket (packet : Packet) : B unit :=
  running ← get b_running;
  if negb running then mret tt else modify (fun b => bset_posted (b_posted b ++ [BSend packet]) b).

(** [ProtoHelper::Build(id, request, ++seq_)], sent. *)
Definition SendRequest (id : Z) (request : Message) : B unit :=
  modify (fun b => bset_seq (wrap_u32 (b_seq b + 1)) b) ;;
  seq ← get b_seq;
  SendPacket (ProtoHelper_Build id request seq).

Definition DoRead (socket : Z) : B unit := modify (fun b => bset_reading (b_reading b ++ [socket]) b).

Definition DoWrite (socket : option Z) : B unit :=
  b ← get id;
  match socket with
  | None => mret tt
  | Some s =>
    if negb (bool_decide (b_socket b = Some s)) || bool_decide (b_write_queue b = []) then mret tt
    else modify (fun b => bset_writing (b_writing b ++ [s]) b)
  end.

Definition CloseSocket : B unit :=
  modify (bset_connected false) ;;
  modify (bset_input_loop_active false) ;;
  modify (bset_write_queue []) ;;
  socket ← get b_socket;
  modify (bset_socket None) ;;
  match socket with
  | None => mret tt
  | Some s => modify (fun b => bset_open (b_open b ∖ {[s]}) b)
  end.

Definition Connect (reconnect : bool) : B unit :=
  running ← get b_running;
  if negb running then mret tt
  else
    modify (bset_state Connecting) ;;
    modify (bset_connected false) ;;
    modify (bset_read_buffer []) ;;
    modify (bset_write_queue []) ;;
    modify (fun b => bset_next_socket (b_next_socket b + 1) (bset_socket (Some (b_next_socket b)) b)) ;;
    socket ← get b_socket;
    resolved ← resolve;
    if negb resolved then
      options ← get b_options;
      stat C_connect_failed ;;
      ScheduleTimer (reconnect_delay_ms options) (CbConnect reconnect)
    else
      match socket with
      | None => mret tt
      | Some s => modify (fun b => bset_connecting (b_connecting b ++ [(s, reconnect)]) b)
      end.

(** The pending writes whose buffer is gone: [async_write] was given the front of the
    queue, and [Connect] or [CloseSocket] has cleared the queue since.  Boost.Asio
    requires the buffer to stay valid until the handler of the write is called. *)
Definition freed_writes (b : BotClient) : list Z :=
  filter (fun s => b_socket b <> Some s \/ b_write_queue b = []) (b_writing b).

(** ** Requests *)
Definition Login : B unit :=
  index ← get b_index;
  SendRequest MSG_LOGIN_REQ (LoginRequest ("bot_" +:+ to_string index) "bot_token").

Definition Reconnect : B unit :=
  b ← get id;
  SendRequest MSG_RECONNECT_REQ (ReconnectRequest (b_player_id b) (b_session_token b)).

Definition ScheduleReconnect : B unit :=
  b ← get id;
  if negb (b_running b) || (b_player_id b =? 0) || bool_decide (b_session_token b = "") then mret tt
  else
    delay ← JitterMs (reconnect_delay_ms (b_options b));
    ScheduleTimer delay (CbConnect true).

Definition ScheduleHeartbeat : B unit :=
  b ← get id;
  if b_heartbeat_started b || (heartbeat_interval_ms (b_options b) <=? 0) then mret tt
  else
    modify (bset_heartbeat_started true) ;;
    ScheduleTimer (heartbeat_interval_ms (b_options b)) CbHeartbeat.

Definition Heartbeat : B unit :=
  b ← get id;
  if negb (b_running b) then mret tt
  else
    whenb (b_connected b)
      (now ← NowMs; SendRequest MSG_HEARTBEAT_REQ (HeartbeatRequest now)) ;;
    ScheduleTimer (heartbeat_interval_ms (b_options b)) CbHeartbeat.

Definition Match : B unit :=
  b ← get id;
  if negb (b_connected b) || (b_player_id b =? 0) || negb (b_room_id b =? 0) then mret tt
  else
    modify (bset_state Matching) ;;
    SendRequest MSG_MATCH_REQ (MatchRequest (b_player_id b)).

Definition CancelMatch : B unit :=
  b ← get id;
  if negb (b_connected b) || negb (bool_decide (b_state b = Matching)) || negb (b_room_id b =? 0) then mret tt
  else
    SendRequest MSG_MATCH_CANCEL_REQ (MatchCancelRequest (b_player_id b)) ;;
    modify (bset_cancelled_this_round true) ;;
    modify (bset_state LoggedIn) ;;
    stat C_match_cancel ;;
    delay ← JitterMs (rematch_delay_ms (b_options b));
    ScheduleTimer delay CbRematch.

Definition ScheduleCancelMatch : B unit :=
  max ← JitterMs 250;
  delay ← RandomUtil_Int 50 max;
  ScheduleTimer delay CbCancelMatch.

(** [*round_flag], its address chosen by [point]. *)
Definition round_flag (point : DisconnectPoint) (b : BotClient) : bool :=
  match point with
  | Queue => b_queue_disconnect_this_round b
  | Room => b_room_disconnect_this_round b
  | PlayingPoint => b_playing_disconnect_this_round b
  end.
Definition bset_round_flag (point : DisconnectPoint) (v : bool) (b : BotClient) : BotClient :=
  match point with
  | Queue => bset_queue_disconnect_this_round v b
  | Room => bset_room_disconnect_this_round v b
  | PlayingPoint => bset_playing_disconnect_this_round v b
  end.
Definition disconnect_percent (point : DisconnectPoint) (o : BotOptions) : Z :=
  match point with
  | Queue => queue_disconnect_percent o
  | Room => room_disconnect_percent o
  | PlayingPoint => playing_disconnect_percent o
  end.

Definition MaybeScheduleDisconnect (point : DisconnectPoint) : B bool :=
  b ← get id;
  if max_reconnects (b_options b) <=? b_reconnect_count b then mret false
  else if round_flag point b then mret false
  else
    hit ← PercentHit (disconnect_percent point (b_options b));
    if negb hit then mret false
    else
      modify (bset_round_flag point true) ;;
      max ← JitterMs 500;
      delay ← RandomUtil_Int 50 max;
      ScheduleTimer delay (CbSimulateDisconnect point) ;;
      mret true.

(** The trace of [verbose] is not modelled. *)
Definition SimulateDisconnect (point : DisconnectPoint) : B unit :=
  b ← get id;
  if negb (b_running b) || negb (b_connected b) || (max_reconnects (b_options b) <=? b_reconnect_count b) then mret tt
  else
    n ← int_result (b_reconnect_count b + 1);
    modify (bset_reconnect_count n) ;;
    stat C_disconnects ;;
    CloseSocket ;;
    ScheduleReconnect.

Definition Ready : B unit :=
  b ← get id;
  if negb (b_connected b) || (b_room_id b =? 0) then mret tt
  else SendRequest MSG_READY_REQ (ReadyRequest true) ;; stat C_ready.

Definition Unready : B unit :=
  b ← get id;
  if negb (b_connected b) || (b_room_id b =? 0) then mret tt
  else SendRequest MSG_READY_REQ (ReadyRequest false) ;; stat C_unready.

(** [ScheduleTimer(RandomUtil::Int(100, JitterMs(600)), callback)] *)
Definition ready_timer (callback : BotCallback) : B unit :=
  max ← JitterMs 600;
  delay ← RandomUtil_Int 100 max;
  ScheduleTimer delay callback.

Definition ScheduleReadyFlow : B unit :=
  b ← get id;
  if b_room_id b =? 0 then mret tt
  else
    hit ← PercentHit (ready_toggle_percent (b_options b));
    if (hit : bool) then Ready ;; ready_timer CbUnreadyThenReady else Ready.

Definition SendInput : B unit :=
  b ← get id;
  if negb (b_running b) || negb (b_connected b) || (b_room_id b =? 0) || negb (b_input_loop_active b) then mret tt
  else
    modify (fun b => bset_input_seq (b_input_seq b + 1) b) ;;
    b ← get id;
    move_x ← RandomUtil_Float (f32_of_Z (-1)) (f32_of_Z 1);
    move_y ← RandomUtil_Float (f32_of_Z (-1)) (f32_of_Z 1);
    fire ← RandomUtil_Int 0 3;
    SendRequest MSG_INPUT_REQ
      (InputRequest (mkPlayerInput (b_player_id b) (b_input_seq b) move_x move_y (fire =? 0))) ;;
    stat C_input_sent ;;
    ScheduleTimer (input_interval_ms (b_options b)) CbSendInput.

Definition StartInputLoop : B unit :=
  b ← get id;
  if negb (b_running b) || (b_room_id b =? 0) || b_input_loop_active b then mret tt
  else modify (bset_input_loop_active true) ;; SendInput.

(** ** Responses and notifications *)
Definition parse_login_response (p : Packet) : option (Z * Z * string) :=
  match ProtoHelper_Parse TLoginResponse p with
  | Some (LoginResponse code player_id _ token) => Some (code, player_id, token) | _ => None end.
Definition parse_reconnect_response (p : Packet) : option (Z * Z) :=
  match ProtoHelper_Parse TReconnectResponse p with
  | Some (ReconnectResponse code room_id) => Some (code, room_id) | _ => None end.
Definition parse_match_response (p : Packet) : option Z :=
  match ProtoHelper_Parse TMatchResponse p with
  | Some (MatchResponse code _) => Some code | _ => None end.
Definition parse_match_success (p : Packet) : option Z :=
  match ProtoHelper_Parse TMatchSuccessNotify p with
  | Some (MatchSuccessNotify room_id _) => Some room_id | _ => None end.
Definition parse_room_state (p : Packet) : option (Z * Z) :=
  match ProtoHelper_Parse TRoomStateNotify p with
  | Some (RoomStateNotify room_id state _) => Some (room_id, state) | _ => None end.

(** [ScheduleTimer(JitterMs(options_.rematch_delay_ms), Match)] *)
Definition ScheduleRematch : B unit :=
  b ← get id;
  delay ← JitterMs (rematch_delay_ms (b_options b));
  ScheduleTimer delay CbMatch.

Definition HandleMatchResponse (packet : Packet) : B unit :=
  match parse_match_response packet with
  | None => mret tt
  | Some code =>
    if code =? 0 then
      modify (bset_state Matching) ;;
      stat C_match_ok ;;
      b ← get id;
      cancel ← (if negb (b_cancelled_this_round b) then PercentHit (cancel_match_percent (b_options b)) else mret false);
      if (cancel : bool) then ScheduleCancelMatch
      else MaybeScheduleDisconnect Queue ;; mret tt
    else if code =? 2 then modify (bset_state Matching)
    else stat C_match_failed ;; modify (bset_state LoggedIn) ;; ScheduleRematch
  end.

Definition HandleMatchSuccess (packet : Packet) : B unit :=
  match parse_match_success packet with
  | None => mret tt
  | Some room_id =>
    modify (bset_room_id room_id) ;;
    modify (bset_state InRoom) ;;
    modify (bset_input_loop_active false) ;;
    stat C_match_success ;;
    will_disconnect_before_ready ← MaybeScheduleDisconnect Room;
    if (will_disconnect_before_ready : bool) then mret tt
    else delay ← JitterMs 50; ScheduleTimer delay CbReadyFlow
  end.

Definition HandleRoomState (packet : Packet) : B unit :=
  match parse_room_state packet with
  | None => mret tt
  | Some (room_id, state) =>
    modify (bset_room_id room_id) ;;
    whenb (state =? 2)
      (modify (bset_state Playing) ;;
       stat C_room_playing ;;
       StartInputLoop ;;
       MaybeScheduleDisconnect PlayingPoint ;; mret tt)
  end.

Definition HandleGameState : B unit :=
  stat C_game_state ;;
  b ← get id;
  whenb (negb (b_room_id b =? 0) && negb (bool_decide (b_state b = Playing)))
    (modify (bset_state Playing) ;;
     StartInputLoop ;;
     MaybeScheduleDisconnect PlayingPoint ;; mret tt).

Definition HandleGameOver : B unit :=
  modify (bset_room_id 0) ;;
  modify (bset_input_loop_active false) ;;
  modify (bset_state LoggedIn) ;;
  modify (bset_cancelled_this_round false) ;;
  modify (bset_queue_disconnect_this_round false) ;;
  modify (bset_room_disconnect_this_round false) ;;
  modify (bset_playing_disconnect_this_round false) ;;
  modify (bset_reconnect_count 0) ;;
  modify (bset_input_seq 0) ;;
  stat C_game_over ;;
  ScheduleRematch.

Definition OnLoginResponse (packet : Packet) : B unit :=
  match parse_login_response packet with
  | Some (0, player_id, token) =>
    modify (bset_player_id player_id) ;;
    modify (bset_session_token token) ;;
    modify (bset_state LoggedIn) ;;
    stat C_login_ok ;;
    ScheduleHeartbeat ;;
    delay ← JitterMs 10;
    ScheduleTimer delay CbMatch
  | _ => stat C_login_failed
  end.

Definition OnReconnectResponse (packet : Packet) : B unit :=
  match parse_reconnect_response packet with
  | Some (0, room_id) =>
    modify (bset_room_id room_id) ;;
    modify (bset_state (if room_id =? 0 then LoggedIn else InRoom)) ;;
    stat C_reconnect_ok ;;
    if negb (room_id =? 0) then ScheduleReadyFlow ;; StartInputLoop
    else ScheduleRematch
  | _ => stat C_reconnect_failed
  end.

Definition OnMessage (packet : Packet) : B unit :=
  if msg_id packet =? MSG_LOGIN_RESP then OnLoginResponse packet
  else if msg_id packet =? MSG_RECONNECT_RESP then OnReconnectResponse packet
  else if msg_id packet =? MSG_MATCH_RESP then HandleMatchResponse packet
  else if msg_id packet =? MSG_MATCH_SUCCESS_NOTIFY then HandleMatchSuccess packet
  else if msg_id packet =? MSG_ROOM_STATE_NOTIFY then HandleRoomState packet
  else if msg_id packet =? MSG_GAME_STATE_NOTIFY then HandleGameState
  else if msg_id packet =? MSG_GAME_OVER_NOTIFY then HandleGameOver
  else mret tt.

(** ** Completion handlers *)

(** The callback of a timer. *)
Definition run_callback (callback : BotCallback) : B unit :=
  match callback with
  | CbConnect reconnect => Connect reconnect
  | CbHeartbeat => Heartbeat
  | CbMatch => Match
  | CbRematch =>
    b ← get id;
    whenb (bool_decide (b_state b = LoggedIn) && (b_room_id b =? 0)) Match
  | CbCancelMatch => CancelMatch
  | CbSimulateDisconnect point => SimulateDisconnect point
  | CbReadyFlow =>
    b ← get id;
    whenb (b_connected b && negb (b_room_id b =? 0)) ScheduleReadyFlow
  | CbUnreadyThenReady => Unready ;; ready_timer CbReady
  | CbReady => Ready
  | CbSendInput => SendInput
  end.

(** The handler of [async_wait]; the timers are never cancelled. *)
Definition on_timer (callback : BotCallback) : B unit :=
  running ← get b_running;
  whenb running (run_callback callback).

(** The handler of [async_connect].  A socket counts as open from here on: it is
    only asked [is_open] when [connected_] holds. *)
Definition on_connect (socket : Z) (reconnect ok : bool) : B unit :=
  b ← get id;
  if negb (b_running b) || negb (bool_decide (b_socket b = Some socket)) then mret tt
  else if negb ok then
    stat C_connect_failed ;;
    ScheduleTimer (reconnect_delay_ms (b_options b)) (CbConnect reconnect)
  else
    modify (fun b => bset_open ({[socket]} ∪ b_open b) b) ;;
    modify (bset_connected true) ;;
    stat C_connect_ok ;;
    (if reconnect && negb (b_player_id b =? 0) && negb (bool_decide (b_session_token b = "")) then Reconnect
     else Login) ;;
    DoRead socket.

(** The handler of [async_read_some]: an error, or bytes.  [OnMessage] throws
    nothing, so the [try] block catches what [Decode] throws. *)
Definition on_read (socket : Z) (data : option bytes) : B unit :=
  b ← get id;
  if negb (b_running b) || negb (bool_decide (b_socket b = Some socket)) then mret tt
  else
    match data with
    | None => modify (bset_connected false)
    | Some data =>
      match Decode (b_read_buffer b ++ data) with
      | None => undefined
      | Some (r, rest) =>
        modify (bset_read_buffer rest) ;;
        match r with
        | Throw _ => CloseSocket
        | Ok packets => foreach packets OnMessage ;; DoRead socket
        end
      end
    end.

(** The handler [SendPacket] posts, and the one [Stop] posts. *)
Definition is_open (socket : option Z) (b : BotClient) : bool :=
  match socket with Some s => bool_decide (s ∈ b_open b) | None => false end.

Definition run_posted (task : BotTask) : B unit :=
  match task with
  | BClose => CloseSocket
  | BSend packet =>
    b ← get id;
    if negb (b_running b) || negb (b_connected b) || negb (is_open (b_socket b) b) then mret tt
    else
      let writing := negb (bool_decide (b_write_queue b = [])) in
      match Encode packet with
      | Throw e => uncaught e
      | Ok data =>
        modify (fun b => bset_write_queue (b_write_queue b ++ [data]) b) ;;
        whenb (negb writing) (DoWrite (b_socket b))
      end
  end.

(** The handler of [async_write]; [b_sent] records what was written. *)
Definition on_write (socket : Z) (ok : bool) : B unit :=
  b ← get id;
  if negb (b_running b) || negb (bool_decide (b_socket b = Some socket)) then mret tt
  else if negb ok then CloseSocket
  else
    match b_write_queue b with
    | [] => undefined
    | front :: queue =>
      modify (fun b => bset_sent (b_sent b ++ [(socket, front)]) b) ;;
      modify (bset_write_queue queue) ;;
      whenb (negb (bool_decide (queue = []))) (DoWrite (Some socket))
    end.

(** ** Start, Stop, and the events of a bot *)
Definition BotClient_Start : B unit :=
  running ← get b_running;
  if (running : bool) then mret tt
  else modify (bset_running true) ;; Connect false.

(** [Stop] runs on another thread than the handlers, in two sections: the flag and
    the posted handler, then [io_context_.stop()], after which no handler runs any
    more.  In between the worker goes on, with [running_] cleared. *)
Definition BotClient_Stop : B unit :=
  running ← get b_running;
  if negb running then mret tt
  else
    modify (bset_running false) ;;
    modify (fun b => bset_posted (b_posted b ++ [BClose]) b).

Definition BotClient_Stop_ends : B unit :=
  running ← get b_running;
  if (running : bool) then mret tt else modify (bset_stopped true).

(** What happens next: the worker thread runs the first posted handler or the handler
    of one pending operation, chosen by its position, or a section of [Stop] runs. *)
Inductive BotEvent :=
  | EvTask
  | EvTimer (i : nat)
  | EvConnect (i : nat) (ok : bool)
  | EvRead (i : nat) (data : option bytes)
  | EvWrite (i : nat) (ok : bool)
  | EvStop
  | EvStopped.

(** Complete the [i]-th pending operation of a list. *)
Definition complete {A} (field : BotClient -> list A) (bset : list A -> BotClient -> BotClient) (i : nat)
    (handler : A -> B unit) : B unit :=
  b ← get id;
  match field b !! i with
  | None => mret tt
  | Some op => modify (bset (delete i (field b))) ;; handler op
  end.

Definition bot_step (e : BotEvent) : B unit :=
  stopped ← get b_stopped;
  if (stopped : bool) then mret tt
  else
    match e with
    | EvTask => complete b_posted bset_posted 0 run_posted
    | EvTimer i => complete b_timers bset_timers i (fun t => on_timer t.2)
    | EvConnect i ok => complete b_connecting bset_connecting i (fun c => on_connect c.1 c.2 ok)
    | EvRead i data => complete b_reading bset_reading i (fun s => on_read s data)
    | EvWrite i ok => complete b_writing bset_writing i (fun s => on_write s ok)
    | EvStop => BotClient_Stop
    | EvStopped => BotClient_Stop_ends
    end.

(** A bot from [Start] on, through a sequence of events, each with its inputs. *)
Definition no_inputs : Inputs := mkInputs [] [] [] 0.
Fixpoint bot_run (es : list (BotEvent * Inputs)) (b : BotClient) : outcome BotClient unit :=
  match es with
  | [] => Done tt b no_inputs
  | (e, i) :: es =>
    match bot_step e b i with
    | Done _ b _ => bot_run es b
    | Uncaught e => Uncaught e
    | Undefined => Undefined
    end
  end.
Definition bot_trace (bot : BotClient) (i : Inputs) (es : list (BotEvent * Inputs)) : outcome BotClient unit :=
  match BotClient_Start bot i with
  | Done _ b _ => bot_run es b
  | Uncaught e => Uncaught e
  | Undefined => Undefined
  end.
End bot.
