(* ===== verification/BotMain.v ===== *)
(** * BotMain: the bot manager and the bot program

    Models [bot/bot_manager.h/.cpp] and [bot/bot_main.cpp]: the bots share one
    [BotStats], which the manager keeps here and lends to the bot that runs.
    [main] parses its arguments, starts the bots, prints their counters once a
    second until a signal or the end of [--duration], and stops them. *)
From S2P Require Import Prelude Wire StdString Messages Bot.
From Stdlib Require Import Ascii.
Local Open Scope string_scope.
Local Open Scope Z_scope.

Definition endl : string := String "010" "".

(** ** BotManager (bot_manager.h/.cpp) *)
Record BotManager := mkManager {
  m_host : string;
  m_port : Z;
  m_options : BotOptions;
  m_stats : BotStats;
  m_bots : list BotClient
}.
Definition BotManager_new (host : string) (port : Z) (options : BotOptions) : BotManager :=
  mkManager host port options BotStats_zero [].

Definition mset_bots (stats : BotStats) (bots : list BotClient) (m : BotManager) : BotManager :=
  mkManager (m_host m) (m_port m) (m_options m) stats bots.

Section manager.
Context {PB : Protobuf}.

(** Run a computation of one bot on the counters the manager's bots share. *)
Definition lend {A} (stats : BotStats) (c : B A) (b : BotClient) (i : Inputs) : outcome (BotStats * BotClient) A :=
  match c (bset_stats (Some stats) b) i with
  | Done a b i => Done a (default stats (b_stats b), b) i
  | Uncaught e => Uncaught e
  | Undefined => Undefined
  end.

(** The loop of [Start], from the [index]-th bot on. *)
Fixpoint start_bots (n : nat) (index : Z) (m : BotManager) (i : Inputs) : outcome BotManager unit :=
  match n with
  | O => Done tt m i
  | S n =>
    let bot := BotClient_new (m_host m) (m_port m) index (m_options m) (Some (m_stats m)) in
    match lend (m_stats m) BotClient_Start bot i with
    | Done _ (stats, bot) i => start_bots n (index + 1) (mset_bots stats (m_bots m ++ [bot]) m) i
    | Uncaught e => Uncaught e
    | Undefined => Undefined
    end
  end.

(** [reserve] takes a [size_t]: a negative count is past [max_size]. *)
Definition BotManager_Start (bot_count : Z) (m : BotManager) (i : Inputs) : outcome BotManager unit :=
  if bot_count <? 0 then Uncaught length_error
  else start_bots (Z.to_nat bot_count) 0 m i.

(** One event of the [k]-th bot. *)
Definition manager_step (k : nat) (e : BotEvent) (m : BotManager) (i : Inputs) : outcome BotManager unit :=
  match m_bots m !! k with
  | None => Done tt m i
  | Some bot =>
    match lend (m_stats m) (bot_step e) bot i with
    | Done _ (stats, bot) i => Done tt (mset_bots stats (<[k := bot]> (m_bots m)) m) i
    | Uncaught e => Uncaught e
    | Undefined => Undefined
    end
  end.

(** [PrintStats] *)
Definition PrintStats (elapsed_seconds : Z) (m : BotManager) : string :=
  let s := m_stats m in
  "[t=" +:+ to_string elapsed_seconds +:+ "s]"
  +:+ " conn=" +:+ to_string (st_connect_ok s)
  +:+ " conn_fail=" +:+ to_string (st_connect_failed s)
  +:+ " login=" +:+ to_string (st_login_ok s)
  +:+ " login_fail=" +:+ to_string (st_login_failed s)
  +:+ " reconnect=" +:+ to_string (st_reconnect_ok s)
  +:+ " reconnect_fail=" +:+ to_string (st_reconnect_failed s)
  +:+ " disconnect=" +:+ to_string (st_disconnects s)
  +:+ " match=" +:+ to_string (st_match_ok s)
  +:+ " match_fail=" +:+ to_string (st_match_failed s)
  +:+ " cancel=" +:+ to_string (st_match_cancel s)
  +:+ " rooms=" +:+ to_string (st_match_success s)
  +:+ " ready=" +:+ to_string (st_ready s)
  +:+ " unready=" +:+ to_string (st_unready s)
  +:+ " playing=" +:+ to_string (st_room_playing s)
  +:+ " input=" +:+ to_string (st_input_sent s)
  +:+ " state=" +:+ to_string (st_game_state s)
  +:+ " over=" +:+ to_string (st_game_over s)
  +:+ endl.

(** What the worker threads do in a while: events of the bots, in some order. *)
Fixpoint manager_steps (es : list (nat * BotEvent)) (m : BotManager) (i : Inputs) : outcome BotManager unit :=
  match es with
  | [] => Done tt m i
  | (k, e) :: es =>
    match manager_step k e m i with
    | Done _ m i => manager_steps es m i
    | Uncaught e => Uncaught e
    | Undefined => Undefined
    end
  end.
(** The loop of [Stop], for the [n] bots from the [k]-th on: [meanwhile k] is what the
    worker threads, its own and those of the other bots, run between the two sections
    of the [Stop] of the [k]-th bot. *)
Fixpoint stop_bots (meanwhile : nat -> list (nat * BotEvent)) (n k : nat) (m : BotManager) (i : Inputs)
    : outcome BotManager unit :=
  match n with
  | O => Done tt m i
  | S n =>
    match manager_steps ((k, EvStop) :: meanwhile k ++ [(k, EvStopped)])%list m i with
    | Done _ m i => stop_bots meanwhile n (S k) m i
    | Uncaught e => Uncaught e
    | Undefined => Undefined
    end
  end.

(** [Stop]: the loop, then [bots_.clear()]; the destructors stop nothing more. *)
Definition BotManager_Stop (meanwhile : nat -> list (nat * BotEvent)) (m : BotManager) (i : Inputs)
    : outcome BotManager unit :=
  match stop_bots meanwhile (length (m_bots m)) 0 m i with
  | Done _ m i => Done tt (mset_bots (m_stats m) [] m) i
  | Uncaught e => Uncaught e
  | Undefined => Undefined
  end.
End manager.

(** ** The arguments (bot_main.cpp) *)
Record Args := mkArgs {
  a_host : string;
  a_port : Z;
  a_count : Z;
  a_duration : Z;
  a_options : BotOptions
}.
Definition Args_default : Args := mkArgs "127.0.0.1" 9000 100 0 BotOptions_default.

Definition aset_options (f : BotOptions -> BotOptions) (a : Args) : Args :=
  mkArgs (a_host a) (a_port a) (a_count a) (a_duration a) (f (a_options a)).

(** The branches with [i + 1 < argc]: what [arg] does with [argv[++i]]; [None]
    for an [arg] that is none of them. *)
Definition set_option (arg value : string) (a : Args) : option (result Args) :=
  let o := a_options a in
  let int (f : Z -> Args) := Some (f <$> stoi value) in
  let opt (f : Z -> BotOptions) := int (fun n => aset_options (fun _ => f n) a) in
  if bool_decide (arg = "--host") then Some (Ok (mkArgs value (a_port a) (a_count a) (a_duration a) o))
  else if bool_decide (arg = "--port") then int (fun n => mkArgs (a_host a) (n `mod` 65536) (a_count a) (a_duration a) o)
  else if bool_decide (arg = "--count") then int (fun n => mkArgs (a_host a) (a_port a) n (a_duration a) o)
  else if bool_decide (arg = "--duration") then int (fun n => mkArgs (a_host a) (a_port a) (a_count a) n o)
  else if bool_decide (arg = "--cancel-match-percent") then
    opt (fun n => mkOptions n (queue_disconnect_percent o) (room_disconnect_percent o) (playing_disconnect_percent o)
      (ready_toggle_percent o) (max_reconnects o) (reconnect_delay_ms o) (rematch_delay_ms o) (action_jitter_ms o)
      (heartbeat_interval_ms o) (input_interval_ms o) (verbose o))
  else if bool_decide (arg = "--queue-disconnect-percent") then
    opt (fun n => mkOptions (cancel_match_percent o) n (room_disconnect_percent o) (playing_disconnect_percent o)
      (ready_toggle_percent o) (max_reconnects o) (reconnect_delay_ms o) (rematch_delay_ms o) (action_jitter_ms o)
      (heartbeat_interval_ms o) (input_interval_ms o) (verbose o))
  else if bool_decide (arg = "--room-disconnect-percent") then
    opt (fun n => mkOptions (cancel_match_percent o) (queue_disconnect_percent o) n (playing_disconnect_percent o)
      (ready_toggle_percent o) (max_reconnects o) (reconnect_delay_ms o) (rematch_delay_ms o) (action_jitter_ms o)
      (heartbeat_interval_ms o) (input_interval_ms o) (verbose o))
  else if bool_decide (arg = "--playing-disconnect-percent") then
    opt (fun n => mkOptions (cancel_match_percent o) (queue_disconnect_percent o) (room_disconnect_percent o) n
      (ready_toggle_percent o) (max_reconnects o) (reconnect_delay_ms o) (rematch_delay_ms o) (action_jitter_ms o)
      (heartbeat_interval_ms o) (input_interval_ms o) (verbose o))
  else if bool_decide (arg = "--ready-toggle-percent") then
    opt (fun n => mkOptions (cancel_match_percent o) (queue_disconnect_percent o) (room_disconnect_percent o)
      (playing_disconnect_percent o) n (max_reconnects o) (reconnect_delay_ms o) (rematch_delay_ms o) (action_jitter_ms o)
      (heartbeat_interval_ms o) (input_interval_ms o) (verbose o))
  else if bool_decide (arg = "--max-reconnects") then
    opt (fun n => mkOptions (cancel_match_percent o) (queue_disconnect_percent o) (room_disconnect_percent o)
      (playing_disconnect_percent o) (ready_toggle_percent o) n (reconnect_delay_ms o) (rematch_delay_ms o)
      (action_jitter_ms o) (heartbeat_interval_ms o) (input_interval_ms o) (verbose o))
  else if bool_decide (arg = "--reconnect-delay-ms") then
    opt (fun n => mkOptions (cancel_match_percent o) (queue_disconnect_percent o) (room_disconnect_percent o)
      (playing_disconnect_percent o) (ready_toggle_percent o) (max_reconnects o) n (rematch_delay_ms o)
      (action_jitter_ms o) (heartbeat_interval_ms o) (input_interval_ms o) (verbose o))
  else if bool_decide (arg = "--rematch-delay-ms") then
    opt (fun n => mkOptions (cancel_match_percent o) (queue_disconnect_percent o) (room_disconnect_percent o)
      (playing_disconnect_percent o) (ready_toggle_percent o) (max_reconnects o) (reconnect_delay_ms o) n
      (action_jitter_ms o) (heartbeat_interval_ms o) (input_interval_ms o) (verbose o))
  else if bool_decide (arg = "--action-jitter-ms") then
    opt (fun n => mkOptions (cancel_match_percent o) (queue_disconnect_percent o) (room_disconnect_percent o)
      (playing_disconnect_percent o) (ready_toggle_percent o) (max_reconnects o) (reconnect_delay_ms o)
      (rematch_delay_ms o) n (heartbeat_interval_ms o) (input_interval_ms o) (verbose o))
  else if bool_decide (arg = "--heartbeat-interval-ms") then
    opt (fun n => mkOptions (cancel_match_percent o) (queue_disconnect_percent o) (room_disconnect_percent o)
      (playing_disconnect_percent o) (ready_toggle_percent o) (max_reconnects o) (reconnect_delay_ms o)
      (rematch_delay_ms o) (action_jitter_ms o) n (input_interval_ms o) (verbose o))
  else if bool_decide (arg = "--input-interval-ms") then
    opt (fun n => mkOptions (cancel_match_percent o) (queue_disconnect_percent o) (room_disconnect_percent o)
      (playing_disconnect_percent o) (ready_toggle_percent o) (max_reconnects o) (reconnect_delay_ms o)
      (rematch_delay_ms o) (action_jitter_ms o) (heartbeat_interval_ms o) n (verbose o))
  else None.

Definition set_verbose (a : Args) : Args :=
  aset_options (fun o =>
    mkOptions (cancel_match_percent o) (queue_disconnect_percent o) (room_disconnect_percent o)
      (playing_disconnect_percent o) (ready_toggle_percent o) (max_reconnects o) (reconnect_delay_ms o)
      (rematch_delay_ms o) (action_jitter_ms o) (heartbeat_interval_ms o) (input_interval_ms o) true) a.

(** The [for] loop over [argv[1..]]. *)
Inductive parsed :=
  | Run (a : Args)
  | Help                       (* PrintUsage, return 0 *)
  | UnknownOption (arg : string) (* message, PrintUsage, return 1 *)
  | Dies (e : exn).            (* std::stoi throws *)

Fixpoint parse_args (args : list string) (a : Args) : parsed :=
  match args with
  | [] => Run a
  | arg :: rest =>
    if bool_decide (arg = "--help") then Help
    else
      let flag (_ : unit) :=
        if bool_decide (arg = "--verbose") then parse_args rest (set_verbose a) else UnknownOption arg in
      match rest with
      | value :: rest' =>
        match set_option arg value a with
        | Some (Ok a) => parse_args rest' a
        | Some (Throw e) => Dies e
        | None => flag tt
        end
      | [] => flag tt
      end
  end.

Definition PrintUsage (program : string) : string :=
  "Usage: " +:+ program +:+ " [options]" +:+ endl
  +:+ "  --host HOST                         default: 127.0.0.1" +:+ endl
  +:+ "  --port PORT                         default: 9000" +:+ endl
  +:+ "  --count N                           default: 100" +:+ endl
  +:+ "  --duration SEC                      default: 0, run until Ctrl+C" +:+ endl
  +:+ "  --cancel-match-percent N            default: 10" +:+ endl
  +:+ "  --queue-disconnect-percent N        default: 5" +:+ endl
  +:+ "  --room-disconnect-percent N         default: 5" +:+ endl
  +:+ "  --playing-disconnect-percent N      default: 5" +:+ endl
  +:+ "  --ready-toggle-percent N            default: 10" +:+ endl
  +:+ "  --max-reconnects N                  default: 2" +:+ endl
  +:+ "  --reconnect-delay-ms N              default: 500" +:+ endl
  +:+ "  --rematch-delay-ms N                default: 500" +:+ endl
  +:+ "  --action-jitter-ms N                default: 800" +:+ endl
  +:+ "  --heartbeat-interval-ms N           default: 5000, <=0 disables heartbeat" +:+ endl
  +:+ "  --input-interval-ms N               default: 50" +:+ endl
  +:+ "  --verbose                           print per-bot disconnect traces" +:+ endl.

(** ** main (bot_main.cpp) *)

(** How the process ends, and what it wrote to [std::cout] and [std::cerr]. *)
Inductive exit :=
  | Exit (code : Z) (cout cerr : list string)
  | Terminate (e : exn)
  | NoMeaning.                 (* undefined behaviour *)

Section main.
Context {PB : Protobuf}.

(** What the loop observes in its [n]-th second: is [g_running] still set when
    the second starts, and what the bots do while [main] sleeps; and what they do
    while the [k]-th of them is being stopped. *)
Context (g_running : Z -> bool) (world : Z -> list (nat * BotEvent)) (meanwhile : nat -> list (nat * BotEvent)).

(** [None] only when the fuel runs out ([main_loop_stops]). *)
Fixpoint main_loop (fuel : nat) (duration_seconds elapsed : Z) (m : BotManager) (i : Inputs) (cout : list string)
    : option (outcome (BotManager * list string) Z) :=
  match fuel with
  | O => None
  | S fuel =>
    if g_running elapsed && ((duration_seconds <=? 0) || (elapsed <? duration_seconds)) then
      match manager_steps (world elapsed) m i with
      | Done _ m i =>
        main_loop fuel duration_seconds (elapsed + 1) m i (cout ++ [PrintStats (elapsed + 1) m])
      | Uncaught e => Some (Uncaught e)
      | Undefined => Some Undefined
      end
    else Some (Done elapsed (m, cout) i)
  end.

Definition started (a : Args) : string :=
  "started " +:+ to_string (a_count a) +:+ " bots on " +:+ a_host a +:+ ":" +:+ to_string (a_port a) +:+ endl.

(** [main] after its arguments. *)
Definition run_bots (fuel : nat) (a : Args) (i : Inputs) : option exit :=
  match BotManager_Start (a_count a) (BotManager_new (a_host a) (a_port a) (a_options a)) i with
  | Uncaught e => Some (Terminate e)
  | Undefined => Some NoMeaning
  | Done _ m i =>
    match main_loop fuel (a_duration a) 0 m i [started a] with
    | None => None
    | Some (Uncaught e) => Some (Terminate e)
    | Some Undefined => Some NoMeaning
    | Some (Done elapsed (m, cout) i) =>
      match BotManager_Stop meanwhile m i with
      | Uncaught e => Some (Terminate e)
      | Undefined => Some NoMeaning
      | Done _ m _ => Some (Exit 0 (cout ++ [PrintStats elapsed m]) [])
      end
    end
  end.

Definition main (fuel : nat) (program : string) (args : list string) (i : Inputs) : option exit :=
  match parse_args args Args_default with
  | Help => Some (Exit 0 [PrintUsage program] [])
  | UnknownOption arg =>
    Some (Exit 1 [PrintUsage program] ["unknown or incomplete option: " +:+ arg +:+ endl])
  | Dies e => Some (Terminate e)
  | Run a => run_bots fuel a i
  end.
End main.
