(* ===== verification/BotReason.v ===== *)
(** * BotReason: reasoning about the computations of a bot

    [hoare P m Q]: from a state with [P], [m] does not run into undefined
    behaviour, and if it ends it does so in a state with [Q] of its result.
    Most operations of a bot are [quiet]: they send packets, start timers and
    count, and leave the [core] of the bot alone, the part its invariant is
    about. *)
From S2P Require Import Prelude Wire StdString Float32 Messages Bot.
Local Open Scope Z_scope.
Create HintDb bot.

(** ** Triples *)
Definition hoare {A} (P : BotClient -> Prop) (m : B A) (Q : A -> BotClient -> Prop) : Prop :=
  forall b i, P b -> match m b i with Done a b _ => Q a b | Uncaught _ => True | Undefined => False end.

Section rules.
Implicit Types P : BotClient -> Prop.

Lemma hoare_ret {A} P (a : A) : hoare P (mret a) (fun a' b => a' = a /\ P b).
Proof. by intros b i Hb. Qed.

Lemma hoare_bind {A A'} P (m : B A) (f : A -> B A') Q R :
  hoare P m Q -> (forall a, hoare (Q a) (f a) R) -> hoare P (m ≫= f) R.
Proof.
  intros Hm Hf b i Hb. unfold mbind, B_bind. specialize (Hm b i Hb).
  destruct (m b i) as [a b' i'| |]; [by apply Hf|done..].
Qed.

Lemma hoare_get {A A'} P (g : BotClient -> A) (f : A -> B A') R :
  (forall a, hoare (fun b => P b /\ g b = a) (f a) R) -> hoare P (get g ≫= f) R.
Proof. intros Hf b i Hb. by apply (Hf (g b) b i). Qed.

Lemma hoare_modify P (g : BotClient -> BotClient) : hoare P (modify g) (fun _ b' => exists b, b' = g b /\ P b).
Proof. intros b i Hb. cbn. by exists b. Qed.

Lemma hoare_weaken {A} P P' (m : B A) Q Q' :
  hoare P' m Q' -> (forall b, P b -> P' b) -> (forall a b, Q' a b -> Q a b) -> hoare P m Q.
Proof.
  intros Hm HP HQ b i Hb. specialize (Hm b i (HP b Hb)).
  destruct (m b i); naive_solver.
Qed.

(** The pending operation an event completes is removed from its list. *)
Lemma hoare_complete {A} P (field : BotClient -> list A) bset i (handler : A -> B unit) Q :
  (forall b, P b -> field b !! i = None -> Q tt b) ->
  (forall op, hoare (fun b' => exists b, b' = bset (delete i (field b)) b /\ P b /\ field b !! i = Some op)
                (handler op) Q) ->
  hoare P (complete field bset i handler) Q.
Proof.
  intros Hnone Hop b inp Hb. unfold complete, mbind, B_bind, get. cbn.
  destruct (field b !! i) as [op|] eqn:Hi; [|by apply Hnone].
  apply (Hop op). eauto.
Qed.
End rules.

(** ** The core of a bot *)
Record Core := mkCore {
  c_options : BotOptions;
  c_running : bool;
  c_stopped : bool;
  c_socket : option Z;
  c_writes : bool;              (* is the write queue non-empty *)
  c_connected : bool;
  c_heartbeat_started : bool;
  c_reconnect_count : Z;
  c_open : gset Z;
  c_next_socket : Z;
  c_retries : nat;              (* timers that call Connect *)
  c_heartbeats : nat;           (* timers that call Heartbeat *)
  c_connecting : list (Z * bool);
  c_reading : list Z;
  c_writing : list Z
}.

Definition is_retry (t : Z * BotCallback) : bool := match t.2 with CbConnect _ => true | _ => false end.
Definition is_heartbeat (t : Z * BotCallback) : bool := match t.2 with CbHeartbeat => true | _ => false end.

Definition core (b : BotClient) : Core :=
  mkCore (b_options b) (b_running b) (b_stopped b) (b_socket b) (negb (bool_decide (b_write_queue b = []))) (b_connected b)
    (b_heartbeat_started b) (b_reconnect_count b) (b_open b) (b_next_socket b)
    (length (List.filter is_retry (b_timers b))) (length (List.filter is_heartbeat (b_timers b)))
    (b_connecting b) (b_reading b) (b_writing b).

(** Options whose delays stay in the range of [int]. *)
Definition options_ok (o : BotOptions) : Prop :=
  is_i32 (action_jitter_ms o) /\ is_i32 (max_reconnects o)
  /\ int32_min <= reconnect_delay_ms o /\ int32_min <= rematch_delay_ms o
  /\ Z.max 600 (Z.max (reconnect_delay_ms o) (rematch_delay_ms o)) + Z.max 0 (action_jitter_ms o) <= int32_max.

(** ** Quiet computations *)
Definition quiet {A} (o : BotOptions) (m : B A) (Q : A -> Prop) : Prop :=
  forall b i, options_ok o -> b_options b = o ->
  match m b i with Done a b' _ => core b' = core b /\ Q a | Uncaught _ => True | Undefined => False end.

Section quiet.
Context (o : BotOptions).

Lemma bot_quiet_ret {A} (a : A) : quiet o (mret a) (fun a' => a' = a).
Proof. by intros b i Ho Hb. Qed.

Lemma bot_quiet_bind {A A'} (m : B A) (f : A -> B A') Q R :
  quiet o m Q -> (forall a, Q a -> quiet o (f a) R) -> quiet o (m ≫= f) R.
Proof.
  intros Hm Hf b i Ho Hb. unfold mbind, B_bind. specialize (Hm b i Ho Hb).
  destruct (m b i) as [a b' i'| |]; [|done..]. destruct Hm as [Hc Ha].
  assert (b_options b' = o) as Hb' by (by rewrite <- Hb; apply (f_equal c_options) in Hc).
  specialize (Hf a Ha b' i' Ho Hb'). destruct (f a b' i'); [|done..].
  by rewrite <- Hc.
Qed.

Lemma quiet_get {A} (g : BotClient -> A) : quiet o (get g) (fun a => exists b, b_options b = o /\ a = g b).
Proof. intros b i Ho Hb. cbn. eauto. Qed.

Lemma quiet_modify g : (forall b, core (g b) = core b) -> quiet o (modify g) (fun _ => True).
Proof. intros Hg b i Ho Hb. cbn. auto. Qed.

Lemma quiet_if {A} (c : bool) (m1 m2 : B A) Q :
  (c = true -> quiet o m1 Q) -> (c = false -> quiet o m2 Q) -> quiet o (if c then m1 else m2) Q.
Proof. destruct c; auto. Qed.

Lemma quiet_weaken {A} (m : B A) (Q R : A -> Prop) : quiet o m Q -> (forall a, Q a -> R a) -> quiet o m R.
Proof.
  intros Hm HQ b i Ho Hb. specialize (Hm b i Ho Hb). destruct (m b i); [|done..]. destruct Hm; auto.
Qed.

Lemma quiet_options {A} (m : B A) Q : (options_ok o -> quiet o m Q) -> quiet o m Q.
Proof. intros Hm b i Ho. by apply Hm. Qed.

(** What a quiet computation leaves true. *)
Lemma quiet_hoare {A} (m : B A) Q (P : Core -> Prop) :
  (forall c, P c -> c_options c = o) -> options_ok o ->
  quiet o m Q -> hoare (fun b => P (core b)) m (fun a b => Q a /\ P (core b)).
Proof.
  intros HP Ho Hm b i Hb. specialize (Hm b i Ho (HP _ Hb)). destruct (m b i); [|done..].
  destruct Hm as [-> ?]. done.
Qed.
End quiet.

(** ** Random numbers and delays *)
Section quiet_ops.
Context {PB : Protobuf} (o : BotOptions).

Lemma quiet_Int lo hi : lo <= hi -> quiet o (RandomUtil_Int lo hi) (fun r => lo <= r <= hi).
Proof.
  intros Hle b i Ho Hb. unfold RandomUtil_Int. rewrite (proj2 (Z.ltb_ge _ _)) by lia.
  pose proof (Z.mod_pos_bound (hd 0 (in_rand i)) (hi - lo + 1)). cbn. split; [done|lia].
Qed.

Lemma quiet_Float : quiet o (RandomUtil_Float (f32_of_Z (-1)) (f32_of_Z 1)) (fun _ => True).
Proof.
  intros b i Ho Hb. unfold RandomUtil_Float.
  replace (f32_leb _ _) with true by (symmetry; by vm_compute). done.
Qed.

Lemma quiet_int_result z : int32_min <= z <= int32_max -> quiet o (int_result z) (fun a => a = z).
Proof.
  intros Hz. unfold int_result. rewrite (proj2 (Z.leb_le int32_min z)), (proj2 (Z.leb_le z int32_max)) by lia.
  apply bot_quiet_ret.
Qed.

Lemma quiet_JitterMs base :
  int32_min <= base -> base + Z.max 0 (action_jitter_ms o) <= int32_max ->
  quiet o (JitterMs base) (fun d => base <= d).
Proof.
  intros Hlo Hhi. unfold JitterMs.
  eapply bot_quiet_bind; [apply quiet_get|]. intros ? (b & Hb & ->). rewrite Hb.
  eapply bot_quiet_bind; [apply quiet_Int; lia|]. intros r Hr; cbv beta in Hr.
  eapply bot_quiet_bind; [apply quiet_int_result; lia|]. intros s Hs; cbv beta in Hs; subst s.
  eapply quiet_weaken; [apply bot_quiet_ret|]. intros a ->. lia.
Qed.

Lemma quiet_PercentHit percent : quiet o (PercentHit percent) (fun _ => True).
Proof.
  unfold PercentHit. repeat (apply quiet_if; intros _; [by eapply quiet_weaken; [apply bot_quiet_ret|]|]).
  eapply bot_quiet_bind; [apply quiet_Int; lia|]. intros r Hr. by eapply quiet_weaken; [apply bot_quiet_ret|].
Qed.

Lemma quiet_NowMs : quiet o NowMs (fun _ => True).
Proof. by intros b i Ho Hb. Qed.

Lemma quiet_ScheduleTimer delay callback :
  is_retry (delay, callback) = false -> is_heartbeat (delay, callback) = false ->
  quiet o (ScheduleTimer delay callback) (fun _ => True).
Proof.
  intros Hr Hh. unfold ScheduleTimer. eapply bot_quiet_bind; [apply quiet_get|]. intros running _.
  apply quiet_if; intros _; [by eapply quiet_weaken; [apply bot_quiet_ret|]|].
  apply quiet_modify. intros b. unfold core. cbn.
  rewrite !List.filter_app, !length_app. cbn. unfold is_retry, is_heartbeat in *. cbn in *. rewrite Hr, Hh. cbn.
  by rewrite !Nat.add_0_r.
Qed.
End quiet_ops.

(** Goes through a quiet computation; the delays are left to [lia]. *)
Ltac quiet_rule :=
  match goal with
  | |- quiet _ (mret _) _ => eapply quiet_weaken; [apply bot_quiet_ret|done]
  | |- quiet _ (get _) _ => eapply quiet_weaken; [apply quiet_get|done]
  | |- quiet _ (modify _) _ => apply quiet_modify; done
  | |- quiet _ (stat _) _ => apply quiet_modify; done
  | |- quiet _ (RandomUtil_Int _ _) _ => eapply quiet_weaken; [apply quiet_Int; lia|done]
  | |- quiet _ (RandomUtil_Float _ _) _ => eapply quiet_weaken; [apply quiet_Float|done]
  | |- quiet _ NowMs _ => eapply quiet_weaken; [apply quiet_NowMs|done]
  | |- quiet _ (PercentHit _) _ => eapply quiet_weaken; [apply quiet_PercentHit|done]
  | |- quiet _ (ScheduleTimer _ _) _ => eapply quiet_weaken; [by apply quiet_ScheduleTimer|done]
  | |- quiet _ (whenb _ _) _ => unfold whenb
  | |- quiet _ (if _ then _ else _) _ => apply quiet_if; intros ?
  | |- quiet _ (get _ ≫= _) _ => eapply bot_quiet_bind; [apply quiet_get|intros ? (? & ? & ->)]
  | |- quiet _ (RandomUtil_Int _ _ ≫= _) _ => eapply bot_quiet_bind; [apply quiet_Int; lia|intros ? ?]
  | |- quiet _ (JitterMs _ ≫= _) _ =>
    eapply bot_quiet_bind; [apply quiet_JitterMs; subst; unfold id, options_ok, is_i32, int32_max, int32_min in *; lia|intros ? ?]
  | |- quiet _ (_ ≫= _) _ => apply (bot_quiet_bind _ _ _ (fun _ => True)); [|intros ? ?]
  end.
Ltac quiet_tac := repeat first [quiet_rule | progress cbv beta in * | solve [auto with bot]].

(** ** The quiet operations *)
Section quiet_operations.
Context {PB : Protobuf} (o : BotOptions).

Lemma quiet_SendPacket p : quiet o (SendPacket p) (fun _ => True).
Proof. unfold SendPacket. quiet_tac. Qed.
#[local] Hint Resolve quiet_SendPacket : bot.

Lemma quiet_SendRequest id r : quiet o (SendRequest id r) (fun _ => True).
Proof. unfold SendRequest. quiet_tac. Qed.
#[local] Hint Resolve quiet_SendRequest : bot.

Lemma quiet_Login : quiet o Login (fun _ => True).
Proof. unfold Login. quiet_tac. Qed.

Lemma quiet_Reconnect : quiet o Reconnect (fun _ => True).
Proof. unfold Reconnect. quiet_tac. Qed.

Lemma quiet_Match : quiet o Match (fun _ => True).
Proof. unfold Match. quiet_tac. Qed.

Lemma quiet_CancelMatch : quiet o CancelMatch (fun _ => True).
Proof. apply quiet_options. intros Ho. unfold CancelMatch. quiet_tac. Qed.

Lemma quiet_ScheduleCancelMatch : quiet o ScheduleCancelMatch (fun _ => True).
Proof. apply quiet_options. intros Ho. unfold ScheduleCancelMatch. quiet_tac. Qed.

Lemma quiet_MaybeScheduleDisconnect p : quiet o (MaybeScheduleDisconnect p) (fun _ => True).
Proof.
  apply quiet_options. intros Ho. unfold MaybeScheduleDisconnect. quiet_tac.
  apply quiet_modify. by destruct p.
Qed.

Lemma quiet_Ready : quiet o Ready (fun _ => True).
Proof. unfold Ready. quiet_tac. Qed.

Lemma quiet_Unready : quiet o Unready (fun _ => True).
Proof. unfold Unready. quiet_tac. Qed.

Lemma quiet_ready_timer delay callback :
  is_retry (delay, callback) = false -> is_heartbeat (delay, callback) = false ->
  quiet o (ready_timer callback) (fun _ => True).
Proof. intros. apply quiet_options. intros Ho. unfold ready_timer. quiet_tac. Qed.
#[local] Hint Resolve quiet_Login quiet_Reconnect quiet_Match quiet_CancelMatch quiet_ScheduleCancelMatch
  quiet_MaybeScheduleDisconnect quiet_Ready quiet_Unready : bot.

Lemma quiet_ScheduleReadyFlow : quiet o ScheduleReadyFlow (fun _ => True).
Proof. unfold ScheduleReadyFlow. quiet_tac. by apply (quiet_ready_timer 0). Qed.

Lemma quiet_SendInput : quiet o SendInput (fun _ => True).
Proof. unfold SendInput. quiet_tac. Qed.
#[local] Hint Resolve quiet_ScheduleReadyFlow quiet_SendInput : bot.

Lemma quiet_StartInputLoop : quiet o StartInputLoop (fun _ => True).
Proof. unfold StartInputLoop. quiet_tac. Qed.

Lemma quiet_ScheduleRematch : quiet o ScheduleRematch (fun _ => True).
Proof. apply quiet_options. intros Ho. unfold ScheduleRematch. quiet_tac. Qed.
#[local] Hint Resolve quiet_StartInputLoop quiet_ScheduleRematch : bot.

Lemma quiet_HandleMatchResponse p : quiet o (HandleMatchResponse p) (fun _ => True).
Proof. unfold HandleMatchResponse. destruct (parse_match_response p); quiet_tac. Qed.

Lemma quiet_HandleMatchSuccess p : quiet o (HandleMatchSuccess p) (fun _ => True).
Proof.
  apply quiet_options. intros Ho. unfold HandleMatchSuccess. destruct (parse_match_success p); quiet_tac.
Qed.

Lemma quiet_HandleRoomState p : quiet o (HandleRoomState p) (fun _ => True).
Proof. unfold HandleRoomState. destruct (parse_room_state p) as [[]|]; quiet_tac. Qed.

Lemma quiet_HandleGameState : quiet o HandleGameState (fun _ => True).
Proof. unfold HandleGameState. quiet_tac. Qed.

Lemma quiet_OnReconnectResponse p : quiet o (OnReconnectResponse p) (fun _ => True).
Proof.
  unfold OnReconnectResponse. destruct (parse_reconnect_response p) as [[[] ]|]; quiet_tac.
Qed.
End quiet_operations.

#[export] Hint Resolve quiet_Login quiet_Reconnect quiet_Match quiet_CancelMatch quiet_MaybeScheduleDisconnect
  quiet_Ready quiet_Unready quiet_ready_timer quiet_ScheduleReadyFlow quiet_SendInput quiet_StartInputLoop quiet_ScheduleRematch
  quiet_HandleMatchResponse quiet_HandleMatchSuccess quiet_HandleRoomState quiet_HandleGameState
  quiet_OnReconnectResponse quiet_SendRequest quiet_SendPacket : bot.
