(* ===== verification/BotInv.v ===== *)
(** * BotInv: what holds of a bot whatever the network and its timers do

    The invariant of a running bot, over its [core]: it has one connection at a
    time, one heartbeat timer, one pending read and one pending write per socket,
    and it gives up its connection at most [max_reconnects] times in a round.  A
    write pending on a socket the bot has left has lost its buffer
    ([freed_writes]).  No event empties a range, overflows an [int] or pops an
    empty queue, when the delays are small enough for [int]. *)
From S2P Require Import Prelude Wire StdString Float32 Messages Bot BotReason.
Local Open Scope Z_scope.

(** ** The invariant *)

(** The attempts to connect of the current socket. *)
Definition is_current (c : Core) (x : Z * bool) : bool := bool_decide (c_socket c = Some x.1).
Definition in_flight (c : Core) : nat := length (List.filter (is_current c) (c_connecting c)).

Arguments in_flight : simpl never.

Lemma not_current c : (forall x, x ∈ c_connecting c -> c_socket c <> Some x.1) ->
  List.filter (is_current c) (c_connecting c) = [].
Proof.
  unfold is_current. induction (c_connecting c) as [|x l IH]; intros Hl; [done|]. cbn.
  rewrite bool_decide_false by (apply Hl; left). apply IH. intros y Hy. apply Hl. by right.
Qed.

(** [k] and [h]: how many more connections and heartbeats there is room for. *)
Record core_ok (k h : nat) (c : Core) : Prop := mkCoreOk {
  ok_options : options_ok (c_options c);
  ok_running : c_stopped c = true -> c_running c = false;
  ok_connection : (c_retries c + in_flight c + size (c_open c) + k <= 1)%nat;
  ok_open : forall s, s ∈ c_open c -> c_socket c = Some s;
  ok_connected : c_connected c = true -> exists s, c_socket c = Some s /\ s ∈ c_open c;
  ok_heartbeat : (c_heartbeats c + h <= if c_heartbeat_started c then 1 else 0)%nat;
  ok_reconnects : 0 <= c_reconnect_count c <= Z.max 0 (max_reconnects (c_options c));
  ok_write : c_running c = true -> forall s, c_socket c = Some s -> (s ∈ c_writing c <-> c_writes c = true);
  ok_queue : c_socket c = None -> c_writes c = false;
  ok_one_write : NoDup (c_writing c);
  ok_one_read : NoDup ((c_connecting c).*1 ++ c_reading c);
  ok_fresh : forall s, c_socket c = Some s \/ s ∈ c_open c \/ s ∈ (c_connecting c).*1 ++ c_reading c \/ s ∈ c_writing c ->
    s < c_next_socket c
}.

(** A running bot. *)
Definition bot_ok (b : BotClient) : Prop := core_ok 0 0 (core b).

Section triples.
Context {PB : Protobuf}.
Implicit Types P Q : Core -> Prop.

Notation on P := (fun b => P (core b)).

Lemma hoare_core_modify P Q g :
  (forall b, P (core b) -> Q (core (g b))) -> hoare (on P) (modify g) (fun _ b => Q (core b)).
Proof. intros Hg b i Hb. by apply Hg. Qed.

Lemma hoare_if {A} (P : BotClient -> Prop) (c : bool) (m1 m2 : B A) (Q : A -> BotClient -> Prop) :
  (c = true -> hoare P m1 Q) -> (c = false -> hoare P m2 Q) -> hoare P (if c then m1 else m2) Q.
Proof. destruct c; auto. Qed.

Lemma hoare_done {A} (a : A) (P : BotClient -> Prop) (Q : A -> BotClient -> Prop) : (forall b, P b -> Q a b) -> hoare P (mret a) Q.
Proof. intros HQ b i Hb. by apply HQ. Qed.

(** A quiet computation keeps what is known of the core. *)
Lemma hoare_quiet {A} P (m : B A) :
  (forall c, P c -> options_ok (c_options c) /\ quiet (c_options c) m (fun _ => True)) ->
  hoare (on P) m (fun _ b => P (core b)).
Proof.
  intros HP b i Hb. destruct (HP _ Hb) as [Ho Hm]. pose proof (Hm b i Ho eq_refl) as Hr.
  destruct (m b i); [|done..]. by destruct Hr as [-> _].
Qed.

(** What is known of [core b] is kept by the quiet part of a sequence. *)
Lemma hoare_quiet_bind {A A'} P (m : B A) (f : A -> B A') (Q : A' -> BotClient -> Prop) :
  (forall c, P c -> options_ok (c_options c) /\ quiet (c_options c) m (fun _ => True)) ->
  (forall a, hoare (on P) (f a) Q) -> hoare (on P) (m ≫= f) Q.
Proof. intros HP Hf. eapply hoare_bind; [by apply hoare_quiet|]. intros a. apply Hf. Qed.

Lemma hoare_modify_bind {A'} P (R : Core -> Prop) g (f : unit -> B A') (Q : A' -> BotClient -> Prop) :
  (forall b, P (core b) -> R (core (g b))) -> hoare (on R) (f tt) Q -> hoare (on P) (modify g ≫= f) Q.
Proof. intros Hg Hf. eapply hoare_bind; [by apply hoare_core_modify|]. intros []. apply Hf. Qed.

(** From a known state: a guard that reads it, an assignment. *)
Lemma hoare_get_core {A A'} (P : BotClient -> Prop) (g : BotClient -> A) (f : A -> B A') (Q : A' -> BotClient -> Prop) :
  (forall b0, P b0 -> hoare (fun b => b = b0) (f (g b0)) Q) -> hoare P (get g ≫= f) Q.
Proof. intros Hf b i Hb. by apply (Hf b Hb b i). Qed.

Lemma hoare_assign {A'} b0 g (f : unit -> B A') (Q : A' -> BotClient -> Prop) :
  hoare (fun b => b = g b0) (f tt) Q -> hoare (fun b => b = b0) (modify g ≫= f) Q.
Proof. intros Hf b i ->. by apply Hf. Qed.

Lemma hoare_resolve {A'} b0 (f : bool -> B A') (Q : A' -> BotClient -> Prop) :
  (forall ok, hoare (fun b => b = b0) (f ok) Q) -> hoare (fun b => b = b0) (resolve ≫= f) Q.
Proof. intros Hf b i ->. by apply Hf. Qed.

Lemma hoare_know {A} P b0 (m : B A) (Q : A -> BotClient -> Prop) :
  P (core b0) -> hoare (on P) m Q -> hoare (fun b => b = b0) m Q.
Proof. intros HP Hm b i ->. by apply Hm. Qed.
End triples.

Notation on P := (fun b => P (core b)).

(** ** Moves of the core *)
Section moves.
Implicit Types c : Core.

Definition c_close c : Core :=
  mkCore (c_options c) (c_running c) (c_stopped c) None false false (c_heartbeat_started c) (c_reconnect_count c)
    (match c_socket c with Some s => c_open c ∖ {[s]} | None => c_open c end) (c_next_socket c)
    (c_retries c) (c_heartbeats c) (c_connecting c) (c_reading c) (c_writing c).

Lemma in_flight_closed c : c_socket c = None -> in_flight c = 0%nat.
Proof.
  intros Hs. unfold in_flight. rewrite not_current; [done|]. by rewrite Hs.
Qed.

Lemma close_ok k h c : core_ok k h c -> core_ok k h (c_close c).
Proof.
  intros []. constructor; cbn; try done.
  - rewrite in_flight_closed by done. 
    assert (size (match c_socket c with Some s => c_open c ∖ {[s]} | None => c_open c end) <= size (c_open c))%nat; [|lia].
    destruct (c_socket c); [|done]. apply subseteq_size. set_solver.
  - intros s Hs. destruct (c_socket c) as [s'|] eqn:Hc; [|naive_solver].
    apply elem_of_difference in Hs as [Hs Hn]. apply ok_open0 in Hs. set_solver.
  - intros s [?|[Hs|?]]; [done| |by apply ok_fresh0; auto].
    apply ok_fresh0. right; left. destruct (c_socket c); set_solver.
Qed.

(** Closing a connection makes room for the next one. *)
Lemma close_connected h c : core_ok 0 h c -> c_connected c = true -> core_ok 1 h (c_close c).
Proof.
  intros Hok Hc. pose proof (close_ok _ _ _ Hok) as []. constructor; try done.
  destruct Hok. destruct (ok_connected1 Hc) as (s & Hs & Ho).
  rewrite in_flight_closed in * by done. cbn in *. rewrite Hs in *.
  assert (size (c_open c) <> 0%nat) by (apply size_non_empty_iff; set_solver).
  rewrite size_difference, size_singleton by set_solver. lia.
Qed.
End moves.

(** ** Operations that move the core *)
Section operations.
Context {PB : Protobuf}.

(** The connection a handler works for. *)
Definition conn_of (c : Core) : option Z * list Z := (c_socket c, (c_connecting c).*1 ++ c_reading c).
Definition core_at (k h : nat) (x : option Z * list Z) (c : Core) : Prop := core_ok k h c /\ conn_of c = x.

Lemma core_at_options k h x c : core_at k h x c -> options_ok (c_options c).
Proof. by intros [[] _]. Qed.
#[local] Hint Resolve core_at_options : core.

Lemma CloseSocket_core b i : exists b', CloseSocket b i = Done tt b' i /\ core b' = c_close (core b).
Proof.
  unfold CloseSocket, get, modify, mbind, B_bind. cbn.
  destruct (b_socket b) as [s|] eqn:Hs; eexists; (split; [done|]); unfold core, c_close; cbn; by rewrite ?Hs.
Qed.

Lemma hoare_CloseSocket k h : hoare (on (core_ok k h)) CloseSocket (fun _ => on (core_ok k h)).
Proof. intros b i Hb. destruct (CloseSocket_core b i) as (b' & -> & ->). by apply close_ok. Qed.

Lemma hoare_CloseSocket_connected h :
  hoare (on (fun c => core_ok 0 h c /\ c_connected c = true)) CloseSocket (fun _ => on (core_ok 1 h)).
Proof. intros b i [Hb Hc]. destruct (CloseSocket_core b i) as (b' & -> & ->). by apply close_connected. Qed.

(** A retry takes the room of a connection, a heartbeat that of a heartbeat. *)
Lemma retry_ok h delay r b :
  core_ok 1 h (core b) -> core_ok 0 h (core (bset_timers (b_timers b ++ [(delay, CbConnect r)]) b)).
Proof.
  intros []. constructor; cbn; try done; rewrite !List.filter_app, !length_app; cbn in *; [|lia].
  unfold in_flight, is_current in *. cbn in *. lia.
Qed.

Lemma hoare_retry h delay r :
  hoare (on (core_ok 1 h)) (ScheduleTimer delay (CbConnect r)) (fun _ => on (core_ok 0 h)).
Proof.
  intros b i Hb. unfold ScheduleTimer, get, modify, mbind, B_bind. cbn.
  destruct (negb _); [|by apply retry_ok]. cbn. destruct Hb. constructor; try done; lia.
Qed.

Lemma heartbeat_timer_ok k x delay b :
  core_at k 1 x (core b) -> core_at k 0 x (core (bset_timers (b_timers b ++ [(delay, CbHeartbeat)]) b)).
Proof.
  intros [[] Hx]. split; [|done]. constructor; cbn; try done; rewrite !List.filter_app, !length_app; cbn in *; [|lia].
  unfold in_flight, is_current in *. cbn in *. lia.
Qed.

Lemma hoare_heartbeat_timer k x delay :
  hoare (on (core_at k 1 x)) (ScheduleTimer delay CbHeartbeat) (fun _ => on (core_at k 0 x)).
Proof.
  intros b i Hb. unfold ScheduleTimer, get, modify, mbind, B_bind. cbn.
  destruct (negb _); [|by apply heartbeat_timer_ok]. cbn. destruct Hb as [[] Hx]. split; [|done].
  constructor; try done; lia.
Qed.

Lemma hoare_ScheduleHeartbeat x : hoare (on (core_at 0 0 x)) ScheduleHeartbeat (fun _ => on (core_at 0 0 x)).
Proof.
  unfold ScheduleHeartbeat. apply hoare_get_core. intros b [Hb Hx].
  apply hoare_if; intros Hc; [apply hoare_done; by intros ? ->|]. bools.
  eapply hoare_bind; [apply (hoare_modify (fun b' => b' = b))|]. intros []. cbv beta.
  eapply hoare_weaken; [apply (hoare_heartbeat_timer 0 x)| |done].
  intros ? (? & -> & ->). split; [|done]. destruct Hb. constructor; try done. cbn in *.
  destruct (b_heartbeat_started b); [done|]. lia.
Qed.

Lemma hoare_Heartbeat : hoare (on (core_ok 0 1)) Heartbeat (fun _ => on (core_ok 0 0)).
Proof.
  unfold Heartbeat. apply hoare_get_core. intros b Hb.
  apply hoare_if; intros Hc; [apply hoare_done; intros ? ->; destruct Hb; constructor; try done; lia|].
  eapply hoare_bind with (Q := fun _ => on (core_at 0 1 (conn_of (core b)))).
  - eapply hoare_weaken; [apply (hoare_quiet (core_at 0 1 (conn_of (core b))))| |]; cbv beta; eauto.
    + intros c Hc'. split; [by eapply core_at_options|]. quiet_tac.
    + by intros ? ->.
  - intros []. eapply hoare_weaken; [apply (hoare_heartbeat_timer 0 (conn_of (core b)))|done|]. by intros ? ? [].
Qed.

(** The give-up of a connection is counted. *)
Lemma reconnects_ok k h x n b :
  core_at k h x (core b) -> 0 <= n <= Z.max 0 (max_reconnects (b_options b)) ->
  core_at k h x (core (bset_reconnect_count n b)).
Proof. intros [[] Hx] Hn. split; [|done]. by constructor. Qed.

Lemma hoare_ScheduleReconnect : hoare (on (core_ok 1 0)) ScheduleReconnect (fun _ => on (core_ok 0 0)).
Proof.
  unfold ScheduleReconnect. apply hoare_get_core. intros b Hb.
  apply hoare_if; intros Hc; [apply hoare_done; intros ? ->; destruct Hb; constructor; try done; lia|].
  eapply hoare_bind; [|intros delay; apply hoare_retry].
  eapply hoare_weaken; [apply (hoare_quiet (fun c => core_ok 1 0 c /\ c_options c = b_options b))| |]; cbv beta.
  - unfold id. intros c [[] <-]. split; [done|]. eapply quiet_weaken; [apply quiet_JitterMs|done];
      unfold options_ok, is_i32 in *; lia.
  - by intros ? ->.
  - by intros ? ? [].
Qed.

Lemma hoare_SimulateDisconnect p : hoare (on (core_ok 0 0)) (SimulateDisconnect p) (fun _ => on (core_ok 0 0)).
Proof.
  unfold SimulateDisconnect, id. apply hoare_get_core. intros b Hb.
  apply hoare_if; intros Hc; [apply hoare_done; by intros ? ->|]. bools.
  assert (0 <= b_reconnect_count b + 1 <= max_reconnects (b_options b)) as Hn by (destruct Hb; cbn in *; lia).
  assert (int32_min <= b_reconnect_count b + 1 <= int32_max) as Hi.
  { destruct Hb as [(_ & Hm & _) _]. unfold is_i32, int32_min in *. cbn in *. lia. }
  unfold int_result. rewrite (proj2 (Z.leb_le _ _) (proj1 Hi)), (proj2 (Z.leb_le _ _) (proj2 Hi)). cbn [andb].
  set (P c := core_ok 0 0 c /\ c_connected c = true).
  eapply (hoare_bind _ _ _ (fun n b' => n = b_reconnect_count b + 1 /\ b' = b)); [by intros ? ? ->|]. intros n.
  eapply (hoare_bind _ _ _ (fun _ => on P)).
  { intros ? i [-> ->]. split; [|done].
    by apply (reconnects_ok 0 0 (conn_of (core b))); [|cbn; lia]. }
  intros []. apply hoare_quiet_bind; [intros c [Hc ?]; split; [apply Hc|quiet_tac]|]. intros [].
  eapply hoare_bind; [apply hoare_CloseSocket_connected|]. intros []. apply hoare_ScheduleReconnect.
Qed.

(** The socket [Connect] makes is new. *)
Lemma new_socket_ok b :
  core_ok 1 0 (core b) ->
  core_ok 1 0 (core (bset_next_socket (b_next_socket b + 1) (bset_socket (Some (b_next_socket b))
    (bset_write_queue [] (bset_read_buffer [] (bset_connected false (bset_state Connecting b))))))).
Proof.
  intros []. cbn in *. assert (size (b_open b) = 0%nat) as Ho by lia. apply size_empty_inv in Ho.
  pose proof (fun s Hs => Z.lt_neq s _ (ok_fresh0 s Hs)) as Hnew.
  constructor; cbn; try done.
  - unfold in_flight. cbn. rewrite not_current; [cbn; rewrite Ho, size_empty; lia|]. cbn. intros x Hx [= Heq].
    apply (Hnew x.1); [|done]. right; right; left. apply elem_of_app. left. by apply list_elem_of_fmap_2.
  - set_solver.
  - intros _ s [= <-]. split; [|done]. intros Hin. exfalso. eapply Hnew; eauto.
  - intros s [[= <-]|Hs]; [lia|]. assert (s < b_next_socket b) by (apply ok_fresh0; auto). lia.
Qed.

(** An attempt to connect takes the room of a connection. *)
Lemma attempt_ok s r b :
  core_ok 1 0 (core b) -> b_socket b = Some s -> s ∉ (b_connecting b).*1 ++ b_reading b ->
  core_ok 0 0 (core (bset_connecting (b_connecting b ++ [(s, r)]) b)).
Proof.
  intros [] Hs Hn. cbn in *. constructor; cbn; try done.
  - unfold in_flight, is_current in *. cbn in *. rewrite List.filter_app, length_app. cbn. destruct (bool_decide (b_socket b = Some s)); cbn; lia.
  - rewrite fmap_app, <- app_assoc. cbn. by rewrite <- Permutation_middle; constructor.
  - intros s' Hs'. rewrite fmap_app in Hs'. cbn in Hs'. destruct (decide (s' = s)) as [->|Hne]; [by apply ok_fresh0; left|].
    apply ok_fresh0. clear - Hs' Hne. set_solver.
Qed.

Lemma hoare_Connect r : hoare (on (core_ok 1 0)) (Connect r) (fun _ => on (core_ok 0 0)).
Proof.
  unfold Connect. apply hoare_get_core. intros b Hb.
  apply hoare_if; intros Hc; [apply hoare_done; intros ? ->; destruct Hb; constructor; try done; lia|].
  pose proof (new_socket_ok b Hb) as Hnew. do 5 apply hoare_assign.
  apply hoare_get_core. intros ? ->. apply hoare_resolve. intros ok. cbn [b_socket bset_next_socket bset_socket].
  apply hoare_if; intros _.
  - apply hoare_get_core. intros ? ->. apply (hoare_know (core_ok 1 0)); [exact Hnew|].
    apply hoare_quiet_bind; [intros c []; split; [done|quiet_tac]|]. intros []. apply hoare_retry.
  - intros ? i ->. apply (attempt_ok _ r _ Hnew); [done|]. cbn. destruct Hb. intros Hin.
    assert (b_next_socket b < b_next_socket b); [|lia]. apply ok_fresh0. auto.
Qed.

Lemma hoare_HandleGameOver x : hoare (on (core_at 0 0 x)) HandleGameOver (fun _ => on (core_at 0 0 x)).
Proof.
  unfold HandleGameOver.
  assert (forall c, core_at 0 0 x c -> options_ok (c_options c)) as Ho by apply core_at_options.
  repeat (apply (hoare_modify_bind _ (core_at 0 0 x)); [intros b Hb; lazymatch goal with
    | |- context [bset_reconnect_count] => apply reconnects_ok; [exact Hb|lia] | _ => exact Hb end|]).
  apply (hoare_quiet (core_at 0 0 x)). intros c Hc; split; [by apply Ho|]. auto with bot.
Qed.

Lemma hoare_quiet_at k h x (m : B unit) :
  (forall o, options_ok o -> quiet o m (fun _ => True)) ->
  hoare (on (core_at k h x)) m (fun _ => on (core_at k h x)).
Proof.
  intros Hm. apply (hoare_quiet (core_at k h x)). intros c Hc.
  assert (options_ok (c_options c)) by (by eapply core_at_options). auto.
Qed.

Lemma hoare_OnLoginResponse x p : hoare (on (core_at 0 0 x)) (OnLoginResponse p) (fun _ => on (core_at 0 0 x)).
Proof.
  assert (forall p0 t, hoare (on (core_at 0 0 x))
    (modify (bset_player_id p0) ;; modify (bset_session_token t) ;; modify (bset_state LoggedIn) ;; stat C_login_ok ;;
     ScheduleHeartbeat ;; delay ← JitterMs 10; ScheduleTimer delay CbMatch) (fun _ => on (core_at 0 0 x))) as Hok.
  { intros p0 t. repeat (apply (hoare_modify_bind _ (core_at 0 0 x)); [by intros b Hb|]).
    eapply hoare_bind; [apply hoare_ScheduleHeartbeat|]. intros []. apply hoare_quiet_at. intros o Ho. quiet_tac. }
  assert (hoare (on (core_at 0 0 x)) (stat C_login_failed) (fun _ => on (core_at 0 0 x))) as Hfail.
  { apply hoare_quiet_at. intros o Ho. quiet_tac. }
  unfold OnLoginResponse. destruct (parse_login_response p) as [[[[] ?] ?]|]; auto.
Qed.

Lemma hoare_OnMessage x p : hoare (on (core_at 0 0 x)) (OnMessage p) (fun _ => on (core_at 0 0 x)).
Proof.
  unfold OnMessage.
  apply hoare_if; intros _; [apply hoare_OnLoginResponse|].
  do 5 (apply hoare_if; intros _; [apply hoare_quiet_at; auto with bot|]).
  apply hoare_if; intros _; [apply hoare_HandleGameOver|by apply hoare_done].
Qed.

Lemma hoare_packets x ps : hoare (on (core_at 0 0 x)) (foreach ps OnMessage) (fun _ => on (core_at 0 0 x)).
Proof.
  induction ps as [|p ps IH]; [by apply hoare_done|]. cbn.
  eapply hoare_bind; [apply hoare_OnMessage|]. intros []. apply IH.
Qed.

(** A completed timer makes room for the timer its callback may start. *)
Definition room (callback : BotCallback) : nat * nat :=
  match callback with CbConnect _ => (1, 0)%nat | CbHeartbeat => (0, 1)%nat | _ => (0, 0)%nat end.

Lemma hoare_run_callback callback :
  hoare (on (core_ok (room callback).1 (room callback).2)) (run_callback callback) (fun _ => on (core_ok 0 0)).
Proof.
  destruct callback; cbn [room fst snd run_callback];
    try solve [apply hoare_Connect | apply hoare_Heartbeat | apply hoare_SimulateDisconnect];
    apply (hoare_quiet (core_ok 0 0)); intros c []; (split; [done|]); quiet_tac; by eapply (quiet_ready_timer _ 0).
Qed.

Lemma hoare_on_timer callback :
  hoare (on (core_ok (room callback).1 (room callback).2)) (on_timer callback) (fun _ => on (core_ok 0 0)).
Proof.
  unfold on_timer, whenb. apply hoare_get_core. intros b Hb. apply hoare_if; intros _.
  - eapply hoare_weaken; [apply hoare_run_callback| |done]. by intros ? ->.
  - apply hoare_done. intros ? ->. destruct Hb. constructor; try done; lia.
Qed.

Lemma filter_delete {A} (p : A -> bool) (l : list A) i x :
  l !! i = Some x ->
  length (List.filter p l) = (length (List.filter p (delete i l)) + if p x then 1 else 0)%nat.
Proof.
  revert i. induction l as [|y l IH]; intros [|i] Hi; cbn in *; [done..| |]; simplify_eq.
  - destruct (p x); cbn; lia.
  - specialize (IH i Hi). destruct (p y); cbn; by rewrite IH.
Qed.

Lemma timer_removed b i t :
  core_ok 0 0 (core b) -> b_timers b !! i = Some t ->
  core_ok (room t.2).1 (room t.2).2 (core (bset_timers (delete i (b_timers b)) b)).
Proof.
  intros [] Ht. cbn in *. pose proof (filter_delete is_retry _ _ _ Ht). pose proof (filter_delete is_heartbeat _ _ _ Ht).
  constructor; cbn; try done; destruct t as [? []]; cbn in *; unfold in_flight, is_current in *; cbn in *; lia.
Qed.

(** A completed operation leaves its list. *)
Lemma connecting_removed b i s r :
  core_ok 0 0 (core b) -> b_connecting b !! i = Some (s, r) ->
  let c := core (bset_connecting (delete i (b_connecting b)) b) in
  core_ok (if bool_decide (b_socket b = Some s) then 1 else 0) 0 c /\ s ∉ (c_connecting c).*1 ++ c_reading c.
Proof.
  intros [] Hi c. cbn in *. pose proof (delete_Permutation _ _ _ Hi) as Hp.
  assert (NoDup (s :: (delete i (b_connecting b)).*1 ++ b_reading b)) as [Hs Hd]%NoDup_cons.
  { by rewrite Hp in ok_one_read0. }
  split; [|done]. constructor; cbn; try done.
  - unfold in_flight, is_current in *. cbn in *.
    pose proof (filter_delete (fun x : Z * bool => bool_decide (b_socket b = Some x.1)) _ _ _ Hi) as Hf.
    cbn in Hf. destruct (bool_decide (b_socket b = Some s)); lia.
  - intros s' Hs'. apply ok_fresh0. rewrite Hp. cbn. clear - Hs'. set_solver.
Qed.

Lemma reading_removed b i s :
  core_ok 0 0 (core b) -> b_reading b !! i = Some s ->
  let c := core (bset_reading (delete i (b_reading b)) b) in
  core_ok 0 0 c /\ s ∉ (c_connecting c).*1 ++ c_reading c.
Proof.
  intros [] Hi c. cbn in *. pose proof (delete_Permutation _ _ _ Hi) as Hp.
  assert (NoDup (s :: (b_connecting b).*1 ++ delete i (b_reading b))) as [Hs Hd]%NoDup_cons.
  { by rewrite Permutation_middle, <- Hp. }
  split; [|done]. constructor; cbn; try done.
  intros s' Hs'. apply ok_fresh0. rewrite Hp. clear - Hs'. set_solver.
Qed.

Lemma core_ok_less k h c : core_ok k h c -> core_ok 0 0 c.
Proof. intros []. constructor; try done; lia. Qed.

(** One read is pending after [DoRead] on a socket without one. *)
Lemma hoare_DoRead s l : s ∉ l ->
  hoare (on (core_at 0 0 (Some s, l))) (DoRead s) (fun _ => on (core_ok 0 0)).
Proof.
  intros Hs b i [[] [= Hsock <-]]. cbn in *. constructor; cbn; try done; rewrite app_assoc.
  - by rewrite <- Permutation_cons_append; constructor.
  - intros s' Hs'. destruct (decide (s' = s)) as [->|Hne]; [by apply ok_fresh0; left|].
    apply ok_fresh0. clear - Hs' Hne. set_solver.
Qed.

Lemma connected_ok s x b :
  core_at 1 0 x (core b) -> b_socket b = Some s ->
  core_at 0 0 x (core (bset_connected true (bset_open ({[s]} ∪ b_open b) b))).
Proof.
  intros [[] Hx] Hs. split; [|done]. cbn in *. constructor; cbn; try done.
  - unfold in_flight, is_current in *. cbn in *.
    assert (size ({[s]} ∪ b_open b) <= 1 + size (b_open b))%nat; [|lia].
    rewrite size_union_alt, size_singleton. pose proof (subseteq_size (b_open b ∖ {[s]}) (b_open b) ltac:(set_solver)). lia.
  - set_solver.
  - intros _. exists s. split; [done|set_solver].
  - intros s' Hs'. apply ok_fresh0. destruct (decide (s' = s)) as [->|Hne]; [by left|clear - Hs' Hne; set_solver].
Qed.

Lemma hoare_on_connect s r ok :
  hoare (fun b => core_ok (if bool_decide (b_socket b = Some s) then 1 else 0) 0 (core b)
                  /\ s ∉ (c_connecting (core b)).*1 ++ c_reading (core b))
    (on_connect s r ok) (fun _ => on (core_ok 0 0)).
Proof.
  unfold on_connect, id. apply hoare_get_core. intros b [Hb Hs].
  apply hoare_if; intros Hg; [apply hoare_done; intros ? ->; by eapply core_ok_less|]. bools.
  rewrite bool_decide_true in Hb by done.
  apply hoare_if; intros _.
  { apply (hoare_know (core_ok 1 0)); [done|]. apply hoare_quiet_bind; [intros c []; split; [done|quiet_tac]|].
    intros []. apply hoare_retry. }
  set (l := (b_connecting b).*1 ++ b_reading b) in *.
  assert (core_at 1 0 (Some s, l) (core b)) as Hat by (by split; [|unfold conn_of; cbn; f_equal]).
  apply (connected_ok s) in Hat; [|done]. do 2 apply hoare_assign. apply (hoare_know (core_at 0 0 (Some s, l))); [done|].
  assert (forall c, core_at 0 0 (Some s, l) c -> options_ok (c_options c)) as Ho by apply core_at_options.
  do 2 (apply hoare_quiet_bind; [intros c Hc; split; [by apply Ho|quiet_tac]|]; intros []).
  by apply hoare_DoRead.
Qed.

Lemma hoare_on_read s data :
  hoare (on (fun c => core_ok 0 0 c /\ s ∉ (c_connecting c).*1 ++ c_reading c))
    (on_read s data) (fun _ => on (core_ok 0 0)).
Proof.
  unfold on_read, id. apply hoare_get_core. intros b [Hb Hs].
  apply hoare_if; intros Hg; [apply hoare_done; by intros ? ->|]. bools.
  destruct data as [data|].
  - set (buf := b_read_buffer b ++ data).
    destruct (decode_loop_decodes (S (length buf)) buf []) as (r & rest & Hr & _); [lia|].
    rewrite (proj2 (Decode_decodes _ _ _) Hr). apply hoare_assign.
    apply (hoare_know (core_at 0 0 (Some s, (b_connecting b).*1 ++ b_reading b))); [by split; [|unfold conn_of; cbn; f_equal]|].
    destruct r as [packets|e].
    + eapply hoare_bind; [apply hoare_packets|]. intros []. by apply hoare_DoRead.
    + eapply hoare_weaken; [apply (hoare_CloseSocket 0 0)|by intros ? []|done].
  - apply (hoare_know (core_ok 0 0)); [done|]. apply hoare_core_modify. intros b' []. by constructor.
Qed.

(** The write queue is written from its front, one write at a time. *)
Lemma write_ok s b :
  core_ok 0 0 (core b) -> b_running b = true -> b_socket b = Some s -> b_write_queue b = [] -> forall data,
  core_ok 0 0 (core (bset_writing (b_writing b ++ [s]) (bset_write_queue [data] b))).
Proof.
  intros [] Hr Hs Hq data. cbn in *. constructor; cbn; try done.
  - intros _ s' Hs'. set_solver.
  - congruence.
  - rewrite <- Permutation_cons_append. constructor; [|done]. intros Hin.
    apply (ok_write0 Hr s Hs) in Hin. by rewrite Hq in Hin.
  - intros s' Hs'. destruct (decide (s' = s)) as [->|Hne]; [by apply ok_fresh0; left|].
    apply ok_fresh0. clear - Hs' Hne. set_solver.
Qed.

Lemma hoare_run_posted task : hoare (on (core_ok 0 0)) (run_posted task) (fun _ => on (core_ok 0 0)).
Proof.
  destruct task as [packet|]; [|apply hoare_CloseSocket].
  cbn [run_posted]. unfold id. apply hoare_get_core. intros b Hb.
  apply hoare_if; intros Hg; [apply hoare_done; by intros ? ->|]. bools.
  destruct (ok_connected _ _ _ Hb) as (s & Hs & Ho); [done|]. cbn in Hs.
  destruct (Encode packet) as [data|e]; [|by intros ? ?].
  apply hoare_assign. intros ? i ->. rewrite Hs. unfold whenb, DoWrite, mbind, B_bind, get, modify, mret, B_ret. cbn.
  case_bool_decide as Hq; cbn.
  - rewrite (bool_decide_true (b_socket b = Some s)), (bool_decide_false (b_write_queue b ++ [data] = []))
      by (first [done | by rewrite Hq]).
    pose proof (write_ok s b Hb ltac:(done) Hs Hq data) as Hw. by rewrite Hq.
  - destruct Hb. constructor; cbn in *; try done.
    + intros Hr s' Hs'. rewrite (ok_write0 Hr s' Hs'). by rewrite !bool_decide_false by (by destruct (b_write_queue b)).
    + congruence.
Qed.

(** The handler of the [i]-th pending write, once it has left the list. *)
Lemma on_write_ok b i s ok inp :
  core_ok 0 0 (core b) -> b_writing b !! i = Some s ->
  match on_write s ok (bset_writing (delete i (b_writing b)) b) inp with
  | Done _ b' _ => core_ok 0 0 (core b') | Uncaught _ => True | Undefined => False end.
Proof.
  intros Hb Hi. pose proof Hb as [].
  pose proof (delete_Permutation _ _ _ Hi) as Hp.
  set (d := delete i (b_writing b)) in *. assert (s ∈ b_writing b) as Hin by (by eapply list_elem_of_lookup_2).
  clearbody d. assert (NoDup (s :: d)) as [Hs Hd]%NoDup_cons by (by rewrite <- Hp).
  assert (forall s', s' ∈ d -> s' ∈ b_writing b) as Hsub by (intros; rewrite Hp; set_solver).
  unfold on_write, mbind, B_bind, get. cbn. destruct (b_running b) eqn:Hrun; cbn.
  2: { constructor; cbn; rewrite ?Hrun; try done. intros s' Hs'. apply ok_fresh0. cbn in *. naive_solver. }
  case_bool_decide as Hsock; cbn.
  - assert (b_write_queue b <> []) as Hq.
    { intros Hq. apply (ok_write0 Hrun s Hsock) in Hin. cbn in Hin. by rewrite Hq in Hin. }
    destruct ok; cbn.
    + destruct (b_write_queue b) as [|front queue] eqn:Hwq; [done|]. cbn. unfold whenb, DoWrite, mbind, B_bind, get. cbn.
      case_bool_decide as Hnil; cbn.
      * constructor; cbn; try done.
        -- intros _ s' Hs'. rewrite Hnil. cbn. split; [|done]. intros ?. cbn in *. simplify_eq.
        -- congruence.
        -- intros s' Hs'. apply ok_fresh0. cbn in *. naive_solver.
      * rewrite (bool_decide_true (b_socket b = Some s)) by done. rewrite bool_decide_false by done. cbn.
        constructor; cbn; try done.
        -- intros _ s' Hs'. cbn in *. simplify_eq. rewrite bool_decide_false by done. cbn. clear. set_solver.
        -- congruence.
        -- rewrite <- Permutation_cons_append. by constructor.
        -- intros s' Hs'. apply ok_fresh0. cbn in *. rewrite Hp. clear - Hs'. set_solver.
    + match goal with |- context [CloseSocket ?b ?i] => destruct (CloseSocket_core b i) as (b' & -> & ->) end.
      destruct (close_ok _ _ _ Hb). constructor; cbn; try done. intros s' Hs'. apply ok_fresh1. cbn in *. naive_solver.
  - constructor; cbn; try done.
    + intros _ s' Hs'. rewrite <- (ok_write0 Hrun s' Hs'). cbn in *. rewrite Hp. set_solver.
    + intros s' Hs'. apply ok_fresh0. cbn in *. naive_solver.
Qed.

Lemma hoare_BotClient_Stop : hoare (on (core_ok 0 0)) BotClient_Stop (fun _ => on (core_ok 0 0)).
Proof.
  intros b i Hb. unfold BotClient_Stop, mbind, B_bind, get, modify, mret, B_ret. cbn.
  destruct (b_running b) eqn:Hr; cbn; [|done]. destruct Hb. by constructor.
Qed.

Lemma hoare_BotClient_Stop_ends : hoare (on (core_ok 0 0)) BotClient_Stop_ends (fun _ => on (core_ok 0 0)).
Proof.
  intros b i Hb. unfold BotClient_Stop_ends, mbind, B_bind, get, modify, mret, B_ret. cbn.
  destruct (b_running b) eqn:Hr; cbn; [done|]. destruct Hb. by constructor.
Qed.

(** Every event keeps the invariant, and none is undefined. *)
Lemma hoare_bot_step e : hoare (on (core_ok 0 0)) (bot_step e) (fun _ => on (core_ok 0 0)).
Proof.
  unfold bot_step. apply hoare_get_core. intros b Hb.
  apply hoare_if; intros Hst; [apply hoare_done; by intros ? ->|].
  destruct e as [|i|i ok|i data|i ok| |];
    [..|by eapply hoare_know, hoare_BotClient_Stop|by eapply hoare_know, hoare_BotClient_Stop_ends];
    (apply hoare_complete; [by intros ? -> _|]); intros op.
  - eapply hoare_weaken; [apply hoare_run_posted| |done]. intros ? (? & -> & -> & _). apply Hb.
  - eapply hoare_weaken; [apply hoare_on_timer| |done]. intros ? (? & -> & -> & Hi). by apply timer_removed.
  - eapply hoare_weaken; [apply hoare_on_connect| |done]. destruct op as [s r]. intros ? (? & -> & -> & Hi).
    exact (connecting_removed b i s r Hb Hi).
  - eapply hoare_weaken; [apply hoare_on_read| |done]. intros ? (? & -> & -> & Hi).
    exact (reading_removed b i op Hb Hi).
  - intros ? inp (? & -> & -> & Hi). by apply on_write_ok.
Qed.

Lemma started_ok host port index o st :
  options_ok o -> core_ok 1 0 (core (bset_running true (BotClient_new host port index o st))).
Proof.
  intros Ho. constructor; cbn; try done; try set_solver; try apply NoDup_nil; try lia.
Qed.

Lemma hoare_BotClient_Start host port index o st :
  options_ok o -> hoare (fun b => b = BotClient_new host port index o st) BotClient_Start (fun _ => on (core_ok 0 0)).
Proof.
  intros Ho b i ->. unfold BotClient_Start, mbind at 1, B_bind at 1, get. cbn -[Connect].
  by apply hoare_Connect, started_ok.
Qed.

Lemma trace_ok host port index o st i es :
  options_ok o ->
  match bot_trace (BotClient_new host port index o st) i es with
  | Done _ b _ => core_ok 0 0 (core b) | Uncaught _ => True | Undefined => False end.
Proof.
  intros Ho. unfold bot_trace. pose proof (hoare_BotClient_Start host port index o st Ho _ i eq_refl) as Hs.
  destruct (BotClient_Start _ i) as [[] b0 i0| |]; [|done..]. revert b0 Hs.
  induction es as [|[e ie] es IH]; intros b0 Hs; [done|]. cbn.
  pose proof (hoare_bot_step e b0 ie Hs) as He. destruct (bot_step e b0 ie) as [[] b1 i1| |]; [by apply IH|done..].
Qed.

(** C21: However its sockets, timers and packets interleave, a bot has at most one of: a
    retry waiting for its timer, an attempt to connect in flight, an open
    socket; at most one heartbeat timer; at most one pending read and one pending
    write per socket (a closed socket may still have its own).  Until [Stop], what
    it has queued is being written on its current socket; the pending writes whose
    buffer is still alive are those of the current socket, so every open one, and
    exactly the writes pending on former sockets, all closed, have lost theirs.  It
    never gives up more connections in a round than [max_reconnects]. *)
Theorem one_connection host port index o st i es b i'
    (Hok : options_ok o)
    (Hrun : bot_trace (BotClient_new host port index o st) i es = Done tt b i') :
  (length (List.filter is_retry (b_timers b)) + in_flight (core b) + size (b_open b) <= 1)%nat
  /\ (length (List.filter is_heartbeat (b_timers b)) <= 1)%nat
  /\ NoDup (b_reading b) /\ NoDup (b_writing b)
  /\ (b_running b = true ->
       (b_write_queue b <> [] <-> exists s, b_socket b = Some s /\ s ∈ b_writing b)
       /\ forall s, s ∈ freed_writes b <-> s ∈ b_writing b /\ b_socket b <> Some s)
  /\ (forall s, s ∈ b_writing b -> b_socket b <> Some s -> s ∈ freed_writes b /\ s ∉ b_open b)
  /\ 0 <= b_reconnect_count b <= Z.max 0 (max_reconnects (b_options b)).
Proof.
  pose proof (trace_ok host port index o st i es Hok) as Ht. rewrite Hrun in Ht. destruct Ht. cbn in *.
  split_and!; try done; try lia.
  - destruct (b_heartbeat_started b); lia.
  - by apply NoDup_app in ok_one_read0 as (_ & _ & ?).
  - intros Hr. assert (forall s, b_socket b = Some s -> (s ∈ b_writing b <-> b_write_queue b <> [])) as Hw.
    { intros s Hs. by rewrite (ok_write0 Hr s Hs), negb_true_iff, bool_decide_eq_false. }
    split.
    + split; [|intros (s & Hs & ?); by apply (Hw s Hs)]. intros Hq. destruct (b_socket b) as [s|] eqn:Hs.
      * exists s. split; [done|]. by apply Hw.
      * specialize (ok_queue0 eq_refl). by rewrite bool_decide_false in ok_queue0.
    + intros s. unfold freed_writes. rewrite list_elem_of_filter. split; [|tauto]. intros [[Hn|Hq] Hin]; [done|].
      split; [done|]. intros Hs. by apply (Hw s Hs).
  - intros s Hin Hn. unfold freed_writes. rewrite list_elem_of_filter. split; [by split; [left|]|].
    intros Ho. by apply Hn, ok_open0.
Qed.
End operations.
