(* ===== verification/BotProtocol.v ===== *)
(** * BotProtocol: what the bots write is what the server reads

    Every packet a bot hands to its socket carries a request: its id is one the
    dispatcher of the server has a handler for, and its body is the message that
    handler parses.  So whatever a bot has written on one connection, the codec
    of the server decodes it to the end, into requests. *)
From S2P Require Import Prelude Wire StdString Float32 Messages Mysql Redis World Lobby Login GameServer Bot BotReason BotInv.
Local Open Scope Z_scope.
Create HintDb speaks.

(** ** Invariants of the whole state of a bot *)
Section keeps.
Context (P : BotClient -> Prop).

Definition bkeeps {A} (m : B A) : Prop :=
  forall b i, P b -> match m b i with Done _ b' _ => P b' | _ => True end.

Lemma bkeeps_ret {A} (a : A) : bkeeps (mret a).
Proof. by intros b i Hb. Qed.

Lemma bkeeps_bind {A A'} (m : B A) (f : A -> B A') : bkeeps m -> (forall a, bkeeps (f a)) -> bkeeps (m ≫= f).
Proof.
  intros Hm Hf b i Hb. unfold mbind, B_bind. specialize (Hm b i Hb). destruct (m b i) as [a b' i'| |]; [|done..].
  by apply Hf.
Qed.

Lemma bkeeps_get {A A'} (g : BotClient -> A) (f : A -> B A') :
  (forall b, P b -> bkeeps (f (g b))) -> bkeeps (get g ≫= f).
Proof. intros Hf b i Hb. by apply Hf. Qed.

Lemma bkeeps_modify g : (forall b, P b -> P (g b)) -> bkeeps (modify g).
Proof. intros Hg b i Hb. by apply Hg. Qed.

Lemma bkeeps_foreach {A} (l : list A) f : (forall x, bkeeps (f x)) -> bkeeps (foreach l f).
Proof. intros Hf. induction l; cbn; [apply bkeeps_ret|by apply bkeeps_bind]. Qed.

(** Draws and the clock leave the bot as it is. *)
Lemma bkeeps_pure {A} (m : B A) : (forall b i, match m b i with Done _ b' _ => b' = b | _ => True end) -> bkeeps m.
Proof. intros Hm b i Hb. specialize (Hm b i). destruct (m b i); by subst. Qed.

Lemma bkeeps_complete {A} (field : BotClient -> list A) bset i (handler : A -> B unit) :
  (forall b, P b -> P (bset (delete i (field b)) b)) ->
  (forall b op, P b -> field b !! i = Some op -> bkeeps (handler op)) ->
  bkeeps (complete field bset i handler).
Proof.
  intros Hset Hop b inp Hb. unfold complete, mbind, B_bind, get, modify. cbn.
  destruct (field b !! i) as [op|] eqn:Hi; [|done]. by eapply Hop; [| |apply Hset].
Qed.
End keeps.

Lemma Int_pure lo hi b i : match RandomUtil_Int lo hi b i with Done _ b' _ => b' = b | _ => True end.
Proof. unfold RandomUtil_Int. by destruct (hi <? lo). Qed.
Lemma Float_pure lo hi b i : match RandomUtil_Float lo hi b i with Done _ b' _ => b' = b | _ => True end.
Proof. unfold RandomUtil_Float. by destruct (f32_leb lo hi). Qed.
Lemma int_result_pure z b i : match int_result z b i with Done _ b' _ => b' = b | _ => True end.
Proof. unfold int_result. by destruct (_ && _). Qed.

(** ** Requests *)
Section protocol.
Context {PB : Protobuf}.

(** The type the server's handler of an id parses. *)
Definition request_type (id : Z) : option MessageType :=
  if id =? MSG_LOGIN_REQ then Some TLoginRequest
  else if id =? MSG_HEARTBEAT_REQ then Some THeartbeatRequest
  else if id =? MSG_RECONNECT_REQ then Some TReconnectRequest
  else if id =? MSG_MATCH_REQ then Some TMatchRequest
  else if id =? MSG_MATCH_CANCEL_REQ then Some TMatchCancelRequest
  else if id =? MSG_READY_REQ then Some TReadyRequest
  else if id =? MSG_INPUT_REQ then Some TInputRequest
  else None.

Definition request (p : Packet) : Prop :=
  is_u32 (seq_ p) /\ exists m, p = ProtoHelper_Build (msg_id p) m (seq_ p) /\ request_type (msg_id p) = Some (type_of m).

Definition framed (data : bytes) : Prop := exists p, request p /\ Encode p = Ok data.

Definition posted_request (t : BotTask) : Prop := match t with BSend p => request p | BClose => True end.

(** What is posted, queued and written are requests, and the fields they are
    made of are of their types. *)
Record speaks (b : BotClient) : Prop := mkSpeaks {
  sp_seq : is_u32 (b_seq b);
  sp_player : is_i64 (b_player_id b);
  sp_room : is_i64 (b_room_id b);
  sp_posted : Forall posted_request (b_posted b);
  sp_queue : Forall framed (b_write_queue b);
  sp_sent : Forall (fun x => framed x.2) (b_sent b)
}.

(** The ids of a parsed response are [int64_t]. *)
Lemma parsed_typed t bs m : ParseFromString t bs = Some m -> Forall is_i64 (ints64 m).
Proof. by intros [? _]%parse_typed. Qed.

Ltac parsed :=
  unfold parse_login_response, parse_reconnect_response, parse_match_success, parse_room_state, ProtoHelper_Parse in *;
  match goal with H : match ?o with Some _ => _ | None => _ end = Some _ |- is_i64 _ =>
    let E := fresh in destruct o as [m|] eqn:E; [|done]; apply parsed_typed in E; destruct m; try done;
    injection H as ?; subst; cbn in E; by decompose_Forall_hyps
  end.
Ltac speaks_set := intros ? []; constructor; cbn; first [done | apply wrap_u32_range | parsed].
Ltac bkeeps_rule :=
  match goal with
  | |- bkeeps _ (mret _) => apply bkeeps_ret
  | |- bkeeps _ (get _ ≫= _) => apply bkeeps_get; intros ? ?
  | |- bkeeps _ (RandomUtil_Int _ _) => apply bkeeps_pure, Int_pure
  | |- bkeeps _ (RandomUtil_Float _ _) => apply bkeeps_pure, Float_pure
  | |- bkeeps _ (int_result _) => apply bkeeps_pure, int_result_pure
  | |- bkeeps _ (_ ≫= _) => apply bkeeps_bind; [|intros ?]
  | |- bkeeps _ (modify _) => apply bkeeps_modify; solve [speaks_set]
  | |- bkeeps _ (stat _) => apply bkeeps_modify; solve [speaks_set]
  | |- bkeeps _ NowMs => by apply bkeeps_pure
  | |- bkeeps _ resolve => by apply bkeeps_pure
  | |- bkeeps _ undefined => by intros ? ? ?
  | |- bkeeps _ (uncaught _) => by intros ? ? ?
  | |- bkeeps _ (whenb ?c _) => unfold whenb; destruct c
  | |- bkeeps _ (if ?c then _ else _) => destruct c eqn:?
  | |- bkeeps _ (match ?o with Some _ => _ | None => _ end) => destruct o eqn:?
  | |- bkeeps _ (foreach _ _) => apply bkeeps_foreach; intros ?
  end.
Ltac bkeeps_tac := repeat first [bkeeps_rule | solve [auto with speaks]].

Lemma bkeeps_SendRequest id r :
  request_type id = Some (type_of r) -> bkeeps speaks (SendRequest id r).
Proof.
  intros Hid b i []. unfold SendRequest, SendPacket, mbind, B_bind, modify, get, mret, B_ret. cbn.
  destruct (negb (b_running b)); constructor; cbn; try done; try apply wrap_u32_range.
  apply Forall_app. split; [done|]. constructor; [|done]. split; [apply wrap_u32_range|by exists r].
Qed.
#[local] Hint Extern 1 (bkeeps _ (SendRequest _ _)) => apply bkeeps_SendRequest; done : speaks.

Lemma bkeeps_ScheduleTimer d c : bkeeps speaks (ScheduleTimer d c).
Proof. unfold ScheduleTimer. bkeeps_tac. Qed.
#[local] Hint Resolve bkeeps_ScheduleTimer : speaks.

Lemma bkeeps_JitterMs d : bkeeps speaks (JitterMs d).
Proof. unfold JitterMs. bkeeps_tac. Qed.
Lemma bkeeps_PercentHit p : bkeeps speaks (PercentHit p).
Proof. unfold PercentHit. bkeeps_tac. Qed.
Lemma bkeeps_CloseSocket : bkeeps speaks CloseSocket.
Proof. unfold CloseSocket. bkeeps_tac. Qed.
Lemma bkeeps_DoRead s : bkeeps speaks (DoRead s).
Proof. unfold DoRead. bkeeps_tac. Qed.
Lemma bkeeps_DoWrite s : bkeeps speaks (DoWrite s).
Proof. unfold DoWrite. bkeeps_tac. Qed.
#[local] Hint Resolve bkeeps_JitterMs bkeeps_PercentHit bkeeps_CloseSocket bkeeps_DoRead bkeeps_DoWrite : speaks.

Lemma bkeeps_Connect r : bkeeps speaks (Connect r).
Proof. unfold Connect. bkeeps_tac. Qed.
Lemma bkeeps_Match : bkeeps speaks Match.
Proof. unfold Match. bkeeps_tac. Qed.
Lemma bkeeps_MaybeScheduleDisconnect p : bkeeps speaks (MaybeScheduleDisconnect p).
Proof. unfold MaybeScheduleDisconnect. destruct p; bkeeps_tac. Qed.
Lemma bkeeps_Ready : bkeeps speaks Ready.
Proof. unfold Ready. bkeeps_tac. Qed.
Lemma bkeeps_Unready : bkeeps speaks Unready.
Proof. unfold Unready. bkeeps_tac. Qed.
Lemma bkeeps_ready_timer c : bkeeps speaks (ready_timer c).
Proof. unfold ready_timer. bkeeps_tac. Qed.
#[local] Hint Resolve bkeeps_Match bkeeps_Connect bkeeps_MaybeScheduleDisconnect bkeeps_Ready bkeeps_Unready
  bkeeps_ready_timer : speaks.

Lemma bkeeps_ScheduleReadyFlow : bkeeps speaks ScheduleReadyFlow.
Proof. unfold ScheduleReadyFlow. bkeeps_tac. Qed.
Lemma bkeeps_SendInput : bkeeps speaks SendInput.
Proof. unfold SendInput. bkeeps_tac. Qed.
#[local] Hint Resolve bkeeps_ScheduleReadyFlow bkeeps_SendInput : speaks.
Lemma bkeeps_StartInputLoop : bkeeps speaks StartInputLoop.
Proof. unfold StartInputLoop. bkeeps_tac. Qed.
Lemma bkeeps_ScheduleRematch : bkeeps speaks ScheduleRematch.
Proof. unfold ScheduleRematch. bkeeps_tac. Qed.
Lemma bkeeps_ScheduleHeartbeat : bkeeps speaks ScheduleHeartbeat.
Proof. unfold ScheduleHeartbeat. bkeeps_tac. Qed.
#[local] Hint Resolve bkeeps_StartInputLoop bkeeps_ScheduleRematch bkeeps_ScheduleHeartbeat : speaks.

Lemma bkeeps_OnMessage p : bkeeps speaks (OnMessage p).
Proof.
  unfold OnMessage, OnLoginResponse, OnReconnectResponse, HandleMatchResponse, HandleMatchSuccess, HandleRoomState,
    HandleGameState, HandleGameOver, ScheduleCancelMatch.
  repeat case_match; bkeeps_tac.
Qed.

Lemma bkeeps_run_callback c : bkeeps speaks (run_callback c).
Proof.
  unfold run_callback, Heartbeat, CancelMatch, SimulateDisconnect, ScheduleReconnect. destruct c; bkeeps_tac.
Qed.

Lemma bkeeps_on_connect s r ok : bkeeps speaks (on_connect s r ok).
Proof. unfold on_connect, Login, Reconnect. bkeeps_tac. Qed.

Lemma bkeeps_on_read s data : bkeeps speaks (on_read s data).
Proof.
  unfold on_read. bkeeps_tac. destruct p as [[ps|e] rest]; bkeeps_tac. apply bkeeps_OnMessage.
Qed.

Lemma bkeeps_on_write s ok : bkeeps speaks (on_write s ok).
Proof.
  unfold on_write, id. apply bkeeps_get. intros b [_ _ _ _ Hq _]. bkeeps_tac.
  destruct (b_write_queue b) as [|front queue]; [by intros ???|].
  apply Forall_cons in Hq as [Hfront Hqueue].
  apply bkeeps_bind; [|intros _; apply bkeeps_bind; [|intros _; bkeeps_tac]]; apply bkeeps_modify; intros b' [].
  - constructor; cbn; try done. apply Forall_app. split; [done|by constructor].
  - by constructor.
Qed.

Lemma bkeeps_run_posted t : posted_request t -> bkeeps speaks (run_posted t).
Proof.
  destruct t as [p|]; [|intros _; apply bkeeps_CloseSocket]. intros Hp. cbn [run_posted]. bkeeps_tac.
  destruct (Encode p) as [data|e] eqn:He; bkeeps_tac.
  apply bkeeps_modify. intros b' []. constructor; cbn; try done.
  apply Forall_app. split; [done|]. constructor; [by exists p|done].
Qed.

Lemma bkeeps_BotClient_Stop : bkeeps speaks BotClient_Stop.
Proof.
  unfold BotClient_Stop. bkeeps_tac. apply bkeeps_modify. intros b' []. constructor; cbn; try done.
  apply Forall_app. by split; [|constructor].
Qed.

Lemma bkeeps_BotClient_Stop_ends : bkeeps speaks BotClient_Stop_ends.
Proof. unfold BotClient_Stop_ends. bkeeps_tac. Qed.

Lemma bkeeps_bot_step e : bkeeps speaks (bot_step e).
Proof.
  unfold bot_step, on_timer. bkeeps_tac. destruct e; [..|apply bkeeps_BotClient_Stop|apply bkeeps_BotClient_Stop_ends];
    (apply bkeeps_complete; [intros b' []; constructor; cbn; auto|]).
  - by apply Forall_delete.
  - intros b' op [_ _ _ Hp _ _] Hi. apply bkeeps_run_posted. by eapply Forall_lookup_1 in Hp.
  - intros. bkeeps_tac. apply bkeeps_run_callback.
  - intros. apply bkeeps_on_connect.
  - intros. apply bkeeps_on_read.
  - intros. apply bkeeps_on_write.
Qed.

Lemma bkeeps_BotClient_Start : bkeeps speaks BotClient_Start.
Proof. unfold BotClient_Start. bkeeps_tac. Qed.

Lemma trace_speaks host port index o st i es b i' :
  bot_trace (BotClient_new host port index o st) i es = Done tt b i' -> speaks b.
Proof.
  unfold bot_trace. pose proof (bkeeps_BotClient_Start (BotClient_new host port index o st) i) as Hstart.
  destruct (BotClient_Start _ _) as [[] b0 i0| |]; [|done..].
  assert (speaks b0) as Hb0 by (by apply Hstart). clear Hstart. revert b0 Hb0.
  induction es as [|[e ie] es IH]; cbn; intros b0 Hb0; [by intros [= <- <-]|].
  pose proof (bkeeps_bot_step e b0 ie Hb0) as Hstep. destruct (bot_step e b0 ie) as [[] b1 i1| |]; [|done..].
  by apply IH.
Qed.

(** What has been written on a socket. *)
Definition written (s : Z) (b : BotClient) : bytes := concat (filter (fun x => x.1 = s) (b_sent b)).*2.

Lemma framed_decodes (l : list bytes) : Forall framed l ->
  exists ps, l = frame <$> ps /\ Forall (fun p => request p /\ encodable p) ps.
Proof.
  induction 1 as [|data l (p & Hp & He) _ (ps & -> & Hps)]; [by exists []|].
  assert (packet_wf p) as Hwf.
  { destruct Hp as [Hs (m & _ & Ht)]. split; [|done]. unfold request_type in Ht. case_hyp Ht; bools; try done;
      match goal with H : msg_id p = _ |- _ => rewrite H end; done. }
  destruct (mapM_Encode [p] [data]) as [Henc Hd]; [by constructor|by cbn; rewrite He|].
  exists (p :: ps). apply Forall_cons in Henc as [Henc _]. split; [by injection Hd as ->|constructor; [by split|done]].
Qed.

(** What the server's handlers read of a request; [HandleHeartbeat] reads nothing. *)
Definition server_parse (p : Packet) : option Message :=
  if msg_id p =? MSG_LOGIN_REQ then (fun '(a, t) => LoginRequest a t) <$> parse_login p
  else if msg_id p =? MSG_HEARTBEAT_REQ then ProtoHelper_Parse THeartbeatRequest p
  else if msg_id p =? MSG_RECONNECT_REQ then (fun '(i, t) => ReconnectRequest i t) <$> parse_reconnect p
  else if msg_id p =? MSG_MATCH_REQ then MatchRequest <$> parse_match p
  else if msg_id p =? MSG_MATCH_CANCEL_REQ then MatchCancelRequest <$> parse_match_cancel p
  else if msg_id p =? MSG_READY_REQ then ReadyRequest <$> parse_ready p
  else if msg_id p =? MSG_INPUT_REQ then InputRequest <$> parse_input p
  else None.

(** The wire holds the message. *)
Definition fits (m : Message) : Prop :=
  representable m /\ Z.of_nat (length (SerializeToString m)) <= int32_max.

Lemma request_parses p m :
  fits m -> body p = SerializeToString m -> request_type (msg_id p) = Some (type_of m) -> server_parse p = Some m.
Proof.
  intros [Hr Hl] Hbody Ht.
  assert (ProtoHelper_Parse (type_of m) p = Some m) as Hp.
  { unfold ProtoHelper_Parse. rewrite Hbody. by apply parse_serialize. }
  unfold request_type in Ht. unfold server_parse.
  case_hyp Ht; try done; injection Ht as Ht; rewrite <- Ht in Hp;
    unfold parse_login, parse_reconnect, parse_match, parse_match_cancel, parse_ready, parse_input;
    rewrite ?Hp; by destruct m.
Qed.
End protocol.

Section server.
Context {Srv Rds : Type} {MA : MysqlApi Srv} {RA : RedisApi Rds} {PB : Protobuf}.

(** A packet one of the server's handlers is registered for and understands. *)
Definition understood (p : Packet) : Prop :=
  is_Some (dispatcher (Srv := Srv) (Rds := Rds) !! msg_id p) /\
  exists m, body p = SerializeToString m /\ (fits m -> server_parse p = Some m).

Lemma request_understood p : request p -> understood (with_length p).
Proof.
  intros [_ (m & -> & Ht)]. split.
  - change (msg_id (with_length ?q)) with (msg_id q). cbn [msg_id ProtoHelper_Build] in *.
    unfold request_type in Ht. case_hyp Ht; bools; try done;
      match goal with H : msg_id p = _ |- _ => rewrite H end; by eexists.
  - exists m. split; [done|]. intros Hf. by apply request_parses.
Qed.

(** C20: Whatever happens to a bot, the bytes it has written on a connection
    decode on the server to the end of the buffer, without an error, and each
    packet is one the server's dispatcher has a handler for and whose message
    that handler parses. *)
Theorem bots_speak_the_protocol bot_index host port (o : BotOptions) st i es b i' socket
    (Hrun : bot_trace (BotClient_new host port bot_index o st) i es = Done tt b i') :
  exists ps, Decode (written socket b) = Some (Ok ps, []) /\ Forall understood ps.
Proof.
  apply trace_speaks in Hrun as [_ _ _ _ _ Hsent].
  destruct (framed_decodes (filter (fun x => x.1 = socket) (b_sent b)).*2) as (ps & Hps & Hall).
  { apply Forall_fmap, Forall_forall. intros x [_ Hx]%list_elem_of_filter.
    by eapply Forall_forall in Hx. }
  exists (with_length <$> ps). split.
  - apply Decode_decodes. unfold written. rewrite Hps.
    assert (decodes [] (Ok []) []) as Hnil by (by apply Decode_decodes).
    assert (Forall encodable ps) as Henc by (eapply Forall_impl; [apply Hall|by intros ? []]).
    pose proof (decodes_frames ps [] _ _ Henc Hnil) as Hd. cbn in Hd. by rewrite !app_nil_r in Hd.
  - apply Forall_fmap. eapply Forall_impl; [done|]. intros p [Hp _]. by apply request_understood.
Qed.
End server.
