(* ===== verification/BotReading.v ===== *)
(** * BotReading: the read buffer of a bot belongs to its current socket

    The other side of [Reading]: only [Connect], which goes on to a new socket, and
    the handler of a read on the current socket change the read buffer of a bot. *)
From S2P Require Import Prelude Wire StdString Float32 Messages Bot BotReason BotInv BotProtocol.
Local Open Scope Z_scope.

(** From [b0] on: a bot that runs did run before, its sockets are numbered upwards,
    and its buffer is that of [b0] or belongs to a newer socket and is empty. *)
Definition reads_on (b0 b : BotClient) : Prop :=
  (b_running b = true -> b_running b0 = true) /\ b_next_socket b0 <= b_next_socket b
  /\ forall s, b_socket b = Some s -> s < b_next_socket b
       /\ ((b_socket b0 = Some s /\ b_read_buffer b = b_read_buffer b0) \/ (b_next_socket b0 <= s /\ b_read_buffer b = [])).

Definition socket_made (b : BotClient) : Prop := forall s, b_socket b = Some s -> s < b_next_socket b.

Lemma reads_on_refl b : socket_made b -> reads_on b b.
Proof. intros H. split_and!; [done|lia|]. intros s Hs. split; [by apply H|by left]. Qed.
Lemma reads_on_made b0 b : reads_on b0 b -> socket_made b.
Proof. intros (_ & _ & H) s Hs. by destruct (H s Hs). Qed.

Section reading.
Context {PB : Protobuf} (b0 : BotClient).
Notation kept := (bkeeps (reads_on b0)).

Ltac kept_set :=
  first [ intros ? Hb; exact Hb
        | intros ? (? & ? & ?); split_and!; [first [done | intros [=]] | done | first [done | intros ? [=]]] ].
Ltac kept_rule :=
  match goal with
  | |- bkeeps _ (mret _) => apply bkeeps_ret
  | |- bkeeps _ (get _ ≫= _) => apply bkeeps_get; intros ? ?
  | |- bkeeps _ (RandomUtil_Int _ _) => apply bkeeps_pure, Int_pure
  | |- bkeeps _ (RandomUtil_Float _ _) => apply bkeeps_pure, Float_pure
  | |- bkeeps _ (int_result _) => apply bkeeps_pure, int_result_pure
  | |- bkeeps _ (_ ≫= _) => apply bkeeps_bind; [|intros ?]
  | |- bkeeps _ (modify _) => apply bkeeps_modify; solve [kept_set]
  | |- bkeeps _ (stat _) => apply bkeeps_modify; solve [kept_set]
  | |- bkeeps _ NowMs => by apply bkeeps_pure
  | |- bkeeps _ undefined => by intros ? ? ?
  | |- bkeeps _ (uncaught _) => by intros ? ? ?
  | |- bkeeps _ (whenb ?c _) => unfold whenb; destruct c
  | |- bkeeps _ (if ?c then _ else _) => destruct c eqn:?
  | |- bkeeps _ (match ?o with Some _ => _ | None => _ end) => destruct o eqn:?
  | |- bkeeps _ (foreach _ _) => apply bkeeps_foreach; intros ?
  end.
Ltac kept_tac := repeat first [kept_rule | solve [auto with speaks]].

Lemma kept_Connect r : kept (Connect r).
Proof.
  intros b i Hb. pose proof Hb as (Hrun & Hn & Hs). unfold Connect, get, modify, mbind, B_bind, mret, B_ret.
  destruct (b_running b) eqn:Hr; cbn [negb]; [|exact Hb].
  assert (H : forall b', b_running b' = b_running b -> b_next_socket b' = b_next_socket b + 1 ->
            b_socket b' = Some (b_next_socket b) -> b_read_buffer b' = [] -> reads_on b0 b').
  { intros b' H1 H2 H3 H4. split_and!; [by intros _; apply Hrun|lia|]. intros s. rewrite H3. intros [= <-].
    split; [lia|]. right. split; [lia|done]. }
  unfold resolve. cbn. destruct (negb _); [|by apply H].
  unfold ScheduleTimer, stat, get, modify, mbind, B_bind, mret, B_ret. cbn. rewrite Hr. by apply H.
Qed.

Lemma kept_SendRequest id r : kept (SendRequest id r).
Proof. unfold SendRequest, SendPacket. kept_tac. Qed.
Lemma kept_ScheduleTimer d c : kept (ScheduleTimer d c).
Proof. unfold ScheduleTimer. kept_tac. Qed.
Lemma kept_CloseSocket : kept CloseSocket.
Proof. unfold CloseSocket. kept_tac. Qed.
Lemma kept_DoRead s : kept (DoRead s).
Proof. unfold DoRead. kept_tac. Qed.
Lemma kept_DoWrite s : kept (DoWrite s).
Proof. unfold DoWrite. kept_tac. Qed.
Lemma kept_JitterMs d : kept (JitterMs d).
Proof. unfold JitterMs. kept_tac. Qed.
Lemma kept_PercentHit p : kept (PercentHit p).
Proof. unfold PercentHit. kept_tac. Qed.
#[local] Hint Resolve kept_Connect kept_SendRequest kept_ScheduleTimer kept_CloseSocket kept_DoRead kept_DoWrite
  kept_JitterMs kept_PercentHit : speaks.

Lemma kept_MaybeScheduleDisconnect p : kept (MaybeScheduleDisconnect p).
Proof. unfold MaybeScheduleDisconnect. destruct p; kept_tac. Qed.
Lemma kept_StartInputLoop : kept StartInputLoop.
Proof. unfold StartInputLoop, SendInput. kept_tac. Qed.
Lemma kept_ScheduleReadyFlow : kept ScheduleReadyFlow.
Proof. unfold ScheduleReadyFlow, Ready, ready_timer. kept_tac. Qed.
Lemma kept_ScheduleHeartbeat : kept ScheduleHeartbeat.
Proof. unfold ScheduleHeartbeat. kept_tac. Qed.
#[local] Hint Resolve kept_MaybeScheduleDisconnect kept_StartInputLoop kept_ScheduleReadyFlow kept_ScheduleHeartbeat : speaks.

Lemma kept_OnMessage p : kept (OnMessage p).
Proof.
  unfold OnMessage, OnLoginResponse, OnReconnectResponse, HandleMatchResponse, HandleMatchSuccess, HandleRoomState,
    HandleGameState, HandleGameOver, ScheduleCancelMatch, ScheduleRematch.
  repeat case_match; kept_tac.
Qed.
Lemma kept_run_callback c : kept (run_callback c).
Proof.
  unfold run_callback, Heartbeat, CancelMatch, SimulateDisconnect, ScheduleReconnect, Match, Unready, Ready, ready_timer,
    SendInput. destruct c; kept_tac.
Qed.
Lemma kept_run_posted t : kept (run_posted t).
Proof. destruct t as [p|]; cbn [run_posted]; kept_tac. destruct (Encode p); kept_tac. Qed.
Lemma kept_on_connect s r ok : kept (on_connect s r ok).
Proof. unfold on_connect, Login, Reconnect. kept_tac. Qed.
Lemma kept_on_write s ok : kept (on_write s ok).
Proof. unfold on_write. kept_tac. destruct (b_write_queue _); kept_tac. Qed.

(** Every event but the arrival of bytes. *)
Lemma kept_bot_step e : (forall op data, e <> EvRead op (Some data)) -> kept (bot_step e).
Proof.
  intros He. unfold bot_step, on_timer. kept_tac.
  destruct e as [|i|i ok|i [data|]|i ok| |]; [..|by destruct (He i data)| | | |];
    [apply bkeeps_complete; [by intros|]; intros..| |].
  - apply kept_run_posted.
  - kept_tac. apply kept_run_callback.
  - apply kept_on_connect.
  - unfold on_read. kept_tac.
  - apply kept_on_write.
  - unfold BotClient_Stop. kept_tac.
  - unfold BotClient_Stop_ends. kept_tac.
Qed.
End reading.

(** Bytes arrive on a socket. *)
Lemma bot_read {PB : Protobuf} b op s data i b' i' ps rest :
  socket_made b -> b_stopped b = false -> b_reading b !! op = Some s ->
  bot_step (EvRead op (Some data)) b i = Done tt b' i' ->
  (b_running b = true -> b_socket b = Some s -> Decode (b_read_buffer b ++ data) = Some (Ok ps, rest)) ->
  if b_running b && bool_decide (b_socket b = Some s) then reads_on (bset_read_buffer rest b) b' else reads_on b b'.
Proof.
  intros Hm Hst Hop Hstep Hd. unfold bot_step, complete, on_read in Hstep.
  unfold mbind, B_bind, get, modify, mret, B_ret, id in Hstep. rewrite Hst in Hstep. cbn -[Decode] in Hstep. rewrite Hop in Hstep. cbn -[Decode] in Hstep.
  destruct (b_running b) eqn:Hr; cbn -[Decode] in *; [|injection Hstep as <- <-; exact (reads_on_refl b Hm)].
  destruct (bool_decide _) eqn:Hs; cbn -[Decode] in *; [|injection Hstep as <- <-; exact (reads_on_refl b Hm)].
  apply bool_decide_eq_true in Hs. rewrite (Hd eq_refl Hs) in Hstep.
  set (b1 := bset_read_buffer rest b).
  assert (Hk : bkeeps (reads_on b1) (foreach ps OnMessage ;; DoRead s)).
  { apply bkeeps_bind; [apply bkeeps_foreach; intros; apply kept_OnMessage|]. intros _. apply kept_DoRead. }
  specialize (Hk (bset_read_buffer rest (bset_reading (delete op (b_reading b)) b)) i).
  unfold mbind, B_bind in Hk. rewrite Hstep in Hk. apply Hk. exact (reads_on_refl b1 Hm).
Qed.
