(* ===== verification/System.v ===== *)
(** * System: the server and its bots over a network

    The two programs of the repository together: a server whose handlers interleave
    ([Threads]), any number of bots ([Bot]), and TCP connections between them.  A
    connection is a [Link] from a socket of a bot to an accepted connection of the
    server.  In each direction the network takes bytes the sender has handed to
    [async_write], keeps them in order, and gives them to a pending
    [async_read_some] of the receiver, cut as it likes and as late as it likes, also
    when the sender is gone.

    Neither side ever sees a malformed packet: what arrives decodes, on both sides
    and at every moment, into packets the receiver has a handler for. *)
From S2P Require Import Prelude Wire Net StdString Messages GameRoom MatchQueue Config Registry Room Mysql Repositories Redis Settlement Timer World Reason Lobby Login GameServer Threads Bot BotReason BotInv BotProtocol.
Local Open Scope Z_scope.

(** ** The system *)
Record Link := mkLink {
  l_bot : nat;                (* the bot, *)
  l_socket : Z;               (* its socket *)
  l_taken_up : bytes;         (* what the network has taken from the bot, *)
  l_up : bytes;               (* what of it the server's socket has read; *)
  l_taken_down : bytes;       (* what it has taken from the server, *)
  l_down : bytes              (* what of it the bot's socket has read *)
}.
Definition take_up (data : bytes) (l : Link) : Link :=
  mkLink (l_bot l) (l_socket l) (l_taken_up l ++ data) (l_up l) (l_taken_down l) (l_down l).
Definition bring_up (data : bytes) (l : Link) : Link :=
  mkLink (l_bot l) (l_socket l) (l_taken_up l) (l_up l ++ data) (l_taken_down l) (l_down l).
Definition take_down (data : bytes) (l : Link) : Link :=
  mkLink (l_bot l) (l_socket l) (l_taken_up l) (l_up l) (l_taken_down l ++ data) (l_down l).
Definition bring_down (data : bytes) (l : Link) : Link :=
  mkLink (l_bot l) (l_socket l) (l_taken_up l) (l_up l) (l_taken_down l) (l_down l ++ data).

(** What was handed to [async_write]: the writes that have completed and those
    under way. *)
Definition bot_wire (s : Z) (b : BotClient) : bytes :=
  written s b ++ (if bool_decide (s ∈ b_writing b) && bool_decide (b_socket b = Some s)
                  then default [] (head (b_write_queue b)) else []).
Definition conn_wire (c : TcpConnection) : bytes :=
  concat (tc_sent c) ++ concat (tc_writes c).

Section system.
Context {Srv Rds : Type} {MA : MysqlApi Srv} {RA : RedisApi Rds} {PB : Protobuf}.
Notation World := (World Srv Rds).
Notation Prog := (Prog Srv Rds).
Notation Process := (Process Srv Rds).

Record System := mkSystem {
  s_server : Process;
  s_bots : gmap nat BotClient;
  s_links : gmap Z Link             (* by the id of the server's connection *)
}.

Inductive Move :=
  | MServer (a : Action)                              (* the server, but for what the network does to it *)
  | MBot (k : nat) (e : BotEvent) (i : Inputs)        (* a bot, the same *)
  | MConnect (k : nat) (socket : Z)                   (* the server accepts a socket of a bot *)
  | MTakeUp (conn : Z) (data : bytes)
  | MGiveUp (conn : Z) (data : bytes)
  | MTakeDown (conn : Z) (data : bytes)
  | MGiveDown (conn : Z) (op : nat) (data : bytes) (i : Inputs).

(** The socket has no connection yet. *)
Definition unlinked (links : gmap Z Link) (k : nat) (socket : Z) : bool :=
  bool_decide (map_Forall (fun _ l => (l_bot l, l_socket l) <> (k, socket)) links).

Definition bot_moves (s : System) (k : nat) (e : BotEvent) (i : Inputs) (links : gmap Z Link) : option System :=
  match s_bots s !! k with
  | None => Some s
  | Some b =>
    match bot_step e b i with
    | Done _ b _ => Some (mkSystem (s_server s) (<[k := b]> (s_bots s)) links)
    | _ => None
    end
  end.
Definition set_link (s : System) (conn : Z) (l : Link) : System :=
  mkSystem (s_server s) (s_bots s) (<[conn := l]> (s_links s)).

(** [None]: an exception ended one of the programs.  A move that is not possible
    does nothing.  The ids of the server's connections are taken not to repeat
    (they are the 64-bit numbers in order). *)
Definition smove (s : System) (m : Move) : option System :=
  let w := c_world (s_server s) in
  match m with
  | MServer (Begin (ERead _ _)) | MServer (Begin (EAccept true)) | MBot _ (EvRead _ (Some _)) _ => Some s
  | MServer a => p ← cstep (s_server s) a; Some (mkSystem p (s_bots s) (s_links s))
  | MBot k e i => bot_moves s k e i (s_links s)
  | MConnect k socket =>
    match c_threads (s_server s) !! TAccept, w_accepting w, s_bots s !! k with
    | None, Some conn, Some b =>
      if (socket <? b_next_socket b) && unlinked (s_links s) k socket && bool_decide (s_links s !! conn = None)
      then Some (mkSystem (begin_event (s_server s) (EAccept true)) (s_bots s)
                          (<[conn := mkLink k socket [] [] [] []]> (s_links s)))
      else Some s
    | _, _, _ => Some s
    end
  | MTakeUp conn data =>
    match s_links s !! conn with
    | None => Some s
    | Some l =>
      match s_bots s !! l_bot l with
      | None => Some s
      | Some b => Some (if bool_decide (l_taken_up l ++ data `prefix_of` bot_wire (l_socket l) b)
                        then set_link s conn (take_up data l) else s)
      end
    end
  | MGiveUp conn data =>
    match s_links s !! conn, c_threads (s_server s) !! TConn conn, event_handler w (ERead conn data) with
    | Some l, None, Some _ =>
      Some (if bool_decide (l_up l ++ data `prefix_of` l_taken_up l)
            then mkSystem (begin_event (s_server s) (ERead conn data)) (s_bots s) (<[conn := bring_up data l]> (s_links s))
            else s)
    | _, _, _ => Some s
    end
  | MTakeDown conn data =>
    match s_links s !! conn, w_conns w !! conn with
    | Some l, Some c => Some (if bool_decide (l_taken_down l ++ data `prefix_of` conn_wire c)
                              then set_link s conn (take_down data l) else s)
    | _, _ => Some s
    end
  | MGiveDown conn op data i =>
    match s_links s !! conn with
    | None => Some s
    | Some l =>
      match s_bots s !! l_bot l with
      | None => Some s
      | Some b =>
        if negb (b_stopped b) && bool_decide (b_reading b !! op = Some (l_socket l))
           && bool_decide (l_down l ++ data `prefix_of` l_taken_down l)
        then bot_moves s (l_bot l) (EvRead op (Some data)) i (<[conn := bring_down data l]> (s_links s))
        else Some s
      end
    end
  end.

Fixpoint smoves (s : System) (ms : list Move) : option System :=
  match ms with
  | [] => Some s
  | m :: ms => match smove s m with Some s => smoves s ms | None => None end
  end.

(** The server has come up and the bots have been started. *)
Definition system_started config (srv : Srv) (rds : Rds) (s : System) : Prop :=
  (exists w, started config srv rds w /\ s_server s = mkProcess w ∅) /\ s_links s = ∅
  /\ forall k b, s_bots s !! k = Some b -> exists host port index o st i i',
       BotClient_Start (BotClient_new host port index o st) i = Done tt b i'.
Definition sreachable config (srv : Srv) (rds : Rds) (s : System) : Prop :=
  exists s0 ms, system_started config srv rds s0 /\ smoves s0 ms = Some s.
End system.
