(* ===== verification/Serving.v ===== *)
(** * Serving: the connections decode what their links bring

    The server's part of the invariant of [System]: the read buffer of a connection
    is what is left to decode of the bytes the link has given it, but for those that
    are with a handler that has not begun ([strand]); connections come from links
    ([sv_accept]: one that was accepted is put in its table once). *)
From S2P Require Import Prelude Wire Net StdString Messages GameRoom MatchQueue Config Registry Room Mysql Repositories Redis Settlement Timer World Reason Lobby Login GameServer Threads ThreadLogic Reading Bot System.
Local Open Scope Z_scope.

Section serving.
Context {Srv Rds : Type} {MA : MysqlApi Srv} {RA : RedisApi Rds} {PB : Protobuf}.
Notation World := (World Srv Rds).
Notation Prog := (Prog Srv Rds).
Notation Process := (Process Srv Rds).
(** ** The server's side *)
#[local] Notation each acc := (each (reads_kept acc)).

(** The thread of a connection, given [data] that its handler has yet to decode. *)
Definition strand (o : option (Prog unit)) (conn : Z) (data : bytes) : Prop :=
  match o with None => data = [] | Some m => (data = [] /\ each true m) \/ m = read_handler conn data end.

(** The connections decode what the links have given them. *)
Record serves (w : World) (th : gmap Thread (Prog unit)) (links : gmap Z Link) : Prop := {
  sv_conns conn c : w_conns w !! conn = Some c -> is_Some (links !! conn);
  sv_threads t m : th !! t = Some m ->
    match t with TAccept => True | TConn conn => is_Some (links !! conn) | _ => each true m end;
  sv_read conn l : links !! conn = Some l -> exists up data, l_up l = up ++ data /\ strand (th !! TConn conn) conn data
    /\ forall c, w_conns w !! conn = Some c -> exists ps, decodes up (Ok ps) (tc_read_buffer c);
  sv_accept m : th !! TAccept = Some m -> each false m \/
    exists id l, links !! id = Some l /\ l_up l = [] /\ w_conns w !! id = None /\ th !! TConn id = None
      /\ ((m = on_accept true /\ w_accepting w = Some id) \/ inserting id m)
}.

Lemma strand_each o conn data :
  (forall m, o = Some m -> each true m) -> data = [] -> strand o conn data.
Proof. intros H ->. destruct o as [m|]; cbn; [left; auto|done]. Qed.

(** A thread other than the acceptor's moves, starts or ends. *)
Lemma serves_move w w' th th' links t :
  serves w th links -> t <> TAccept -> reads_kept true w w' ->
  (forall t', t' <> t -> th' !! t' = th !! t') -> (forall m, th' !! t = Some m -> each true m) ->
  (forall conn, t = TConn conn -> th !! t = None -> is_Some (w_conns w !! conn)) ->
  (forall conn l, t = TConn conn -> links !! conn = Some l ->
     forall c, w_conns w !! conn = Some c -> exists ps, decodes (l_up l) (Ok ps) (tc_read_buffer c)) ->
  serves w' th' links.
Proof.
  intros [Hc Ht Hr Ha] Hne [Hacc Hkept] Hth Hm Hnew Hall. split.
  - intros conn c' (c & ? & _)%Hkept. by eapply Hc.
  - intros t' m Hm'. destruct (decide (t' = t)) as [->|Hn]; [|rewrite Hth in Hm' by done; by apply (Ht t' m)].
    destruct t as [|conn| |]; [done| |by apply Hm..].
    destruct (th !! TConn conn) as [m0|] eqn:H0; [by apply (Ht _ _ H0)|].
    destruct (Hnew conn eq_refl eq_refl) as [c Hcc]. by eapply Hc.
  - intros conn l Hl. destruct (decide (TConn conn = t)) as [<-|Hn].
    + exists (l_up l), []. split_and!; [by rewrite app_nil_r|by apply strand_each|].
      intros c' (c & Hcc & ->)%Hkept. by eapply Hall.
    + destruct (Hr conn l Hl) as (up & data & ? & ? & Hd). exists up, data. rewrite Hth by done.
      split_and!; [done|done|]. intros c' (c & Hcc & ->)%Hkept. by apply Hd.
  - intros m Hm'. rewrite Hth in Hm' by done. destruct (Ha m Hm') as [|(id & l & Hl & Hu & Hnc & Hnt & H)]; [by left|right].
    exists id, l. split_and!; [done|done| | |].
    + destruct (w_conns w' !! id) as [c'|] eqn:Hc'; [|done]. apply Hkept in Hc' as (c & Hcc & _). by rewrite Hnc in Hcc.
    + rewrite Hth; [done|]. intros <-. destruct (Hnew id eq_refl Hnt) as [c Hcc]. by rewrite Hnc in Hcc.
    + by rewrite Hacc.
Qed.

(** The acceptor, with nothing left to insert. *)
Lemma serves_accept w w' th th' links :
  serves w th links -> reads_kept false w w' -> (forall t, t <> TAccept -> th' !! t = th !! t) ->
  (forall m, th' !! TAccept = Some m -> each false m) -> serves w' th' links.
Proof.
  intros [Hc Ht Hr Ha] [_ Hkept] Hth Hm. split.
  - intros conn c' (c & ? & _)%Hkept. by eapply Hc.
  - intros [| | |] m Hm'; [done|..]; rewrite Hth in Hm' by done; by apply (Ht _ m Hm').
  - intros conn l Hl. destruct (Hr conn l Hl) as (up & data & ? & ? & Hd). exists up, data. rewrite Hth by done.
    split_and!; [done|done|]. intros c' (c & Hcc & ->)%Hkept. by apply Hd.
  - intros m Hm'. left. by apply Hm.
Qed.

(** Everything the links have given is a stream that decodes. *)
Definition streams (links : gmap Z Link) : Prop :=
  forall conn l, links !! conn = Some l -> exists ps rest, decodes (l_up l) (Ok ps) rest.

(** A strand at rest has decoded all it was given. *)
Lemma serves_rest w th links conn l c :
  serves w th links -> th !! TConn conn = None -> links !! conn = Some l -> w_conns w !! conn = Some c ->
  exists ps, decodes (l_up l) (Ok ps) (tc_read_buffer c).
Proof.
  intros Hs Ht Hl Hc. destruct (sv_read _ _ _ Hs conn l Hl) as (up & data & -> & Hst & Hd).
  rewrite Ht in Hst. cbn in Hst. subst data. rewrite app_nil_r. by apply Hd.
Qed.

(** A handler of a connection does its next section. *)
Lemma serves_conn w th links conn m m' n w' :
  streams links -> serves w th links -> th !! TConn conn = Some m -> pstep m n w = Some (m', w') ->
  serves w' (<[TConn conn := m']> th) links.
Proof.
  intros Hup Hs Hm Hp. destruct (sv_threads _ _ _ Hs _ _ Hm) as [l Hl].
  destruct (sv_read _ _ _ Hs conn l Hl) as (up & data & Hlu & Hst & Hd). rewrite Hm in Hst.
  assert (Hothers : forall t', t' <> TConn conn -> <[TConn conn := m']> th !! t' = th !! t')
    by (intros t' ?; by rewrite lookup_insert_ne).
  destruct Hst as [[-> Hk]| ->].
  - destruct (each_pstep _ _ _ _ _ _ Hk Hp) as [Hkept Hk']. rewrite app_nil_r in Hlu.
    eapply (serves_move w w' th _ links (TConn conn)); [exact Hs|discriminate|exact Hkept|exact Hothers| | |].
    + intros m1. rewrite lookup_insert_eq. by intros [= <-].
    + intros conn' [= <-] Hn. congruence.
    + intros conn' l' [= <-] Hl' c Hc. rewrite Hl in Hl'. injection Hl' as <-. rewrite Hlu. by apply Hd.
  - apply read_handler_step in Hp as [-> Hk']. destruct (Hup conn l Hl) as (ps & rest & Hall).
    destruct (w_conns w !! conn) as [c|] eqn:Hc; last first.
    { assert (Hsame : (receive conn data w).2 = w \/ exists f, (receive conn data w).2 = upd_conns (alter f conn) w).
      { unfold receive, reads, writes, mbind, mret, sections_bind, M_sections, critical, M_bind. cbn.
        destruct (Net.on_read _ _) as [[r c]|]; [right; by eexists|by left]. }
      assert (Hkept : reads_kept true w (receive conn data w).2).
      { destruct Hsame as [-> |[f ->]]; [reflexivity|]. apply reads_kept_alter. by rewrite Hc. }
      eapply (serves_move w (receive conn data w).2 th _ links (TConn conn)); [exact Hs|discriminate|exact Hkept|exact Hothers| |by intros conn' [= <-]; rewrite Hm|].
      - intros m1. rewrite lookup_insert_eq. by intros [= <-].
      - intros conn' l' [= <-] _ c. by rewrite Hc. }
    destruct (Hd c eq_refl) as [ps1 Hd1]. rewrite Hlu in Hall.
    destruct (decodes_more _ _ _ _ _ _ Hd1 Hall) as (ps2 & -> & H2).
    rewrite (receive_conn conn data w c ps2 rest) by (done || by apply Decode_decodes).
    destruct Hs as [Hsc Hst Hsr Hsa]. split.
    + intros j c'. cbn. intros [(-> & _)|[_ Hj]]%lookup_alter_Some; [by exists l|by eapply Hsc].
    + intros t m1 [[<- <-]|[_ Ht]]%lookup_insert_Some; [by exists l|by apply (Hst t m1)].
    + intros j lj Hj. destruct (decide (j = conn)) as [->|Hne].
      * rewrite Hl in Hj. injection Hj as <-. exists (l_up l), []. rewrite lookup_insert_eq.
        split_and!; [by rewrite app_nil_r|by left|]. cbn. intros c'. rewrite lookup_alter_eq, Hc. intros [= <-].
        rewrite Hlu. by exists (ps1 ++ ps2).
      * destruct (Hsr j lj Hj) as (upj & dj & ? & ? & Hdj). exists upj, dj. rewrite lookup_insert_ne by congruence.
        split_and!; [done|done|]. cbn. intros c'. rewrite lookup_alter_ne by done. apply Hdj.
    + intros m1. rewrite lookup_insert_ne by done. intros H1.
      destruct (Hsa m1 H1) as [|(id & li & ? & ? & Hnc & Hnt & ?)]; [by left|right]. exists id, li.
      assert (id <> conn) by (intros ->; by rewrite Hnc in Hc).
      split_and!; [done|done|cbn; by rewrite lookup_alter_ne|rewrite lookup_insert_ne by congruence; done|done].
Qed.

(** The acceptor does its next section. *)
Lemma serves_acceptor w th links m m' n w' :
  serves w th links -> th !! TAccept = Some m -> pstep m n w = Some (m', w') ->
  serves w' (<[TAccept := m']> th) links.
Proof.
  intros Hs Hm Hp.
  assert (Hothers : forall t', t' <> TAccept -> <[TAccept := m']> th !! t' = th !! t')
    by (intros t' ?; by rewrite lookup_insert_ne).
  assert (Hkeeps : each false m -> serves w' (<[TAccept := m']> th) links).
  { intros Hk. destruct (each_pstep _ _ _ _ _ _ Hk Hp) as [Hkept Hk']. eapply serves_accept; [exact Hs|exact Hkept|exact Hothers|].
    intros m1. rewrite lookup_insert_eq. by intros [= <-]. }
  destruct (sv_accept _ _ _ Hs m Hm) as [Hk|(id & l & Hl & Hu & Hnc & Hnt & Hin)]; [by apply Hkeeps|].
  (* the connection [id] is still to come *)
  assert (Hstill : reads_kept false w w' -> inserting id m' -> serves w' (<[TAccept := m']> th) links).
  { intros Hkept Hin'. destruct (serves_accept w w' th (delete TAccept th) links) as [H1 H2 H3 _]; [done|done| |by rewrite lookup_delete_eq|].
    { intros t Ht. by rewrite lookup_delete_ne. }
    split; [done| | |].
    - intros t m1 [[<- <-]|[Hne Ht]]%lookup_insert_Some; [done|]. apply (H2 t m1). by rewrite lookup_delete_ne.
    - intros conn lc Hlc. destruct (H3 conn lc Hlc) as (up & data & H). exists up, data.
      rewrite lookup_insert_ne by done. rewrite lookup_delete_ne in H by done. done.
    - intros m1. rewrite lookup_insert_eq. intros [= <-]. right. exists id, l. rewrite lookup_insert_ne by done.
      split_and!; [done|done| |done|by right]. destruct Hkept as [_ Hkept].
      destruct (w_conns w' !! id) as [c'|] eqn:Hc'; [|done]. apply Hkept in Hc' as (c & Hcc & _). by rewrite Hnc in Hcc. }
  destruct Hin as [[-> Hacc]|Hin].
  { apply on_accept_step in Hp as [-> Hin]. rewrite Hacc in Hin. by apply Hstill. }
  destruct m as [|e|next rest| | |]; try done. cbn in Hp. injection Hp as <- <-.
  destruct Hin as [Hin|Hin]; [destruct (Hin w); by apply Hstill|].
  destruct (Hin w) as [(c & Hbuf & ->) Hk]. destruct Hs as [Hsc Hst Hsr _]. split.
  - intros conn c'. cbn. intros [[<- _]|[_ Hc]]%lookup_insert_Some; [by exists l|by eapply Hsc].
  - intros t m1 [[<- <-]|[_ Ht]]%lookup_insert_Some; [done|by apply (Hst t m1)].
  - intros conn lc Hlc. destruct (Hsr conn lc Hlc) as (up & data & Hup & Hstr & Hd).
    exists up, data. rewrite lookup_insert_ne by done. split_and!; [done|done|]. cbn.
    intros c' [[<- <-]|[_ Hc]]%lookup_insert_Some; [|by apply Hd].
    rewrite Hl in Hlc. injection Hlc as <-. rewrite Hu in Hup. symmetry in Hup. apply app_nil in Hup as [-> ->].
    exists []. rewrite Hbuf. by apply decodes_stop.
  - intros m1. rewrite lookup_insert_eq. intros [= <-]. by left.
Qed.

Lemma serves_world w w' th links : serves w th links -> reads_kept true w w' -> serves w' th links.
Proof.
  intros Hs Hk. eapply (serves_move w w' th th links TLoop); [exact Hs|done|exact Hk|done| |done|done].
  intros m Hm. by apply (sv_threads _ _ _ Hs _ _ Hm).
Qed.

Lemma serves_begin w th links t m :
  serves w th links -> th !! t = None -> t <> TAccept -> each true m ->
  (forall conn, t = TConn conn -> is_Some (w_conns w !! conn)) -> serves w (<[t := m]> th) links.
Proof.
  intros Hs Ht Hne Hm Hc. eapply (serves_move w w th _ links t); [exact Hs|done|reflexivity| | |intros conn Hcn _; by apply Hc|].
  - intros t' ?. by rewrite lookup_insert_ne.
  - intros m1. rewrite lookup_insert_eq. by intros [= <-].
  - intros conn l -> Hl c Hcc. by eapply serves_rest.
Qed.

Lemma serves_end w th links t m n :
  serves w th links -> th !! t = Some m -> pstep m n w = None -> serves w (delete t th) links.
Proof.
  intros Hs Ht Hp.
  assert (Hothers : forall t', t' <> t -> delete t th !! t' = th !! t') by (intros t' ?; by rewrite lookup_delete_ne).
  destruct (decide (t = TAccept)) as [->|Hne].
  { eapply serves_accept; [exact Hs|reflexivity|exact Hothers|]. intros m1. by rewrite lookup_delete_eq. }
  eapply (serves_move w w th _ links t); [exact Hs|done|reflexivity|exact Hothers| |by intros conn -> Hn; rewrite Ht in Hn|].
  - intros m1. by rewrite lookup_delete_eq.
  - intros conn l -> Hl c Hc. destruct (sv_read _ _ _ Hs conn l Hl) as (up & data & Hu & Hst & Hd).
    rewrite Ht in Hst. destruct Hst as [[-> _]| ->]; [|done]. rewrite app_nil_r in Hu. rewrite Hu. by apply Hd.
Qed.

Lemma conn_is_some (w : World) conn f : conn_is w conn f = true -> is_Some (w_conns w !! conn).
Proof. unfold conn_is. destruct (w_conns w !! conn); [by eexists|done]. Qed.

Lemma handler_conn w e conn (m : Prog unit) :
  event_handler w e = Some m -> thread_of e = Some (TConn conn) -> is_Some (w_conns w !! conn).
Proof.
  destruct e; cbn; try done; intros He [= <-]; case_hyp He; bools; try done; by eapply conn_is_some.
Qed.

(** A step of the server that is not the network's. *)
Lemma serves_cstep p p' a links :
  streams links -> (forall conn data, a <> Begin (ERead conn data)) -> a <> Begin (EAccept true) ->
  serves (c_world p) (c_threads p) links -> cstep p a = Some p' -> serves (c_world p') (c_threads p') links.
Proof.
  intros Hup Hread Hacc Hs. destruct p as [w th]. cbn [c_world c_threads] in *. destruct a as [e|t n]; cbn [cstep c_threads c_world].
  - intros [= <-].
    assert (Hgo : forall t, thread_of e = Some t -> t <> TAccept -> let p' := match th !! t, event_handler w e with
        None, Some m => mkProcess w (<[t := m]> th) | _, _ => mkProcess w th end in serves (c_world p') (c_threads p') links).
    { intros t Ht Hne. cbv zeta. destruct (th !! t) eqn:Hth; [done|]. destruct (event_handler w e) as [m|] eqn:Hm; [|done].
      apply serves_begin; [done|done|done| |].
      - eapply each_handler; [exact Hm| |]; [by intros conn data ->; destruct (Hread conn data)|].
        intros ok ->. by injection Ht as <-.
      - intros conn ->. by eapply handler_conn. }
    destruct e as [now steady|ok|conn data|conn|conn|conn|conn|conn| |]; cbn [begin_event thread_of c_world c_threads];
      try (by apply Hgo).
    + apply (serves_world w); [done|]. split; [done|]. intros conn c' ?. by exists c'.
    + destruct ok; [done|]. destruct (th !! TAccept) eqn:Ht; [done|]. cbn [event_handler].
      eapply serves_accept; [exact Hs|reflexivity| |].
      * intros t ?. cbn. by rewrite lookup_insert_ne.
      * cbn [c_threads]. intros m. rewrite lookup_insert_eq. intros [= <-]. apply each_on_accept_failed.
    + destruct (th !! TConn conn); [done|]. destruct (conn_is w conn conn_unused); [|done].
      apply (serves_world w); [done|]. apply reads_kept_delete.
  - destruct (th !! t) as [m|] eqn:Ht; [|by intros [= <-]]. destruct (raised m) eqn:Hr; [done|].
    destruct (pstep m n w) as [[m' w']|] eqn:Hp; intros [= <-]; cbn [c_world c_threads]; [|by eapply serves_end].
    destruct t as [|conn| |]; [by eapply serves_acceptor|by eapply serves_conn|..];
      pose proof (sv_threads _ _ _ Hs _ _ Ht) as Hk; destruct (each_pstep _ _ _ _ _ _ Hk Hp) as [Hkept Hk'].
    all: eapply (serves_move w w' th _ links); [exact Hs| |exact Hkept|by intros t' ?; rewrite lookup_insert_ne| |done|done]; [done|].
    all: intros m1; rewrite lookup_insert_eq; by intros [= <-].
Qed.

Lemma linked_insert (links : gmap Z Link) conn l j : is_Some (links !! j) -> is_Some (<[conn := l]> links !! j).
Proof. intros Hj. destruct (decide (j = conn)) as [->|]; [by rewrite lookup_insert_eq|by rewrite lookup_insert_ne]. Qed.

(** The network starts a read. *)
Lemma serves_read w th links conn l data :
  serves w th links -> is_Some (w_conns w !! conn) -> th !! TConn conn = None -> links !! conn = Some l ->
  serves w (<[TConn conn := read_handler conn data]> th) (<[conn := bring_up data l]> links).
Proof.
  intros Hs Hcc Ht Hl. pose proof Hs as [Hc Hth Hr Ha]. split.
  - intros j c Hj. by eapply linked_insert, Hc.
  - intros t m [[<- <-]|[_ Hm]]%lookup_insert_Some; [by rewrite lookup_insert_eq|].
    specialize (Hth t m Hm). destruct t; [done|by apply linked_insert|done..].
  - intros j lj [[<- <-]|[Hne Hj]]%lookup_insert_Some.
    + exists (l_up l), data. rewrite lookup_insert_eq. split_and!; [done|by right|]. intros c Hj. by eapply serves_rest.
    + destruct (Hr j lj Hj) as (up & dj & H). exists up, dj. by rewrite lookup_insert_ne by congruence.
  - intros m. rewrite lookup_insert_ne by done. intros Hm.
    destruct (Ha m Hm) as [|(id & li & Hli & ? & Hnc & Hnt & Hi)]; [by left|right].
    assert (Hne : id <> conn) by (intros ->; rewrite Hnc in Hcc; by destruct Hcc).
    exists id, li. rewrite !lookup_insert_ne by congruence. done.
Qed.

(** The network makes a connection. *)
Lemma serves_connect w th links id k socket :
  serves w th links -> th !! TAccept = None -> w_accepting w = Some id -> links !! id = None ->
  serves w (<[TAccept := on_accept true]> th) (<[id := mkLink k socket [] [] [] []]> links).
Proof.
  intros [Hc Hth Hr Ha] Ht Hacc Hid.
  assert (Hnc : w_conns w !! id = None).
  { destruct (w_conns w !! id) as [c|] eqn:E; [|done]. destruct (Hc _ _ E) as [? H]. by rewrite Hid in H. }
  assert (Hnt : th !! TConn id = None).
  { destruct (th !! TConn id) as [m|] eqn:E; [|done]. destruct (Hth _ _ E) as [? H]. by rewrite Hid in H. }
  split.
  - intros j c Hj. by eapply linked_insert, Hc.
  - intros t m [[<- <-]|[_ Hm]]%lookup_insert_Some; [done|].
    specialize (Hth t m Hm). destruct t; [done|by apply linked_insert|done..].
  - intros j lj [[<- <-]|[Hne Hj]]%lookup_insert_Some.
    + exists [], []. rewrite lookup_insert_ne, Hnt by done. split_and!; [done|done|]. by rewrite Hnc.
    + destruct (Hr j lj Hj) as (up & dj & H). exists up, dj. by rewrite lookup_insert_ne by done.
  - intros m. rewrite lookup_insert_eq. intros [= <-]. right. exists id, (mkLink k socket [] [] [] []).
    rewrite lookup_insert_eq, lookup_insert_ne by done. split_and!; [done..|]. by left.
Qed.

(** The other fields of a link do not matter to the server. *)
Lemma serves_link w th links conn l l' :
  serves w th links -> links !! conn = Some l -> l_up l' = l_up l -> serves w th (<[conn := l']> links).
Proof.
  intros [Hc Hth Hr Ha] Hl Hup. split.
  - intros j c Hj. by eapply linked_insert, Hc.
  - intros t m Hm. specialize (Hth t m Hm). destruct t; [done|by apply linked_insert|done..].
  - intros j lj [[<- <-]|[Hne Hj]]%lookup_insert_Some; [|by apply Hr].
    destruct (Hr conn l Hl) as (up & data & ? & H). exists up, data. by rewrite Hup.
  - intros m Hm. destruct (Ha m Hm) as [|(id & li & Hli & Hu & H)]; [by left|right]. destruct (decide (id = conn)) as [->|Hne].
    + exists conn, l'. rewrite lookup_insert_eq. rewrite Hl in Hli. injection Hli as <-. rewrite Hup. done.
    + exists id, li. by rewrite lookup_insert_ne.
Qed.
End serving.
