(* ===== verification/EndToEnd.v ===== *)
(** * EndToEnd: the server and its bots understand each other

    The invariant of [System] and what follows from it: however the handlers of the
    server interleave and the network cuts and delays the bytes, neither side ever
    reads a malformed packet, or one it has no handler for. *)
From S2P Require Import Prelude Wire Net StdString Messages GameRoom MatchQueue Config Registry Room Mysql Repositories Redis Settlement Timer World Reason Lobby Login GameServer Threads ThreadLogic Steps Conform Bot BotReason BotInv BotProtocol Reading BotReading System Serving.
Local Open Scope Z_scope.

Section end_to_end.
Context {Srv Rds : Type} {MA : MysqlApi Srv} {RA : RedisApi Rds} {PB : Protobuf}.
Notation World := (World Srv Rds).
Notation Prog := (Prog Srv Rds).
Notation Process := (Process Srv Rds).
(** ** What is on the wire *)
Definition sent_up (p : Packet) : Prop := request p /\ encodable p.
Definition sent_down (p : Packet) : Prop := conforming p /\ encodable p.

Lemma bot_wire_frames s b : speaks b -> exists ps, Forall sent_up ps /\ bot_wire s b = concat (frame <$> ps).
Proof.
  intros [_ _ _ _ Hq Hsent]. unfold bot_wire, written.
  set (front := if bool_decide (s ∈ b_writing b) && bool_decide (b_socket b = Some s) then default [] (head (b_write_queue b)) else []).
  assert (Hf : exists fs, Forall framed fs /\ front = concat fs).
  { unfold front. destruct (_ && _); [|by exists []]. destruct Hq as [|x l Hx _]; [by exists []|].
    exists [x]. split; [by constructor|]. cbn. by rewrite app_nil_r. }
  destruct Hf as (fs & Hfs & ->). rewrite <- concat_app.
  destruct (framed_decodes ((filter (fun x : Z * bytes => x.1 = s) (b_sent b)).*2 ++ fs)) as (ps & -> & Hps); [|by exists ps].
  apply Forall_app. split; [|done]. apply Forall_fmap, Forall_forall. intros x [_ Hx]%list_elem_of_filter.
  by eapply Forall_forall in Hx.
Qed.

Lemma conn_wire_frames c : conn_conforms c -> exists ps, Forall sent_down ps /\ conn_wire c = concat (frame <$> ps).
Proof.
  intros (ps & [(ran & -> & Henc & Hq) Hfl] & Hps). apply Forall_app in Hps as [Hran _].
  assert (Hall : Forall sent_down ran).
  { rewrite Forall_forall in Hran. rewrite Forall_forall in Henc. apply Forall_forall. intros p Hp. split; auto. }
  set (n := (length (tc_sent c) + length (tc_writes c))%nat).
  exists (take n ran). split; [by apply Forall_take|]. unfold conn_wire. rewrite fmap_take, <- Hq.
  unfold n. rewrite take_app_add, concat_app. f_equal.
  destruct Hfl as [->|(f & q & -> & ->)]; [done|by destruct q].
Qed.

(** What a link carries are packets. *)
Record carries (l : Link) : Prop := {
  ca_up : exists ps, Forall sent_up ps /\ l_taken_up l `prefix_of` concat (frame <$> ps);
  ca_up_given : l_up l `prefix_of` l_taken_up l;
  ca_down : exists ps, Forall sent_down ps /\ l_taken_down l `prefix_of` concat (frame <$> ps);
  ca_down_given : l_down l `prefix_of` l_taken_down l
}.

(** A part of what the network has taken decodes. *)
Lemma stream_decodes (P : Packet -> Prop) taken data :
  (exists ps, Forall (fun p => P p /\ encodable p) ps /\ taken `prefix_of` concat (frame <$> ps)) -> data `prefix_of` taken ->
  exists ps rest, decodes data (Ok ps) rest /\ Forall (fun q => exists p, q = with_length p /\ P p) ps.
Proof.
  intros (ps & Hps & Hpre) Hdata. destruct (decodes_prefix ps data) as (n & rest & Hd).
  - eapply Forall_impl; [exact Hps|]. by intros p [].
  - by etrans.
  - exists (with_length <$> take n ps), rest. split; [done|]. apply Forall_fmap, Forall_take.
    eapply Forall_impl; [exact Hps|]. intros p [Hp _]. by exists p.
Qed.

(** ** The bots' side *)

(** The buffer of a running bot is what its socket has brought it and it has not
    decoded. *)
Record bot_reads (links : gmap Z Link) (k : nat) (b : BotClient) : Prop := {
  br_linked conn l socket : links !! conn = Some l -> l_bot l = k -> l_socket l = socket ->
    b_running b = true -> b_socket b = Some socket -> exists ps, decodes (l_down l) (Ok ps) (b_read_buffer b);
  br_unlinked socket : (forall conn l, links !! conn = Some l -> l_bot l = k -> l_socket l <> socket) ->
    b_running b = true -> b_socket b = Some socket -> b_read_buffer b = [];
  br_made conn l : links !! conn = Some l -> l_bot l = k -> l_socket l < b_next_socket b
}.

Lemma bot_reads_on links k b b' : bot_reads links k b -> reads_on b b' -> bot_reads links k b'.
Proof.
  intros [Hl Hu Hm] (Hrun & Hn & Hs). split.
  - intros conn l s Hc Hk Hsk Hr Hb. destruct (Hs s Hb) as [_ [[Hb0 ->]|[Hge _]]]; [by eapply Hl; eauto|].
    specialize (Hm conn l Hc Hk). lia.
  - intros s Hno Hr Hb. destruct (Hs s Hb) as [_ [[Hb0 ->]|[_ ->]]]; [by eapply Hu; eauto|done].
  - intros conn l Hc Hk. specialize (Hm conn l Hc Hk). lia.
Qed.

(** A link changes, but for what it has brought the bot. *)
Lemma bot_reads_link links k b conn l l' :
  bot_reads links k b -> links !! conn = Some l -> l_bot l' = l_bot l -> l_socket l' = l_socket l ->
  l_down l' = l_down l -> bot_reads (<[conn := l']> links) k b.
Proof.
  intros [Hl Hu Hm] Hc Hb Hs Hd. split.
  - intros j lj s [[<- <-]|[_ Hj]]%lookup_insert_Some; [rewrite Hb, Hs, Hd; by apply (Hl conn l)|by apply (Hl j lj)].
  - intros s Hno. apply Hu. intros j lj Hj Hk. destruct (decide (j = conn)) as [->|Hne].
    + rewrite Hc in Hj. injection Hj as <-. rewrite <- Hs. apply (Hno conn l'); [by rewrite lookup_insert_eq|by rewrite Hb].
    + apply (Hno j lj); [by rewrite lookup_insert_ne|done].
  - intros j lj [[<- <-]|[_ Hj]]%lookup_insert_Some; [rewrite Hb, Hs; by apply (Hm conn l)|by apply (Hm j lj)].
Qed.

Lemma bot_reads_connect links k b id k' s' :
  bot_reads links k b -> links !! id = None -> (k' = k -> s' < b_next_socket b) -> unlinked links k' s' = true ->
  bot_reads (<[id := mkLink k' s' [] [] [] []]> links) k b.
Proof.
  intros [Hl Hu Hm] Hid Hs Hun. apply bool_decide_eq_true in Hun. split.
  - intros j lj s [[<- <-]|[_ Hj]]%lookup_insert_Some; [|by apply (Hl j lj)]. cbn. intros -> -> Hr Hb.
    exists []. rewrite (Hu s); [by apply decodes_stop| |done|done].
    intros j lj Hj Hk Hs'. apply (Hun j lj Hj). by rewrite Hk, Hs'.
  - intros s Hno. apply Hu. intros j lj Hj. apply (Hno j lj). rewrite lookup_insert_ne; [done|]. intros <-. by rewrite Hid in Hj.
  - intros j lj [[<- <-]|[_ Hj]]%lookup_insert_Some; [apply Hs|by apply (Hm j lj)].
Qed.

(** ** The invariant *)

(** A socket has one link. *)
Definition one_link (links : gmap Z Link) : Prop :=
  forall conn conn' l l', links !! conn = Some l -> links !! conn' = Some l' ->
    l_bot l = l_bot l' -> l_socket l = l_socket l' -> conn = conn'.

Lemma one_link_insert links conn l l' :
  one_link links -> links !! conn = Some l -> l_bot l' = l_bot l -> l_socket l' = l_socket l -> one_link (<[conn := l']> links).
Proof.
  intros Hu Hl H1 H2 j j' lj lj' [[<- <-]|[_ Hj]]%lookup_insert_Some [[<- <-]|[_ Hj']]%lookup_insert_Some; [done|..].
  - rewrite H1, H2. by apply Hu.
  - rewrite H1, H2. by apply Hu.
  - by apply Hu.
Qed.

Record system_ok config (srv : Srv) (rds : Rds) (s : System) : Prop := {
  so_server : creachable config srv rds (s_server s);
  so_serves : serves (c_world (s_server s)) (c_threads (s_server s)) (s_links s);
  so_carries conn l : s_links s !! conn = Some l -> carries l;
  so_unique : one_link (s_links s);
  so_bots k b : s_bots s !! k = Some b -> speaks b /\ socket_made b /\ bot_reads (s_links s) k b
}.

Lemma system_streams config srv rds s : system_ok config srv rds s -> streams (s_links s).
Proof.
  intros Hs conn l Hl. destruct (so_carries _ _ _ _ Hs conn l Hl) as [Hup Hgiven _ _].
  destruct (stream_decodes _ _ _ Hup Hgiven) as (ps & rest & Hd & _). by exists ps, rest.
Qed.

Lemma creachable_step config (srv : Srv) (rds : Rds) p a p' :
  creachable config srv rds p -> cstep p a = Some p' -> creachable config srv rds p'.
Proof.
  intros (w0 & acts & Hw0 & Hacts) Hs. exists w0, (acts ++ [a]). split; [done|].
  rewrite csteps_app, Hacts. cbn. by rewrite Hs.
Qed.

(** A link changes in what was taken, for one that still carries packets. *)
Lemma set_link_ok config srv rds s conn l l' :
  system_ok config srv rds s -> s_links s !! conn = Some l -> carries l' ->
  l_bot l' = l_bot l -> l_socket l' = l_socket l -> l_up l' = l_up l -> l_down l' = l_down l ->
  system_ok config srv rds (set_link s conn l').
Proof.
  intros [Hp Hs Hc Hu Hb] Hl Hc' H1 H2 H3 H4. split; cbn; [done|by eapply serves_link| | |].
  - intros j lj [[<- <-]|[_ Hj]]%lookup_insert_Some; [done|by eapply Hc].
  - by eapply one_link_insert.
  - intros k b Hk. destruct (Hb k b Hk) as (? & ? & ?). split_and!; [done|done|by eapply bot_reads_link].
Qed.

Lemma bot_moves_ok config srv rds s k e i links s' :
  system_ok config srv rds s -> bot_moves s k e i links = Some s' ->
  serves (c_world (s_server s)) (c_threads (s_server s)) links ->
  (forall conn l, links !! conn = Some l -> carries l) ->
  one_link links ->
  (forall k' b, k' <> k -> s_bots s !! k' = Some b -> bot_reads links k' b) ->
  (forall b b' i', s_bots s !! k = Some b -> bot_step e b i = Done tt b' i' -> socket_made b' /\ bot_reads links k b') ->
  system_ok config srv rds s'.
Proof.
  intros Hok Hm Hs Hc Hu Hothers Hk. unfold bot_moves in Hm.
  destruct (s_bots s !! k) as [b|] eqn:Hb; [|by injection Hm as <-].
  destruct (bot_step e b i) as [[] b' i'| |] eqn:He; [|done..]. injection Hm as <-.
  destruct (so_bots _ _ _ _ Hok k b Hb) as (Hsp & _ & _).
  split; cbn; [apply Hok|done|done|done|].
  intros k1 b1 [[<- <-]|[Hne H1]]%lookup_insert_Some.
  - pose proof (bkeeps_bot_step e b i Hsp) as Hsp'. rewrite He in Hsp'. split; [done|]. by eapply Hk.
  - destruct (so_bots _ _ _ _ Hok k1 b1 H1) as (? & ? & _). split_and!; [done|done|by apply Hothers].
Qed.

(** The moves of the network. *)
Lemma connect_ok config srv rds s s' k socket :
  system_ok config srv rds s -> smove s (MConnect k socket) = Some s' -> system_ok config srv rds s'.
Proof.
  intros Hok. cbn [smove]. destruct (c_threads (s_server s) !! TAccept) eqn:Ht; [by intros [= <-]|].
  destruct (w_accepting (c_world (s_server s))) as [id|] eqn:Hacc; [|by intros [= <-]].
  destruct (s_bots s !! k) as [b|] eqn:Hb; [|by intros [= <-]].
  destruct (_ && _) eqn:Hg; [|by intros [= <-]]. bools. intros Hm%(inj Some). subst s'.
  assert (Hbegin : begin_event (s_server s) (EAccept true)
            = mkProcess (c_world (s_server s)) (<[TAccept := on_accept true]> (c_threads (s_server s)))).
  { cbn. by rewrite Ht. }
  destruct Hok as [Hp Hs Hc Hu Hbots]. split; cbn [s_server s_links s_bots].
  - by apply (creachable_step _ _ _ _ (Begin (EAccept true)) _ Hp).
  - rewrite Hbegin. by apply serves_connect.
  - intros j lj [[<- <-]|[_ Hj]]%lookup_insert_Some; [|by eapply Hc].
    split; cbn; [|done| |done]; exists []; by split; [constructor|].
  - match goal with H : unlinked _ _ _ = true |- _ => apply bool_decide_eq_true in H; rename H into Hun end.
    intros j j' lj lj' [[<- <-]|[_ Hj]]%lookup_insert_Some [[<- <-]|[_ Hj']]%lookup_insert_Some; [done|..]; cbn.
    + intros Hb1 Hb2. destruct (Hun _ _ Hj'). by rewrite <- Hb1, <- Hb2.
    + intros Hb1 Hb2. destruct (Hun _ _ Hj). by rewrite Hb1, Hb2.
    + by apply Hu.
  - intros k1 b1 Hk1. destruct (Hbots k1 b1 Hk1) as (? & ? & ?). split_and!; [done|done|].
    apply bot_reads_connect; [done|done| |done]. intros ->. rewrite Hb in Hk1. by injection Hk1 as <-.
Qed.

Lemma give_up_ok config srv rds s s' conn data :
  system_ok config srv rds s -> smove s (MGiveUp conn data) = Some s' -> system_ok config srv rds s'.
Proof.
  intros Hok. cbn [smove]. destruct (s_links s !! conn) as [l|] eqn:Hl; [|by intros [= <-]].
  destruct (c_threads (s_server s) !! TConn conn) eqn:Ht; [by intros [= <-]|].
  destruct (event_handler _ _) as [m|] eqn:Hm; [|by intros [= <-]]. intros He%(inj Some). subst s'.
  destruct (bool_decide _) eqn:Hpre; [|done]. bools.
  assert (Hread : m = read_handler conn data).
  { cbn [event_handler] in Hm. destruct (_ && _); [|done]. by injection Hm. }
  assert (Hbegin : begin_event (s_server s) (ERead conn data)
            = mkProcess (c_world (s_server s)) (<[TConn conn := read_handler conn data]> (c_threads (s_server s)))).
  { cbn [begin_event thread_of]. by rewrite Ht, Hm, Hread. }
  destruct Hok as [Hp Hs Hc Hu Hbots]. split; cbn [s_server s_links s_bots].
  - by apply (creachable_step _ _ _ _ (Begin (ERead conn data)) _ Hp).
  - rewrite Hbegin. apply serves_read; [done| |done|done]. by eapply (handler_conn _ (ERead conn data)).
  - intros j lj [[<- <-]|[_ Hj]]%lookup_insert_Some; [|by eapply Hc]. by destruct (Hc _ _ Hl).
  - by eapply one_link_insert.
  - intros k b Hk. destruct (Hbots k b Hk) as (? & ? & ?). split_and!; [done|done|by eapply bot_reads_link].
Qed.

Lemma give_down_ok config srv rds s s' conn op data i :
  system_ok config srv rds s -> smove s (MGiveDown conn op data i) = Some s' -> system_ok config srv rds s'.
Proof.
  intros Hok. cbn [smove]. destruct (s_links s !! conn) as [l|] eqn:Hl; [|by intros [= <-]].
  destruct (s_bots s !! l_bot l) as [b|] eqn:Hb; [|by intros [= <-]].
  destruct (_ && _) eqn:Hg; [|by intros [= <-]]. intros Hm.
  apply andb_true_iff in Hg as [[Hst%negb_true_iff Hop%bool_decide_eq_true]%andb_true_iff Hpre%bool_decide_eq_true].
  pose proof Hok as [Hp Hs Hc Hu Hbots]. destruct (Hbots _ b Hb) as (Hsp & Hmade & Hreads).
  pose proof (Hc conn l Hl) as [_ _ Hdown _].
  destruct (stream_decodes conforming _ (l_down l ++ data) Hdown) as (ps & rest & Hall & _); [done|].
  eapply bot_moves_ok; [exact Hok|exact Hm|by eapply serves_link| | | |].
  - intros j lj [[<- <-]|[_ Hj]]%lookup_insert_Some; [|by eapply Hc]. by destruct (Hc _ _ Hl).
  - by eapply one_link_insert.
  - intros k' b1 Hne H1. destruct (Hbots k' b1 H1) as (_ & _ & [H2 H3 H4]). split.
    + intros j lj s1 [[<- <-]|[_ Hj]]%lookup_insert_Some; [by intros Hk; cbn in Hk; subst|by apply (H2 j lj)].
    + intros s1 Hno. apply H3. intros j lj Hj Hk. destruct (decide (j = conn)) as [->|Hjn]; [congruence|].
      apply (Hno j lj); [by rewrite lookup_insert_ne|done].
    + intros j lj [[<- <-]|[_ Hj]]%lookup_insert_Some; [by intros Hk; cbn in Hk; subst|by apply (H4 j lj)].
  - intros b0 b' i' Hb0 He. rewrite Hb in Hb0. injection Hb0 as <-.
    destruct (b_running b && bool_decide (b_socket b = Some (l_socket l))) eqn:Hcur.
    + (* the bytes go into the buffer *)
      apply andb_true_iff in Hcur as [Hrun Hsk%bool_decide_eq_true].
      destruct (br_linked _ _ _ Hreads conn l _ Hl eq_refl eq_refl Hrun Hsk) as [ps1 Hd1].
      destruct (decodes_more _ _ _ _ _ _ Hd1 Hall) as (ps2 & -> & H2).
      pose proof (bot_read b op (l_socket l) data i b' i' ps2 rest Hmade) as Hr.
      rewrite Hrun, (bool_decide_true _ Hsk) in Hr. cbn [andb] in Hr.
      assert (Hon : reads_on (bset_read_buffer rest b) b').
      { apply Hr; [done|done|done|]. intros _ _. by apply Decode_decodes. }
      split; [by eapply reads_on_made|]. eapply bot_reads_on; [|exact Hon]. destruct Hreads as [H3 H4 H5]. split; cbn.
      * intros j lj s1 [[<- <-]|[Hjn Hj]]%lookup_insert_Some Hk Hs1 _ Hs2; [by exists (ps1 ++ ps2)|].
        destruct Hjn. eapply Hu; [exact Hl|exact Hj|by rewrite Hk|]. rewrite Hsk in Hs2. injection Hs2 as <-. by rewrite Hs1.
      * intros s1 Hno _ Hs1. destruct (Hno conn (bring_down data l)); [by rewrite lookup_insert_eq|done|].
        rewrite Hsk in Hs1. by injection Hs1.
      * intros j lj [[<- <-]|[_ Hj]]%lookup_insert_Some; [by apply (H5 conn l)|by apply (H5 j lj)].
    + (* they are thrown away *)
      pose proof (bot_read b op (l_socket l) data i b' i' [] [] Hmade) as Hr. rewrite Hcur in Hr.
      assert (Hon : reads_on b b').
      { apply Hr; [done|done|done|]. intros H1 H2. by rewrite H1, (bool_decide_true _ H2) in Hcur. }
      split; [by eapply reads_on_made|]. eapply bot_reads_on; [|exact Hon]. destruct Hreads as [H3 H4 H5]. split.
      * intros j lj s1 [[<- <-]|[Hjn Hj]]%lookup_insert_Some; [|by apply (H3 j lj)].
        cbn. intros _ <- Hrun Hs1. by rewrite Hrun, (bool_decide_true _ Hs1) in Hcur.
      * intros s1 Hno. apply H4. intros j lj Hj Hk. destruct (decide (j = conn)) as [->|Hjn].
        -- rewrite Hl in Hj. injection Hj as <-. by apply (Hno conn (bring_down data l)); [rewrite lookup_insert_eq|].
        -- apply (Hno j lj); [by rewrite lookup_insert_ne|done].
      * intros j lj [[<- <-]|[_ Hj]]%lookup_insert_Some; [by apply (H5 conn l)|by apply (H5 j lj)].
Qed.

Lemma server_moves_ok config srv rds s a p :
  system_ok config srv rds s -> (forall conn data, a <> Begin (ERead conn data)) -> a <> Begin (EAccept true) ->
  cstep (s_server s) a = Some p -> system_ok config srv rds (mkSystem p (s_bots s) (s_links s)).
Proof.
  intros Hok Hr Ha Hs. pose proof (system_streams _ _ _ _ Hok). destruct Hok as [? ? ? ? ?].
  split; cbn; [by eapply creachable_step|by eapply serves_cstep|done..].
Qed.

Lemma bot_event_ok config srv rds s s' k e i :
  system_ok config srv rds s -> (forall op data, e <> EvRead op (Some data)) ->
  bot_moves s k e i (s_links s) = Some s' -> system_ok config srv rds s'.
Proof.
  intros Hok He Hm. pose proof Hok as [_ Hs Hc Hu Hb].
  eapply bot_moves_ok; [exact Hok|exact Hm|done|exact Hc|done| |].
  - intros k' b _ Hk. by apply Hb.
  - intros b b' i' Hk Hstep. destruct (Hb k b Hk) as (_ & Hmade & Hreads).
    pose proof (kept_bot_step b e He b i (reads_on_refl b Hmade)) as Hon. rewrite Hstep in Hon.
    split; [by eapply reads_on_made|by eapply bot_reads_on].
Qed.

Lemma smove_ok config srv rds s m s' :
  system_ok config srv rds s -> smove s m = Some s' -> system_ok config srv rds s'.
Proof.
  intros Hok Hm. destruct m as [a|k e i|k socket|conn data|conn data|conn data|conn op data i];
    [| |by eapply connect_ok| |by eapply give_up_ok| |by eapply give_down_ok].
  - assert (H : (exists conn data, a = Begin (ERead conn data)) \/ a = Begin (EAccept true)
                \/ ((forall conn data, a <> Begin (ERead conn data)) /\ a <> Begin (EAccept true)
                    /\ exists p, cstep (s_server s) a = Some p /\ s' = mkSystem p (s_bots s) (s_links s))).
    { cbn [smove] in Hm. destruct a as [[now st|[]|conn data|conn|conn|conn|conn|conn| |]|t n]; [..|];
        try (right; right; split; [done|]; split; [done|]; destruct (cstep _ _) as [p|]; [|done]; exists p; split; [done|]; by injection Hm).
      - right. by left.
      - left. by exists conn, data. }
    destruct H as [(conn & data & ->)|[->|(Hr & Ha & p & Hp & ->)]]; [by injection Hm as <-|by injection Hm as <-|].
    by eapply server_moves_ok.
  - cbn [smove] in Hm. assert (H : (exists op data, e = EvRead op (Some data)) \/ (forall op data, e <> EvRead op (Some data))).
    { destruct e as [|j|j ok|j [data|]|j ok| |]; try by right. left. by exists j, data. }
    destruct H as [(op & data & ->)|He]; [by injection Hm as <-|]. eapply bot_event_ok; [exact Hok|exact He|].
    destruct e as [|j|j ok|j [data|]|j ok| |]; try exact Hm. by destruct (He j data).
  - cbn [smove] in Hm. destruct (s_links s !! conn) as [l|] eqn:Hl; [|by injection Hm as <-].
    destruct (s_bots s !! l_bot l) as [b|] eqn:Hb; [|by injection Hm as <-]. injection Hm as <-.
    destruct (bool_decide _) eqn:Hpre; [|done]. bools. eapply set_link_ok; [done|exact Hl| |done..].
    destruct (so_bots _ _ _ _ Hok _ _ Hb) as (Hsp & _). destruct (bot_wire_frames (l_socket l) b Hsp) as (ps & Hps & Hw).
    destruct (so_carries _ _ _ _ Hok _ _ Hl) as [_ Hg ? ?]. split; cbn; [|by apply prefix_app_r|done..].
    exists ps. by rewrite <- Hw.
  - cbn [smove] in Hm. destruct (s_links s !! conn) as [l|] eqn:Hl; [|by injection Hm as <-].
    destruct (w_conns _ !! conn) as [c|] eqn:Hc; [|by injection Hm as <-]. injection Hm as <-.
    destruct (bool_decide _) eqn:Hpre; [|done]. bools. eapply set_link_ok; [done|exact Hl| |done..].
    destruct (conn_wire_frames c) as (ps & Hps & Hw). { by eapply conform_process; [apply Hok|]. }
    destruct (so_carries _ _ _ _ Hok _ _ Hl) as [? ? _ Hg]. split; cbn; [done..| |by apply prefix_app_r].
    exists ps. by rewrite <- Hw.
Qed.

Lemma bot_started_ok host port index o st i b i' k :
  BotClient_Start (BotClient_new host port index o st) i = Done tt b i' ->
  speaks b /\ socket_made b /\ bot_reads ∅ k b.
Proof.
  intros Hs. set (b0 := bset_running true (BotClient_new host port index o st)).
  assert (Hmade0 : socket_made b0) by done.
  pose proof (kept_Connect b0 false b0 i (reads_on_refl _ Hmade0)) as Hon.
  change (BotClient_Start (BotClient_new host port index o st) i) with (Connect false b0 i) in Hs. rewrite Hs in Hon.
  split_and!.
  - apply (trace_speaks host port index o st i [] b no_inputs). unfold bot_trace.
    change (BotClient_Start (BotClient_new host port index o st) i) with (Connect false b0 i). by rewrite Hs.
  - by eapply reads_on_made.
  - eapply bot_reads_on; [|exact Hon]. split; [by intros|by intros|by intros].
Qed.

Lemma system_started_ok config srv rds s : system_started config srv rds s -> system_ok config srv rds s.
Proof.
  intros ((w & Hw & Hp) & Hl & Hb). split.
  - rewrite Hp. by exists w, [].
  - rewrite Hp, Hl. destruct (started_world _ _ _ _ Hw) as (my & rd & -> & _). split; cbn; intros *; by rewrite lookup_empty.
  - intros conn l. by rewrite Hl, lookup_empty.
  - intros conn conn' l l'. by rewrite Hl, lookup_empty.
  - intros k b Hk. rewrite Hl. destruct (Hb k b Hk) as (host & port & index & o & st & i & i' & Hs). by eapply bot_started_ok.
Qed.

Lemma sreachable_ok config srv rds s : sreachable config srv rds s -> system_ok config srv rds s.
Proof.
  intros (s0 & ms & H0 & Hms). apply system_started_ok in H0. revert s0 H0 Hms.
  induction ms as [|m ms IH]; intros s0 H0; cbn; [by intros [= <-]|].
  destruct (smove s0 m) as [s1|] eqn:Hm; [|done]. apply IH. by eapply smove_ok.
Qed.

Lemma Forall_understood ps :
  Forall (fun q => exists p, q = with_length p /\ request p) ps -> Forall (understood (Srv := Srv) (Rds := Rds)) ps.
Proof. intros H. eapply Forall_impl; [exact H|]. intros q (p & -> & Hp). by apply request_understood. Qed.
Lemma Forall_readable ps : Forall (fun q => exists p, q = with_length p /\ conforming p) ps -> Forall readable ps.
Proof. intros H. eapply Forall_impl; [exact H|]. intros q (p & -> & Hp). by apply conforming_readable. Qed.

(** C14: In every state of the server and its bots, whatever the handlers of the server
    do at once and however the network cuts and delays the bytes: a link has brought
    the server whole requests its dispatcher has a handler for, and the beginning of
    one more; the next bytes it brings decode without an error on the buffer of the
    connection, into such requests; and the same holds of the bot and the responses
    and notifications of the server. *)
Theorem no_malformed_packets config (srv : Srv) (rds : Rds) s conn l
    (Hs : sreachable config srv rds s) (Hl : s_links s !! conn = Some l) :
  (exists ps rest, Decode (l_up l) = Some (Ok ps, rest) /\ Forall (understood (Srv := Srv) (Rds := Rds)) ps)
  /\ (exists ps rest, Decode (l_down l) = Some (Ok ps, rest) /\ Forall readable ps)
  /\ (forall data c, l_up l ++ data `prefix_of` l_taken_up l -> c_threads (s_server s) !! TConn conn = None ->
        w_conns (c_world (s_server s)) !! conn = Some c ->
        exists ps c', Net.on_read data c = Some (Ok ps, c') /\ Forall (understood (Srv := Srv) (Rds := Rds)) ps)
  /\ (forall data b, l_down l ++ data `prefix_of` l_taken_down l -> s_bots s !! l_bot l = Some b ->
        b_running b = true -> b_socket b = Some (l_socket l) ->
        exists ps rest, Decode (b_read_buffer b ++ data) = Some (Ok ps, rest) /\ Forall readable ps).
Proof.
  apply sreachable_ok in Hs. destruct (so_carries _ _ _ _ Hs _ _ Hl) as [Hup Hupg Hdn Hdng].
  split_and!.
  - destruct (stream_decodes request _ _ Hup Hupg) as (ps & rest & Hd & Hps). exists ps, rest.
    split; [by apply Decode_decodes|by apply Forall_understood].
  - destruct (stream_decodes conforming _ _ Hdn Hdng) as (ps & rest & Hd & Hps). exists ps, rest.
    split; [by apply Decode_decodes|by apply Forall_readable].
  - intros data c Hpre Ht Hc. destruct (stream_decodes request _ _ Hup Hpre) as (ps & rest & Hd & Hps).
    destruct (serves_rest _ _ _ _ _ _ (so_serves _ _ _ _ Hs) Ht Hl Hc) as [ps1 Hd1].
    destruct (decodes_more _ _ _ _ _ _ Hd1 Hd) as (ps2 & -> & H2%Decode_decodes).
    exists ps2. eexists. unfold Net.on_read. rewrite H2. split; [done|]. apply Forall_app in Hps as [_ ?]. by apply Forall_understood.
  - intros data b Hpre Hb Hrun Hsk. destruct (stream_decodes conforming _ _ Hdn Hpre) as (ps & rest & Hd & Hps).
    destruct (so_bots _ _ _ _ Hs _ _ Hb) as (_ & _ & Hreads).
    destruct (br_linked _ _ _ Hreads conn l _ Hl eq_refl eq_refl Hrun Hsk) as [ps1 Hd1].
    destruct (decodes_more _ _ _ _ _ _ Hd1 Hd) as (ps2 & -> & H2%Decode_decodes).
    exists ps2, rest. split; [done|]. apply Forall_app in Hps as [_ ?]. by apply Forall_readable.
Qed.
End end_to_end.
