(* ===== verification/BotProgram.v ===== *)
(** * BotProgram: the bots of the program, together

    What the invariant of one bot gives for the manager and for [main]: no run
    overflows an [int], draws from an empty range or pops an empty queue when the
    delays are small enough for [int], the program ends after
    [--duration] seconds or on a signal, and its arguments are read back from
    their printed form. *)
From S2P Require Import Prelude Wire StdString Messages Bot BotMain BotReason BotInv.
Local Open Scope string_scope.
Local Open Scope Z_scope.

(** ** The manager *)
Section manager.
Context {PB : Protobuf}.

Definition bots_ok (m : BotManager) : Prop := Forall (fun b => core_ok 0 0 (core b)) (m_bots m).

(** A property of the core is kept by a bot that runs on the shared counters. *)
Lemma lend_hoare {A} (P Q : Core -> Prop) stats (c : B A) b i :
  hoare (fun b => P (core b)) c (fun _ b => Q (core b)) -> P (core b) ->
  match lend stats c b i with
  | Done _ (_, b') _ => Q (core b') | Uncaught _ => True | Undefined => False end.
Proof.
  intros Hc Hb. unfold lend. specialize (Hc (bset_stats (Some stats) b) i Hb).
  by destruct (c _ i).
Qed.

Lemma start_bots_ok n index m i :
  options_ok (m_options m) -> bots_ok m ->
  match start_bots n index m i with Done _ m' _ => bots_ok m' | Uncaught _ => True | Undefined => False end.
Proof.
  revert index m i. induction n as [|n IH]; intros index m i Ho Hm; [done|]. cbn -[BotClient_Start].
  set (bot := BotClient_new _ _ _ _ _). unfold lend.
  pose proof (hoare_BotClient_Start (m_host m) (m_port m) index (m_options m) (Some (m_stats m)) Ho
    (bset_stats (Some (m_stats m)) bot) i eq_refl) as Hstart.
  destruct (BotClient_Start _ i) as [[] b i'| |]; [|done..]. apply IH; [done|].
  apply Forall_app. split; [done|]. by constructor.
Qed.

Lemma manager_step_ok k e m i : bots_ok m ->
  match manager_step k e m i with Done _ m' _ => bots_ok m' | Uncaught _ => True | Undefined => False end.
Proof.
  intros Hm. unfold manager_step. destruct (m_bots m !! k) as [bot|] eqn:Hk; [|done].
  pose proof (lend_hoare _ _ (m_stats m) _ bot i (hoare_bot_step e) (Forall_lookup_1 _ _ _ _ Hm Hk)) as Hs.
  destruct (lend _ _ bot i) as [[] [stats b] i'| |]; [|done..].
  apply Forall_insert; [apply Hm|done].
Qed.

Lemma manager_steps_ok es m i : bots_ok m ->
  match manager_steps es m i with Done _ m' _ => bots_ok m' | Uncaught _ => True | Undefined => False end.
Proof.
  revert m i. induction es as [|[k e] es IH]; intros m i Hm; [done|]. cbn.
  pose proof (manager_step_ok k e m i Hm) as Hs. destruct (manager_step k e m i); [by apply IH|done..].
Qed.

Lemma stop_bots_defined meanwhile n k m i : bots_ok m -> stop_bots meanwhile n k m i <> Undefined.
Proof.
  revert k m i. induction n as [|n IH]; intros k m i Hm; [done|]. cbn -[manager_steps].
  pose proof (manager_steps_ok ((k, EvStop) :: meanwhile k ++ [(k, EvStopped)])%list m i Hm) as Hs.
  destruct (manager_steps _ m i) as [[] m' i'| |]; [|done..]. by apply IH.
Qed.

Lemma BotManager_Start_ok n host port o i :
  options_ok o ->
  match BotManager_Start n (BotManager_new host port o) i with
  | Done _ m _ => bots_ok m | Uncaught _ => True | Undefined => False end.
Proof.
  intros Ho. unfold BotManager_Start. destruct (n <? 0); [done|]. by apply start_bots_ok; [|constructor].
Qed.

(** ** main *)
Context (g_running : Z -> bool) (world : Z -> list (nat * BotEvent)) (meanwhile : nat -> list (nat * BotEvent)).

Lemma main_loop_ok fuel duration elapsed m i cout : bots_ok m ->
  match main_loop g_running world fuel duration elapsed m i cout with
  | Some (Done _ (m', _) _) => bots_ok m' | Some (Uncaught _) => True | Some Undefined => False | None => True end.
Proof.
  revert elapsed m i cout. induction fuel as [|fuel IH]; intros elapsed m i cout Hm; [done|]. cbn.
  destruct (_ && _); [|done].
  pose proof (manager_steps_ok (world elapsed) m i Hm) as Hs.
  destruct (manager_steps _ m i) as [[] m' i'| |]; [|done..]. by apply IH.
Qed.

(** C22: Whatever the network, the timers and the random numbers do, also while the bots
    are being stopped, the bot program never overflows an [int], never draws from
    an empty range and never pops from an empty queue, when its delay options leave
    room for the jitter in an [int].  These are the three kinds of undefined
    behaviour the model marks; a write that outlives its buffer
    ([Bot.freed_writes]) is not one of them. *)
Theorem no_overflow_range_or_pop fuel program args (i : Inputs) a
    (Hargs : parse_args args Args_default = Run a)
    (Hok : options_ok (a_options a)) :
  main g_running world meanwhile fuel program args i <> Some NoMeaning.
Proof.
  unfold main, run_bots. rewrite Hargs.
  pose proof (BotManager_Start_ok (a_count a) (a_host a) (a_port a) (a_options a) i Hok) as Hs.
  destruct (BotManager_Start _ _ i) as [[] m i'| |]; [|done..].
  pose proof (main_loop_ok fuel (a_duration a) 0 m i' [started a] Hs) as Hl.
  destruct (main_loop _ _ _ _ _ _ _ _) as [[elapsed [m' cout] i''| |]|]; [|done..].
  unfold BotManager_Stop. pose proof (stop_bots_defined meanwhile (length (m_bots m')) 0 m' i'' Hl) as Hst.
  by destruct (stop_bots _ _ _ _ _) as [[] ?| |].
Qed.

(** The loop condition. *)
Definition goes_on (duration elapsed : Z) : bool :=
  g_running elapsed && ((duration <=? 0) || (elapsed <? duration)).

(** The loop ends at the first second [e] that does not go on, one line a second. *)
Lemma main_loop_ends e duration fuel elapsed m i cout :
  (forall k, elapsed <= k < e -> goes_on duration k = true) -> goes_on duration e = false ->
  elapsed <= e -> e - elapsed < Z.of_nat fuel ->
  match main_loop g_running world fuel duration elapsed m i cout with
  | Some (Done e' (_, cout') _) => e' = e /\ Z.of_nat (length cout') = Z.of_nat (length cout) + (e - elapsed)
  | Some _ => True
  | None => False
  end.
Proof.
  revert elapsed m i cout. induction fuel as [|fuel IH]; intros elapsed m i cout Hgo Hend He Hf; [lia|]. cbn.
  fold (goes_on duration elapsed). destruct (decide (elapsed = e)) as [->|Hne].
  - rewrite Hend. split; [done|lia].
  - rewrite Hgo by lia. destruct (manager_steps _ m i) as [[] m' i'| |]; [|done..].
    assert (forall k, elapsed + 1 <= k < e -> goes_on duration k = true) as Hgo' by (intros; apply Hgo; lia).
    pose proof (IH (elapsed + 1) m' i' (app cout [PrintStats (elapsed + 1) m']) Hgo' Hend ltac:(lia) ltac:(lia)) as Hl.
    destruct (main_loop _ _ _ _ _ _ _ _) as [[e' [? cout'] ?| |]|]; [|done..].
    destruct Hl as [-> Hl]. rewrite length_app in Hl. cbn in Hl. split; [done|lia].
Qed.

(** C33: The bot program ends: when [e] is the first second at which a signal has come
    or [--duration] has passed, [e + 1] turns of the loop are enough, and a run
    that ends normally has printed its first line, one line of counters for each
    of the [e] seconds and a last one, and nothing on [std::cerr]. *)
Theorem main_terminates e fuel program args (i : Inputs) a
    (Hargs : parse_args args Args_default = Run a)
    (Hgo : forall k, 0 <= k < e -> goes_on (a_duration a) k = true)
    (Hend : goes_on (a_duration a) e = false)
    (Hfuel : 0 <= e < Z.of_nat fuel) :
  exists r, main g_running world meanwhile fuel program args i = Some r /\
    forall code cout cerr, r = Exit code cout cerr ->
      code = 0 /\ Z.of_nat (length cout) = e + 2 /\ cerr = [].
Proof.
  unfold main, run_bots. rewrite Hargs.
  destruct (BotManager_Start _ _ i) as [[] m i'|ex|]; [|by eexists..].
  pose proof (main_loop_ends e (a_duration a) fuel 0 m i' [started a] Hgo Hend ltac:(lia) ltac:(lia)) as Hl.
  destruct (main_loop _ _ _ _ _ _ _ _) as [[elapsed [m' cout] i''|ex|]|]; [|by eexists..|done].
  destruct Hl as [-> Hl]. destruct (BotManager_Stop meanwhile m' i'') as [[] m'' ?|ex|]; [|by eexists..].
  eexists. split; [done|]. intros code cout' cerr [= <- <- <-]. rewrite length_app. cbn in *. split; [done|]. split; [lia|done].
Qed.
End manager.

(** ** The arguments *)

(** The command line that says what [a] says. *)
Definition render (a : Args) : list string :=
  let o := a_options a in
  (["--host"; a_host a; "--port"; to_string (a_port a); "--count"; to_string (a_count a);
   "--duration"; to_string (a_duration a);
   "--cancel-match-percent"; to_string (cancel_match_percent o);
   "--queue-disconnect-percent"; to_string (queue_disconnect_percent o);
   "--room-disconnect-percent"; to_string (room_disconnect_percent o);
   "--playing-disconnect-percent"; to_string (playing_disconnect_percent o);
   "--ready-toggle-percent"; to_string (ready_toggle_percent o);
   "--max-reconnects"; to_string (max_reconnects o);
   "--reconnect-delay-ms"; to_string (reconnect_delay_ms o);
   "--rematch-delay-ms"; to_string (rematch_delay_ms o);
   "--action-jitter-ms"; to_string (action_jitter_ms o);
   "--heartbeat-interval-ms"; to_string (heartbeat_interval_ms o);
   "--input-interval-ms"; to_string (input_interval_ms o)]
  ++ (if verbose o then ["--verbose"] else []))%list.

(** The variables of [main] hold values of their types. *)
Record args_typed (a : Args) : Prop := mkTyped {
  ty_port : 0 <= a_port a < 65536;
  ty_ints : Forall is_i32
    (let o := a_options a in
     [a_count a; a_duration a; cancel_match_percent o; queue_disconnect_percent o; room_disconnect_percent o;
      playing_disconnect_percent o; ready_toggle_percent o; max_reconnects o; reconnect_delay_ms o;
      rematch_delay_ms o; action_jitter_ms o; heartbeat_interval_ms o; input_interval_ms o])
}.

Lemma parse_value arg value rest a a' :
  arg <> "--help" -> set_option arg value a = Some (Ok a') ->
  parse_args (arg :: value :: rest) a = parse_args rest a'.
Proof. intros Hn Hs. cbn [parse_args]. rewrite bool_decide_false by done. by rewrite Hs. Qed.

Lemma parse_int arg z rest a f :
  arg <> "--help" -> is_i32 z -> (forall v, set_option arg v a = Some (f <$> stoi v)) ->
  parse_args (arg :: to_string z :: rest) a = parse_args rest (f z).
Proof. intros Hn Hz Hs. apply parse_value; [done|]. by rewrite Hs, stoi_to_string. Qed.

Ltac option_fields :=
  cbv beta;
  cbn [aset_options a_host a_port a_count a_duration a_options cancel_match_percent queue_disconnect_percent
       room_disconnect_percent playing_disconnect_percent ready_toggle_percent max_reconnects reconnect_delay_ms
       rematch_delay_ms action_jitter_ms heartbeat_interval_ms input_interval_ms verbose].

(** C39: The arguments round-trip: the command line that spells out every option,
    whatever the values of their types, is parsed to those values, on top of any
    defaults without [--verbose]. *)
Theorem parse_render a a0
    (Htyped : args_typed a) (Hquiet : verbose (a_options a0) = false) :
  parse_args (render a) a0 = Run a.
Proof.
  destruct Htyped as [Hport Hints]. repeat (apply Forall_cons in Hints as [? Hints]). unfold render. cbn [app].
  assert (is_i32 (a_port a)) by (unfold is_i32, int32_min, int32_max; lia).
  destruct a as [host port count duration []], a0 as [? ? ? ? []]. cbn in * |-. subst. option_fields.
  etransitivity; [by apply parse_value|].
  do 14 (etransitivity; [eapply parse_int; [done|cbn; done|intros v; reflexivity]|]; option_fields).
  rewrite Z.mod_small by done. by destruct verbose.
Qed.
