(* ===== verification/ToyProto.v ===== *)
(** * ToyProto: a protobuf runtime for concrete runs

    An instance of [Protobuf]: a message is the lists of its fields, encoded as
    the bits of a number.  The witnesses run the server with it. *)
From stdpp Require Import countable.
From S2P Require Import Prelude Wire Float32 Messages.
From Stdlib Require Import Floats.SpecFloat.
Local Open Scope Z_scope.

(** ** Numbers as bytes, one bit a byte *)
Fixpoint pos_bytes (p : positive) : bytes :=
  match p with
  | xH => []
  | xO p => Byte.x00 :: pos_bytes p
  | xI p => Byte.x01 :: pos_bytes p
  end.
Fixpoint bytes_pos (b : bytes) : positive :=
  match b with
  | [] => xH
  | Byte.x00 :: b => xO (bytes_pos b)
  | _ :: b => xI (bytes_pos b)
  end.
Lemma bytes_pos_bytes p : bytes_pos (pos_bytes p) = p.
Proof. induction p; cbn; congruence. Qed.

Definition float_code (x : spec_float) : (bool + bool) + (unit + bool * positive * Z) :=
  match x with
  | S754_zero s => inl (inl s)
  | S754_infinity s => inl (inr s)
  | S754_nan => inr (inl tt)
  | S754_finite s m e => inr (inr (s, m, e))
  end.
Definition float_decode (c : (bool + bool) + (unit + bool * positive * Z)) : spec_float :=
  match c with
  | inl (inl s) => S754_zero s
  | inl (inr s) => S754_infinity s
  | inr (inl tt) => S754_nan
  | inr (inr (s, m, e)) => S754_finite s m e
  end.
#[export] Instance float_countable : Countable spec_float.
Proof. apply (inj_countable' float_code float_decode). by intros []. Defined.

(** ** The fields of a message *)
Definition bools (m : Message) : list bool :=
  match m with
  | InputRequest i => [pi_fire i]
  | ReadyRequest b | ReadyNotify _ b => [b]
  | _ => []
  end.

Fixpoint rebuild_players (ids hps : list Z) (xs ys : list float32) : list PlayerState :=
  match ids, hps, xs, ys with
  | i :: ids, h :: hps, x :: xs, y :: ys => mkPlayerState i x y h :: rebuild_players ids hps xs ys
  | _, _, _, _ => []
  end.
Fixpoint rebuild_items (ids scores ranks : list Z) (names : list string) : list RankItem :=
  match ids, scores, ranks, names with
  | i :: ids, s :: scores, r :: ranks, n :: names => mkRankItem i n s r :: rebuild_items ids scores ranks names
  | _, _, _, _ => []
  end.

Definition rebuild (t : MessageType) (l : list Z) (k : list Z) (ss : list string) (fs : list float32) (bs : list bool)
    : option Message :=
  match t, l, k, ss, fs, bs with
  | TLoginRequest, _, _, [a; tok], _, _ => Some (LoginRequest a tok)
  | TLoginResponse, [p], [c], [n; tok], _, _ => Some (LoginResponse c p n tok)
  | THeartbeatRequest, [x], _, _, _, _ => Some (HeartbeatRequest x)
  | THeartbeatResponse, [x], _, _, _, _ => Some (HeartbeatResponse x)
  | TReconnectRequest, [p], _, [tok], _, _ => Some (ReconnectRequest p tok)
  | TReconnectResponse, [r], [c], _, _, _ => Some (ReconnectResponse c r)
  | TMatchRequest, [p], _, _, _, _ => Some (MatchRequest p)
  | TMatchResponse, _, [c], [s], _, _ => Some (MatchResponse c s)
  | TMatchSuccessNotify, r :: ps, _, _, _, _ => Some (MatchSuccessNotify r ps)
  | TMatchCancelRequest, [p], _, _, _, _ => Some (MatchCancelRequest p)
  | TMatchCancelResponse, _, [c], [s], _, _ => Some (MatchCancelResponse c s)
  | TReadyRequest, _, _, _, _, [b] => Some (ReadyRequest b)
  | TReadyNotify, [p], _, _, _, [b] => Some (ReadyNotify p b)
  | TRoomStateNotify, r :: ps, [s], _, _, _ => Some (RoomStateNotify r s ps)
  | TLeaveRoomRequest, [r], _, _, _, _ => Some (LeaveRoomRequest r)
  | TLeaveRoomResponse, _, [c], [s], _, _ => Some (LeaveRoomResponse c s)
  | TPlayerLeaveRoomNotify, [r; p], [why], _, _, _ => Some (PlayerLeaveRoomNotify r p why)
  | TInputRequest, [p; s], _, _, [x; y], [b] => Some (InputRequest (mkPlayerInput p s x y b))
  | TGameStateNotify, r :: f :: ids, hps, _, fs, _ =>
    Some (GameStateNotify r f (rebuild_players ids hps (take (length ids) fs) (drop (length ids) fs)))
  | TGameOverNotify, r :: w :: ps, _, _, _, _ => Some (GameOverNotify r w ps)
  | TRankRequest, _, [o; n], _, _, _ => Some (RankRequest o n)
  | TRankResponse, ids, k, ss, _, _ =>
    Some (RankResponse (rebuild_items ids (take (length ids) k) (drop (length ids) k) ss))
  | _, _, _, _, _, _ => None
  end.

Lemma rebuild_players_fields ps :
  rebuild_players (ps_player_id <$> ps) (ps_hp <$> ps) (ps_x <$> ps) (ps_y <$> ps) = ps.
Proof. induction ps as [|[] ps IH]; cbn; [done|]. by f_equal. Qed.
Lemma rebuild_items_fields ps :
  rebuild_items (ri_player_id <$> ps) (ri_score <$> ps) (ri_rank <$> ps) (ri_name <$> ps) = ps.
Proof. induction ps as [|[] ps IH]; cbn; [done|]. by f_equal. Qed.

Lemma rebuild_fields m : rebuild (type_of m) (ints64 m) (ints32 m) (strings m) (floats m) (bools m) = Some m.
Proof.
  destruct m as [| | | | | | | | | | | | | | | | |[]|r f ps| | |items]; try done; cbn [rebuild type_of ints64 ints32 strings floats bools].
  - rewrite length_fmap, take_app_length', drop_app_length' by by rewrite length_fmap.
    by rewrite rebuild_players_fields.
  - destruct items as [|i items]; [done|]. set (l := i :: items). change (ri_player_id <$> i :: items) with (ri_player_id <$> l).
    rewrite length_fmap, take_app_length', drop_app_length' by by rewrite length_fmap.
    by rewrite rebuild_items_fields.
Qed.

Lemma rebuild_type t l k ss fs bs m : rebuild t l k ss fs bs = Some m -> type_of m = t.
Proof. unfold rebuild. intros H. repeat case_match; by simplify_eq. Qed.

Definition typed_b (m : Message) : bool :=
  forallb (fun z => (int64_min <=? z) && (z <=? int64_max)) (ints64 m)
  && forallb (fun z => (int32_min <=? z) && (z <=? int32_max)) (ints32 m).

Lemma forallb_range lo hi l : forallb (fun z => (lo <=? z) && (z <=? hi)) l = true <-> Forall (fun z => lo <= z <= hi) l.
Proof.
  rewrite forallb_forall, Forall_forall. setoid_rewrite list_elem_of_In.
  split; intros H x Hx; specialize (H x Hx); lia.
Qed.
Lemma typed_b_spec m : typed_b m = true <-> message_typed m.
Proof. unfold typed_b. by rewrite andb_true_iff, !forallb_range. Qed.

Definition toy_serialize (m : Message) : bytes :=
  pos_bytes (encode (ints64 m, ints32 m, strings m, floats m, bools m)).
Definition toy_parse (t : MessageType) (b : bytes) : option Message :=
  match decode (bytes_pos b) with
  | Some (l, k, ss, fs, bs) =>
    m ← rebuild t l k ss fs bs; if typed_b m then Some m else None
  | None => None
  end.

#[export, program] Instance ToyProtobuf : Protobuf := {
  SerializeToString := toy_serialize;
  ParseFromString := toy_parse
}.
Next Obligation.
  intros t b m. unfold toy_parse. destruct (decode _) as [[[[[l k] ss] fs] bs]|]; [|done].
  destruct (rebuild _ _ _ _ _ _) as [m'|] eqn:Hr; cbn; [|done]. case_match; [|done]. intros [= <-].
  by eapply rebuild_type.
Qed.
Next Obligation.
  intros t b m. unfold toy_parse. destruct (decode _) as [[[[[l k] ss] fs] bs]|]; [|done].
  destruct (rebuild _ _ _ _ _ _) as [m'|] eqn:Hr; cbn; [|done]. case_match; [|done]. intros [= <-].
  by apply typed_b_spec.
Qed.
Next Obligation.
  intros m [Hm _] _. unfold toy_parse, toy_serialize. rewrite bytes_pos_bytes, decode_encode.
  rewrite rebuild_fields. cbn. by rewrite (proj2 (typed_b_spec m)).
Qed.

Example toy_roundtrip :
  toy_parse TGameStateNotify (toy_serialize (GameStateNotify 1000 3 [mkPlayerState 7 (f32_of_Z 5) S754_nan 90]))
  = Some (GameStateNotify 1000 3 [mkPlayerState 7 (f32_of_Z 5) S754_nan 90]).
Proof. vm_compute. reflexivity. Qed.
