(* ===== verification/StoreWitness.v ===== *)
(** * StoreWitness: the storage theorems at concrete inputs

    Runs on [ToyMysql] of one battle between two players, with and without
    faults. *)
From S2P Require Import Prelude StdString Config Mysql Repositories SqlModel ToyMysql BattleStore Ledger Redis Settlement Healthy.
Local Open Scope string_scope.
Local Open Scope Z_scope.

Definition cfg0 : MysqlConfig := mkMysqlConfig "127.0.0.1" 3306 "root" "123456" "game".
Definition tables0 : Tables := mkTables ∅ {[ 1 := mkBattleRow 7 0 false None ]} ∅ ∅.
Definition client0 (up : bool) (faults : list Fault) : MysqlClient ToySrv :=
  mkMysqlClient up false (mkToy tables0 None faults [] 0 0).
Definition battle0 : Battle := mkBattle 1 7 1 "".
Definition results0 : list BattlePlayerResult := [mkResult 1 2 "LOSE" (-10); mkResult 1 1 "WIN" 20].

Lemma ledger0 : ledger tables0.
Proof.
  split_and!; [split|split_and!|split]; cbn; try (intros; by rewrite ?lookup_empty in *).
  - intros b row [<- <-]%lookup_singleton_Some. by unfold is_i64, int64_min, int64_max.
  - intros k d. rewrite !lookup_empty. naive_solver.
  - by intros b row [<- <-]%lookup_singleton_Some.
Qed.

Lemma request0 : typed_request battle0 results0.
Proof.
  unfold typed_request, is_i64, int64_min, int64_max. split_and!; cbn; try lia.
  all: intros r Hr; set_unfold in Hr; destruct Hr as [-> | [-> | []]]; cbn; lia.
Qed.

(** The reply to the commit is lost, the call answers [false]; the retry finds
    the same result and answers [true]. *)
Definition history0 : list StoreOp :=
  [OpLoadPlayer 1; OpSettle battle0 results0; OpSettle battle0 results0; OpCreatePlayer 2 "bob"].

Lemma typed_history0 : typed_ops history0.
Proof.
  intros op Hop. unfold history0 in Hop. set_unfold in Hop.
  repeat destruct Hop as [-> | Hop]; try done; apply request0.
Qed.

Definition faults0 : list Fault := repeat Fine 11 ++ [ReplyLost].

Example history0_run :
  let t := toy_db (srv (run_ops cfg0 (client0 false faults0) history0)) in
  (ApplySettlement cfg0 true (run_ops cfg0 (client0 false faults0) [OpLoadPlayer 1]) battle0 results0).1 = Ok false
  /\ players t !! 1 = Some (mkPlayerRow "player_1" 1020 1 0)
  /\ players t !! 2 = Some (mkPlayerRow "bob" 990 0 1)
  /\ logs t = {[ (1, 1) := 20; (1, 2) := -10 ]}.
Proof. vm_compute. done. Qed.

Lemma store_keeps_the_books_witness :
  let t := toy_db (srv (run_ops cfg0 (client0 false faults0) history0)) in
  (forall p row, players t !! p = Some row ->
     p_win row = tally is_win (logs t) p /\ p_lose row = tally is_loss (logs t) p
     /\ p_score row = 1000 + 20 * p_win row - 10 * p_lose row)
  /\ (forall b row, battles t !! b = Some row ->
       if bt_settled row
       then logs t !! (b, bt_winner row) = Some 20
            /\ (forall p d, logs t !! (b, p) = Some d -> p <> bt_winner row -> d = -10)
       else forall p, logs t !! (b, p) = None).
Proof.
  exact (store_keeps_the_books cfg0 (client0 false faults0) history0
           (conj eq_refl (fun H => match diff_false_true H with end)) ledger0 typed_history0).
Defined.

Lemma ApplySettlement_atomic_witness :
  exists c', ApplySettlement cfg0 true (client0 false []) battle0 results0 = (Ok true, c')
    /\ already battle0 (sort_results results0) (committed (srv c')).
Proof.
  destruct (ApplySettlement cfg0 true (client0 false []) battle0 results0) as [r c'] eqn:H.
  exists c'. assert (E : r = Ok true).
  { apply (f_equal fst) in H. cbn [fst] in H. rewrite <- H. vm_compute. reflexivity. }
  pose proof (ApplySettlement_atomic (L := ToyLaws) cfg0 battle0 results0 (client0 false []) r c'
              (conj eq_refl (fun H => match diff_false_true H with end)) ledger0 request0 H) as Ha.
  clear H. subst r. split; [reflexivity|].
  destruct Ha as (_ & [[_ Hal] | [Hf _]] & _); [exact Hal|discriminate Hf].
Defined.

Definition client1 : MysqlClient ToySrv := run_ops cfg0 (client0 false []) [OpSettle battle0 results0].

Definition conflicting0 : list StoreOp :=
  [OpSettle (mkBattle 1 7 2 "") [mkResult 1 1 "LOSE" (-10); mkResult 1 2 "WIN" 20]].

Lemma typed_conflicting0 : typed_ops conflicting0.
Proof.
  intros op Hop. unfold conflicting0 in Hop. set_unfold in Hop. destruct Hop as [-> | []].
  unfold typed_op, typed_request, is_i64, int64_min, int64_max. split_and!; cbn; try lia.
  all: intros r Hr; set_unfold in Hr; destruct Hr as [-> | [-> | []]]; cbn; lia.
Qed.

Lemma client1_ok : idle client1 /\ ledger (committed (srv client1)).
Proof.
  assert (Hi : idle (client0 false [])) by (split; [done|intros H; discriminate H]).
  assert (Hops : typed_ops [OpSettle battle0 results0])
    by (intros op Hop; set_unfold in Hop; destruct Hop as [-> | []]; apply request0).
  destruct (run_ops_steps cfg0 _ _ Hi ledger0 Hops) as [Hi1 Hs].
  exact (conj Hi1 (steps_ledger _ _ ledger0 Hs)).
Qed.

Lemma client1_settled :
  battles (committed (srv client1)) !! 1 = Some (mkBattleRow 7 1 true (Some 0)).
Proof. vm_compute. reflexivity. Qed.

Lemma settlement_is_final_witness :
  battle_frozen 1 (committed (srv client1)) (committed (srv (run_ops cfg0 client1 conflicting0))).
Proof.
  exact (settlement_is_final cfg0 client1 conflicting0 1 (mkBattleRow 7 1 true (Some 0))
           (proj1 client1_ok) (proj2 client1_ok) typed_conflicting0 client1_settled eq_refl).
Defined.

Lemma ApplySettlement_completes_witness :
  exists now c', ApplySettlement cfg0 true (client0 false []) battle0 results0 = (Ok true, c')
    /\ committed (srv c') = settled now battle0 (sort_results results0) (committed (srv (client0 false []))).
Proof.
  apply (ApplySettlement_completes cfg0 battle0 results0 (client0 false [])).
  - split; [done|intros H; discriminate H].
  - reflexivity.
  - exact ledger0.
  - exact request0.
  - done.
  - done.
  - done.
  - by exists (mkBattleRow 7 0 false None).
  - vm_compute. reflexivity.
  - intros r _ row d Hrow. discriminate Hrow.
Defined.

(** The first attempt to connect fails, the second succeeds: the quote of the
    name ends the literal and the server parses something else. *)
Lemma CreatePlayer_unescaped_witness :
  CreatePlayer cfg0 true (client0 false [Fails]) (mkPlayerData 3 "x', 9999, 0, 0) -- " 1000 0 0)
  = Execute cfg0 (client0 true []) (sql_create_player 3 "x', 9999, 0, 0) -- " 1000 0 0).
Proof.
  apply (CreatePlayer_unescaped cfg0 (client0 false [Fails]) (client0 false []) (client0 true [])
           (mkPlayerData 3 "x', 9999, 0, 0) -- " 1000 0 0)); reflexivity.
Defined.

(** ** A Redis of one sorted set *)
Record ToyRds := mkToyRds { toy_zset : gmap string Z; toy_redis_up : bool }.

Definition toy_command (args : list string) (s : ToyRds) : option RedisReply * ToyRds :=
  if negb (toy_redis_up s) then (None, s)
  else
    match args with
    | [cmd; key; score; member] =>
      if bool_decide (cmd = "ZADD") && bool_decide (key = kRankScoreKey) then
        match strto score with
        | Some z => (Some (REDIS_REPLY_INTEGER 1), mkToyRds (<[member := z]> (toy_zset s)) true)
        | None => (Some (REDIS_REPLY_ERROR None), s)
        end
      else (Some REDIS_REPLY_NIL, s)
    | [cmd; key; start; stop; opt] =>
      if bool_decide (cmd = "ZREVRANGE") && bool_decide (key = kRankScoreKey) then
        match strto start, strto stop with
        | Some a, Some b =>
          let page := take (Z.to_nat (b - a + 1)) (drop (Z.to_nat a) (board (toy_zset s))) in
          if forallb (fun x => bool_decide (int32_min <= x.2 <= int32_max)) page then
            (Some (REDIS_REPLY_ARRAY
               (concat ((fun x => [Some (REDIS_REPLY_STRING (Some x.1));
                                   Some (REDIS_REPLY_STRING (Some (to_string x.2)))]) <$> page))), s)
          else (Some (REDIS_REPLY_ERROR None), s)
        | _, _ => (Some (REDIS_REPLY_ERROR None), s)
        end
      else (Some REDIS_REPLY_NIL, s)
    | _ => (Some REDIS_REPLY_NIL, s)
    end.

#[export] Instance ToyRedisApi : RedisApi ToyRds := {
  redisConnect _ _ s := (Some (negb (toy_redis_up s)), s);
  redisFree s := s;
  redisCommand := toy_command
}.

Lemma toy_page page :
  forallb (fun x : string * Z => bool_decide (int32_min <= x.2 <= int32_max)) page = true ->
  zrevrange_items (concat ((fun x => [Some (REDIS_REPLY_STRING (Some x.1));
                                      Some (REDIS_REPLY_STRING (Some (to_string x.2)))]) <$> page)) = page.
Proof.
  induction page as [|[m x] page IH]; [done|]. cbn -[to_string atoi c_str]. intros H. bools.
  rewrite IH by done. rewrite c_str_plain by apply plain_sql_to_string. by rewrite atoi_to_string.
Qed.

#[export, program] Instance ToyRedisLaws : RedisLaws ToyRds := { zset := toy_zset }.
Next Obligation. done. Qed.
Next Obligation. done. Qed.
Next Obligation.
  intros score member s r s'. cbn -[to_string]. unfold toy_command.
  destruct (toy_redis_up s); cbn -[to_string]; [|done]. rewrite strto_to_string_nil. by intros [= <- <-].
Qed.
Next Obligation.
  intros score member s. cbn -[to_string]. unfold toy_command.
  destruct (toy_redis_up s); cbn -[to_string]; [|auto]. rewrite strto_to_string_nil. auto.
Qed.
Next Obligation.
  intros start stop s el s' _ _ _. cbn -[to_string]. unfold toy_command.
  destruct (toy_redis_up s); cbn -[to_string]; [|done]. rewrite !strto_to_string_nil.
  destruct (forallb _ _) eqn:Hf; [|done]. intros [= <- <-]. by apply toy_page.
Qed.

#[export, program] Instance ToyRedisHealthy : RedisHealthy ToyRds := { redis_healthy s := toy_redis_up s = true }.
Next Obligation. intros host port s H. cbn. by rewrite H. Qed.
Next Obligation.
  intros key score member s H. cbn -[to_string]. unfold toy_command. rewrite H. cbn -[to_string].
  rewrite strto_to_string_nil. by case_match; eexists _, _.
Qed.

Definition redis0 : RedisClient ToyRds := mkRedisClient false (mkToyRds ∅ true).
Definition rcfg0 : RedisConfig := mkRedisConfig "127.0.0.1" 6379.
Definition service0 : SettlementService := mkSettlementService true true true true true.

Definition settle0 := SettleBattle cfg0 rcfg0 service0 (client0 false []) redis0 1 7 1 [3; 2; 3].

Lemma SettleBattle_same_losers_witness :
  settle0 = SettleBattle cfg0 rcfg0 service0 (client0 false []) redis0 1 7 1 [2; 3].
Proof.
  apply (SettleBattle_same_losers cfg0 rcfg0 service0 (client0 false []) redis0 1 7 1 [3; 2; 3] [2; 3]).
  intros x. set_solver.
Defined.

Lemma SettleBattle_settles_and_ranks_witness :
  settle0.1.1 = Ok true
  /\ idle settle0.1.2 /\ ledger (committed (srv settle0.1.2))
  /\ (settle0.1.1 = Ok false
      \/ (settle0.1.1 = Ok true /\ exists row, battles (committed (srv settle0.1.2)) !! 1 = Some row
            /\ bt_settled row = true /\ bt_winner row = 1
            /\ forall p, p = 1 \/ p ∈ [3; 2; 3] ->
                 logs (committed (srv settle0.1.2)) !! (1, p) = Some (if p =? 1 then 20 else -10)
                 /\ ranked (committed (srv settle0.1.2)) (zset (rds settle0.2)) p)).
Proof.
  split; [vm_compute; reflexivity|].
  apply (SettleBattle_settles_and_ranks cfg0 rcfg0 service0 (client0 false []) settle0.1.2 redis0 settle0.2
           1 7 1 [3; 2; 3] settle0.1.1).
  - reflexivity.
  - reflexivity.
  - reflexivity.
  - exact (conj eq_refl (fun H => match diff_false_true H with end)).
  - exact ledger0.
  - by unfold is_i64, int64_min, int64_max.
  - by unfold is_i64, int64_min, int64_max.
  - intros p Hp. unfold is_i64, int64_min, int64_max. set_unfold in Hp.
    destruct Hp as [-> | [-> | [-> | []]]]; lia.
  - fold settle0. destruct settle0 as [[? ?] ?]. reflexivity.
Defined.




