(* ===== verification/Tests.v ===== *)
(** * Tests: the test-suite of the repository, on the model

    The programs of [src/tests], test by test, over [ToyMysql], the Redis of
    [StoreWitness] and [ToyProto]; [tests_pass] says that every expectation holds.
    [ConcurrentConnectionsSettleOnlyOnce] has four clients of the database at once
    and is left out: the model has the one client of the server.  What a test does to
    the database behind the repositories' back is done to the tables. *)
From S2P Require Import Prelude Wire Net StdString Messages GameRoom MatchQueue Config Registry Room Mysql Repositories SqlModel ToyMysql Redis Settlement World Lobby GameServer ToyProto StoreWitness.
Local Open Scope string_scope.
Local Open Scope list_scope.
Local Open Scope Z_scope.

(** ** test_match_queue.cpp *)
Definition PreventDuplicatePush : bool :=
  let '(b1, q) := MatchQueue_Push MatchQueue_new 1 in
  let '(b2, q) := MatchQueue_Push q 1 in
  b1 && negb b2 && (MatchQueue_Size q =? 1).

Definition RemoveAndPopN : bool :=
  let q := (MatchQueue_Push (MatchQueue_Push (MatchQueue_Push MatchQueue_new 1).2 2).2 3).2 in
  let '(removed, q) := MatchQueue_Remove q 2 in
  removed && bool_decide ((MatchQueue_PopN q 2).1 = [1; 3]).

(** ** test_protocol.cpp *)
Definition hello : bytes := String.list_byte_of_string "hello".
Definition EncodeDecodeOnePacket : bool :=
  match Encode (mkPacket 0 1001 7 hello) with
  | Ok data =>
    match Decode data with
    | Some (Ok [p], []) => (msg_id p =? 1001) && (seq_ p =? 7) && bool_decide (body p = hello)
    | _ => false
    end
  | Throw _ => false
  end.

Definition HalfPacketWaitsForMoreData : bool :=
  match Encode (mkPacket 0 1 0 (String.list_byte_of_string "abcdef")) with
  | Ok data =>
    match Decode (take 5 data) with
    | Some (Ok [], buffer) =>
      match Decode (buffer ++ drop 5 data) with Some (Ok [_], _) => true | _ => false end
    | _ => false
    end
  | Throw _ => false
  end.

(** ** test_room_state.cpp *)
Definition AllReadyStartsGame : bool :=
  let '(b1, room) := Room_AddPlayer (Room_new 1) 11 in
  let '(b2, room) := Room_AddPlayer room 12 in
  let waiting := bool_decide (r_state room = RoomState.Waiting) in
  let room := (Room_SetReady room 11 true).2 in
  let early := Room_CanStart room in
  let room := (Room_SetReady room 12 true).2 in
  b1 && b2 && waiting && negb early && Room_CanStart room
  && bool_decide (r_state (Room_StartGame room) = RoomState.Playing).

Definition SettlementCannotBeRestartedByReadyRequests : bool :=
  let room := (Room_AddPlayer (Room_AddPlayer (Room_new 1) 11).2 12).2 in
  let '(b1, room) := Room_SetReadyAndTryStart room 11 true in
  let '(b2, room) := Room_SetReadyAndTryStart room 12 true in
  let room := Room_SetSettlement room in
  let '(b3, room) := Room_SetReadyAndTryStart room 11 true in
  let room := (Room_SetReady room 12 false).2 in
  let can := Room_CanStart room in
  let room := Room_StartGame room in
  bool_decide (default false b1 = false) && bool_decide (b2 = Some true) && bool_decide (default false b3 = false)
  && negb can && bool_decide (r_state room = RoomState.Settlement).

(** The tests of the handlers make the services they need, and two sessions
    without a connection, for players who are online. *)
Notation ToyM := (M ToySrv ToyRds).
Definition lobby_context (match_service : bool) : ServiceContext :=
  mkServiceContext true true true false match_service false false true false false false false.
Definition no_services : World ToySrv ToyRds :=
  new_world default_config (mkToy (mkTables ∅ ∅ ∅ ∅) None [] [] 0 0) (mkToyRds ∅ true).

Definition add_session (s player_id : Z) : ToyM unit :=
  writes (upd_sessions (insert s (Session_BindPlayerId player_id (Session_new s None 0)))) ;;
  writes (fun w => upd_cm (fun cm => CM_Add (w_sessions w) cm (Some s)) w).
Definition online (player_id s : Z) : ToyM unit := writes (upd_pm (fun pm => PM_SetOnline pm player_id s)).
Definition put_in_room (player_id : Z) (room : RoomPtr) : ToyM unit :=
  player ← GetOrCreatePlayer player_id "";
  on_player player (Player_SetStatus InRoom) ;;
  r ← room_at room;
  on_player player (Player_SetRoomId (r_room_id r)).

(** [EXPECT_EQ] and the like: an exception stands for a failed expectation. *)
Definition expect (b : bool) : ToyM unit := fun w => (if b then Ok tt else Throw (runtime_error "expectation failed"), w).
Definition expect_player (player_id : Z) (status : PlayerStatus) : ToyM unit :=
  w ← reads id;
  expect (bool_decide (Registry.p_status <$> PM_GetPlayer (w_pm w) player_id = Some status)).
Definition expect_left (player_id s : Z) : ToyM unit :=
  w ← reads id;
  expect (bool_decide (Registry.p_room_id <$> PM_GetPlayer (w_pm w) player_id = Some 0) && (RoomId (w_sessions w) s =? 0)).
Definition passes (test : ToyM unit) (ctx : ServiceContext) : bool :=
  match (test (upd_ctx (fun _ => ctx) no_services)).1 with Ok _ => true | Throw _ => false end.

Definition PlayerStatusSyncsOnStartAndRemove : bool := passes (
  add_session 1 11 ;; add_session 2 12 ;; online 11 1 ;; online 12 2 ;;
  room ← CreateRoom [11; 12];
  put_in_room 11 room ;; put_in_room 12 room ;;
  let packet := ProtoHelper_Build MSG_READY_REQ (ReadyRequest true) 0 in
  Dispatch (Room_RegisterHandlers ∅) (Some 1) packet ;;
  expect_player 11 InRoom ;; expect_player 12 InRoom ;;
  Dispatch (Room_RegisterHandlers ∅) (Some 2) packet ;;
  expect_player 11 Playing ;; expect_player 12 Playing ;;
  r ← room_at room;
  RemoveRoom (r_room_id r) ;;
  expect_player 11 Online ;; expect_left 11 1 ;; expect_player 12 Online ;; expect_left 12 2) (lobby_context false).

Definition LeaveWaitingRequeuesRemainingPlayers : bool := passes (
  add_session 101 21 ;; add_session 102 22 ;; online 21 101 ;; online 22 102 ;;
  room ← CreateRoom [21; 22];
  put_in_room 21 room ;; put_in_room 22 room ;;
  r ← room_at room;
  Dispatch (Room_RegisterHandlers ∅) (Some 101) (ProtoHelper_Build MSG_LEAVE_ROOM_REQ (LeaveRoomRequest (r_room_id r)) 0) ;;
  room1 ← GetPlayerRoom 21; expect (bool_decide (room1 = None)) ;;
  room2 ← GetPlayerRoom 22; expect (bool_decide (room2 = None)) ;;
  expect_player 21 Online ;; expect_left 21 101 ;; expect_player 22 Matching ;; expect_left 22 102) (lobby_context true).

(** ** test_settlement.cpp and test_rank_service.cpp *)

(** A test works on a client of each storage. *)
Record Storage := mkStorage { st_mysql : MysqlClient ToySrv; st_redis : RedisClient ToyRds }.
Definition T (A : Type) : Type := Storage -> result A * Storage.
#[local] Instance T_ret : MRet T := fun A a s => (Ok a, s).
#[local] Instance T_bind : MBind T :=
  fun A B f m s => match m s with (Ok a, s) => f a s | (Throw e, s) => (Throw e, s) end.

Definition on_mysql {A} (f : MysqlClient ToySrv -> A * MysqlClient ToySrv) : T A :=
  fun s => let '(a, c) := f (st_mysql s) in (Ok a, mkStorage c (st_redis s)).
Definition try_mysql {A} (f : MysqlClient ToySrv -> result A * MysqlClient ToySrv) : T A :=
  fun s => let '(a, c) := f (st_mysql s) in (a, mkStorage c (st_redis s)).
Definition on_redis {A} (f : RedisClient ToyRds -> A * RedisClient ToyRds) : T A :=
  fun s => let '(a, c) := f (st_redis s) in (Ok a, mkStorage (st_mysql s) c).
Definition test (b : bool) : T unit := fun s => (if b then Ok tt else Throw (runtime_error "expectation failed"), s).

(** The ids of [UniqueId]. *)
Definition room_id : Z := 5001.
Definition winner_id : Z := 5002.
Definition loser_id : Z := 5003.

Definition AddPlayer (id : Z) : T unit :=
  ok ← on_mysql (fun c => CreatePlayer cfg0 true c (mkPlayerData id "settlement_test" 1000 0 0)); test ok.
Definition AddBattle : T Z := on_mysql (fun c => CreateBattle cfg0 true c room_id).

(** The fixture: two players and a battle. *)
Definition SetUp : T Z :=
  connected ← on_mysql (Mysql.Connect cfg0); test connected ;;
  AddPlayer winner_id ;; AddPlayer loser_id ;;
  battle_id ← AddBattle; test (0 <? battle_id) ;; mret battle_id.
Definition settlement_test (body : Z -> T unit) : bool :=
  match ((battle_id ← SetUp; body battle_id)
           (mkStorage (mkMysqlClient false false (mkToy (mkTables ∅ ∅ ∅ ∅) None [] [] 0 0)) redis0)).1 with
  | Ok _ => true
  | Throw _ => false
  end.

Definition tables_of (s : Storage) : Tables := toy_db (srv (st_mysql s)).
Definition tables : T Tables := fun s => (Ok (tables_of s), s).
(** Another program changes the tables, or the connection is cut. *)
Definition on_server (f : ToySrv -> ToySrv) : T unit := on_mysql (fun c => (tt, mkMysqlClient (conn_up c) (in_transaction_ c) (f (srv c)))).

(** [Count]: the rows of a battle. *)
Definition count_results (battle_id : Z) : T nat :=
  t ← tables; mret (length (List.filter (fun x => x.1.1 =? battle_id) (map_to_list (results t)))).
Definition count_logs (battle_id : Z) : T nat :=
  t ← tables; mret (length (List.filter (fun x => x.1.1 =? battle_id) (map_to_list (logs t)))).
Definition expect_counts (battle_id : Z) (rs ls : nat) : T unit :=
  n ← count_results battle_id; m ← count_logs battle_id; test ((n =? rs)%nat && (m =? ls)%nat).

Definition ExpectPlayer (id score wins losses : Z) : T unit :=
  found ← try_mysql (fun c => FindPlayer cfg0 true c id);
  match found with
  | Some data => test ((pd_score data =? score) && (pd_win_count data =? wins) && (pd_lose_count data =? losses))
  | None => test false
  end.
Definition ExpectRankScore (id score : Z) : T unit :=
  items ← on_redis (fun c => GetTopN rcfg0 true c 0 100000);
  match List.filter (fun item => re_player_id item =? id) items with
  | item :: _ => test (re_score item =? score)
  | [] => test false
  end.

(** [SettleBattle] of a service with no ranking, with one without Redis, and with one. *)
Definition settles (ss : SettlementService) (battle_id room winner : Z) (losers : list Z) : T bool :=
  fun s => let '(r, m, c) := SettleBattle cfg0 rcfg0 ss (st_mysql s) (st_redis s) battle_id room winner losers in
           (r, mkStorage m c).
Definition service : SettlementService := mkSettlementService true true false true false.
Definition unavailable : SettlementService := mkSettlementService true true true true false.
Definition recovered : SettlementService := mkSettlementService true true true true true.
Definition ASSERT_TRUE (m : T bool) : T unit := b ← m; test b.
Definition ASSERT_FALSE (m : T bool) : T unit := b ← m; test (negb b).

Definition LogAndPlayerResultAreUniqueByBattlePlayer : bool := settlement_test (fun battle_id =>
  let log := mkLog 0 battle_id winner_id 20 in
  ASSERT_TRUE (on_mysql (fun c => InsertSettlementLog cfg0 true c log)) ;;
  ASSERT_FALSE (on_mysql (fun c => InsertSettlementLog cfg0 true c log)) ;;
  let result := mkResult battle_id winner_id "WIN" 20 in
  ASSERT_TRUE (on_mysql (fun c => InsertBattlePlayerResult cfg0 true c result)) ;;
  ASSERT_FALSE (on_mysql (fun c => InsertBattlePlayerResult cfg0 true c result)) ;;
  expect_counts battle_id 1 1).

Definition RepeatedSettlementUpdatesScoresAndStatsOnce : bool := settlement_test (fun battle_id =>
  AddPlayer 5004 ;;
  ASSERT_TRUE (settles service battle_id room_id winner_id [loser_id; 5004]) ;;
  let again := ASSERT_TRUE (settles service battle_id room_id winner_id [5004; loser_id; loser_id]) in
  again ;; again ;; again ;;
  ExpectPlayer winner_id 1020 1 0 ;; ExpectPlayer loser_id 990 0 1 ;; ExpectPlayer 5004 990 0 1 ;;
  t ← tables; test (bool_decide (is_Some (battles t !! battle_id))) ;; expect_counts battle_id 3 3).

Definition set_score (id score : Z) (s : ToySrv) : ToySrv :=
  toy_write s (mkTables (alter (fun row => mkPlayerRow (p_name row) score (p_win row) (p_lose row)) id (players (toy_db s)))
                 (battles (toy_db s)) (results (toy_db s)) (logs (toy_db s))).
Definition FailureRollsBackAllPlayersAndRetrySucceeds : bool := settlement_test (fun battle_id =>
  on_server (set_score loser_id int32_min) ;;
  ASSERT_FALSE (settles service battle_id room_id winner_id [loser_id]) ;;
  ExpectPlayer winner_id 1000 0 0 ;; ExpectPlayer loser_id int32_min 0 0 ;; expect_counts battle_id 0 0 ;;
  t ← tables;
  test (bool_decide ((fun row => (bt_settled row, bt_winner row)) <$> battles t !! battle_id = Some (false, 0))) ;;
  on_server (set_score loser_id 1000) ;;
  ASSERT_TRUE (settles service battle_id room_id winner_id [loser_id]) ;;
  ASSERT_TRUE (settles service battle_id room_id winner_id [loser_id]) ;;
  ExpectPlayer winner_id 1020 1 0 ;; ExpectPlayer loser_id 990 0 1 ;; expect_counts battle_id 2 2).

Definition ConflictingReplayIsRejected : bool := settlement_test (fun battle_id =>
  ASSERT_TRUE (settles service battle_id room_id winner_id [loser_id]) ;;
  ASSERT_FALSE (settles service battle_id room_id loser_id [winner_id]) ;;
  ASSERT_FALSE (settles service battle_id (room_id + 1) winner_id [loser_id]) ;;
  ASSERT_FALSE (settles service battle_id room_id winner_id []) ;;
  ExpectPlayer winner_id 1020 1 0 ;; ExpectPlayer loser_id 990 0 1 ;; expect_counts battle_id 2 2).

Definition NewBattleInSameRoomUsesDifferentId : bool := settlement_test (fun battle_id =>
  ASSERT_TRUE (settles service battle_id room_id winner_id [loser_id]) ;;
  on_mysql (fun c => (tt, Disconnect c)) ;;
  ASSERT_TRUE (on_mysql (Mysql.Connect cfg0)) ;;
  next_battle ← AddBattle; test (battle_id <? next_battle) ;;
  ASSERT_TRUE (settles service next_battle room_id winner_id [loser_id]) ;;
  ExpectPlayer winner_id 1040 2 0 ;; ExpectPlayer loser_id 980 0 2).

Definition cut_connection (s : ToySrv) : ToySrv :=
  mkToy (toy_db s) (toy_tx s) [Fails] (toy_rows s) (toy_affected s) (toy_insert s).
Definition LostConnectionBeforeIdAllocationCanRetry : bool := settlement_test (fun _ =>
  on_server cut_connection ;;
  id ← AddBattle; test (id =? 0) ;;
  next_battle ← AddBattle; test (0 <? next_battle) ;;
  ASSERT_TRUE (settles service next_battle room_id winner_id [loser_id]) ;;
  ExpectPlayer winner_id 1020 1 0 ;; ExpectPlayer loser_id 990 0 1).

Definition TransactionExceptionRollsBackAndReleasesConnection : bool := settlement_test (fun battle_id =>
  (fun s =>
     let '(r, c) := RunTransaction cfg0 (st_mysql s) (fun c =>
        let '(ok, c) := UpdatePlayerScore cfg0 true c winner_id 20 in
        (Throw (runtime_error (if ok then "injected transaction failure" else "not updated")), c)) in
     (Ok (match r with Throw e => bool_decide (e = runtime_error "injected transaction failure") | Ok _ => false end),
      mkStorage c (st_redis s))) ≫= test ;;
  ExpectPlayer winner_id 1000 0 0 ;;
  ASSERT_TRUE (settles service battle_id room_id winner_id [loser_id]) ;;
  ExpectPlayer winner_id 1020 1 0).

Definition RankFailureCanRetryWithoutDoubleSettlement : bool := settlement_test (fun battle_id =>
  ASSERT_TRUE (on_redis (Redis_Connect rcfg0)) ;;
  ASSERT_FALSE (settles unavailable battle_id room_id winner_id [loser_id]) ;;
  ExpectPlayer winner_id 1020 1 0 ;; ExpectPlayer loser_id 990 0 1 ;;
  ASSERT_TRUE (settles recovered battle_id room_id winner_id [loser_id]) ;;
  ExpectRankScore winner_id 1020 ;; ExpectRankScore loser_id 990 ;;
  ExpectPlayer winner_id 1020 1 0 ;; m ← count_logs battle_id; test (m =? 2)%nat).

Definition OldReplayRefreshesRankFromLatestDatabaseScore : bool := settlement_test (fun battle_id =>
  ASSERT_TRUE (on_redis (Redis_Connect rcfg0)) ;;
  ASSERT_TRUE (settles service battle_id room_id winner_id [loser_id]) ;;
  next_battle ← AddBattle; test (0 <? next_battle) ;;
  ASSERT_TRUE (settles service next_battle room_id loser_id [winner_id]) ;;
  ASSERT_TRUE (settles recovered battle_id room_id winner_id [loser_id]) ;;
  ExpectRankScore winner_id 1010 ;; ExpectRankScore loser_id 1010 ;;
  ExpectPlayer winner_id 1010 1 1 ;; ExpectPlayer loser_id 1010 1 1).

Definition GetTopNByScoreDesc : bool :=
  let '(p1, p2, p3) := (900000000001, 900000000002, 900000000003) in
  let c := (UpdateScore rcfg0 true redis0 p1 1999999998).2 in
  let c := (UpdateScore rcfg0 true c p2 2000000000).2 in
  let c := (UpdateScore rcfg0 true c p3 1999999999).2 in
  bool_decide ((fun item => (re_player_id item, re_score item, re_rank item)) <$> (GetTopN rcfg0 true c 0 3).1
               = [(p2, 2000000000, 1); (p3, 1999999999, 2); (p1, 1999999998, 3)]).

Definition test_suite : list bool :=
  [ PreventDuplicatePush; RemoveAndPopN; EncodeDecodeOnePacket; HalfPacketWaitsForMoreData; AllReadyStartsGame;
    PlayerStatusSyncsOnStartAndRemove; LeaveWaitingRequeuesRemainingPlayers; SettlementCannotBeRestartedByReadyRequests;
    LogAndPlayerResultAreUniqueByBattlePlayer; RepeatedSettlementUpdatesScoresAndStatsOnce;
    FailureRollsBackAllPlayersAndRetrySucceeds; ConflictingReplayIsRejected; NewBattleInSameRoomUsesDifferentId;
    LostConnectionBeforeIdAllocationCanRetry; TransactionExceptionRollsBackAndReleasesConnection;
    RankFailureCanRetryWithoutDoubleSettlement; OldReplayRefreshesRankFromLatestDatabaseScore; GetTopNByScoreDesc ].

Lemma tests_pass : Forall (fun passed => passed = true) test_suite.
Proof. vm_compute. repeat constructor. Qed.
