(* ===== verification/ServerWitness.v ===== *)
(** * ServerWitness: the theorems on the server at a concrete run

    Two players connect, log in, match, get ready and play; one gives up, the
    loop settles the battle.  The server runs on [ToyMysql], a one-set Redis and
    [ToyProto]. *)
From S2P Require Import Prelude Wire Net StdString Messages GameRoom MatchQueue Config Registry Room Mysql Repositories SqlModel ToyMysql BattleStore Ledger Redis Settlement Healthy Store Timer World Reason Lobby Login GameServer Steps LoginInv QueueInv LobbyInv Server Liveness Heartbeats ServerMain ToyProto StoreWitness.
Local Open Scope string_scope.
Local Open Scope Z_scope.

Definition toy_tables : Tables := mkTables ∅ ∅ ∅ ∅.
Definition toy_srv : ToySrv := mkToy toy_tables None [] [] 0 0.
Definition toy_rds : ToyRds := mkToyRds ∅ true.
Notation ToyWorld := (World ToySrv ToyRds).

Definition world0 : ToyWorld :=
  (Server_Start true (Init (new_world default_config toy_srv toy_rds)).2).2.

(** A request on a connection. *)
Definition req (conn id : Z) (m : Message) : Event := ERead conn (frame (ProtoHelper_Build id m 0)).

Definition lobby_events : list Event :=
  [ EClock 1000 10; EAccept true; EAccept true;
    req 1 MSG_LOGIN_REQ (LoginRequest "ann" ""); req 2 MSG_LOGIN_REQ (LoginRequest "bob" "");
    req 1 MSG_MATCH_REQ (MatchRequest 0); req 2 MSG_MATCH_REQ (MatchRequest 0) ].
Definition battle_events : list Event :=
  [ req 1 MSG_READY_REQ (ReadyRequest true); req 2 MSG_READY_REQ (ReadyRequest true); ELoop ].
Definition end_events : list Event :=
  [ req 2 MSG_LEAVE_ROOM_REQ (LeaveRoomRequest 0); EClock 2000 2000; ELoop ].

Definition after (es : list Event) : ToyWorld := default world0 (steps world0 es).

Lemma pair_eta {A B} (x : A * B) a : x.1 = a -> x = (a, x.2).
Proof. by destruct x; cbn; intros ->. Qed.

Lemma world0_started : started default_config toy_srv toy_rds world0.
Proof.
  exists (Init (new_world default_config toy_srv toy_rds)).2. split.
  - apply pair_eta. vm_compute. reflexivity.
  - apply pair_eta. vm_compute. reflexivity.
Qed.

Lemma after_reachable es :
  is_Some (steps world0 es) -> reachable default_config toy_srv toy_rds (after es).
Proof.
  intros [w Hw]. exists world0, es. split; [apply world0_started|]. unfold after. by rewrite Hw.
Qed.

Definition runs (es : list Event) : bool := bool_decide (is_Some (steps world0 es)).
Lemma runs_reachable es : runs es = true -> reachable default_config toy_srv toy_rds (after es).
Proof. intros H%bool_decide_eq_true. by apply after_reachable. Qed.

Lemma toy_ledger : ledger (committed toy_srv).
Proof.
  split_and!; [split|split_and!|split]; cbn; try (intros; by rewrite ?lookup_empty in *).
  intros k d. rewrite !lookup_empty. naive_solver.
Qed.

(** ** The witnesses *)
Definition lobby_world : ToyWorld := after lobby_events.
Definition battle_world : ToyWorld := after (lobby_events ++ battle_events).
Definition end_world : ToyWorld := after (lobby_events ++ battle_events ++ end_events).

Lemma lobby_reachable : reachable default_config toy_srv toy_rds lobby_world.
Proof. apply runs_reachable. vm_compute. reflexivity. Qed.
Lemma battle_reachable : reachable default_config toy_srv toy_rds battle_world.
Proof. apply runs_reachable. vm_compute. reflexivity. Qed.
Lemma end_reachable : reachable default_config toy_srv toy_rds end_world.
Proof. apply runs_reachable. vm_compute. reflexivity. Qed.

Definition sane_b (w : ToyWorld) : bool :=
  (2 <=? need_count default_config) && (next_room_id (w_ids w) <=? 2 ^ 63).
Lemma sane_b_sane w : sane_b w = true -> sane default_config w.
Proof. unfold sane_b, sane. intros H. bools. done. Qed.

Lemma sessions_authenticated_witness :
  exists session, w_sessions lobby_world !! 2 = Some session /\ player_id_ session = 100001
  /\ exists account token, w_account_players lobby_world !! account = Some 100001
       /\ w_session_tokens lobby_world !! 100001 = Some token.
Proof.
  destruct (sessions_authenticated default_config toy_srv toy_rds lobby_world lobby_reachable) as (_ & H & _).
  exists (mkSession 2 100001 1000 (Some 2) 1000).
  assert (Hs : w_sessions lobby_world !! 2 = Some (mkSession 2 100001 1000 (Some 2) 1000)) by (vm_compute; reflexivity).
  split; [exact Hs|]. split; [reflexivity|]. apply (H 2 _ Hs). discriminate.
Defined.

Lemma nobody_waits_for_nothing_witness :
  Z.of_nat (length (queue_ (w_queue lobby_world))) < need_count default_config.
Proof.
  apply (nobody_waits_for_nothing default_config toy_srv toy_rds lobby_world lobby_reachable). by vm_compute.
Defined.

Lemma rooms_consistent_witness :
  w_player_room_map lobby_world !! 100001 = Some 1000
  /\ exists r, w_room_heap lobby_world !! 1000 = Some r /\ 100001 ∈ Room_PlayerIds r
       /\ length (Room_PlayerIds r) = 2%nat.
Proof.
  assert (Hp : w_player_room_map lobby_world !! 100001 = Some 1000) by (vm_compute; reflexivity).
  split; [exact Hp|].
  destruct (rooms_consistent default_config toy_srv toy_rds lobby_world) as [H1 H2];
    [apply sane_b_sane; vm_compute; reflexivity|exact lobby_reachable|].
  destruct (H1 _ _ Hp) as (Hi & r & Hr & Hin). exists r. split; [exact Hr|]. split; [exact Hin|].
  destruct (H2 _ _ Hi) as (_ & r' & Hr' & _ & Hlen & _). rewrite Hr in Hr'. injection Hr' as <-.
  change (need_count default_config) with 2 in Hlen. lia.
Defined.

Lemma running_battles_witness :
  exists gr r, w_games battle_world !! 0 = Some gr /\ w_room_heap battle_world !! 1000 = Some r
    /\ (forall p, is_Some (GameRoom.players gr !! p) <-> p ∈ Room_PlayerIds r)
    /\ two_alive (GameRoom.players gr).
Proof.
  assert (Hg : w_loop_rooms battle_world !! 1000 = Some 0) by (vm_compute; reflexivity).
  destruct (running_battles default_config toy_srv toy_rds battle_world 1000 0) as (_ & gr & r & Hgr & Hr & _ & Hm & Hrun & _);
    [apply sane_b_sane; vm_compute; reflexivity|exact battle_reachable|exact Hg|].
  exists gr, r. split; [exact Hgr|]. split; [exact Hr|]. split; [exact Hm|]. apply Hrun.
  assert (Hf : (gr_game_over <$> w_games battle_world !! 0) = Some false) by (vm_compute; reflexivity).
  rewrite Hgr in Hf. by injection Hf.
Defined.

(** The room has gone, so its battle is on record. *)
Lemma no_battle_lost_witness :
  exists r, w_room_heap end_world !! 1000 = Some r
  /\ battle_recorded (committed (srv (w_mysql end_world))) 1000 (Room_PlayerIds r).
Proof.
  destruct (w_room_heap end_world !! 1000) as [r|] eqn:Hr;
    [|exfalso; revert Hr; vm_compute; discriminate].
  exists r. split; [reflexivity|].
  assert (Hgone : w_rooms end_world !! 1000 = None) by (vm_compute; reflexivity).
  destruct (no_battle_lost (ML := ToyLaws) default_config toy_srv toy_rds end_world 1000 r) as [Hl|Hrec];
    [apply sane_b_sane; vm_compute; reflexivity|exact toy_ledger|exact end_reachable|exact Hr| | |exact Hrec].
  - assert (Hs : (r_state <$> w_room_heap end_world !! 1000) = Some RoomState.Closed) by (vm_compute; reflexivity).
    rewrite Hr in Hs. injection Hs as ->. discriminate.
  - rewrite Hgone in Hl. discriminate Hl.
Defined.

(** The loser has given up; the loop has not been round since. *)
Definition over_world : ToyWorld :=
  after (lobby_events ++ battle_events ++ [req 2 MSG_LEAVE_ROOM_REQ (LeaveRoomRequest 0); EClock 2000 2000]).
Lemma over_reachable : reachable default_config toy_srv toy_rds over_world.
Proof. apply runs_reachable. vm_compute. reflexivity. Qed.

Lemma over_due : due over_world 1000.
Proof.
  assert (Hp : default PendingSettlement_default (w_pending over_world !! 1000) = PendingSettlement_default)
    by (vm_compute; reflexivity).
  assert (Hnone : battles (tables over_world) = ∅) by (vm_compute; reflexivity).
  assert (Hnow : w_steady over_world = 2000) by (vm_compute; reflexivity).
  unfold due. rewrite Hp, Hnone, Hnow. split; [cbn; lia|]. left. split; [reflexivity|].
  intros b [row Hb]. rewrite lookup_empty in Hb. discriminate Hb.
Qed.

Lemma over_columns p : p ∈ [100001; 100000] -> 0 < p /\ columns_room (tables over_world) p.
Proof.
  assert (Hrows : forallb (fun p => bool_decide (SqlModel.players (tables over_world) !! p
                    = Some (mkPlayerRow ("player_" +:+ to_string p) 1000 0 0))) [100001; 100000] = true)
    by (vm_compute; reflexivity).
  intros Hp. rewrite forallb_forall in Hrows.
  assert (Hrow := Hrows p (proj1 (list_elem_of_In _ _) Hp)). apply bool_decide_eq_true in Hrow.
  split; [clear -Hp; rewrite !elem_of_cons, elem_of_nil in Hp; lia|]. intros row d Hd. rewrite Hrow in Hd. injection Hd as <-.
  intros [-> | ->]; reflexivity.
Qed.

Definition over_game : GameRoom := default (GameRoom_new 0) (w_games over_world !! 0).
Definition over_room : Room := default (Room_new 0) (w_room_heap over_world !! 1000).

Lemma over_game_at : w_games over_world !! 0 = Some over_game /\ gr_game_over over_game = true.
Proof.
  assert (H : bool_decide (is_Some (w_games over_world !! 0)) = true) by (vm_compute; reflexivity).
  split; [|vm_compute; reflexivity]. apply bool_decide_eq_true in H as [gr H]. unfold over_game. by rewrite H.
Qed.
Lemma over_room_at :
  w_room_heap over_world !! 1000 = Some over_room /\ Room_PlayerIds over_room = [100001; 100000].
Proof.
  assert (H : bool_decide (is_Some (w_room_heap over_world !! 1000)) = true) by (vm_compute; reflexivity).
  split; [|vm_compute; reflexivity]. apply bool_decide_eq_true in H as [r H]. unfold over_room. by rewrite H.
Qed.
Lemma over_loop : w_loop_rooms over_world !! 1000 = Some 0.
Proof. vm_compute. reflexivity. Qed.
Lemma over_healthy : healthy (srv (w_mysql over_world)) /\ redis_healthy (rds (w_redis over_world)).
Proof. split; vm_compute; reflexivity. Qed.
Lemma over_sane : sane default_config over_world.
Proof. apply sane_b_sane. vm_compute. reflexivity. Qed.

Lemma battle_gets_settled_witness :
  exists w', Loop_room 0 over_world = (Ok tt, w')
  /\ battle_recorded (tables w') 1000 (Room_PlayerIds over_room).
Proof.
  destruct over_game_at as [Hg Ho], over_room_at as [Hr Hids], over_healthy as [Hm Hre].
  destruct (battle_gets_settled (ML := ToyLaws) (RL := ToyRedisLaws) default_config toy_srv toy_rds over_world 1000 0
    over_game over_room over_sane toy_ledger over_reachable over_loop Hg Ho Hr Hm Hre over_due)
    as (w' & Hrun & _ & _ & _ & Hrec & _).
  { rewrite Hids. exact over_columns. }
  exists w'. split; assumption.
Defined.

Lemma server_keeps_the_books_witness :
  exists row, SqlModel.players (committed (srv (w_mysql end_world))) !! 100000 = Some row
  /\ p_score row = 1000 + 20 * p_win row - 10 * p_lose row.
Proof.
  destruct (server_keeps_the_books (ML := ToyLaws) default_config toy_srv toy_rds end_world) as [_ H];
    [apply sane_b_sane; vm_compute; reflexivity|exact toy_ledger|exact end_reachable|].
  exists (mkPlayerRow "player_100000" 1020 1 0).
  assert (Hp : SqlModel.players (committed (srv (w_mysql end_world))) !! 100000
    = Some (mkPlayerRow "player_100000" 1020 1 0)) by (vm_compute; reflexivity).
  split; [exact Hp|]. apply (H _ _ Hp).
Defined.

(** Two clients connect; half a minute later the first sends a heartbeat, and nine
    seconds after that only the second is closed. *)
Definition silent_events : list Event :=
  [ EClock 1000 10; EAccept true; EAccept true; EClock 35000 34000; req 1 MSG_HEARTBEAT_REQ (HeartbeatRequest 0) ].
Definition silent_world : ToyWorld := after silent_events.
Lemma silent_reachable : reachable default_config toy_srv toy_rds silent_world.
Proof. apply runs_reachable. vm_compute. reflexivity. Qed.

Lemma silent_clients_closed_witness :
  exists w c1 c2, steps silent_world [EClock 44000 39000; ETimers] = Some w
    /\ w_conns silent_world !! 1 = Some c1 /\ w_conns silent_world !! 2 = Some c2
    /\ w_conns w !! 1 = Some c1 /\ w_conns w !! 2 = Some (TcpConnection_Close c2).
Proof.
  destruct (w_conns silent_world !! 1) as [c1|] eqn:H1; [|exfalso; revert H1; vm_compute; discriminate].
  destruct (w_conns silent_world !! 2) as [c2|] eqn:H2; [|exfalso; revert H2; vm_compute; discriminate].
  assert (Hh1 : may_speak <$> w_conns silent_world !! 1 = Some true) by (vm_compute; reflexivity).
  assert (Hh2 : may_speak <$> w_conns silent_world !! 2 = Some true) by (vm_compute; reflexivity).
  rewrite H1 in Hh1. rewrite H2 in Hh2. apply (inj Some) in Hh1, Hh2.
  assert (Hs : w_steady silent_world + 5000 <= 39000) by (vm_compute; discriminate).
  assert (Hs1 : silent 44000 silent_world 1 = false) by (vm_compute; reflexivity).
  assert (Hs2 : silent 44000 silent_world 2 = true) by (vm_compute; reflexivity).
  destruct (silent_clients_closed default_config toy_srv toy_rds silent_world 44000 39000 silent_reachable Hs)
    as (conns & Hstep & Hclose & _).
  eexists _, c1, c2. split; [exact Hstep|]. split_and!; [done|done|..].
  - refine (eq_trans (Hclose 1 c1 H1 Hh1) _). by rewrite Hs1.
  - refine (eq_trans (Hclose 2 c2 H2 Hh2) _). by rewrite Hs2.
Defined.

(** The program on a file that spells out the defaults, with the lobby's events. *)
Lemma main_serves_reachable_witness :
  reachable default_config toy_srv toy_rds lobby_world.
Proof.
  assert (Hl : Load (Some (render_config default_config)) default_config = (Ok true, default_config))
    by (vm_compute; reflexivity).
  destruct (main_serves_reachable (Some (render_config default_config)) toy_srv toy_rds (mkListen true true true true)
    lobby_events lobby_world) as (config & [[Hf _]|Hc] & _ & Hr); [vm_compute; reflexivity|discriminate Hf|].
  rewrite Hl in Hc. injection Hc as <-. exact Hr.
Defined.
