(* ===== verification/Races.v ===== *)
(** * Races: schedules of the server, run to the end

    Concrete schedules on [ToyMysql] and [ToyProto].  The first part applies the
    theorems of [Interleaved] and [Conform] to schedules in which handlers really overlap.  The
    second part has the schedules in which something goes wrong that cannot when
    handlers run one after the other: it shows that [Server.no_battle_lost],
    [LoginInv.sessions_authenticated] (an account keeps its player) and the
    single winner handed to the callback do not carry over to all schedules. *)
From S2P Require Import Prelude Wire Net StdString Messages GameRoom MatchQueue Config Registry Room Mysql Repositories SqlModel ToyMysql BattleStore Ledger Redis Settlement Store Timer World Reason Lobby Login GameServer Threads Alone Conform Interleave InterleaveHandlers Server Interleaved ToyProto StoreWitness ServerWitness.
Local Open Scope string_scope.
Local Open Scope list_scope.
Local Open Scope Z_scope.

Notation ToyProcess := (Process ToySrv ToyRds).

(** [n] sections of the thread, each open choice falling on the first. *)
Definition go (t : Thread) (n : nat) : list Action := replicate n (Go t 0).
(** An event whose handler runs without others; no handler here has more sections. *)
Definition solo (e : Event) : list Action :=
  Begin e :: match thread_of e with Some t => go t 200 | None => [] end.

Definition process_after (acts : list Action) : ToyProcess :=
  default (mkProcess world0 ∅) (csteps (mkProcess world0 ∅) acts).
Definition runs_acts (acts : list Action) : bool :=
  match csteps (mkProcess world0 ∅) acts with Some _ => true | None => false end.

Lemma process_reachable acts :
  runs_acts acts = true -> creachable default_config toy_srv toy_rds (process_after acts).
Proof.
  unfold runs_acts, process_after. intros H. exists world0, acts. split; [apply world0_started|].
  by destruct (csteps _ _).
Qed.

(** One schedule after another. *)
Lemma process_goes_on acts1 acts2 :
  runs_acts (acts1 ++ acts2) = true -> csteps (process_after acts1) acts2 = Some (process_after (acts1 ++ acts2)).
Proof.
  unfold runs_acts, process_after. rewrite csteps_app. destruct (csteps _ acts1) as [p|]; [|done]. cbn.
  by destruct (csteps p acts2).
Qed.

Definition quiescent_b (p : ToyProcess) : bool := (size (c_threads p) =? 0)%nat.
Lemma quiescent_b_quiescent p : quiescent_b p = true -> quiescent p.
Proof. intros H%Nat.eqb_eq. by apply map_size_empty_iff. Qed.

Definition threads_sane_b (p : ToyProcess) : bool :=
  (2 <=? need_count default_config) && (next_room_id (w_ids (c_world p)) <=? 2 ^ 63)
  && (next_player_id (w_ids (c_world p)) <=? 2 ^ 63).
Lemma threads_sane_b_sane p : threads_sane_b p = true -> threads_sane default_config p.
Proof. unfold threads_sane_b, threads_sane, fresh_ids. intros H. bools. done. Qed.

(** Two handlers, section by section in turn. *)
Definition overlap (e1 e2 : Event) : list Action :=
  match thread_of e1, thread_of e2 with
  | Some t1, Some t2 => Begin e1 :: Begin e2 :: mjoin (replicate 200 [Go t1 0; Go t2 0])
  | _, _ => []
  end.

Definition login (conn : Z) (account : string) : Event := req conn MSG_LOGIN_REQ (LoginRequest account "").
Definition match_ (conn : Z) : Event := req conn MSG_MATCH_REQ (MatchRequest 0).
Definition ready (conn : Z) : Event := req conn MSG_READY_REQ (ReadyRequest true).
Definition leave (conn : Z) : Event := req conn MSG_LEAVE_ROOM_REQ (LeaveRoomRequest 0).

(** ** Handlers that overlap *)
Definition joined : list Action := mbind solo [EClock 1000 10; EAccept true; EAccept true].
Definition overlapping : list Action :=
  joined ++ overlap (login 1 "ann") (login 2 "bob") ++ overlap (match_ 1) (match_ 2) ++ overlap (ready 1) (ready 2).
Definition settling : list Action :=
  overlapping ++ solo (EClock 2000 2000) ++ overlap (leave 2) ELoop ++ solo (EClock 4000 4000) ++ solo ELoop.

Lemma lobby_runs : runs lobby_events = true.
Proof. vm_compute. reflexivity. Qed.

Definition middle_process : ToyProcess := process_after (overlapping ++ Begin (leave 2) :: go (TConn 2) 3).
Definition overlap_process : ToyProcess := process_after overlapping.
Definition settled_process : ToyProcess := process_after settling.

Lemma middle_reachable : creachable default_config toy_srv toy_rds middle_process.
Proof. apply process_reachable. vm_compute. reflexivity. Qed.
Lemma overlap_reachable : creachable default_config toy_srv toy_rds overlap_process.
Proof. apply process_reachable. vm_compute. reflexivity. Qed.
Lemma settled_reachable : creachable default_config toy_srv toy_rds settled_process.
Proof. apply process_reachable. vm_compute. reflexivity. Qed.

(** In the middle of a leave. *)
Lemma interleaved_battles_witness :
  (~ quiescent middle_process)
  /\ exists gr r, w_games (c_world middle_process) !! 0 = Some gr /\ w_room_heap (c_world middle_process) !! 1000 = Some r
    /\ (forall k, is_Some (GameRoom.players gr !! k) <-> k ∈ Room_PlayerIds r)
    /\ two_alive (GameRoom.players gr).
Proof.
  split.
  { intros H. assert (Hs : size (c_threads middle_process) = 1%nat) by (vm_compute; reflexivity).
    rewrite H in Hs. discriminate Hs. }
  assert (Hg : w_loop_rooms (c_world middle_process) !! 1000 = Some 0) by (vm_compute; reflexivity).
  destruct (interleaved_battles default_config toy_srv toy_rds middle_process 1000 0)
    as (gr & r & Hgr & _ & Hr & _ & _ & Hm & Hrun & _);
    [apply threads_sane_b_sane; vm_compute; reflexivity|exact middle_reachable|exact Hg|].
  exists gr, r. split; [exact Hgr|]. split; [exact Hr|]. split; [exact Hm|]. apply Hrun.
  assert (Hf : (gr_game_over <$> w_games (c_world middle_process) !! 0) = Some false) by (vm_compute; reflexivity).
  rewrite Hgr in Hf. by injection Hf.
Defined.

(** Both members were getting ready at once. *)
Lemma interleaved_start_once_witness :
  exists g gr, w_games (c_world overlap_process) !! g = Some gr /\ gr_room_id gr = 1000.
Proof.
  destruct (interleaved_start_once default_config toy_srv toy_rds overlap_process) as [_ H];
    [apply threads_sane_b_sane; vm_compute; reflexivity|exact overlap_reachable|].
  destruct (w_room_heap (c_world overlap_process) !! 1000) as [r|] eqn:Hr;
    [|exfalso; revert Hr; vm_compute; discriminate].
  apply (H ltac:(apply quiescent_b_quiescent; vm_compute; reflexivity) 1000 r Hr).
  assert (Hs : (r_state <$> w_room_heap (c_world overlap_process) !! 1000) = Some RoomState.Playing) by (vm_compute; reflexivity).
  rewrite Hr in Hs. injection Hs as ->. by left.
Defined.

(** Both were being matched at once. *)
Lemma interleaved_queue_witness :
  Z.of_nat (length (queue_ (w_queue (c_world overlap_process)))) < need_count default_config.
Proof.
  destruct (interleaved_queue default_config toy_srv toy_rds overlap_process) as (_ & _ & H);
    [apply threads_sane_b_sane; vm_compute; reflexivity|exact overlap_reachable|].
  apply H, quiescent_b_quiescent. vm_compute. reflexivity.
Defined.

(** Both were logging in at once. *)
Lemma interleaved_accounts_witness :
  exists token, w_session_tokens (c_world overlap_process) !! 100001 = Some token.
Proof.
  destruct (interleaved_accounts default_config toy_srv toy_rds overlap_process) as [_ H];
    [apply threads_sane_b_sane; vm_compute; reflexivity|exact overlap_reachable|].
  destruct (w_sessions (c_world overlap_process) !! 2) as [ss|] eqn:Hs;
    [|exfalso; revert Hs; vm_compute; discriminate].
  assert (Hp : (player_id_ <$> w_sessions (c_world overlap_process) !! 2) = Some 100001) by (vm_compute; reflexivity).
  rewrite Hs in Hp. injection Hp as Hp.
  destruct (H 2 ss Hs ltac:(rewrite Hp; discriminate)) as [_ [token Ht]]. exists token. by rewrite Hp in Ht.
Defined.

Lemma interleaved_books_witness :
  exists row, SqlModel.players (committed (srv (w_mysql (c_world settled_process)))) !! 100000 = Some row
    /\ p_score row = 1000 + 20 * p_win row - 10 * p_lose row /\ p_win row = 1.
Proof.
  destruct (SqlModel.players (committed (srv (w_mysql (c_world settled_process)))) !! 100000) as [row|] eqn:Hrow;
    [|exfalso; revert Hrow; vm_compute; discriminate].
  destruct (interleaved_books (ML := ToyLaws) default_config toy_srv toy_rds settled_process) as [_ H];
    [apply threads_sane_b_sane; vm_compute; reflexivity|exact toy_ledger|exact settled_reachable|].
  destruct (H _ _ Hrow) as [Hscore _]. exists row. split; [reflexivity|]. split; [exact Hscore|].
  assert (Hw : (p_win <$> SqlModel.players (committed (srv (w_mysql (c_world settled_process)))) !! 100000) = Some 1)
    by (vm_compute; reflexivity).
  rewrite Hrow in Hw. by injection Hw.
Defined.

(** The room is closed; a second one is made and started. *)
Definition rematch : list Action := overlap (match_ 1) (match_ 2) ++ overlap (ready 1) (ready 2).
Lemma interleaved_closed_rooms_witness :
  exists r, w_room_heap (c_world settled_process) !! 1000 = Some r
    /\ battle_recorded (committed (srv (w_mysql (c_world (process_after (settling ++ rematch)))))) 1000 (Room_PlayerIds r).
Proof.
  destruct (w_room_heap (c_world settled_process) !! 1000) as [r|] eqn:Hr;
    [|exfalso; revert Hr; vm_compute; discriminate].
  exists r. split; [reflexivity|].
  destruct (interleaved_closed_rooms (ML := ToyLaws) default_config toy_srv toy_rds settled_process
              (process_after (settling ++ rematch)) rematch 1000 r) as (_ & r' & _ & _ & _ & H);
    [apply threads_sane_b_sane; vm_compute; reflexivity|exact toy_ledger|exact settled_reachable|exact Hr| | |exact H].
  - assert (Hs : (r_state <$> w_room_heap (c_world settled_process) !! 1000) = Some RoomState.Closed) by (vm_compute; reflexivity).
    rewrite Hr in Hs. by injection Hs.
  - apply (process_goes_on settling rematch). vm_compute. reflexivity.
Defined.

(** The first client has been answered: one packet is on the wire. *)
Definition answered : list Action := joined ++ mbind solo [login 1 "ann"; ERunPosted 1; EWritten 1].
Definition answered_process : ToyProcess := process_after answered.
Lemma answered_reachable : creachable default_config toy_srv toy_rds answered_process.
Proof. apply process_reachable. vm_compute. reflexivity. Qed.

Lemma server_speaks_the_protocol_witness :
  exists c p, w_conns (c_world answered_process) !! 1 = Some c /\ Decode (concat (tc_sent c)) = Some (Ok [p], [])
    /\ msg_id p = MSG_LOGIN_RESP /\ readable p.
Proof.
  destruct (w_conns (c_world answered_process) !! 1) as [c|] eqn:Hc;
    [|exfalso; revert Hc; vm_compute; discriminate].
  destruct (server_speaks_the_protocol default_config toy_srv toy_rds answered_process 1 c) as (ps & Hd & Hps);
    [exact answered_reachable|exact Hc|].
  assert (Hids : (fun c => match Decode (concat (tc_sent c)) with Some (Ok ps, _) => map msg_id ps | _ => [] end)
    <$> w_conns (c_world answered_process) !! 1 = Some [MSG_LOGIN_RESP]) by (vm_compute; reflexivity).
  rewrite Hc in Hids. cbn [fmap option_fmap option_map] in Hids. rewrite Hd in Hids.
  destruct ps as [|p [|q ps]]; try discriminate Hids. injection Hids as Hid.
  exists c, p. split; [reflexivity|]. split; [exact Hd|]. split; [exact Hid|]. by inversion Hps.
Defined.

(** ** What overlapping handlers can break *)

(** A room of two, the first of them ready. *)
Definition half_ready : list Action := mbind solo (lobby_events ++ [ready 1]).

(** The first leaves; when its handler has seen that the room waits, the second
    gets ready and the battle starts; then the leave goes on as from a waiting
    room. *)
Definition leave_overtaken : list Action :=
  half_ready ++ Begin (leave 1) :: go (TConn 1) 5 ++ solo (ready 2) ++ go (TConn 1) 200.

Lemma leave_overtaken_loses_the_battle :
  let w := c_world (process_after leave_overtaken) in
  runs_acts leave_overtaken = true /\ quiescent_b (process_after leave_overtaken) = true
  /\ (r_state <$> w_room_heap w !! 1000) = Some RoomState.Playing
  /\ w_rooms w !! 1000 = None /\ w_loop_rooms w !! 1000 = None /\ logs (committed (srv (w_mysql w))) = ∅.
Proof. vm_compute. done. Qed.

(** The same, with the leave done when the second handler has started the room
    and is about to put the battle on the loop: there it stays for ever, as
    [tick_callback] does not find its room. *)
Definition start_overtaken : list Action :=
  half_ready ++ Begin (leave 1) :: go (TConn 1) 5 ++ Begin (ready 2) :: go (TConn 2) 4
    ++ go (TConn 1) 200 ++ go (TConn 2) 200.

Lemma start_overtaken_leaves_a_battle :
  let w := c_world (process_after start_overtaken) in
  runs_acts start_overtaken = true /\ quiescent_b (process_after start_overtaken) = true
  /\ w_rooms w !! 1000 = None /\ w_loop_rooms w !! 1000 = Some 0
  /\ (gr_room_id <$> w_games w !! 0) = Some 1000.
Proof. vm_compute. done. Qed.

(** Two first logins of an account: both look it up before either puts it in. *)
Definition login_overtaken : list Action :=
  joined ++ Begin (login 1 "ann") :: go (TConn 1) 2 ++ solo (login 2 "ann") ++ go (TConn 1) 200.

Lemma login_overtaken_makes_two_players :
  let w := c_world (process_after login_overtaken) in
  runs_acts login_overtaken = true /\ quiescent_b (process_after login_overtaken) = true
  /\ map_to_list (w_account_players w) = [("ann", 100001)]
  /\ (player_id_ <$> w_sessions w !! 1) = Some 100001 /\ (player_id_ <$> w_sessions w !! 2) = Some 100000
  /\ is_Some (SqlModel.players (committed (srv (w_mysql w))) !! 100000)
  /\ is_Some (SqlModel.players (committed (srv (w_mysql w))) !! 100001).
Proof. vm_compute. split_and!; first [done | by eexists]. Qed.

(** A player gives up between the two getters of a battle whose values are handed
    to the callback: it is told of an end without a winner, and its settlement is
    refused; the next attempt is a second later. *)
Definition getters_overtaken : list Action :=
  mbind solo (lobby_events ++ [ready 1; ready 2; EClock 2000 2000])
    ++ Begin ELoop :: go TLoop 4 ++ Go TLoop 5 :: go TLoop 1 ++ solo (leave 2) ++ go TLoop 200.

Lemma getters_overtaken_settle_nothing :
  let w := c_world (process_after getters_overtaken) in
  runs_acts getters_overtaken = true /\ quiescent_b (process_after getters_overtaken) = true
  /\ (gr_game_over <$> w_games w !! 0) = Some true /\ (gr_winner_id <$> w_games w !! 0) = Some 100000
  /\ (r_state <$> w_room_heap w !! 1000) = Some RoomState.Settlement
  /\ w_pending w !! 1000 = Some (mkPending 1 3000) /\ logs (committed (srv (w_mysql w))) = ∅.
Proof. vm_compute. done. Qed.
