(* ===== verification/Answers.v ===== *)
(** * Answers: which packets are answered, and how often

    [response_of] pairs the requests of message_id.h with their responses;
    [dropped] are the requests the services return on without one.  The theorem is
    about the handlers of all services, on every branch, one at a time: a handler
    that returns has posted one response on the connection of the session, after
    what was posted before, or none when the request was dropped. *)
From S2P Require Import Prelude Wire Net StdString Messages GameRoom MatchQueue Config Registry Room Mysql Repositories SqlModel ToyMysql Redis Settlement Timer World Reason Lobby Login GameServer Threads Steps ToyProto StoreWitness ServerWitness.
Local Open Scope string_scope.
Local Open Scope list_scope.
Local Open Scope Z_scope.

Section answers.
Context {Srv Rds : Type} {MA : MysqlApi Srv} {RA : RedisApi Rds} {PB : Protobuf}.
Notation World := (World Srv Rds).
Notation M := (M Srv Rds).

(** The response of a request, by message id; READY and INPUT have none. *)
Definition response_of (id : Z) : option Z :=
  if id =? MSG_LOGIN_REQ then Some MSG_LOGIN_RESP
  else if id =? MSG_HEARTBEAT_REQ then Some MSG_HEARTBEAT_RESP
  else if id =? MSG_RECONNECT_REQ then Some MSG_RECONNECT_RESP
  else if id =? MSG_LEAVE_ROOM_REQ then Some MSG_LEAVE_ROOM_RESP
  else if id =? MSG_MATCH_REQ then Some MSG_MATCH_RESP
  else if id =? MSG_MATCH_CANCEL_REQ then Some MSG_MATCH_CANCEL_RESP
  else if id =? MSG_RANK_REQ then Some MSG_RANK_RESP
  else None.
Definition response_ids : list Z :=
  [MSG_LOGIN_RESP; MSG_HEARTBEAT_RESP; MSG_RECONNECT_RESP; MSG_LEAVE_ROOM_RESP; MSG_MATCH_RESP;
   MSG_MATCH_CANCEL_RESP; MSG_RANK_RESP].

(** The requests [match_service.cpp] and [rank_service.cpp] return on without a
    response: those whose body does not parse. *)
Definition dropped (packet : Packet) : Prop :=
  (msg_id packet = MSG_MATCH_REQ /\ parse_match packet = None)
  \/ (msg_id packet = MSG_MATCH_CANCEL_REQ /\ parse_match_cancel packet = None)
  \/ (msg_id packet = MSG_RANK_REQ /\ parse_rank packet = None).

(** The packets with this id that wait to be sent on a connection. *)
Definition posted_with (id : Z) (c : TcpConnection) : list Packet :=
  filter (fun p => msg_id p = id) (posted_packets (tc_posted c)).

(** The connection of [s] and what it has of [id]. *)
Definition answered (s id : Z) (l : list Packet) (w : World) : Prop :=
  exists ss conn c, w_sessions w !! s = Some ss /\ conn_ ss = Some conn /\ w_conns w !! conn = Some c
    /\ posted_with id c = l.

Context (s id : Z).
#[local] Notation I := (answered s id).
#[local] Notation T := (fun _ : World => True).

Lemma posted_with_app p c :
  posted_with id (TcpConnection_Send p c) = posted_with id c ++ (if decide (msg_id p = id) then [p] else []).
Proof.
  unfold posted_with, TcpConnection_Send, posted_packets. cbn. rewrite omap_app, filter_app. cbn.
  unfold filter. cbn. by case_decide.
Qed.
Lemma posted_with_Close c : posted_with id (TcpConnection_Close c) = posted_with id c.
Proof. unfold posted_with, TcpConnection_Close, posted_packets. cbn. rewrite omap_app. cbn. by rewrite app_nil_r. Qed.

(** What does not touch it. *)
Lemma answered_on_conn l s' f :
  (forall c, posted_with id (f c) = posted_with id c) -> inv T (I l) (on_conn s' f : M unit).
Proof.
  intros Hf. apply triple_writes. intros w Hw. destruct (_ ≫= _) as [conn'|]; [|exact Hw].
  destruct Hw as (ss & conn & c & Hs & Hc & Hl & Hp). destruct (decide (conn' = conn)) as [->|Hne].
  - exists ss, conn, (f c). cbn. rewrite lookup_alter_eq, Hl, Hf. done.
  - exists ss, conn, c. cbn. by rewrite lookup_alter_ne.
Qed.
Lemma answered_other l s' mid m : mid <> id -> inv T (I l) (Session_Send s' mid m : M unit).
Proof.
  intros Hne. apply answered_on_conn. intros c. rewrite posted_with_app, decide_False, app_nil_r; [done|]. exact Hne.
Qed.
Lemma answered_Close l s' : inv T (I l) (Session_Close s' : M unit).
Proof. apply answered_on_conn, posted_with_Close. Qed.
Lemma answered_on_session l s' f : (forall ss, conn_ (f ss) = conn_ ss) -> inv T (I l) (on_session s' f : M unit).
Proof.
  intros Hf. apply triple_writes. intros w (ss & conn & c & Hs & Hc & Hl & Hp).
  destruct (decide (s' = s)) as [->|Hne].
  - exists (f ss), conn, c. cbn. rewrite lookup_alter_eq, Hs, Hf. done.
  - exists ss, conn, c. cbn. by rewrite lookup_alter_ne.
Qed.
Lemma answered_SetRoomId l s' r : inv T (I l) (on_session s' (Session_SetRoomId r) : M unit).
Proof. by apply answered_on_session. Qed.
Lemma answered_BindPlayerId l s' p : inv T (I l) (on_session s' (Session_BindPlayerId p) : M unit).
Proof. by apply answered_on_session. Qed.
Lemma answered_Heartbeat l s' t : inv T (I l) (on_session s' (Session_UpdateHeartbeatTime t) : M unit).
Proof. by apply answered_on_session. Qed.
Lemma answered_mysql_call l {A} (f : MysqlConfig -> MysqlClient Srv -> result A * MysqlClient Srv) :
  inv T (I l) (mysql_call f : M A).
Proof. by apply inv_mysql_call. Qed.

(** What answers: from any state of the connection, one response more. *)
Definition answering {A} (h : M A) : Prop :=
  forall l, triple T (I l) h (fun _ w => exists m, I (l ++ [ProtoHelper_Build id m 0]) w).

Lemma answering_now m : answering (Session_Send s id m : M unit).
Proof.
  intros l. apply triple_writes. intros w (ss & conn & c & Hs & Hc & Hl & <-). rewrite Hs. cbn. rewrite Hc.
  exists m, ss, conn, (TcpConnection_Send (ProtoHelper_Build id m 0) c).
  split_and!; [exact Hs|exact Hc|cbn; by rewrite lookup_alter_eq, Hl|]. by rewrite posted_with_app, decide_True.
Qed.
Lemma answering_after {A B} (m : M A) (f : A -> M B) :
  (forall l, inv T (I l) m) -> (forall a, answering (f a)) -> answering (m ≫= f).
Proof. intros Hm Hf l. eapply triple_bind; [apply Hm|]. intros a. apply Hf. Qed.
Lemma answering_before {A B} (m : M A) (f : A -> M B) :
  answering m -> (forall a l, inv T (I l) (f a)) -> answering (m ≫= f).
Proof.
  intros Hm Hf l. eapply triple_bind; [apply Hm|]. intros a w [x Hx]. specialize (Hf a _ w Hx).
  destruct (f a w) as [[b|e] w']; [by exists x|done].
Qed.
End answers.

#[local] Hint Resolve answered_Close answered_SetRoomId answered_BindPlayerId answered_Heartbeat answered_mysql_call : keeps.
#[local] Hint Extern 1 (inv _ (answered _ _ _) (Session_Send _ _ _)) => apply answered_other; discriminate : keeps.

Ltac answer_step :=
  lazymatch goal with
  | |- answering _ _ (mbind _ _) =>
    first [ apply answering_after; [intros; solve [keeps_tac]|intros] | apply answering_before; [|intros; solve [keeps_tac]] ]
  | |- answering _ _ (Session_Send _ _ _) => apply answering_now
  | |- answering _ _ (match _ with _ => _ end) => case_match
  | |- answering _ _ ?m => unfold_head m
  end.
Ltac answer_tac := repeat answer_step; try congruence.

Section handlers.
Context {Srv Rds : Type} {MA : MysqlApi Srv} {RA : RedisApi Rds} {PB : Protobuf}.
Notation World := (World Srv Rds).
Notation M := (M Srv Rds).

Lemma Login_answers s p : answering s MSG_LOGIN_RESP (HandleLogin (Some s) p : M unit).
Proof. answer_tac. Qed.
Lemma Heartbeat_answers s p : answering s MSG_HEARTBEAT_RESP (HandleHeartbeat (Some s) p : M unit).
Proof. answer_tac. Qed.
Lemma Reconnect_answers s p : answering s MSG_RECONNECT_RESP (HandleReconnect (Some s) p : M unit).
Proof. answer_tac. Qed.
Lemma Leave_answers s p : answering s MSG_LEAVE_ROOM_RESP (HandleLeaveRoom (Some s) p : M unit).
Proof. answer_tac. Qed.
Lemma Match_answers s p : is_Some (parse_match p) -> answering s MSG_MATCH_RESP (HandleMatch (Some s) p : M unit).
Proof. intros [x Hx]. unfold HandleMatch. rewrite Hx. answer_tac. Qed.
Lemma Cancel_answers s p :
  is_Some (parse_match_cancel p) -> answering s MSG_MATCH_CANCEL_RESP (HandleCancelMatch (Some s) p : M unit).
Proof. intros [x Hx]. unfold HandleCancelMatch. rewrite Hx. answer_tac. Qed.

Lemma Rank_answers s p : is_Some (parse_rank p) -> answering s MSG_RANK_RESP (Rank_Handle (Some s) p : M unit).
Proof.
  intros [[offset limit] Hp] l. unfold Rank_Handle. apply triple_reads_bind. intros ctx. apply triple_reads_bind. intros config.
  apply triple_bind with (R := fun response w => answered s MSG_RANK_RESP l w /\ is_Some response).
  - intros w [[Hw _] _]. unfold with_redis. sections. unfold HandleRankRequest. rewrite Hp.
    destruct (GetTopN _ _ _ _ _) as [entries c]. split; [exact Hw|by eexists].
  - intros [m|]; [|by intros w [_ [? [=]]]]. eapply triple_pre; [apply answering_now|]. by intros w [].
Qed.

(** The requests that are dropped post nothing. *)
Lemma Rank_drops s l p : parse_rank p = None -> inv (fun _ => True) (answered s MSG_RANK_RESP l) (Rank_Handle (Some s) p : M unit).
Proof.
  intros Hp. unfold Rank_Handle. apply inv_bind; [apply inv_reads|]. intros ctx. apply inv_bind; [apply inv_reads|]. intros config.
  apply triple_bind with (R := fun response w => response = None /\ answered s MSG_RANK_RESP l w).
  - intros w Hw. unfold with_redis. sections. unfold HandleRankRequest. by rewrite Hp.
  - intros [m|]; [by intros w [[=] _]|]. by intros w [_ Hw].
Qed.

Lemma Dispatch_handler (P : (M unit) -> Prop) s p (h : Handler (proc := M)) :
  dispatcher (proc := M) !! msg_id p = Some h -> P (h (Some s) p) -> P (Dispatch dispatcher (Some s) p : M unit).
Proof. intros Hh HP. unfold Dispatch, Handler in *. by rewrite Hh. Qed.

Ltac find_handler H := eapply Dispatch_handler; [rewrite H; reflexivity|].
Ltac by_id := repeat match goal with
  | Hr : context [if ?n =? ?k then _ else _] |- _ => destruct (Z.eqb_spec n k) as [Heq|?]
  end.

Lemma Dispatch_answers s p id :
  response_of (msg_id p) = Some id -> ~ dropped p -> answering s id (Dispatch dispatcher (Some s) p : M unit).
Proof.
  unfold response_of, dropped. intros Hr Hd.
  assert (Hp : forall A (o : option A), o <> None -> is_Some o) by (intros A [a|] ?; [by eexists|done]).
  by_id; [..|discriminate Hr]; injection Hr as <-; find_handler Heq.
  - apply Login_answers.
  - apply Heartbeat_answers.
  - apply Reconnect_answers.
  - apply Leave_answers.
  - apply Match_answers, Hp. intros Hn. apply Hd. by left.
  - apply Cancel_answers, Hp. intros Hn. apply Hd. by right; left.
  - apply Rank_answers, Hp. intros Hn. apply Hd. by right; right.
Qed.

Lemma Dispatch_drops s p id l :
  response_of (msg_id p) = Some id -> dropped p ->
  inv (fun _ => True) (answered s id l) (Dispatch dispatcher (Some s) p : M unit).
Proof.
  intros Hr [[Hid Hp]|[[Hid Hp]|[Hid Hp]]]; rewrite Hid in Hr; injection Hr as <-;
    (eapply (Dispatch_handler (fun m => inv _ _ m)); [rewrite Hid; reflexivity|]).
  - unfold HandleMatch. rewrite Hp. apply inv_ret.
  - unfold HandleCancelMatch. rewrite Hp. apply inv_ret.
  - by apply Rank_drops.
Qed.

(** READY, INPUT and unknown ids get no response. *)
Lemma Dispatch_silent s p id l :
  response_of (msg_id p) = None -> id ∈ response_ids ->
  inv (fun _ => True) (answered s id l) (Dispatch dispatcher (Some s) p : M unit).
Proof.
  unfold response_of. intros Hr Hid. by_id; [discriminate Hr..|]. unfold Dispatch.
  destruct (dispatcher !! msg_id p) as [h|] eqn:Hh; [|apply inv_ret].
  assert (h = HandleReady \/ h = HandleInput) as Hor.
  { unfold dispatcher, Rank_RegisterHandlers, Room_RegisterHandlers, Match_RegisterHandlers,
      Login_RegisterHandlers, RegisterHandler, handlers in Hh.
    repeat (rewrite (lookup_insert (M := gmap Z)) in Hh; case_decide; [simplify_eq; first [congruence|by left|by right]|]).
    by rewrite (lookup_empty (M := gmap Z)) in Hh. }
  clear Hh. unfold response_ids in Hid. rewrite !elem_of_cons, elem_of_nil in Hid.
  destruct Hor as [-> | ->]; repeat (destruct Hid as [-> | Hid]; [keeps_tac|]); done.
Qed.

(** C12: On a session whose connection lives, when the handler of a packet returns,
    whatever branch it took: a request that has a response has been answered
    exactly once, after what waited on the connection, except that a match, cancel
    or ranking request whose body does not parse gets no answer at all; READY,
    INPUT and unknown messages get none of the responses. *)
Theorem requests_are_answered s ss conn c packet w w'
    (Hs : w_sessions w !! s = Some ss) (Hconn : conn_ ss = Some conn) (Hc : w_conns w !! conn = Some c)
    (Hrun : (Dispatch dispatcher (Some s) packet : M unit) w = (Ok tt, w')) :
  exists ss' conn' c', w_sessions w' !! s = Some ss' /\ conn_ ss' = Some conn' /\ w_conns w' !! conn' = Some c'
    /\ match response_of (msg_id packet) with
       | Some id =>
         (dropped packet -> posted_with id c' = posted_with id c)
         /\ (~ dropped packet -> exists m, posted_with id c' = posted_with id c ++ [ProtoHelper_Build id m 0])
       | None => forall id, id ∈ response_ids -> posted_with id c' = posted_with id c
       end.
Proof.
  assert (Hat : forall id, answered s id (posted_with id c) w) by (intros id; by exists ss, conn, c).
  assert (Hdrop : dropped packet \/ ~ dropped packet).
  { unfold dropped. destruct (decide (msg_id packet = MSG_MATCH_REQ)), (decide (msg_id packet = MSG_MATCH_CANCEL_REQ)),
      (decide (msg_id packet = MSG_RANK_REQ)), (parse_match packet), (parse_match_cancel packet), (parse_rank packet);
      naive_solver. }
  destruct (response_of (msg_id packet)) as [id|] eqn:Hid.
  - destruct Hdrop as [Hd|Hd].
    + pose proof (Dispatch_drops s packet id (posted_with id c) Hid Hd w (Hat id)) as H. rewrite Hrun in H.
      destruct H as (ss' & conn' & c' & H1 & H2 & H3 & H4). by exists ss', conn', c'.
    + pose proof (Dispatch_answers s packet id Hid Hd (posted_with id c) w (Hat id)) as H. rewrite Hrun in H.
      destruct H as (m & ss' & conn' & c' & H1 & H2 & H3 & H4). exists ss', conn', c'. split_and!; [done..|]. intros _. by exists m.
  - assert (H : forall id, id ∈ response_ids -> answered s id (posted_with id c) w').
    { intros id Hin. pose proof (Dispatch_silent s packet id (posted_with id c) Hid Hin w (Hat id)) as H. by rewrite Hrun in H. }
    destruct (H MSG_LOGIN_RESP ltac:(left)) as (ss' & conn' & c' & H1 & H2 & H3 & _). exists ss', conn', c'.
    split_and!; [done..|]. intros id Hin. destruct (H id Hin) as (ss2 & conn2 & c2 & H1' & H2' & H3' & <-). congruence.
Qed.
End handlers.

(** A first login on a fresh connection. *)
Definition fresh_world : ToyWorld := after [EClock 1000 10; EAccept true].
Definition first_login : Packet := ProtoHelper_Build MSG_LOGIN_REQ (LoginRequest "ann" "") 0.

Lemma requests_are_answered_witness :
  exists c' m, w_conns ((Dispatch dispatcher (Some 1) first_login : M ToySrv ToyRds unit) fresh_world).2 !! 1 = Some c'
    /\ posted_with MSG_LOGIN_RESP c' = [ProtoHelper_Build MSG_LOGIN_RESP m 0].
Proof.
  set (run := (Dispatch dispatcher (Some 1) first_login : M ToySrv ToyRds unit) fresh_world).
  assert (Hs : w_sessions fresh_world !! 1 = Some (mkSession 1 0 0 (Some 1) 1000)) by (vm_compute; reflexivity).
  assert (Hc : exists c, w_conns fresh_world !! 1 = Some c /\ posted_with MSG_LOGIN_RESP c = []).
  { exists (default (TcpConnection_new 1) (w_conns fresh_world !! 1)). vm_compute. split; reflexivity. }
  destruct Hc as (c & Hc & Hnone).
  destruct (requests_are_answered 1 _ 1 c first_login fresh_world run.2 Hs eq_refl Hc)
    as (ss' & conn' & c' & Hs' & Hconn' & Hc' & Hp).
  - apply pair_eta. vm_compute. reflexivity.
  - destruct Hp as [_ (m & Hp)]; [by intros [[? _]|[[? _]|[? _]]]|].
    assert (Hw : (conn_ <$> w_sessions run.2 !! 1) = Some (Some 1)) by (vm_compute; reflexivity).
    rewrite Hs' in Hw. cbn in Hw. rewrite Hconn' in Hw. injection Hw as ->.
    exists c', m. split; [exact Hc'|]. change (posted_with MSG_LOGIN_RESP c' = posted_with MSG_LOGIN_RESP c
      ++ [ProtoHelper_Build MSG_LOGIN_RESP m 0]) in Hp. rewrite Hp, Hnone. reflexivity.
Defined.
