(* ===== verification/Worker.v ===== *)
(** * Worker: the thread of the game loop and of the timers

    Models [GameLoop::Start], [Stop] and the outer [while] of [Loop]
    ([game/game_loop.cpp]) and the same methods of [TimerManager]
    ([timer/timer_manager.cpp]), which are written alike: an atomic flag
    [running_] and a [std::thread worker_].  What a round of the loop does is in
    [GameServer] ([Loop_round], [Timer_round]); here it is one state of the
    thread.

    Callers may be several threads, each in the middle of one method.  With a
    single caller, as in [GameServer::Start] and [Stop], there is never more than
    one thread and [Stop] returns when it has ended; with two callers a [Start]
    can overwrite a [worker_] that is still joinable, which ends the process. *)
From S2P Require Import Prelude.

(** Where the worker is: before the test of [running_], in a round or its sleep,
    or returned from [Loop]. *)
Inductive LoopPc := Testing | InRound | Ended.

(** Where a caller is: outside, in [Start] after [exchange] answered [false], or in
    [Stop] after it answered [true]. *)
Inductive CallerPc := Outside | Spawning | Joining.

Record Workers := mkWorkers {
  running_ : bool;
  worker_ : option nat;          (* the thread [worker_] stands for, when it is joinable *)
  loops : list LoopPc;           (* the threads created so far *)
  callers : list CallerPc;
  terminated : bool              (* std::terminate was called *)
}.

(** [n] callers and no worker yet. *)
Definition Workers_new (n : nat) : Workers := mkWorkers false None [] (replicate n Outside) false.

Definition set_caller (c : nat) (pc : CallerPc) (s : Workers) : Workers :=
  mkWorkers (running_ s) (worker_ s) (loops s) (<[c := pc]> (callers s)) (terminated s).
Definition set_loop (t : nat) (pc : LoopPc) (s : Workers) : Workers :=
  mkWorkers (running_ s) (worker_ s) (<[t := pc]> (loops s)) (callers s) (terminated s).
Definition set_running (b : bool) (s : Workers) : Workers :=
  mkWorkers b (worker_ s) (loops s) (callers s) (terminated s).

(** [worker_ = std::thread(...)]: the new thread runs at once; an assignment to a
    joinable [std::thread] terminates. *)
Definition spawn_worker (s : Workers) : Workers :=
  match worker_ s with
  | Some _ => mkWorkers (running_ s) (worker_ s) (loops s ++ [Testing]) (callers s) true
  | None => mkWorkers (running_ s) (Some (length (loops s))) (loops s ++ [Testing]) (callers s) (terminated s)
  end.
Definition worker_joined (s : Workers) : Workers :=
  mkWorkers (running_ s) None (loops s) (callers s) (terminated s).

(** One section of a caller or of a worker; nothing happens after a termination. *)
Inductive wstep (s : Workers) : Workers -> Prop :=
  (* running_.exchange(true) of Start *)
  | call_start c : terminated s = false -> callers s !! c = Some Outside -> running_ s = false ->
      wstep s (set_caller c Spawning (set_running true s))
  | call_start_again c : terminated s = false -> callers s !! c = Some Outside -> running_ s = true -> wstep s s
  | start_spawns c : terminated s = false -> callers s !! c = Some Spawning ->
      wstep s (set_caller c Outside (spawn_worker s))
  (* running_.exchange(false) of Stop *)
  | call_stop c : terminated s = false -> callers s !! c = Some Outside -> running_ s = true ->
      wstep s (set_caller c Joining (set_running false s))
  | call_stop_again c : terminated s = false -> callers s !! c = Some Outside -> running_ s = false -> wstep s s
  | stop_not_joinable c : terminated s = false -> callers s !! c = Some Joining -> worker_ s = None ->
      wstep s (set_caller c Outside s)
  | stop_joins c t : terminated s = false -> callers s !! c = Some Joining -> worker_ s = Some t ->
      loops s !! t = Some Ended -> wstep s (set_caller c Outside (worker_joined s))
  (* Loop *)
  | loop_round t : terminated s = false -> loops s !! t = Some Testing -> running_ s = true ->
      wstep s (set_loop t InRound s)
  | loop_returns t : terminated s = false -> loops s !! t = Some Testing -> running_ s = false ->
      wstep s (set_loop t Ended s)
  | loop_again t : terminated s = false -> loops s !! t = Some InRound -> wstep s (set_loop t Testing s).

(** What [n] callers can get to. *)
Definition wreachable (n : nat) : Workers -> Prop := rtc wstep (Workers_new n).

(** ** One caller *)

(** Every thread but the one of [worker_] has ended. *)
Definition only (o : option nat) (ls : list LoopPc) : Prop :=
  (forall t pc, ls !! t = Some pc -> o <> Some t -> pc = Ended)
  /\ forall t, o = Some t -> is_Some (ls !! t).

Record one_caller (s : Workers) : Prop := {
  oc_alive : terminated s = false;
  oc_only : only (worker_ s) (loops s);
  (** [running_] and [worker_] agree when the caller is outside. *)
  oc_caller : exists pc, callers s = [pc] /\
    match pc with
    | Outside => running_ s = true <-> is_Some (worker_ s)
    | Spawning => running_ s = true /\ worker_ s = None
    | Joining => running_ s = false /\ is_Some (worker_ s)
    end;
  (** The thread goes on as long as the flag is set. *)
  oc_runs t : worker_ s = Some t -> running_ s = true -> loops s !! t <> Some Ended
}.

Lemma only_insert o ls t pc pc' :
  ls !! t = Some pc -> pc <> Ended -> only o ls -> only o (<[t := pc']> ls).
Proof.
  intros Ht Hpc [H1 H2]. assert (o = Some t) as -> by (destruct (decide (o = Some t)); [done|by destruct Hpc; eapply H1]).
  split.
  - intros t' q. rewrite list_lookup_insert_Some. intros [(<- & _ & _)|[Hne Hq]]; [done|by eapply H1].
  - intros t' [= <-]. rewrite list_lookup_insert_eq; [done|]. by eapply lookup_lt_Some.
Qed.

Lemma only_spawn ls : only None ls -> only (Some (length ls)) (ls ++ [Testing]).
Proof.
  intros [H1 _]. split.
  - intros t pc [Ht|[Hle Ht]]%lookup_app_Some Hne; [by eapply H1|].
    apply list_lookup_singleton_Some in Ht as [Ht _]. destruct Hne. f_equal. lia.
  - intros t [= <-]. rewrite lookup_app_r, Nat.sub_diag by lia. by eexists.
Qed.

Lemma one_caller_new : one_caller (Workers_new 1).
Proof. split; [done|by split|exists Outside; split; [done|by split; [|intros []]]|done]. Qed.

(** A section of the thread keeps it. *)
Lemma one_caller_loop s t pc pc' :
  one_caller s -> loops s !! t = Some pc -> pc <> Ended -> (running_ s = true -> pc' <> Ended) ->
  one_caller (set_loop t pc' s).
Proof.
  intros [Ha Ho Hc Hr] Ht Hpc Hpc'. split; [done|by eapply only_insert|done|].
  intros t' Hw Hrun. cbn in *. rewrite list_lookup_insert. case_decide as Hd; [|by apply Hr].
  specialize (Hpc' Hrun). congruence.
Qed.

Lemma one_caller_step s s' : one_caller s -> wstep s s' -> one_caller s'.
Proof.
  intros Hs Hstep. pose proof Hs as [Ha Ho (pc & Hc & Hm) Hr].
  assert (Hpc : forall c q, callers s !! c = Some q -> c = 0%nat /\ q = pc).
  { intros c q. rewrite Hc. by intros [-> ->]%list_lookup_singleton_Some. }
  destruct Hstep as [c _ Hq Hrun|c _ Hq Hrun|c _ Hq|c _ Hq Hrun|c _ Hq Hrun|c _ Hq Hw|c t _ Hq Hw Ht|t _ Ht Hrun|t _ Ht Hrun|t _ Ht].
  all: try (destruct (Hpc _ _ Hq) as [-> <-]; clear Hpc Hq).
  - assert (Hw : worker_ s = None) by (apply eq_None_not_Some; rewrite <- Hm; congruence).
    split; [done|done| |cbn; congruence]. exists Spawning. cbn. by rewrite Hc.
  - done.
  - destruct Hm as [Hrun Hw]. unfold spawn_worker. rewrite Hw in Ho |- *. split; [done|by apply only_spawn|..].
    + exists Outside. cbn. rewrite Hc. split; [done|]. split; [by eexists|done].
    + cbn. intros t [= <-] _. by rewrite lookup_app_r, Nat.sub_diag by lia.
  - split; [done|done| |done]. exists Joining. cbn. rewrite Hc. split; [done|]. split; [done|by apply Hm].
  - done.
  - destruct Hm as [_ [t Ht]]. congruence.
  - destruct Hm as [Hrun _]. destruct Ho as [Ho _]. split; [done| | |done].
    + split; [|done]. cbn. intros t' q Hq _. destruct (decide (t' = t)) as [->|Hne]; [congruence|].
      eapply Ho; [exact Hq|congruence].
    + exists Outside. cbn. rewrite Hc, Hrun. split; [done|]. split; [done|by intros []].
  - by eapply one_caller_loop.
  - by eapply one_caller_loop; [..|congruence].
  - by eapply one_caller_loop.
Qed.

Lemma one_caller_reachable s : wreachable 1 s -> one_caller s.
Proof.
  unfold wreachable. revert s. apply (rtc_ind_r (fun s => one_caller s)); [apply one_caller_new|].
  intros s1 s2 _ Hs Hi. by eapply one_caller_step.
Qed.

(** C34: With one caller the process is never terminated and at most one thread
    has not ended.  When the caller is outside, [running_] says whether there is
    one; so once [Stop] has returned every thread has ended, no round runs until
    the next [Start], and [worker_] may be destroyed. *)
Theorem one_worker s (Hs : wreachable 1 s) :
  terminated s = false
  /\ (forall t t' pc pc', loops s !! t = Some pc -> loops s !! t' = Some pc' -> pc <> Ended -> pc' <> Ended -> t = t')
  /\ (callers s = [Outside] ->
        if running_ s then exists t pc, worker_ s = Some t /\ loops s !! t = Some pc /\ pc <> Ended
        else worker_ s = None /\ forall t pc, loops s !! t = Some pc -> pc = Ended).
Proof.
  destruct (one_caller_reachable s Hs) as [Ha [Ho Hin] (pc & Hc & Hm) Hr]. split_and!; [done|..].
  - intros t t' q q' Ht Ht' Hq Hq'.
    assert (Hl : forall u r, loops s !! u = Some r -> r <> Ended -> worker_ s = Some u).
    { intros u r Hu Hne. destruct (decide (worker_ s = Some u)); [done|]. by destruct Hne; eapply Ho. }
    pose proof (Hl _ _ Ht Hq). pose proof (Hl _ _ Ht' Hq'). congruence.
  - intros Hout. assert (pc = Outside) as -> by congruence. destruct (running_ s) eqn:Hrun.
    + destruct (proj1 Hm eq_refl) as [t Ht]. destruct (Hin _ Ht) as [q Hq]. exists t, q.
      split_and!; [done|done|]. intros ->. by apply (Hr t).
    + assert (Hw : worker_ s = None) by (apply eq_None_not_Some; rewrite <- Hm; done).
      split; [done|]. intros t q Hq. eapply Ho; [exact Hq|by rewrite Hw].
Qed.

(** ** [Stop] returns *)
(** How far a thread is from its end when nobody sets the flag again. *)
Definition to_go (pc : LoopPc) : nat := match pc with InRound => 2 | Testing => 1 | Ended => 0 end.
Definition steps_left (s : Workers) : nat :=
  match worker_ s ≫= (fun t => loops s !! t) with Some pc => to_go pc | None => 0 end.

(** C35: A caller in [Stop] waits for at most two sections of the worker, the end of
    its round and its look at the flag: each step of the process is one of them
    or the return of [Stop], and one of the two is possible. *)
Theorem Stop_returns s (Hs : wreachable 1 s) (Hstop : callers s = [Joining]) :
  (steps_left s <= 2)%nat
  /\ (exists s', wstep s s')
  /\ forall s', wstep s s' ->
       callers s' = [Joining] /\ (steps_left s' < steps_left s)%nat
       \/ callers s' = [Outside] /\ running_ s' = false /\ worker_ s' = None.
Proof.
  destruct (one_caller_reachable s Hs) as [Ha [Ho Hin] (pc & Hc & Hm) Hr].
  assert (pc = Joining) as -> by congruence. destruct Hm as [Hrun [t Hw]]. destruct (Hin _ Hw) as [q Hq].
  assert (Hleft : steps_left s = to_go q) by (unfold steps_left; by rewrite Hw; cbn; rewrite Hq).
  assert (Hcall : callers s !! 0%nat = Some Joining) by by rewrite Hc.
  split_and!.
  - rewrite Hleft. destruct q; cbn; lia.
  - destruct q.
    + eexists. by eapply loop_returns.
    + eexists. by eapply loop_again.
    + eexists. by eapply (stop_joins s 0 t).
  - assert (Hgo : forall u q', loops s !! u = Some q' -> q' <> Ended -> forall pc',
      (to_go pc' < to_go q')%nat -> callers (set_loop u pc' s) = [Joining] /\ (steps_left (set_loop u pc' s) < steps_left s)%nat).
    { intros u q' Hu Hne pc' Hlt. split; [done|]. assert (u = t) as ->.
      { destruct (decide (worker_ s = Some u)); [congruence|]. by destruct Hne; eapply Ho. }
      rewrite Hleft. assert (q' = q) as -> by congruence. unfold steps_left. cbn. rewrite Hw. cbn.
      rewrite list_lookup_insert_eq; [done|]. by eapply lookup_lt_Some. }
    intros s' Hstep.
    destruct Hstep as [c _ Hq' _|c _ Hq' _|c _ Hq'|c _ Hq' _|c _ Hq' _|c _ Hq' Hw'|c t' _ Hq' Hw' Ht|u _ Ht Hr'|u _ Ht _|u _ Ht].
    all: try (rewrite Hc in Hq'; apply list_lookup_singleton_Some in Hq' as [-> Hq']; try discriminate Hq').
    + congruence.
    + right. cbn. by rewrite Hc, Hrun.
    + congruence.
    + left. eapply Hgo; [exact Ht|done|cbn; lia].
    + left. eapply Hgo; [exact Ht|done|cbn; lia].
Qed.

(** ** Two callers *)
(** One is in [Stop], waiting for the thread; the other calls [Start]. *)
Lemma two_callers_terminate : exists s, wreachable 2 s /\ terminated s = true.
Proof.
  eexists. split.
  - eapply rtc_l; [by apply (call_start _ 0)|]. cbn.
    eapply rtc_l; [by apply (start_spawns _ 0)|]. cbn.
    eapply rtc_l; [by apply (call_stop _ 0)|]. cbn.
    eapply rtc_l; [by apply (call_start _ 1)|]. cbn.
    eapply rtc_l; [by apply (start_spawns _ 1)|]. apply rtc_refl.
  - done.
Qed.

(** A thread started, run for a round, and stopped. *)
Definition stopping : Workers := mkWorkers false (Some 0%nat) [InRound] [Joining] false.
Lemma stopping_reachable : wreachable 1 stopping.
Proof.
  eapply rtc_l; [by apply (call_start _ 0)|]. cbn.
  eapply rtc_l; [by apply (start_spawns _ 0)|]. cbn.
  eapply rtc_l; [by apply (loop_round _ 0)|]. cbn.
  eapply rtc_l; [by apply (call_stop _ 0)|]. apply rtc_refl.
Qed.

Lemma one_worker_witness : terminated stopping = false.
Proof. apply (one_worker stopping stopping_reachable). Defined.
Lemma Stop_returns_witness : exists s', wstep stopping s'.
Proof. destruct (Stop_returns stopping stopping_reachable eq_refl) as (_ & H & _). exact H. Defined.
