(* ===== verification/BotWitness.v ===== *)
(** * BotWitness: the theorems on the bots at concrete runs

    A bot connects, logs in, matches, plays, drops its connection and comes
    back, over [ToyProto]; the program runs two bots for three seconds. *)
From S2P Require Import Prelude Wire StdString Messages Mysql Redis World GameServer ToyMysql Settlement Store ToyProto StoreWitness ServerWitness Bot BotMain BotReason BotInv BotProtocol BotProgram.
Local Open Scope string_scope.
Local Open Scope Z_scope.

(** Random numbers: [r] drawn first, zeros after it. *)
Definition draws (rs : list Z) : Inputs := mkInputs rs [] [] 0.
Definition quiet_in : Inputs := draws [].

(** A packet of the server, as the bot reads it. *)
Definition reply (id : Z) (m : Message) : BotEvent := EvRead 0 (Some (frame (ProtoHelper_Build id m 0))).

Definition bot0 : BotClient := BotClient_new "127.0.0.1" 9000 0 BotOptions_default (Some BotStats_zero).

(** Connected, logged in, with the request to match written. *)
Definition login_events : list (BotEvent * Inputs) :=
  [ (EvConnect 0 true, quiet_in); (EvTask, quiet_in); (EvWrite 0 true, quiet_in);
    (reply MSG_LOGIN_RESP (LoginResponse 0 7 "bot" "tok"), quiet_in);
    (EvTimer 1, quiet_in); (EvTask, quiet_in); (EvWrite 0 true, quiet_in) ].

(** In a room that plays; the draw of the second decides to drop the connection,
    the timer of the first input is late and the bot is back in its room. *)
Definition play_events : list (BotEvent * Inputs) :=
  [ (reply MSG_MATCH_SUCCESS_NOTIFY (MatchSuccessNotify 1000 []), draws [99]);
    (reply MSG_ROOM_STATE_NOTIFY (RoomStateNotify 1000 2 []), draws [0; 0; 0; 0]) ].
Definition drop_events : list (BotEvent * Inputs) :=
  [ (EvTimer 3, quiet_in); (EvTimer 3, quiet_in); (EvConnect 0 true, quiet_in);
    (EvRead 0 None, quiet_in);
    (reply MSG_RECONNECT_RESP (ReconnectResponse 0 1000), draws [99]) ].

Definition bot_after (es : list (BotEvent * Inputs)) : BotClient :=
  match bot_trace bot0 quiet_in es with Done _ b _ => b | _ => bot0 end.

Definition all_events : list (BotEvent * Inputs) := login_events ++ play_events ++ drop_events.

Lemma default_ok : options_ok BotOptions_default.
Proof. repeat split; vm_compute; discriminate. Qed.

Lemma all_run : bot_trace bot0 quiet_in all_events = Done tt (bot_after all_events) no_inputs.
Proof. vm_compute. reflexivity. Qed.

(** With a late timer the loop of inputs of before the reconnection goes on, next
    to the one the reconnection starts. *)
Lemma two_input_loops :
  b_input_loop_active (bot_after all_events) = true
  /\ length (List.filter (fun t => match t.2 with CbSendInput => true | _ => false end)
       (b_timers (bot_after all_events))) = 2%nat.
Proof. vm_compute. split; reflexivity. Qed.

(** The connection is dropped while an input is being written: the write is still
    pending and its buffer is gone; then the bot connects again and logs in, with the
    old write still pending next to the new one. *)
Definition freed_events : list (BotEvent * Inputs) :=
  login_events ++ play_events ++ [(EvTimer 2, quiet_in); (EvTask, quiet_in); (EvTimer 2, quiet_in)].
Definition again_events : list (BotEvent * Inputs) :=
  freed_events ++ [(EvTimer 3, quiet_in); (EvConnect 0 true, quiet_in); (EvTask, quiet_in); (EvTask, quiet_in)].
Lemma write_outlives_its_buffer :
  b_writing (bot_after freed_events) = [0] /\ freed_writes (bot_after freed_events) = [0]
  /\ b_writing (bot_after again_events) = [0; 1] /\ freed_writes (bot_after again_events) = [0].
Proof. vm_compute. repeat split. Qed.

Lemma freed_run : bot_trace bot0 quiet_in freed_events = Done tt (bot_after freed_events) no_inputs.
Proof. vm_compute. reflexivity. Qed.

(** A negative [--count] and a value that is no number end the process. *)
Lemma negative_count_terminates (fuel : nat) (program : string) :
  main (fun _ => true) (fun _ => []) (fun _ => []) fuel program ["--count"; "-1"] quiet_in = Some (Terminate length_error).
Proof. reflexivity. Qed.
Lemma bad_number_terminates (fuel : nat) (program : string) :
  main (fun _ => true) (fun _ => []) (fun _ => []) fuel program ["--port"; "http"] quiet_in = Some (Terminate invalid_argument).
Proof. reflexivity. Qed.

(** ** Witnesses *)
Lemma one_connection_witness :
  freed_writes (bot_after freed_events) = [0] /\ 0 ∉ b_open (bot_after freed_events)
  /\ 0 <= b_reconnect_count (bot_after freed_events) <= 2.
Proof.
  destruct (one_connection "127.0.0.1" 9000 0 BotOptions_default (Some BotStats_zero) quiet_in freed_events
    (bot_after freed_events) no_inputs default_ok freed_run) as (_ & _ & _ & _ & _ & Hw & Hr).
  split; [vm_compute; reflexivity|]. split.
  - refine (proj2 (Hw 0 _ _)); [|vm_compute; discriminate].
    replace (b_writing (bot_after freed_events)) with [0] by (vm_compute; reflexivity). left.
  - replace (Z.max 0 (max_reconnects (b_options (bot_after freed_events)))) with 2 in Hr by (vm_compute; reflexivity).
    exact Hr.
Defined.

(** The login and the request to match have been written on the first socket. *)
Lemma bots_speak_the_protocol_witness :
  written 0 (bot_after all_events) <> []
  /\ exists ps, Decode (written 0 (bot_after all_events)) = Some (Ok ps, [])
     /\ Forall (understood (Srv := ToySrv) (Rds := ToyRds)) ps.
Proof.
  split; [vm_compute; discriminate|].
  exact (bots_speak_the_protocol 0 "127.0.0.1" 9000 BotOptions_default (Some BotStats_zero) quiet_in all_events
    (bot_after all_events) no_inputs 0 all_run).
Defined.

(** Two bots for three seconds; the first connects and logs in meanwhile. *)
Definition wit_args : list string := ["--count"; "2"; "--duration"; "3"].
Definition wit_parsed : Args := mkArgs "127.0.0.1" 9000 2 3 BotOptions_default.
Definition wit_world (second : Z) : list (nat * BotEvent) :=
  if second =? 1 then [(0%nat, EvConnect 0 true); (0%nat, EvTask); (1%nat, EvConnect 0 false)] else [].

(** While the first is being stopped its posted close runs, and the second fails to
    connect. *)
Definition wit_meanwhile (k : nat) : list (nat * BotEvent) :=
  if (k =? 0)%nat then [(0%nat, EvTask); (0%nat, EvTask); (1%nat, EvTimer 0)] else [].

Lemma no_overflow_range_or_pop_witness :
  main (fun _ => true) wit_world wit_meanwhile 4 "bot" wit_args quiet_in <> Some NoMeaning.
Proof.
  apply (no_overflow_range_or_pop (fun _ => true) wit_world wit_meanwhile 4 "bot" wit_args quiet_in wit_parsed);
    [vm_compute; reflexivity|exact default_ok].
Defined.

Lemma main_terminates_witness :
  exists cout, main (fun _ => true) wit_world wit_meanwhile 4 "bot" wit_args quiet_in = Some (Exit 0 cout [])
  /\ length cout = 5%nat.
Proof.
  destruct (main_terminates (fun _ => true) wit_world wit_meanwhile 3 4 "bot" wit_args quiet_in wit_parsed) as (r & Hr & Hexit).
  - vm_compute. reflexivity.
  - intros k Hk. unfold goes_on. cbn. apply Z.ltb_lt. lia.
  - vm_compute. reflexivity.
  - lia.
  - destruct r as [code cout cerr| |];
      [|exfalso; revert Hr; vm_compute; discriminate|exfalso; revert Hr; vm_compute; discriminate].
    destruct (Hexit code cout cerr eq_refl) as (-> & Hl & ->). exists cout. split; [exact Hr|]. lia.
Defined.

Lemma parse_render_witness :
  parse_args (render wit_parsed) Args_default = Run wit_parsed.
Proof.
  apply (parse_render wit_parsed Args_default); [|vm_compute; reflexivity].
  constructor; [cbn; lia|]. repeat constructor; vm_compute; discriminate.
Defined.
