(* ===== verification/SystemWitness.v ===== *)
(** * SystemWitness: a bot and the server, over a network that cuts the stream

    A bot connects and logs in.  Its request reaches the server in two pieces, the
    first while the write of the bot is still under way; so does the response. *)
From S2P Require Import Prelude Wire Net StdString Messages GameRoom MatchQueue Config Registry Room Mysql Repositories SqlModel ToyMysql BattleStore Ledger Redis Settlement Store Timer World Reason Lobby Login GameServer Threads Alone Conform Interleave InterleaveHandlers Server Interleaved ToyProto StoreWitness ServerWitness Races Bot BotReason BotInv BotProtocol BotWitness System Serving EndToEnd.
Local Open Scope string_scope.
Local Open Scope list_scope.
Local Open Scope Z_scope.

Notation ToySystem := (@System ToySrv ToyRds).

Definition bot1 : BotClient := match BotClient_Start bot0 quiet_in with Done _ b _ => b | _ => bot0 end.
Definition system0 : ToySystem := mkSystem (mkProcess world0 ∅) {[0%nat := bot1]} ∅.
Definition system_after (ms : list Move) : ToySystem := default system0 (smoves system0 ms).
Definition runs_moves (ms : list Move) : bool := match smoves system0 ms with Some _ => true | None => false end.

Lemma system0_started : system_started default_config toy_srv toy_rds system0.
Proof.
  split; [exists world0; split; [exact world0_started|reflexivity]|]. split; [reflexivity|].
  intros k b Hk. apply (lookup_singleton_Some 0%nat k bot1 b) in Hk as [<- <-]. exists "127.0.0.1", 9000, 0, BotOptions_default, (Some BotStats_zero), quiet_in.
  eexists. vm_compute. reflexivity.
Qed.

Lemma system_reachable ms : runs_moves ms = true -> sreachable default_config toy_srv toy_rds (system_after ms).
Proof.
  unfold runs_moves, system_after. intros H. exists system0, ms. split; [exact system0_started|]. by destruct (smoves _ _).
Qed.

(** The handlers of the server go on until they have returned. *)
Definition serve (t : Thread) : list Move := MServer <$> go t 60.

Definition login_frame : bytes := frame (ProtoHelper_Build MSG_LOGIN_REQ (LoginRequest "bot_0" "bot_token") 1).
Definition request_sent : list Move :=
  [MConnect 0 0] ++ serve TAccept ++ [MBot 0 (EvConnect 0 true) quiet_in; MBot 0 EvTask quiet_in]
  ++ [MTakeUp 1 (take 20 login_frame); MGiveUp 1 (take 5 login_frame)] ++ serve (TConn 1)
  ++ [MBot 0 (EvWrite 0 true) quiet_in; MTakeUp 1 (drop 20 login_frame)].
Definition request_read : list Move :=
  request_sent ++ [MGiveUp 1 (drop 5 login_frame)] ++ serve (TConn 1)
  ++ [MServer (Begin (ERunPosted 1))] ++ serve (TConn 1).
Definition response_wire : bytes :=
  default [] (conn_wire <$> w_conns (c_world (s_server (system_after request_read))) !! 1).
Definition response_coming : list Move :=
  request_read ++ [MTakeDown 1 (take 2000 response_wire); MGiveDown 1 0 (take 9 response_wire) quiet_in;
                   MServer (Begin (EWritten 1))] ++ serve (TConn 1) ++ [MTakeDown 1 (drop 2000 response_wire)].
Definition logged_in : list Move := response_coming ++ [MGiveDown 1 0 (drop 9 response_wire) quiet_in].

(** The run goes through: the player the server made is the player of the bot. *)
Lemma logged_in_runs :
  runs_moves logged_in = true
  /\ (b_player_id <$> s_bots (system_after logged_in) !! 0%nat) = Some 100000
  /\ (player_id_ <$> w_sessions (c_world (s_server (system_after logged_in))) !! 1) = Some 100000
  /\ (b_read_buffer <$> s_bots (system_after logged_in) !! 0%nat) = Some [].
Proof. vm_compute. done. Qed.

(** With the request half read, and with the response half read. *)
Lemma no_malformed_packets_witness :
  (exists c ps c', w_conns (c_world (s_server (system_after request_sent))) !! 1 = Some c
    /\ tc_read_buffer c = take 5 login_frame /\ Net.on_read (drop 5 login_frame) c = Some (Ok ps, c')
    /\ Forall (understood (Srv := ToySrv) (Rds := ToyRds)) ps)
  /\ (exists b ps rest, s_bots (system_after response_coming) !! 0%nat = Some b
    /\ b_read_buffer b = take 9 response_wire
    /\ Decode (b_read_buffer b ++ drop 9 response_wire) = Some (Ok ps, rest) /\ Forall readable ps).
Proof.
  split.
  - destruct (s_links (system_after request_sent) !! 1) as [l|] eqn:Hl; [|exfalso; revert Hl; vm_compute; discriminate].
    destruct (w_conns (c_world (s_server (system_after request_sent))) !! 1) as [c|] eqn:Hc;
      [|exfalso; revert Hc; vm_compute; discriminate].
    assert (Hbuf : (tc_read_buffer <$> w_conns (c_world (s_server (system_after request_sent))) !! 1)
              = Some (take 5 login_frame)) by (vm_compute; reflexivity).
    assert (Htaken : (fun l => (l_up l, l_taken_up l)) <$> s_links (system_after request_sent) !! 1
              = Some (take 5 login_frame, login_frame)) by (vm_compute; reflexivity).
    assert (Hth : c_threads (s_server (system_after request_sent)) !! TConn 1 = None) by (vm_compute; reflexivity).
    rewrite Hc in Hbuf. apply (inj Some) in Hbuf. rewrite Hl in Htaken. apply (inj Some) in Htaken.
    assert (Hup : l_up l = take 5 login_frame) by exact (f_equal fst Htaken).
    assert (Hall : l_taken_up l = login_frame) by exact (f_equal snd Htaken).
    destruct (no_malformed_packets default_config toy_srv toy_rds (system_after request_sent) 1 l) as (_ & _ & H & _);
      [apply system_reachable; vm_compute; reflexivity|exact Hl|].
    destruct (H (drop 5 login_frame) c) as (ps & c' & Hd & Hps); [|exact Hth|exact Hc|].
    { rewrite Hup, Hall, take_drop. reflexivity. }
    exists c, ps, c'. split; [reflexivity|]. split; [exact Hbuf|]. split; [exact Hd|exact Hps].
  - destruct (s_links (system_after response_coming) !! 1) as [l|] eqn:Hl; [|exfalso; revert Hl; vm_compute; discriminate].
    destruct (s_bots (system_after response_coming) !! 0%nat) as [b|] eqn:Hb; [|exfalso; revert Hb; vm_compute; discriminate].
    assert (Hbot : (fun b => (b_read_buffer b, b_running b, b_socket b)) <$> s_bots (system_after response_coming) !! 0%nat
              = Some (take 9 response_wire, true, Some 0)) by (vm_compute; reflexivity).
    assert (Htaken : (fun l => (l_down l, l_taken_down l, l_bot l, l_socket l)) <$> s_links (system_after response_coming) !! 1
              = Some (take 9 response_wire, response_wire, 0%nat, 0)) by (vm_compute; reflexivity).
    rewrite Hb in Hbot. apply (inj Some) in Hbot. rewrite Hl in Htaken. apply (inj Some) in Htaken.
    assert (Hbuf : b_read_buffer b = take 9 response_wire) by exact (f_equal (fun x => x.1.1) Hbot).
    assert (Hdn : l_down l = take 9 response_wire) by exact (f_equal (fun x => x.1.1.1) Htaken).
    assert (Hall : l_taken_down l = response_wire) by exact (f_equal (fun x => x.1.1.2) Htaken).
    destruct (no_malformed_packets default_config toy_srv toy_rds (system_after response_coming) 1 l) as (_ & _ & _ & H);
      [apply system_reachable; vm_compute; reflexivity|exact Hl|].
    destruct (H (drop 9 response_wire) b) as (ps & rest & Hd & Hps); [| | | |].
    2: { replace (l_bot l) with 0%nat by exact (eq_sym (f_equal (fun x => x.1.2) Htaken)). exact Hb. }
    2: exact (f_equal (fun x => x.1.2) Hbot).
    2: { replace (l_socket l) with 0 by exact (eq_sym (f_equal snd Htaken)). exact (f_equal snd Hbot). }
    { rewrite Hdn, Hall, take_drop. reflexivity. }
    exists b, ps, rest. split; [reflexivity|]. split; [exact Hbuf|]. split; [exact Hd|exact Hps].
Defined.
