(* ===== verification/Findings.v ===== *)
(** * Findings: runs of the server that are not what the code means to do

    Concrete runs, on the same libraries as [ServerWitness], of behaviours the
    code does not guard against. *)
From S2P Require Import Prelude Wire Net StdString Float32 Messages GameRoom MatchQueue Config Registry Room Mysql Repositories ToyMysql Redis Settlement Store Timer World Lobby Login GameServer ToyProto StoreWitness ServerWitness.
Local Open Scope string_scope.
Local Open Scope Z_scope.

(** Ann and Bob are in room 1000 when Ann asks for a match again: with Carol she
    gets room 1001, and when Bob leaves the old room, [RemoveRoom] erases Ann's
    entry of the new one: she is a member of a listed room she is not mapped to. *)
Definition match_again_events : list Event :=
  lobby_events ++
  [ EAccept true; req 3 MSG_LOGIN_REQ (LoginRequest "carol" "");
    req 1 MSG_MATCH_REQ (MatchRequest 0); req 3 MSG_MATCH_REQ (MatchRequest 0);
    req 2 MSG_LEAVE_ROOM_REQ (LeaveRoomRequest 0) ].

Lemma match_in_a_room_loses_the_new_one :
  w_rooms (after match_again_events) !! 1001 = Some 1001
  /\ (Room_PlayerIds <$> w_room_heap (after match_again_events) !! 1001) = Some [100002; 100000]
  /\ w_player_room_map (after match_again_events) !! 100000 = None.
Proof. vm_compute. repeat split; reflexivity. Qed.

(** A second login on one session binds it to the new player only, and its close
    erases only that one: the first player stays bound to a closed session. *)
Definition relogin_events : list Event :=
  [ EClock 1000 10; EAccept true;
    req 1 MSG_LOGIN_REQ (LoginRequest "ann" ""); req 1 MSG_LOGIN_REQ (LoginRequest "bob" "");
    EReadError 1; ERunPosted 1; ERunPosted 1; ERunPosted 1 ].

Lemma relogin_leaves_a_stale_session :
  cm_sessions (w_cm (after relogin_events)) !! 1 = None
  /\ cm_player_sessions (w_cm (after relogin_events)) !! 100001 = None
  /\ cm_player_sessions (w_cm (after relogin_events)) !! 100000 = Some 1.
Proof. vm_compute. repeat split; reflexivity. Qed.

(** An input names the player it moves; nothing ties it to the session. *)
Definition one_step_right (player_id : Z) : PlayerInput :=
  mkPlayerInput player_id 1 (f32_of_Z 1) (f32_of_Z 0) false.
Definition forged_events : list Event :=
  lobby_events ++ battle_events ++ [ req 1 MSG_INPUT_REQ (InputRequest (one_step_right 100001)); EClock 1100 100; ELoop ].

Definition x_of (player_id : Z) (w : ToyWorld) : option float32 :=
  g ← w_games w !! 0; e ← GameRoom.players g !! player_id; Some (e_x e).

Lemma input_moves_another_player :
  x_of 100001 battle_world = Some (f32_of_Z 0)
  /\ x_of 100001 (after forged_events) = Some (f32_add (f32_of_Z 0) (f32_mul (f32_of_Z 1) f32_0_6)).
Proof. vm_compute. split; reflexivity. Qed.

(** A player without a valid id is put in a room, which can never start: nobody can
    become ready as player -5. *)
Definition negative_id_events : list Event :=
  [ EClock 1000 10; EAccept true; EAccept true;
    req 1 MSG_LOGIN_REQ (LoginRequest "ann" "");
    req 2 MSG_MATCH_REQ (MatchRequest (-5)); req 1 MSG_MATCH_REQ (MatchRequest 0) ].

Lemma match_with_a_negative_id :
  (Room_PlayerIds <$> w_room_heap (after negative_id_events) !! 1000) = Some [-5; 100000].
Proof. vm_compute. reflexivity. Qed.
